(* ===== verification/_CoqProject ===== *)
-Q . S2P
Prelude.v
CLib.v
Arc4.v
Quid.v
QuidText.v
QuidClock.v
Base64.v
Sha1.v
Url.v
HttpUtil.v
Conn.v
Request.v
Stream.v
Server.v
Session.v
Rounds.v
Compat.v
LibtarList.v
LibtarHash.v
ParHeader.v
ParBlock.v
ParFile.v
ParExtract.v
ParAppend.v
ParHandle.v
ParArchive.v
ParUtil.v
CFile.v
Filepage.v
Crc32.v
Ring.v
Engine.v
DataIndex.v
Cynder.v
Master.v
Wal.v
Fnmatch.v
Config.v
Snprintf.v
SnprintfText.v
Ini.v
Getopt.v
ParMain.v
JobSha1.v
Pitch.v
Jobs.v
Runner.v
