(* ===== verification/Prelude.v ===== *)
(** * Mavicona: verification library

    Mavicona is a collection of C and C++ programs and libraries for data
    services.  This library models its C code and the core of its C++ programs
    as functions over explicit state and proves what makes each part correct.
    Every definition is translated from the sources under src/; memory is a
    list of bytes, a pointer an offset into it (or a location of a heap), and
    undefined behaviour is [None].  This first file holds the machine integers and the
    lemmas, hints and tactics all parts share.

    ** The parts and their files

    - src/quid: identifiers.  [Arc4] is arc4random.c (the ARC4 stream, its
      stirring and the public calls over one state record); [Quid] is quid.c,
      quid.h and itoa.c (clock, node and identifier formatting, printing,
      recognising, scanning); [QuidText] has the theorems on the text of an
      identifier, [QuidClock] those on its time stamp and on [itoa].
    - src/mumux: the HTTP and websocket server.  [Base64] is base64.c, [Sha1]
      sha.c, [Url] url.c; [HttpUtil] is util.c with the frame scanner of
      request.c; [Conn] is socket.c, connection.c, request.c and response.c in
      a monad over the connection, the memory and the kernel's scripted
      answers; [Server] is server.c (the connection table, accepting, the
      state machine of a connection, a round); [Rounds] shows when the loop of
      a connection returns.  The theorems on parsing a
      request are in [Request], those on sending and receiving in [Stream],
      and [Session] composes them: the bytes of a request in, the bytes of
      the page out, through [wby_update_connection].
    - src/compat: string and path functions the other parts call, in [Compat].
    - src/par: archives.  [LibtarList] and [LibtarHash] are libtar_list.c and
      libtar_hash.c on a heap of nodes; [ParHeader] is the header codec of
      util.c, decode.c and encode.c over the 512 bytes of struct
      par_file_header; [ParBlock] reads and writes header blocks (block.c) and
      holds the handle with its streams; [ParFile] is the contents of members
      (append.c, extract.c).  [ParExtract] is the extraction of members of every
      kind (extract.c, wrapper.c, the listing of list.c) over the handle and
      the table of extracted names; [ParAppend] appends files and trees
      (append.c, wrapper.c) over the tables of devices and inodes;
      [ParHandle] opens and closes (handle.c); [ParUtil] is the tool's create,
      list and extract (util/parutil.c) and [ParMain] its main, over the
      [getopt] of [Getopt].  [ParArchive] has the theorem on the tables and the
      lemmas on whole members, [ParUtil] the one on archives, [ParMain] the one
      from command lines to files.
      The list functions are used by the hash table, the hash table by the
      handle, [Compat.mkdirhier] and [Compat.compat_cdirname] by the
      extraction.

    - src/cynder with src/common: the distributed store.  [Filepage] is
      filepage.cpp, a file of items behind chained index blocks, over the
      streams of [CFile]; [Crc32] is crc32.h and sdbm_hash.h; [Ring] is
      consistent_hash.h; [Config] is config.h with the part of main that makes
      the ring of it.  [Engine] has the interfaces of the databases ([Database]
      and [Duplicates], two classes with instances over maps) and engine.cpp,
      the additional indexes and catalogus.h over them; [DataIndex] is
      filebase.h and data_index.cpp, which keeps small values in the database
      and large ones in pages; [Cynder] is a round of the worker's loop over
      all indexes of a node; [Master] a round of the master's, which takes the
      worker from the ring, with quidpp.h.  The page refines a map, the data
      index refines one with the page's refinement, the worker one with the
      data index's, and the master composes workers.
    - src/pitch: [Pitch] is the queue of tasks over its database (queue.h), the
      thread that fills it (pitcher.cpp) and the one that empties it
      (provision.cpp), as a step relation of both with restarts.
    - src/chella: [Jobs] is the master (chella.cpp, indexer.h,
      nodemanager.cpp), to which pitch sends its jobs, and what a worker runs a
      job with; [JobSha1] is the digest that names packages (sha1.cpp); [Wal]
      is the write-ahead log of a job (wal.h, wal.cpp); [Runner] runs a job
      (exec.cpp) in its home (localenv.cpp) with its log, and sends its subjobs
      (ace/chain.h) back to the master: a program whose every step may be the
      last, proved with crash conditions.
    - src/compat also has copies of C library functions: fnmatch.c is
      [Fnmatch]; snprintf.c is [Snprintf], the machine that reads a format over
      the list of its arguments and the operations of long double (a class,
      with an instance of rational numbers), with its theorems in
      [SnprintfText]; getopt.c is [Getopt], over the vector of arguments and
      the variables kept between calls.
    - src/scrape: [Ini] is the parser of its configuration files (ini.c) and
      the mail extension that is configured by it (imap_ext.c).

    [CLib] is what the sources use of the C library: formatting and scanning
    of numbers, [memcmp], [strcasecmp], byte order, stores into objects.

    ** What the theorems show

    Round trips: identifiers and their text, base64, websocket headers,
    chunked bodies, file headers, member paths, whole archives
    ([create_extract_roundtrip]: from the names to the system calls that make
    the files again; [command_line_roundtrip]: from the command lines),
    configuration files of both formats.  Refinement: the linked list and
    the hash table implement a sequence and a multiset, with failing
    allocations, the tables of an archive a map from files to names; file
    pages, the data index and cynder's worker each a map, the last from
    identifiers to records through inserting, updating, selecting and deleting
    queries as bytes.  Equivalence with a reference: both SHA-1s against the
    standard's text, whose schedule, constants and steps are defined apart from
    the code's ([Sha1.fips_hash]), the websocket header against RFC 6455,
    URL decoding against a decoder on lists, CRC-32 against the bitwise
    division, the matcher of file names against the language of its pattern, the
    printing of a format against what its directives mean, the calls of
    [getopt] against a parser of the whole command line, whose arguments they
    permute.  Invariants: the ARC4
    permutation, the connection table, the bytes a connection has pushed.
    Safety and bounds: the layout of the connection buffers, what is left of a
    member's name at its extraction (no component but the last goes up),
    buffers that are never left.
    The ring: only keys of a node that joins or leaves move, and a
    configuration that is accepted serves every identifier.  Recovery: which
    jobs are run again from their logs, closed or cut off by a crash, and what of
    them is; that no task is
    lost or left over between the two threads of pitch and its restarts
    ([tasks_survive]).  Order: tasks reach the workers once, the more urgent
    ones first ([urgent_jobs_first]), jobs in the order they came to the master
    ([jobs_in_order]), and the subjobs of a job to workers with its package
    ([subjobs_reach_workers]).  A run of a job: its order of calls, what its log
    and its lock are wherever it ends ([run_contract]).
    Errors: damaged archive headers, incomplete requests and frames, lines
    without a separator, command lines that ask for nothing.  Some theorems state what the code does where that is
    not what it means to do ([strtoquid_overflow], [wby_read_spins_at_eof],
    [compaction_shares_buffers], [removed_item_stays], [page_never_full],
    [duplicate_insert_replaces], [getMulti_stops_at_known],
    [copyMeta_last_entry], [fnmatch_leading_period], [fmtfp_misprints],
    [format_overrun], [ambiguous_w_overruns], [version_goes_on],
    [start_may_lose_runner], [queue_races], [ids_start_again],
    [recovery_waits], [dispose_missed], [nofork_keeps_chain],
    [value_cut_at_colon], [safer_name_suffix_parent],
    [damaged_first_byte_skipped], [lost_connection_spins]).

    ** Bounds and fuel

    Loops whose end depends on data take a number of rounds: the length of
    what they consume ([send_loop], [recv_loop], [suffix_loop],
    [extract_loop], [read_internal_loop]: every round but the last takes a
    byte, a component or a block), the number of nodes of the heap for the
    list walks, [MAXPATHLEN] components for [mkdirhier], 64 digits for a
    64-bit number.  The theorems show that these suffice: they state the
    result, not that a result would be right.  Two loops may not end:
    [wby_read_spins_at_eof] proves it of [wby_read] for every number of rounds.
    That of a connection, [update_loop], tells whether it has returned in the
    rounds it was given; [update_loop_returns] shows that some number is enough
    unless it comes to serve a dead connection, and [lost_connection_spins]
    that then no number may be.  The
    matcher of file names takes the length of its pattern.  The machine of
    formats takes the measure [Snprintf.rounds], which every step lowers: eight
    for each character and the states left to go through in front of it.  The
    exchange of arguments takes as many rounds as there are arguments in front
    of [optind], since each moves one end, and the tool's option loop one more
    than its command line has characters.  Positions in a
    page have 32 bits and its count 16: the theorems on pages, the data index
    and the worker ask for room for what is stored, and for identifiers of 36
    characters; a large value that is inserted a second time is left out of
    the refinement, as it replaces the first.

    ** Abstractions

    The kernel is a script: what each [recv], [send], [fcntl], [accept],
    [read] and [write] answers is part of the state, so theorems quantify over
    the answers; extraction records its system calls in order and asks a
    function of the calls so far.  User and group databases, the clock, the
    directory functions and the callbacks of the server are parameters.
    zlib's stream is a byte stream like a descriptor's.  upscaledb's databases
    are any that meet their interface, protobuf's codec any two functions of
    which one undoes the other (messages are countable, which gives one); the
    priority queue of C++ is a class with what the standard says of it, and a
    sorted list as its instance; LevelDB is a map that is there after a crash,
    and a message of ZeroMQ an event with its reply; what Python answers to a
    job's runner is any answer; what
    C++ leaves uninitialised is given.  A write to a file succeeds; a job's log
    goes to its file when the stream's 4096 bytes are full or the stream is
    rewound or closed, and the theorems on crashes are about logs that fit.  Debug
    output and the Windows branches are left out.

    ** Not modelled

    - The other C++ programs (chella's modules for Python, connect, extract,
      orchestrate, scrape's runner, cuzed, packer): processes and
      third-party libraries (ZeroMQ, protobuf, LevelDB, LibSass, Python) carry
      their behaviour; connect's and extract's scanners and parsers are
      generated by flex and bison.  Of cynder, pitch and chella the
      sockets, the signals and the option parsing; of pitch's two threads the
      races inside an operation of the queue, which has no lock; of chella's
      runner other runs in the same home at the same time.
    - src/lib and src/third_party: other projects' code.
    - compat's network lookups: glue around the resolver's buffers.  The
      archives call the system's fnmatch, which is a parameter there; the
      archiver's main is modelled with compat's [getopt], which the tool has
      where the system has none.
    - par: the debugging printer th_print.
    - quid's command-line tools, the logging and error helpers. *)
From Stdlib Require Export ZArith Lia Ascii String.
From stdpp Require Export base numbers strings gmap option list.
#[global] Open Scope Z_scope.

(** ** Machine integers

    A C integer is a [Z]; the conversions below are the wrap-arounds of the
    types the sources use on the LP64 target (char is signed, int has 32
    bits, long and size_t have 64). *)
Definition u8 (x : Z) : Z := x `mod` 2 ^ 8.
Definition u16 (x : Z) : Z := x `mod` 2 ^ 16.
Definition u32 (x : Z) : Z := x `mod` 2 ^ 32.
Definition u64 (x : Z) : Z := x `mod` 2 ^ 64.

(** Conversion to a signed 8- or 32-bit integer (two's complement, as gcc
    and clang define it). *)
Definition i8 (x : Z) : Z := (x + 2 ^ 7) `mod` 2 ^ 8 - 2 ^ 7.
Definition i32 (x : Z) : Z := (x + 2 ^ 31) `mod` 2 ^ 32 - 2 ^ 31.
Definition i64 (x : Z) : Z := (x + 2 ^ 63) `mod` 2 ^ 64 - 2 ^ 63.

(** Bytes in memory are values of type unsigned char. *)
Definition byte_ok (b : Z) : Prop := 0 <= b < 256.
#[global] Instance byte_ok_dec b : Decision (byte_ok b).
Proof. unfold byte_ok. apply _. Defined.

Lemma u8_range x : 0 <= u8 x < 256.
Proof. apply (Z.mod_pos_bound x (2 ^ 8)); lia. Qed.
Lemma u16_range x : 0 <= u16 x < 65536.
Proof. apply (Z.mod_pos_bound x (2 ^ 16)); lia. Qed.
Lemma u32_range x : 0 <= u32 x < 2 ^ 32.
Proof. apply (Z.mod_pos_bound x (2 ^ 32)); lia. Qed.
Lemma u64_range x : 0 <= u64 x < 2 ^ 64.
Proof. apply (Z.mod_pos_bound x (2 ^ 64)); lia. Qed.
Lemma i8_range x : -128 <= i8 x < 128.
Proof. unfold i8. pose proof (Z.mod_pos_bound (x + 2 ^ 7) (2 ^ 8)). lia. Qed.
Lemma i32_range x : -2147483648 <= i32 x < 2147483648.
Proof. unfold i32. pose proof (Z.mod_pos_bound (x + 2 ^ 31) (2 ^ 32)). lia. Qed.

Lemma u8_small x : 0 <= x < 256 -> u8 x = x.
Proof. intros. apply Z.mod_small. lia. Qed.
Lemma u16_small x : 0 <= x < 65536 -> u16 x = x.
Proof. intros. apply Z.mod_small. lia. Qed.
Lemma u32_small x : 0 <= x < 2 ^ 32 -> u32 x = x.
Proof. intros. apply Z.mod_small. lia. Qed.
Lemma u64_small x : 0 <= x < 2 ^ 64 -> u64 x = x.
Proof. intros. apply Z.mod_small. lia. Qed.
Lemma i8_small x : -128 <= x < 128 -> i8 x = x.
Proof. intros. unfold i8. rewrite Z.mod_small; lia. Qed.
Lemma i64_small x : -9223372036854775808 <= x < 9223372036854775808 -> i64 x = x.
Proof. intros. unfold i64. rewrite Z.mod_small; lia. Qed.
Lemma i32_small x : -2147483648 <= x < 2147483648 -> i32 x = x.
Proof. intros. unfold i32. rewrite Z.mod_small; lia. Qed.

(** Normalises the wraps whose argument is in range. *)
Ltac wrap_small :=
  repeat first
    [ rewrite u8_small by lia | rewrite u16_small by lia
    | rewrite u32_small by lia | rewrite u64_small by lia
    | rewrite i32_small by lia | rewrite i64_small by lia | rewrite i8_small by lia ].

(** Evaluates closed powers, then [lia]. *)
Ltac pow_lia :=
  repeat match goal with
  | |- context [?b ^ Z.of_nat ?n] =>
      let v := eval vm_compute in (b ^ Z.of_nat n) in
      match isZcst v with true => change (b ^ Z.of_nat n) with v end
  end; lia.

(** ** Bits *)
Lemma testbit_above x w i : 0 <= x < 2 ^ w -> w <= i -> Z.testbit x i = false.
Proof.
  intros Hx Hi. destruct (decide (0 <= w)) as [Hw|Hw].
  - rewrite <- (Z.mod_small x (2 ^ w)) by done. by apply Z.mod_pow2_bits_high.
  - rewrite Z.pow_neg_r in Hx by lia. lia.
Qed.

Lemma lor_disjoint_add a b w :
  0 <= a < 2 ^ w -> 0 <= w -> Z.lor a (Z.shiftl b w) = a + b * 2 ^ w.
Proof.
  intros Ha Hw. rewrite <- Z.shiftl_mul_pow2 by done.
  symmetry.
  rewrite <- Z.lxor_lor; [apply Z.add_nocarry_lxor|];
    apply Z.bits_inj'; intros i Hi; rewrite Z.land_spec, Z.bits_0;
    (destruct (decide (i < w));
     [ rewrite Z.shiftl_spec_low by lia; by rewrite andb_false_r
     | rewrite (testbit_above a w) by lia; done ]).
Qed.

Lemma lor_range a b w :
  0 <= w -> 0 <= a < 2 ^ w -> 0 <= b < 2 ^ w -> 0 <= Z.lor a b < 2 ^ w.
Proof.
  intros Hw Ha Hb. split; [by apply Z.lor_nonneg; lia|].
  destruct (decide (Z.lor a b = 0)) as [->|Hne]; [lia|].
  assert (0 <= Z.lor a b) by (apply Z.lor_nonneg; lia).
  apply Z.log2_lt_pow2; [lia|]. rewrite Z.log2_lor by lia.
  apply Z.max_lub_lt.
  - destruct (decide (a = 0)) as [->|]; [|apply Z.log2_lt_pow2; lia].
    destruct (decide (w = 0)) as [->|]; [|simpl; lia].
    exfalso. apply Hne. assert (b = 0) by (simpl in Hb; lia). by subst.
  - destruct (decide (b = 0)) as [->|]; [|apply Z.log2_lt_pow2; lia].
    destruct (decide (w = 0)) as [->|]; [|simpl; lia].
    exfalso. apply Hne. assert (a = 0) by (simpl in Ha; lia). by subst.
Qed.

Lemma land_ones_mod x w : 0 <= w -> Z.land x (Z.ones w) = x `mod` 2 ^ w.
Proof. apply Z.land_ones. Qed.

(** ** Reflection over a range of integers *)
Lemma range_forallb (P : Z -> bool) (n : nat) :
  forallb P (Z.of_nat <$> seq 0 n) = true -> forall x, 0 <= x < Z.of_nat n -> P x = true.
Proof.
  intros H x Hx. rewrite forallb_forall in H. apply H.
  apply list_elem_of_In, list_elem_of_fmap. exists (Z.to_nat x).
  split; [lia|]. apply elem_of_seq. lia.
Qed.

(** ** Folds *)
Lemma foldl_inv {A B} (P : A -> Prop) (f : A -> B -> A) l a :
  (forall a b, P a -> P (f a b)) -> P a -> P (foldl f a l).
Proof. intros Hf. revert a. induction l; intros a' Ha; simpl; auto. Qed.

(** The least of a list of numbers. *)
Fixpoint least (l : list Z) : option Z :=
  match l with
  | [] => None
  | x :: l => Some (match least l with Some y => Z.min x y | None => x end)
  end.

Lemma least_spec l :
  match least l with Some k => k ∈ l /\ (forall k', k' ∈ l -> k <= k') | None => l = [] end.
Proof.
  induction l as [|x l IH]; [done|]. cbn [least]. destruct (least l) as [y|].
  - destruct IH as [Hy Hl]. split.
    + destruct (Z.min_spec x y) as [[_ ->]|[_ ->]]; [by left|by right].
    + intros k' [->|Hk']%elem_of_cons; [lia|]. specialize (Hl _ Hk'). lia.
  - subst l. split; [by left|]. intros k' ->%list_elem_of_singleton. lia.
Qed.

(** ** Lengths

    [len] rewrites the lengths of the list operations and leaves the rest to
    [lia]. *)
Create Rewrite HintDb len.
#[export] Hint Rewrite @length_app @length_replicate @length_take @length_drop @length_fmap
  @length_insert @length_reverse : len.
Ltac len := autorewrite with len; first [lia | cbn [length]; lia | cbn; lia].

(** ** Options *)
Lemma bind_Some_inv {A B} (m : option A) (f : A -> option B) b :
  (m ≫= f) = Some b -> exists a, m = Some a /\ f a = Some b.
Proof. destruct m as [a|]; [|done]. by exists a. Qed.

(** Inverts a chain of monadic binds in a hypothesis. *)
Ltac inv_bind H :=
  repeat match type of H with
  | (_ ≫= _) = Some _ =>
      let x := fresh "x" in let E := fresh "E" in
      apply bind_Some_inv in H as (x & E & H); cbn beta iota in H
  | context [match ?x with pair _ _ => _ end] =>
      let a := fresh "a" in let b := fresh "b" in destruct x as [a b]; cbn beta iota in H
  end.

(** ** Stateful code

    A computation over a state [S] that may be undefined ([None]): what C
    calls undefined behaviour. *)
Definition SM (S A : Type) : Type := S -> option (A * S).
#[export] Instance SM_ret S : MRet (SM S) := fun A x s => Some (x, s).
#[export] Instance SM_bind S : MBind (SM S) := fun A B f m s =>
  match m s with Some (x, s') => f x s' | None => None end.

Section StateMonad.
Context {S : Type}.

Definition sm_undef {A} : SM S A := fun _ => None.
Definition sm_gets {A} (f : S -> A) : SM S A := fun s => Some (f s, s).
Definition sm_modify (f : S -> S) : SM S unit := fun s => Some (tt, f s).
Definition sm_lift {A} (o : option A) : SM S A := fun s => x ← o; Some (x, s).

Lemma sm_run {A B} (m : SM S A) (f : A -> SM S B) s x s' :
  m s = Some (x, s') -> (m ≫= f) s = f x s'.
Proof. intros E. unfold mbind, SM_bind. by rewrite E. Qed.

(** What a computation leaves as it was. *)
Definition sm_keeps {A B} (f : S -> B) (m : SM S A) : Prop := forall s x s', m s = Some (x, s') -> f s' = f s.

Lemma sm_keeps_bind {A A' B} (f : S -> B) (m : SM S A) (k : A -> SM S A') :
  sm_keeps f m -> (forall x, sm_keeps f (k x)) -> sm_keeps f (m ≫= k).
Proof.
  intros Hm Hk s x s' E. unfold mbind, SM_bind in E. destruct (m s) as [[y s1]|] eqn:E1; [|done].
  rewrite (Hk y _ _ _ E). by eapply Hm.
Qed.
Lemma sm_keeps_ret {A B} (f : S -> B) (x : A) : sm_keeps f (mret x).
Proof. by intros s y s' [= _ <-]. Qed.
Lemma sm_keeps_gets {A B} (f : S -> B) (g : S -> A) : sm_keeps f (sm_gets g).
Proof. by intros s y s' [= _ <-]. Qed.
Lemma sm_keeps_modify {B} (f : S -> B) g : (forall s, f (g s) = f s) -> sm_keeps f (sm_modify g).
Proof. intros H s y s' [= _ <-]. apply H. Qed.
Lemma sm_keeps_lift {A B} (f : S -> B) (o : option A) : sm_keeps f (sm_lift o).
Proof. intros s x s' E. unfold sm_lift in E. destruct o; [|done]. by injection E as _ <-. Qed.
Lemma sm_keeps_undef {A B} (f : S -> B) : sm_keeps (A := A) f sm_undef.
Proof. done. Qed.

Lemma sm_lift_run {A} (o : option A) x s : o = Some x -> sm_lift o s = Some (x, s).
Proof. by intros ->. Qed.
End StateMonad.

Create HintDb keeps.
#[export] Hint Resolve sm_keeps_bind sm_keeps_ret sm_keeps_gets sm_keeps_modify sm_keeps_lift sm_keeps_undef : keeps.

(** Runs the first step of a computation, whose result the equation [H] (or
    an instance of the lemma [H]) tells. *)
Ltac sm_step H := etransitivity; [eapply sm_run; eapply H|].

(** The same for a step that computes. *)
Ltac sm_go := etransitivity; [eapply sm_run; reflexivity|].
