(* ===== verification/CLib.v ===== *)
(** * The C library calls the sources make

    Strings are byte lists; an object in memory is the list of its bytes, a
    pointer into it an offset, and an access outside the object is [None]
    (undefined behaviour).  Only what the sources use is modelled. *)
From S2P Require Import Prelude.

(** ** Characters and string literals *)
Definition ch (a : ascii) : Z := Z.of_N (N_of_ascii a).
Definition bs (s : string) : list Z := ch <$> list_ascii_of_string s.
Arguments bs _%_string_scope.
Arguments ch _%_char_scope.

Definition isdigit (c : Z) : bool := (48 <=? c) && (c <=? 57).
Definition isxdigit (c : Z) : bool :=
  isdigit c || ((65 <=? c) && (c <=? 70)) || ((97 <=? c) && (c <=? 102)).
Definition isspace (c : Z) : bool := (c =? 32) || ((9 <=? c) && (c <=? 13)).
Definition tolower (c : Z) : Z := if (65 <=? c) && (c <=? 90) then c + 32 else c.

(** ** Objects in memory *)
Notation mem := (list Z) (only parsing).

(** [memcpy]/assignment of the bytes [l] at offset [i] of object [m]. *)
Definition mstore (m : mem) (i : nat) (l : list Z) : option mem :=
  if decide (i + length l <= length m)%nat
  then Some (take i m ++ l ++ drop (i + length l) m) else None.

(** The [n] bytes at offset [i]. *)
Definition mload (m : mem) (i n : nat) : option (list Z) :=
  if decide (i + n <= length m)%nat then Some (take n (drop i m)) else None.

(** The bytes in front of the first NUL, all of them without one: what
    [%.<n>s] prints of [n] bytes. *)
Fixpoint until_nul (l : list Z) : list Z :=
  match l with [] => [] | c :: l' => if c =? 0 then [] else c :: until_nul l' end.

(** The NUL-terminated string a byte list starts with. *)
Fixpoint cstr (l : list Z) : option (list Z) :=
  match l with
  | [] => None
  | c :: l' => if c =? 0 then Some [] else s ← cstr l'; Some (c :: s)
  end.

(** [memcmp] on two byte lists of one length. *)
Fixpoint memcmp (a b : list Z) : Z :=
  match a, b with
  | x :: a', y :: b' => if x =? y then memcmp a' b' else if x <? y then -1 else 1
  | _, _ => 0
  end.

(** [strcasecmp], or [strncasecmp] over the length of both, as a test for
    equality (C locale). *)
Definition strcasecmp_eq (a b : list Z) : bool := bool_decide (tolower <$> a = tolower <$> b).

(** The offset of the first occurrence of [sep] in a string ([strstr]). *)
Fixpoint find_sub (sep s : list Z) : option nat :=
  if bool_decide (take (length sep) s = sep) then Some 0%nat
  else match s with [] => None | _ :: s' => S <$> find_sub sep s' end.

(** The offset of a character in a string ([strchr], for characters other
    than NUL). *)
Definition find_char (c : Z) (s : list Z) : option nat := find_sub [c] s.

(** ** Number formatting *)

(** Digit values of [x], most significant first; [fuel] bounds their number. *)
Fixpoint digits_aux (fuel : nat) (b x : Z) (acc : list Z) : list Z :=
  match fuel with
  | O => acc
  | S f => if x <? b then x :: acc else digits_aux f b (x / b) (x `mod` b :: acc)
  end.

(** 64 digits are enough for any 64-bit number in any base. *)
Definition digits (b x : Z) : list Z := digits_aux 64 b x [].

Definition digit_char (d : Z) : Z := if d <? 10 then 48 + d else 87 + d.

(** [%.<prec>x], [%.<prec>o], [%u]: at least [prec] digits. *)
Definition fmt_prec (b : Z) (prec : nat) (x : Z) : list Z :=
  let ds := digits b x in
  digit_char <$> (replicate (prec - length ds) 0 ++ ds).

(** [%d] *)
Definition fmt_int (x : Z) : list Z :=
  (if x <? 0 then [ch "-"] else []) ++ (digit_char <$> digits 10 (Z.abs x)).

(** [%*lo]: at least [w] characters, padded with blanks on the left. *)
Definition fmt_width (b : Z) (w : nat) (x : Z) : list Z :=
  let s := digit_char <$> digits b x in
  replicate (w - length s) 32 ++ s.

(** [snprintf(s, n, ...)] stores at most [n - 1] of the formatted characters
    and a NUL; nothing when [n] is 0. *)
Definition snprintf_out (n : nat) (out : list Z) : list Z :=
  match n with O => [] | S n' => take n' out ++ [0] end.

(** [strncpy] into [n] zeros. *)
Definition strncpy_out (n : nat) (s : list Z) : list Z :=
  let l := take n s in l ++ replicate (n - length l) 0.

(** ** Number scanning *)
Definition digit_val (c : Z) : option Z :=
  if (48 <=? c) && (c <=? 57) then Some (c - 48)
  else if (97 <=? c) && (c <=? 102) then Some (c - 87)
  else if (65 <=? c) && (c <=? 70) then Some (c - 55)
  else None.

Definition digit_in (b c : Z) : option Z :=
  d ← digit_val c; if d <? b then Some d else None.

(** The longest prefix of at most [w] digits, its value and the rest. *)
Fixpoint scan_digits (w : nat) (b acc : Z) (l : list Z) : Z * nat * list Z :=
  match w, l with
  | S w', c :: l' =>
      match digit_in b c with
      | Some d => let '(v, n, r) := scan_digits w' b (acc * b + d) l' in (v, S n, r)
      | None => (acc, 0%nat, l)
      end
  | _, _ => (acc, 0%nat, l)
  end.

Fixpoint skip_space (l : list Z) : list Z :=
  match l with
  | c :: l' => if isspace c then skip_space l' else l
  | [] => []
  end.

(** One integer conversion of [sscanf] with field width [w]: white space, an
    optional sign, for base 16 an optional [0x], digits.  [None] is a matching
    or input failure. *)
Definition scan_num (b : Z) (w : nat) (l : list Z) : option (Z * list Z) :=
  let l := skip_space l in
  let '(neg, w, l) :=
    match w, l with
    | S w', c :: l' =>
        if c =? ch "-" then (true, w', l')
        else if c =? ch "+" then (false, w', l') else (false, w, l)
    | _, _ => (false, w, l)
    end in
  let '(w, l) :=
    match w, l with
    | S (S w'), c :: x :: l' =>
        if (b =? 16) && (c =? 48) && ((x =? ch "x") || (x =? ch "X"))
        then (w', l') else (w, l)
    | _, _ => (w, l)
    end in
  let '(v, n, r) := scan_digits w b 0 l in
  match n with
  | O => None
  | S _ => Some (if neg : bool then - v else v, r)
  end.

(** [strtoul(s, NULL, 10)]: white space, an optional sign and digits; the
    largest value on overflow, 0 without digits. *)
Definition strtoul10 (s : list Z) : Z :=
  let s := skip_space s in
  let '(neg, s) :=
    match s with
    | c :: s' => if c =? ch "-" then (true, s') else if c =? ch "+" then (false, s') else (false, s)
    | [] => (false, s)
    end in
  let '(v, n, _) := scan_digits (length s) 10 0 s in
  if 2 ^ 64 <=? v then 2 ^ 64 - 1 else if neg : bool then u64 (- v) else v.

(** [atoi(s)]: what [strtol(s, NULL, 10)] returns, within the bounds of a
    [long], as an [int]. *)
Definition atoi (s : list Z) : Z :=
  let s := skip_space s in
  let '(neg, s) :=
    match s with
    | c :: s' => if c =? ch "-" then (true, s') else if c =? ch "+" then (false, s') else (false, s)
    | [] => (false, s)
    end in
  let '(v, n, _) := scan_digits (length s) 10 0 s in
  i32 (if neg : bool then Z.max (- 2 ^ 63) (- v) else Z.min (2 ^ 63 - 1) v).

(** Little-endian bytes of an [n]-byte integer. *)
Fixpoint le_bytes (n : nat) (x : Z) : list Z :=
  match n with O => [] | S n' => x `mod` 256 :: le_bytes n' (x / 256) end.

Fixpoint le_val (l : list Z) : Z :=
  match l with [] => 0 | c :: l' => c + 256 * le_val l' end.

(** Big-endian bytes. *)
Definition be_bytes (n : nat) (x : Z) : list Z := reverse (le_bytes n x).

(** Format directives of [sscanf]: a literal character, or a conversion in
    base [b] of at most [w] characters stored as [n] bytes at offset [off] of
    the destination object. *)
Inductive directive :=
| Lit (c : Z)
| Num (b : Z) (w n off : nat).

(** The result is the number of conversions done and the object, [None] when
    a store leaves the object. *)
Fixpoint sscanf (fmt : list directive) (l : list Z) (m : mem) : option (nat * mem) :=
  match fmt with
  | [] => Some (0%nat, m)
  | Lit c :: fmt' =>
      match l with
      | c' :: l' => if c' =? c then sscanf fmt' l' m else Some (0%nat, m)
      | [] => Some (0%nat, m)
      end
  | Num b w n off :: fmt' =>
      match scan_num b w l with
      | Some (v, l') =>
          m' ← mstore m off (le_bytes n v);
          '(k, m'') ← sscanf fmt' l' m';
          Some (S k, m'')
      | None => Some (0%nat, m)
      end
  end.

(** ** Facts about memory *)
Lemma mstore_Some m i l :
  (i + length l <= length m)%nat ->
  mstore m i l = Some (take i m ++ l ++ drop (i + length l) m).
Proof. intros. unfold mstore. by rewrite decide_True. Qed.

Lemma mstore_length m i l m' : mstore m i l = Some m' -> length m' = length m.
Proof.
  unfold mstore. case_decide as H; [|done]. intros [= <-].
  rewrite !length_app, length_take, length_drop. lia.
Qed.

(** A store inside the middle part of an object. *)
Lemma mstore_app_mid (a b c l : list Z) :
  length b = length l -> mstore (a ++ b ++ c) (length a) l = Some (a ++ l ++ c).
Proof.
  intros Hl. rewrite mstore_Some by (rewrite !length_app; lia).
  rewrite take_app_length. do 3 f_equal.
  rewrite app_assoc, <- Hl, <- length_app. by rewrite drop_app_length.
Qed.

Lemma le_bytes_length n x : length (le_bytes n x) = n.
Proof. revert x. induction n; intros; simpl; auto. Qed.

Lemma le_bytes_ok n x : Forall byte_ok (le_bytes n x).
Proof.
  revert x. induction n; intros; simpl; constructor; auto.
  unfold byte_ok. apply Z.mod_pos_bound. lia.
Qed.

Lemma le_val_bytes n x : le_val (le_bytes n x) = x `mod` 256 ^ Z.of_nat n.
Proof.
  revert x. induction n as [|n IH]; intros x; cbn [le_bytes le_val].
  - by rewrite Z.mod_1_r.
  - rewrite IH, Nat2Z.inj_succ, Z.pow_succ_r by lia.
    rewrite Z.rem_mul_r; lia.
Qed.

Lemma le_bytes_0 n : le_bytes n 0 = replicate n 0.
Proof. induction n; simpl; [done|]. by f_equal. Qed.

Lemma le_bytes_S n x : 0 <= x < 256 -> le_bytes (S n) x = x :: replicate n 0.
Proof.
  intros. cbn [le_bytes]. rewrite Z.mod_small, Z.div_small by lia.
  by rewrite le_bytes_0.
Qed.

Lemma memcmp_eq a b : length a = length b -> memcmp a b = 0 <-> a = b.
Proof.
  revert b. induction a as [|x a IH]; intros [|y b] Hl; try done.
  simpl in *.
  destruct (Z.eqb_spec x y) as [->|Hne].
  - rewrite IH by lia. split; [by intros ->|by intros [= ->]].
  - split; [|by intros [= -> ->]]. by destruct (x <? y).
Qed.

Lemma mstore_lookup m i l m' j :
  mstore m i l = Some m' ->
  m' !! j = if decide (i <= j < i + length l)%nat then l !! (j - i)%nat else m !! j.
Proof.
  unfold mstore. case_decide as Hd; [|done]. intros [= <-].
  assert (length (take i m) = i) as Hi by (rewrite length_take; lia).
  case_decide as Hj.
  - rewrite lookup_app_r, Hi by lia. apply lookup_app_l. lia.
  - destruct (decide (j < i)%nat) as [Hlt|Hge].
    + rewrite lookup_app_l by lia. by apply lookup_take_lt.
    + rewrite lookup_app_r, Hi, lookup_app_r, lookup_drop by lia. f_equal. lia.
Qed.

Lemma until_nul_app s r : Forall (fun c => c <> 0) s -> until_nul (s ++ 0 :: r) = s.
Proof.
  induction 1 as [|c s Hc Hs IH]; [done|]. cbn [app until_nul]. by rewrite (proj2 (Z.eqb_neq _ _) Hc), IH.
Qed.

Lemma until_nul_id n : Forall (fun c => c <> 0) n -> until_nul n = n.
Proof. induction 1 as [|c n Hc _ IH]; [done|]. cbn [until_nul]. by rewrite (proj2 (Z.eqb_neq _ _) Hc), IH. Qed.

(** ** Bytes at an offset *)
Definition bytes_at (m : mem) (off : nat) (l : list Z) : Prop :=
  forall i c, l !! i = Some c -> m !! (off + i)%nat = Some c.

Lemma bytes_at_store m off l m' : mstore m off l = Some m' -> bytes_at m' off l.
Proof.
  intros E i c Hi. apply lookup_lt_Some in Hi as Hl. rewrite (mstore_lookup _ _ _ _ _ E).
  rewrite decide_True by lia. rewrite <- Hi. f_equal. lia.
Qed.

Lemma bytes_at_other m m' off off' l l' :
  mstore m off' l' = Some m' -> bytes_at m off l ->
  (off + length l <= off' \/ off' + length l' <= off)%nat -> bytes_at m' off l.
Proof.
  intros E H Hd i c Hi. apply lookup_lt_Some in Hi as Hl. rewrite (mstore_lookup _ _ _ _ _ E).
  rewrite decide_False by lia. by apply H.
Qed.

Lemma bytes_at_drop m off l : bytes_at m off l -> drop off m = l ++ drop (off + length l) m.
Proof.
  intros H. apply list_eq. intros i. rewrite lookup_drop. destruct (decide (i < length l)%nat) as [Hi|Hi].
  - rewrite lookup_app_l by done. destruct (lookup_lt_is_Some_2 _ _ Hi) as [c Hc]. rewrite Hc. by apply H.
  - rewrite lookup_app_r, lookup_drop by lia. f_equal. lia.
Qed.

(** A store in two parts. *)
Lemma mstore_app m i a b :
  mstore m i (a ++ b) = (m' ← mstore m i a; mstore m' (i + length a) b).
Proof.
  unfold mstore. rewrite length_app. case_decide as H1.
  - rewrite decide_True by lia. cbn [mbind option_bind].
    rewrite decide_True by (rewrite !length_app, length_take, length_drop; lia). f_equal.
    rewrite (app_assoc (take i m) a), take_app_length', drop_app_ge
      by (rewrite length_app, length_take; lia).
    rewrite length_app, length_take, drop_drop, <- !app_assoc. do 4 f_equal. lia.
  - case_decide as H2; cbn [mbind option_bind]; [|done].
    rewrite decide_False; [done|]. rewrite !length_app, length_take, length_drop. lia.
Qed.

Lemma mstore_is_Some m i l : (i + length l <= length m)%nat -> is_Some (mstore m i l).
Proof. intros. rewrite mstore_Some by done. eauto. Qed.

Lemma mload_lookup m p l i c :
  mload m p (length l) = Some l -> l !! i = Some c -> m !! (p + i)%nat = Some c.
Proof.
  unfold mload. case_decide; [|done]. intros [= Hl] Hi. rewrite <- lookup_drop.
  rewrite <- Hl in Hi. by apply lookup_take_Some in Hi as [? _].
Qed.

(** Two memories that differ at most in the bytes [lo] to [hi - 1]. *)
Definition same_outside (lo hi : nat) (m m' : mem) : Prop :=
  length m' = length m /\ forall i, (i < lo \/ hi <= i)%nat -> m' !! i = m !! i.

Lemma same_outside_refl lo hi m : same_outside lo hi m m.
Proof. by split. Qed.

Lemma same_outside_trans lo hi m1 m2 m3 :
  same_outside lo hi m1 m2 -> same_outside lo hi m2 m3 -> same_outside lo hi m1 m3.
Proof.
  intros [L1 H1] [L2 H2]. split; [by rewrite L2|]. intros i Hi. by rewrite H2, H1.
Qed.

Lemma same_outside_weaken lo hi lo' hi' m m' :
  same_outside lo hi m m' -> (lo' <= lo)%nat -> (hi <= hi')%nat -> same_outside lo' hi' m m'.
Proof. intros [L H] ??. split; [done|]. intros i Hi. apply H. lia. Qed.

Lemma mstore_same_outside m i l m' :
  mstore m i l = Some m' -> same_outside i (i + length l) m m'.
Proof.
  intros H. split; [by eapply mstore_length|]. intros j Hj.
  rewrite (mstore_lookup _ _ _ _ _ H). by rewrite decide_False by lia.
Qed.

(** A NUL-terminated string at an offset. *)
Definition str_at (m : mem) (off : nat) (s : list Z) : Prop :=
  forall i c, (s ++ [0]) !! i = Some c -> m !! (off + i)%nat = Some c.

Lemma str_at_same m m' lo hi off s :
  same_outside lo hi m m' -> str_at m off s ->
  (off + length s < lo \/ hi <= off)%nat -> str_at m' off s.
Proof.
  intros [_ Hs] H Hr i c Hi. apply lookup_lt_Some in Hi as Hl.
  rewrite length_app in Hl. cbn [length] in Hl. rewrite Hs by lia. by apply H.
Qed.

Lemma str_at_bound m off s : str_at m off s -> (off + length s < length m)%nat.
Proof.
  intros H. eapply lookup_lt_Some, H. rewrite lookup_app_r by lia. by rewrite Nat.sub_diag.
Qed.

Lemma str_at_drop m off s :
  str_at m off s -> drop off m = s ++ 0 :: drop (off + length s + 1) m.
Proof.
  intros H. pose proof (str_at_bound _ _ _ H) as Hl. apply list_eq. intros i.
  rewrite cons_middle, app_assoc, lookup_drop.
  destruct (decide (i < length (s ++ [0%Z]))%nat) as [Hi|Hi].
  - rewrite lookup_app_l by done. destruct (lookup_lt_is_Some_2 _ _ Hi) as [c Hc].
    rewrite Hc. by apply H.
  - rewrite lookup_app_r by lia. rewrite lookup_drop. f_equal.
    rewrite length_app in *. cbn [length] in *. lia.
Qed.

Lemma drop_str_at m off s r : drop off m = s ++ 0 :: r -> str_at m off s.
Proof.
  intros H i c Hi. rewrite <- lookup_drop, H. rewrite cons_middle, app_assoc, lookup_app_l; [done|]. by eapply lookup_lt_Some.
Qed.

(** ** Facts about strings *)
Lemma cstr_app_nul s r : Forall (fun c => c <> 0) s -> cstr (s ++ 0 :: r) = Some s.
Proof.
  induction 1 as [|c s Hc Hs IH]; simpl; [done|].
  rewrite (proj2 (Z.eqb_neq c 0)) by done. by rewrite IH.
Qed.

Lemma str_at_cstr m off s :
  str_at m off s -> Forall (fun c => c <> 0) s -> cstr (drop off m) = Some s.
Proof. intros H Hs. rewrite (str_at_drop _ _ _ H). by apply cstr_app_nul. Qed.

Lemma find_sub_bound sep s n :
  find_sub sep s = Some n -> (n + length sep <= length s)%nat.
Proof.
  revert n. induction s as [|c s IH]; intros n; cbn [find_sub].
  - rewrite take_nil. case_bool_decide as H; [|done]. intros [= <-]. by rewrite <- H.
  - case_bool_decide as H.
    + intros [= <-]. rewrite <- H at 1. rewrite length_take. cbn [length]. lia.
    + destruct (find_sub sep s) as [k|]; [|done]. intros [= <-].
      pose proof (IH k eq_refl). cbn [length]. lia.
Qed.

Lemma find_char_lookup c s k : find_char c s = Some k -> s !! k = Some c.
Proof.
  unfold find_char. revert k. induction s as [|x s IH]; intros k; cbn [find_sub]; [by rewrite bool_decide_false|].
  case_bool_decide as H.
  - intros [= <-]. cbn [length take] in H. by injection H as ->.
  - intros E. apply fmap_Some in E as (j & E & ->). by apply IH.
Qed.

Lemma find_sub_short sep s : (length s < length sep)%nat -> find_sub sep s = None.
Proof. destruct (find_sub sep s) eqn:E; [|done]. apply find_sub_bound in E. lia. Qed.

Lemma find_sub_app sep s r n :
  find_sub sep s = Some n -> find_sub sep (s ++ r) = Some n.
Proof.
  revert n. induction s as [|c s IH]; intros n Hn; pose proof (find_sub_bound _ _ _ Hn) as Hb.
  - cbn [find_sub length] in *. destruct sep; [|simpl in Hb; lia].
    rewrite take_nil, bool_decide_true in Hn by done. injection Hn as <-.
    by destruct r; cbn [find_sub length take app]; rewrite bool_decide_true.
  - cbn [app find_sub length] in *. rewrite app_comm_cons, take_app_le by (cbn [length]; lia).
    case_bool_decide; [done|].
    destruct (find_sub sep s) as [k|]; [|done]. injection Hn as <-. by rewrite (IH k eq_refl).
Qed.

Lemma cstr_Some l s :
  cstr l = Some s -> exists r, l = s ++ 0 :: r /\ Forall (fun c => c <> 0) s.
Proof.
  revert s. induction l as [|c l IH]; intros s H; simpl in H; [done|].
  destruct (Z.eqb_spec c 0) as [->|Hc].
  - injection H as <-. by exists l.
  - destruct (cstr l) as [s'|] eqn:E; [|done]. injection H as <-.
    destruct (IH _ eq_refl) as (r & -> & Hs). exists r. split; [done|].
    by constructor.
Qed.

(** ** Facts about numbers *)
Definition num_val (b acc : Z) (ds : list Z) : Z := foldl (fun a d => a * b + d) acc ds.

Definition digits_ok (b : Z) (ds : list Z) : Prop := Forall (fun d => 0 <= d < b) ds.

Lemma num_val_app b acc xs ys : num_val b acc (xs ++ ys) = num_val b (num_val b acc xs) ys.
Proof. unfold num_val. by rewrite foldl_app. Qed.

Lemma num_val_zeros b n ds : num_val b 0 (replicate n 0 ++ ds) = num_val b 0 ds.
Proof. induction n; [done|]. by rewrite replicate_S. Qed.

(** What the digit loop produces, given enough fuel. *)
Lemma digits_aux_spec fuel b x acc :
  2 <= b -> 0 <= x < b ^ Z.of_nat fuel -> (0 < fuel)%nat ->
  exists ds, digits_aux fuel b x acc = ds ++ acc /\ digits_ok b ds /\ ds <> [] /\
    num_val b 0 ds = x /\
    (forall n, (0 < n)%nat -> x < b ^ Z.of_nat n -> (length ds <= n)%nat).
Proof.
  intros Hb. revert x acc. induction fuel as [|f IH]; intros x acc Hx Hf; [lia|].
  simpl. destruct (Z.ltb_spec x b) as [Hlt|Hge].
  - exists [x]. split; [done|]. split; [by repeat constructor; lia|].
    split; [done|]. split; [done|]. intros n Hn _. simpl. lia.
  - destruct f as [|f].
    { exfalso. change (Z.of_nat 1) with 1 in Hx. rewrite Z.pow_1_r in Hx. lia. }
    rewrite Nat2Z.inj_succ, Z.pow_succ_r in Hx by lia.
    destruct (IH (x / b) (x `mod` b :: acc)) as (ds & E & Hok & Hne & Hv & Hlen).
    { split; [apply Z.div_pos; lia|]. apply Z.div_lt_upper_bound; lia. }
    { lia. }
    pose proof (Z.mod_pos_bound x b ltac:(lia)) as Hm.
    pose proof (Z.div_mod x b ltac:(lia)) as Hdm.
    exists (ds ++ [x `mod` b]).
    split; [by rewrite E, <- app_assoc|].
    split; [by apply Forall_app_2; [done|repeat constructor; lia]|].
    split; [by destruct ds|].
    split; [rewrite num_val_app, Hv; unfold num_val; simpl; lia|].
    + intros n Hn Hxn. destruct n as [|[|n]]; [lia| |].
      * exfalso. change (Z.of_nat 1) with 1 in Hxn. rewrite Z.pow_1_r in Hxn. lia.
      * rewrite length_app. simpl.
        assert (length ds <= S n)%nat; [|lia]. apply Hlen; [lia|].
        rewrite (Nat2Z.inj_succ (S n)), Z.pow_succ_r in Hxn by lia.
        apply Z.div_lt_upper_bound; lia.
Qed.

(** Any 64-bit number has its digits within the fuel of [digits]. *)
Lemma digits_spec b x :
  2 <= b -> 0 <= x < 2 ^ 64 ->
  digits_ok b (digits b x) /\ digits b x <> [] /\ num_val b 0 (digits b x) = x /\
  (forall n, (0 < n)%nat -> x < b ^ Z.of_nat n -> (length (digits b x) <= n)%nat).
Proof.
  intros Hb Hx. assert (2 ^ 64 <= b ^ 64) by (apply Z.pow_le_mono_l; lia).
  destruct (digits_aux_spec 64 b x []) as (ds & E & H1 & H2 & H3 & H4); [lia|lia|lia|].
  unfold digits. rewrite E, app_nil_r. done.
Qed.

Lemma digit_char_val b d : 0 <= d < b -> b <= 16 -> digit_in b (digit_char d) = Some d.
Proof.
  intros Hd Hb. unfold digit_in, digit_val, digit_char.
  destruct (Z.ltb_spec d 10).
  - rewrite (proj2 (andb_true_iff _ _)) by (split; apply Z.leb_le; lia).
    simpl. replace (48 + d - 48) with d by lia. by rewrite (proj2 (Z.ltb_lt d b)) by lia.
  - rewrite (proj2 (andb_false_iff _ _)) by (right; apply Z.leb_gt; lia).
    rewrite (proj2 (andb_true_iff _ _)) by (split; apply Z.leb_le; lia).
    simpl. replace (87 + d - 87) with d by lia. by rewrite (proj2 (Z.ltb_lt d b)) by lia.
Qed.

Lemma scan_digits_spec b ds acc r :
  b <= 16 -> digits_ok b ds ->
  scan_digits (length ds) b acc ((digit_char <$> ds) ++ r) =
    (num_val b acc ds, length ds, r).
Proof.
  intros Hb H. revert acc. induction H as [|d ds Hd Hds IH]; intros acc; simpl.
  - done.
  - rewrite digit_char_val by done. by rewrite IH.
Qed.

(** The scan stops at the first character that is no digit. *)
Lemma scan_digits_stop w b ds acc c r :
  b <= 16 -> digits_ok b ds -> (length ds <= w)%nat -> digit_in b c = None ->
  scan_digits w b acc ((digit_char <$> ds) ++ c :: r) = (num_val b acc ds, length ds, c :: r).
Proof.
  intros Hb H. revert w acc. induction H as [|d ds Hd Hds IH]; intros w acc Hw Hc.
  - destruct w; [done|]. cbn [fmap list_fmap app scan_digits]. by rewrite Hc.
  - destruct w as [|w]; [cbn [length] in Hw; lia|]. cbn [fmap list_fmap app scan_digits].
    rewrite digit_char_val by done. rewrite IH; [done|cbn [length] in Hw; lia|done].
Qed.

Lemma digit_char_range d : 0 <= d < 16 -> 48 <= digit_char d < 103 /\ digit_char d <> 64.
Proof. unfold digit_char. case_match; lia. Qed.

(** A digit is not what the scanner treats specially. *)
Lemma digit_char_plain d :
  0 <= d < 16 ->
  isspace (digit_char d) = false /\ (digit_char d =? ch "-") = false /\
  (digit_char d =? ch "+") = false /\
  ((digit_char d =? ch "x") || (digit_char d =? ch "X")) = false.
Proof.
  intros Hd. unfold isspace, digit_char, ch.
  destruct (Z.ltb_spec d 10); repeat split; repeat (apply orb_false_iff; split);
    first [apply Z.eqb_neq; simpl; lia | apply andb_false_iff; right; apply Z.leb_gt; lia].
Qed.

(** A text of digits is read back as its value. *)
Lemma atoi_digits ds : digits_ok 10 ds -> num_val 10 0 ds < 2 ^ 63 -> atoi (digit_char <$> ds) = i32 (num_val 10 0 ds).
Proof.
  intros Hds Hv. destruct ds as [|d ds]; [done|]. assert (Hd : 0 <= d < 16) by (apply Forall_cons in Hds as [Hd _]; lia).
  destruct (digit_char_plain d Hd) as (H1 & H2 & H3 & _). unfold atoi. cbn [fmap list_fmap skip_space]. rewrite H1, H2, H3.
  pose proof (scan_digits_spec 10 (d :: ds) 0 [] ltac:(lia) Hds) as E. rewrite app_nil_r in E.
  change (digit_char d :: (digit_char <$> ds)) with (digit_char <$> d :: ds). rewrite length_fmap, E. by rewrite Z.min_r by lia.
Qed.

Lemma atoi_fmt_int x : 0 <= x < 2 ^ 63 -> atoi (fmt_int x) = i32 x.
Proof.
  intros Hx. unfold fmt_int. rewrite (proj2 (Z.ltb_ge x 0)), Z.abs_eq by lia. cbn [app].
  destruct (digits_spec 10 x) as (Hok & _ & Hv & _); [lia..|]. rewrite atoi_digits by (done || lia). by rewrite Hv.
Qed.

(** A field filled with digits is read back as its value. *)
Lemma scan_num_digits b ds r :
  b <= 16 -> digits_ok b ds -> ds <> [] ->
  scan_num b (length ds) ((digit_char <$> ds) ++ r) = Some (num_val b 0 ds, r).
Proof.
  intros Hb Hok Hne. destruct ds as [|d ds]; [done|].
  inversion Hok as [|? ? Hd Hds]; subst.
  destruct (digit_char_plain d ltac:(lia)) as (Hs & Hm & Hp & _).
  unfold scan_num. cbn [fmap list_fmap app skip_space length].
  rewrite Hs, Hm, Hp.
  assert (scan_digits (S (length ds)) b 0 (digit_char d :: (digit_char <$> ds) ++ r) =
          (num_val b 0 (d :: ds), S (length ds), r)) as E
    by apply (scan_digits_spec b (d :: ds) 0 r Hb Hok).
  destruct ds as [|d' ds].
  - simpl length in *. cbn [fmap list_fmap app] in *. destruct r; by rewrite E.
  - inversion Hds as [|? ? Hd' _]; subst.
    destruct (digit_char_plain d' ltac:(lia)) as (_ & _ & _ & Hx).
    cbn [fmap list_fmap app length] in *. rewrite Hx, andb_false_r. by rewrite E.
Qed.

(** [%.<w>x] of a number of at most [w] digits, read back with [%<w>lx]. *)
Lemma fmt_prec_digits b w x :
  2 <= b -> 0 <= x < 2 ^ 64 -> x < b ^ Z.of_nat w -> (0 < w)%nat ->
  exists ds, fmt_prec b w x = digit_char <$> ds /\ digits_ok b ds /\ length ds = w /\
    num_val b 0 ds = x.
Proof.
  intros Hb Hx Hw Hw0. destruct (digits_spec b x Hb Hx) as (Hok & Hne & Hv & Hlen).
  exists (replicate (w - length (digits b x)) 0 ++ digits b x). split; [done|].
  split; [|split].
  - apply Forall_app_2; [|done]. apply Forall_replicate. lia.
  - rewrite length_app, length_replicate. pose proof (Hlen w Hw0 Hw). lia.
  - by rewrite num_val_zeros.
Qed.

Lemma fmt_prec_length b w x :
  2 <= b -> 0 <= x < 2 ^ 64 -> x < b ^ Z.of_nat w -> (0 < w)%nat ->
  length (fmt_prec b w x) = w.
Proof.
  intros. destruct (fmt_prec_digits b w x) as (ds & -> & _ & <- & _); try done.
  by rewrite length_fmap.
Qed.

Lemma scan_num_fmt_prec b w x r :
  2 <= b <= 16 -> 0 <= x < 2 ^ 64 -> x < b ^ Z.of_nat w -> (0 < w)%nat ->
  scan_num b w (fmt_prec b w x ++ r) = Some (x, r).
Proof.
  intros Hb Hx Hw Hw0. destruct (fmt_prec_digits b w x) as (ds & -> & Hok & <- & Hv); try lia.
  rewrite scan_num_digits; [by rewrite Hv|lia|done|]. by destruct ds; [simpl in Hw0; lia|].
Qed.

(** ** Big-endian numbers *)
Lemma be_bytes_length n x : length (be_bytes n x) = n.
Proof. unfold be_bytes. by rewrite length_reverse, le_bytes_length. Qed.

Lemma be_bytes_ok n x : Forall byte_ok (be_bytes n x).
Proof. apply Forall_reverse, le_bytes_ok. Qed.

Lemma num_val_be_bytes n x : num_val 256 0 (be_bytes n x) = x `mod` 256 ^ Z.of_nat n.
Proof.
  unfold be_bytes. rewrite <- le_val_bytes. generalize (le_bytes n x). intros l.
  induction l as [|c l IH]; [done|]. rewrite reverse_cons, num_val_app, IH.
  unfold num_val. cbn [foldl le_val]. lia.
Qed.
