(* ===== verification/Arc4.v ===== *)
(** * quid/arc4random.c: the random stream behind identifiers

    The RC4 state ([arc4_stream_t]), its mixing with fresh randomness and the
    process-wide stream of [arc4random()].  The kernel's answers to the
    system calls of [arc4_stir] are an argument. *)
From S2P Require Import Prelude CLib.

Module Arc4.

Record arc4_stream_t := mk_stream { as_i : Z; as_j : Z; as_s : list Z }.

(** [as->s[i]] for a [uint8_t] index. *)
Definition rd (s : list Z) (i : Z) : Z := s !!! Z.to_nat i.
Definition wr (s : list Z) (i v : Z) : list Z := <[Z.to_nat i := v]> s.

Definition arc4_init (st : arc4_stream_t) : arc4_stream_t :=
  mk_stream 0 0
    (foldl (fun s n => <[n := Z.of_nat n]> s) (as_s st) (seq 0 256)).

(** One round of the loop of [arc4_addrandom]. *)
Definition addrandom_round (dat : list Z) (st : arc4_stream_t) (n : nat) : arc4_stream_t :=
  let i := u8 (as_i st + 1) in
  let si := rd (as_s st) i in
  let j := u8 (as_j st + si + dat !!! (n `mod` length dat)%nat) in
  let s := wr (as_s st) i (rd (as_s st) j) in
  mk_stream i j (wr s j si).

Definition arc4_addrandom (st : arc4_stream_t) (dat : list Z) : arc4_stream_t :=
  foldl (addrandom_round dat)
    (mk_stream (u8 (as_i st - 1)) (as_j st) (as_s st)) (seq 0 256).

Definition arc4_getbyte (st : arc4_stream_t) : Z * arc4_stream_t :=
  let i := u8 (as_i st + 1) in
  let si := rd (as_s st) i in
  let j := u8 (as_j st + si) in
  let sj := rd (as_s st) j in
  let s := wr (wr (as_s st) i sj) j si in
  (rd s (Z.land (si + sj) 255), mk_stream i j s).

Definition arc4_getword (st : arc4_stream_t) : Z * arc4_stream_t :=
  let '(b0, st) := arc4_getbyte st in
  let val := u32 (Z.shiftl b0 24) in
  let '(b1, st) := arc4_getbyte st in
  let val := Z.lor val (Z.shiftl b1 16) in
  let '(b2, st) := arc4_getbyte st in
  let val := Z.lor val (Z.shiftl b2 8) in
  let '(b3, st) := arc4_getbyte st in
  let val := Z.lor val b3 in
  (val, st).

(** What the kernel answers to [gettimeofday], [getpid] (the first 20 bytes
    of [rdat]) and to [open]/[read] of /dev/urandom. *)
Inductive urandom :=
| OpenFailed
| ReadShort
| ReadOk (rnd : list Z).

Record stir_env := { se_head : list Z; se_urandom : urandom }.

(** [arc4_stir]: the second result counts the descriptors it leaves open. *)
Definition arc4_stir (env : stir_env) (st : arc4_stream_t) : arc4_stream_t * nat :=
  let mix rdat :=
    foldl (fun st _ => snd (arc4_getbyte st)) (arc4_addrandom st rdat) (seq 0 1024) in
  match se_urandom env with
  | OpenFailed => (mix (se_head env ++ replicate 108 0), 0%nat)
  | ReadShort => (st, 0%nat)
  | ReadOk rnd => (mix (se_head env ++ rnd), 1%nat)
  end.

(** The file's static variables, and the process's count of descriptors
    opened by it and not closed. *)
Record state := mk_state {
  rs : arc4_stream_t;
  rs_initialized : bool;
  rs_stired : bool;
  open_fds : nat }.

(** Static storage starts zeroed. *)
Definition initial : state :=
  mk_state (mk_stream 0 0 (replicate 256 0)) false false 0.

Definition arc4_check_init (g : state) : state :=
  if rs_initialized g then g
  else mk_state (arc4_init (rs g)) true (rs_stired g) (open_fds g).

Definition stir_rs (env : stir_env) (g : state) : state :=
  let '(st, n) := arc4_stir env (rs g) in
  mk_state st (rs_initialized g) (rs_stired g) (open_fds g + n).

Definition arc4_check_stir (env : stir_env) (g : state) : state :=
  if rs_stired g then g
  else
    let g := stir_rs env g in
    mk_state (rs g) (rs_initialized g) true (open_fds g).

Definition arc4random_stir (env : stir_env) (g : state) : state :=
  stir_rs env (arc4_check_init g).

Definition arc4random_addrandom (env : stir_env) (dat : list Z) (g : state) : state :=
  let g := arc4_check_stir env (arc4_check_init g) in
  mk_state (arc4_addrandom (rs g) dat) (rs_initialized g) (rs_stired g) (open_fds g).

Definition arc4random (env : stir_env) (g : state) : Z * state :=
  let g := arc4_check_stir env (arc4_check_init g) in
  let '(rnd, st) := arc4_getword (rs g) in
  (rnd, mk_state st (rs_initialized g) (rs_stired g) (open_fds g)).

(** [rnd %= range] divides by zero when [range] is 0. *)
Definition arc4random_uniform (env : stir_env) (range : Z) (g : state) : option (Z * state) :=
  let '(rnd, g) := arc4random env g in
  if range =? 0 then None else Some (rnd `mod` range, g).

#[global] Arguments arc4random : simpl never.
#[global] Arguments arc4_addrandom : simpl never.

(** The calls a program can make, and the states they reach. *)
Inductive step : state -> state -> Prop :=
| step_stir env g : step g (arc4random_stir env g)
| step_add env dat g : step g (arc4random_addrandom env dat g)
| step_random env g : step g (snd (arc4random env g))
| step_uniform env range g r g' :
    arc4random_uniform env range g = Some (r, g') -> step g g'.

Definition reachable : state -> Prop := rtc step initial.

(** ** Invariant *)

(** The S-box is a permutation of 0..255 and the two indices are bytes. *)
Definition stream_ok (st : arc4_stream_t) : Prop :=
  byte_ok (as_i st) /\ byte_ok (as_j st) /\ as_s st ≡ₚ Z.of_nat <$> seq 0 256.

Definition state_ok (g : state) : Prop :=
  if rs_initialized g then stream_ok (rs g)
  else g = mk_state (rs initial) false false (open_fds g).

Lemma perm_length s : s ≡ₚ Z.of_nat <$> seq 0 256 -> length s = 256%nat.
Proof. intros ->. by rewrite length_fmap, length_seq. Qed.

Lemma rd_lookup s i :
  length s = 256%nat -> byte_ok i -> s !! Z.to_nat i = Some (rd s i).
Proof. intros Hl Hi. apply list_lookup_lookup_total_lt. unfold byte_ok in Hi. lia. Qed.

(** The two writes of a round exchange two entries. *)
Lemma swap_perm s i j :
  s ≡ₚ Z.of_nat <$> seq 0 256 -> byte_ok i -> byte_ok j ->
  wr (wr s i (rd s j)) j (rd s i) ≡ₚ Z.of_nat <$> seq 0 256.
Proof.
  intros Hp Hi Hj. pose proof (perm_length _ Hp) as Hl. etrans; [|exact Hp].
  unfold wr. destruct (decide (i = j)) as [->|Hne].
  - rewrite list_insert_insert_eq. by rewrite list_insert_id by by apply rd_lookup.
  - rewrite list_insert_insert_ne by (unfold byte_ok in *; lia).
    apply Permutation_insert_swap; by apply rd_lookup.
Qed.

Lemma rd_byte s i : s ≡ₚ Z.of_nat <$> seq 0 256 -> byte_ok i -> byte_ok (rd s i).
Proof.
  intros Hp Hi. pose proof (rd_lookup s i (perm_length _ Hp) Hi) as H.
  apply list_elem_of_lookup_2 in H. revert H. generalize (rd s i). intros x H.
  rewrite Hp in H.
  apply list_elem_of_fmap in H as (n & -> & Hn). apply elem_of_seq in Hn.
  unfold byte_ok. lia.
Qed.

Lemma init_s s k n :
  (k + n <= length s)%nat ->
  foldl (fun s n => <[n := Z.of_nat n]> s) s (seq k n) =
    take k s ++ (Z.of_nat <$> seq k n) ++ drop (k + n) s.
Proof.
  revert k s. induction n as [|n IH]; intros k s Hl; simpl.
  - by rewrite Nat.add_0_r, take_drop.
  - rewrite IH by (rewrite length_insert; lia).
    rewrite drop_insert_lt by lia.
    rewrite (take_S_r _ k (Z.of_nat k)) by (apply list_lookup_insert_eq; lia).
    rewrite take_insert_ge by lia. rewrite <- app_assoc.
    by replace (S k + n)%nat with (k + S n)%nat by lia.
Qed.

Lemma arc4_init_ok st : length (as_s st) = 256%nat -> stream_ok (arc4_init st).
Proof.
  intros Hl. unfold stream_ok, arc4_init, byte_ok. cbn [as_i as_j as_s].
  split; [lia|]. split; [lia|]. rewrite init_s by lia.
  rewrite take_0, drop_ge by (simpl; lia). by rewrite app_nil_r.
Qed.

Lemma addrandom_round_ok dat st n : stream_ok st -> stream_ok (addrandom_round dat st n).
Proof.
  intros (Hi & Hj & Hp). unfold addrandom_round, stream_ok; cbn [as_i as_j as_s].
  split; [apply u8_range|]. split; [apply u8_range|].
  apply swap_perm; [done|apply u8_range..].
Qed.

Lemma arc4_addrandom_ok dat st : stream_ok st -> stream_ok (arc4_addrandom st dat).
Proof.
  intros (Hi & Hj & Hp). unfold arc4_addrandom.
  apply (foldl_inv stream_ok); [intros; by apply addrandom_round_ok|].
  split; [apply u8_range|by split].
Qed.

Lemma land_255 x : Z.land x 255 = u8 x.
Proof. change 255 with (Z.ones 8). by apply Z.land_ones. Qed.

Lemma arc4_getbyte_ok st :
  stream_ok st -> byte_ok (arc4_getbyte st).1 /\ stream_ok (arc4_getbyte st).2.
Proof.
  intros (Hi & Hj & Hp).
  assert (Hs : wr (wr (as_s st) (u8 (as_i st + 1))
      (rd (as_s st) (u8 (as_j st + rd (as_s st) (u8 (as_i st + 1))))))
      (u8 (as_j st + rd (as_s st) (u8 (as_i st + 1)))) (rd (as_s st) (u8 (as_i st + 1)))
      ≡ₚ Z.of_nat <$> seq 0 256) by (apply swap_perm; [done|apply u8_range..]).
  split; cbn [arc4_getbyte fst snd].
  - apply rd_byte; [done|]. rewrite land_255. apply u8_range.
  - split; [apply u8_range|]. split; [apply u8_range|done].
Qed.

Lemma arc4_getbyte_eq st :
  stream_ok st -> exists b st', arc4_getbyte st = (b, st') /\ byte_ok b /\ stream_ok st'.
Proof.
  intros H. apply arc4_getbyte_ok in H as [Hb Hs]. destruct (arc4_getbyte st) as [b st'].
  by exists b, st'.
Qed.

Lemma arc4_getword_ok st :
  stream_ok st ->
  0 <= (arc4_getword st).1 < 2 ^ 32 /\ stream_ok (arc4_getword st).2.
Proof.
  intros H0. unfold arc4_getword.
  destruct (arc4_getbyte_eq st H0) as (b0 & s0 & -> & B0 & H1). cbn match.
  destruct (arc4_getbyte_eq s0 H1) as (b1 & s1 & -> & B1 & H2). cbn match.
  destruct (arc4_getbyte_eq s1 H2) as (b2 & s2 & -> & B2 & H3). cbn match.
  destruct (arc4_getbyte_eq s2 H3) as (b3 & s3 & -> & B3 & H4). cbn [fst snd].
  unfold byte_ok in *. split; [|done]. rewrite !Z.shiftl_mul_pow2 by lia.
  repeat apply lor_range; try lia. apply (u32_range (b0 * 2 ^ 24)).
Qed.

Lemma stir_rs_ok env g : rs_initialized g = true -> state_ok g -> state_ok (stir_rs env g).
Proof.
  unfold state_ok. intros Hi H. rewrite Hi in H.
  assert (Hmix : forall dat, stream_ok
    (foldl (fun st _ => snd (arc4_getbyte st)) (arc4_addrandom (rs g) dat) (seq 0 1024))).
  { intros dat. apply (foldl_inv stream_ok); [intros a _ Ha; by apply arc4_getbyte_ok|].
    by apply arc4_addrandom_ok. }
  unfold stir_rs, arc4_stir. destruct (se_urandom env); cbn [rs_initialized rs];
    rewrite Hi; [apply Hmix|exact H|apply Hmix].
Qed.

Lemma check_init_ok g :
  state_ok g -> rs_initialized (arc4_check_init g) = true /\ state_ok (arc4_check_init g).
Proof.
  unfold state_ok, arc4_check_init. destruct (rs_initialized g) eqn:E; [by rewrite E|].
  intros ->. split; [done|]. cbn [rs_initialized]. by apply arc4_init_ok.
Qed.

Lemma stir_rs_initialized env g : rs_initialized (stir_rs env g) = rs_initialized g.
Proof. unfold stir_rs. by destruct (arc4_stir env (rs g)). Qed.

Lemma ready_ok env g :
  state_ok g ->
  let g' := arc4_check_stir env (arc4_check_init g) in
  rs_initialized g' = true /\ rs_stired g' = true /\ stream_ok (rs g').
Proof.
  intros H. destruct (check_init_ok g H) as [Hi Hok]. simpl.
  set (h := arc4_check_init g) in *. unfold arc4_check_stir.
  destruct (rs_stired h) eqn:Es.
  - repeat split; try done; unfold state_ok in Hok; rewrite Hi in Hok; apply Hok.
  - pose proof (stir_rs_ok env h Hi Hok) as H'. cbn [rs_initialized rs_stired rs].
    unfold state_ok in H'. rewrite stir_rs_initialized, Hi in *.
    repeat split; try done; apply H'.
Qed.

Lemma arc4random_ok env g :
  state_ok g ->
  0 <= (arc4random env g).1 < 2 ^ 32 /\ state_ok (arc4random env g).2 /\
  rs_initialized (arc4random env g).2 = true.
Proof.
  intros H. destruct (ready_ok env g H) as (Hi & Hs & Hok). unfold arc4random.
  destruct (arc4_getword _) as [v st] eqn:E.
  pose proof (arc4_getword_ok _ Hok) as Hw. rewrite E in Hw. simpl.
  unfold state_ok; cbn [rs_initialized rs]. rewrite Hi. tauto.
Qed.

Lemma step_ok g g' : state_ok g -> step g g' -> state_ok g'.
Proof.
  intros H Hs. destruct Hs as [env g|env dat g|env g|env range g r g' E].
  - destruct (check_init_ok g H) as [Hi Hok]. by apply stir_rs_ok.
  - destruct (ready_ok env g H) as (Hi & Hs & Hok).
    unfold arc4random_addrandom, state_ok; cbn [rs_initialized rs]. rewrite Hi.
    by apply arc4_addrandom_ok.
  - by apply arc4random_ok.
  - pose proof (arc4random_ok env g H) as Hok. unfold arc4random_uniform in E.
    destruct (arc4random env g) as [v g1]. case_match; [done|]. injection E as <- <-.
    apply Hok.
Qed.

(** C37: after any sequence of calls of the interface the S-box of the stream
    is a permutation of 0..255 with byte indices (or the stream is still
    uninitialised), so that every table access is in range. *)
Theorem reachable_stream_ok g : reachable g -> state_ok g.
Proof.
  apply (rtc_ind_r (fun g => state_ok g)); [done|].
  intros x y _ Hxy Hx. by apply (step_ok x).
Qed.

Definition env_example : stir_env :=
  {| se_head := replicate 20 1; se_urandom := OpenFailed |}.

Lemma reachable_stream_ok_witness :
  state_ok (snd (arc4random env_example initial)).
Proof. apply reachable_stream_ok. apply rtc_once, step_random. Defined.


End Arc4.
