(* ===== verification/Quid.v ===== *)
(** * quid/quid.c and quid/itoa.c: identifiers

    Generation of identifiers from the system clock and the random stream of
    [Arc4], their printed forms, the recogniser [strquid_format] and the
    scanner [strtoquid] on the bytes of the destination object. *)
From S2P Require Import Prelude CLib Arc4.

Module Quid.

Definition QUID_LENGTH : nat := 38.
Definition SHORT_QUID_LENGTH : nat := 14.
Definition UIDS_PER_TICK : Z := 1024.
Definition EPOCH_DIFF : Z := 11644473600.
Definition QUID_VERSION_3 : Z := 0xa000.
Definition QUID_SIGNATURE : Z := 0x80.

Record quid_t := mk_quid {
  time_low : Z;
  time_mid : Z;
  time_hi_and_version : Z;
  clock_seq_hi_and_reserved : Z;
  clock_seq_low : Z;
  node : list Z }.

(** The packed layout of [struct quid] (LP64: [unsigned long] has 8 bytes). *)
Definition quid_bytes (q : quid_t) : list Z :=
  le_bytes 8 (time_low q) ++ le_bytes 2 (time_mid q) ++
  le_bytes 2 (time_hi_and_version q) ++
  [clock_seq_hi_and_reserved q] ++ [clock_seq_low q] ++ node q.

Definition sizeof_quid : nat := 20.

(** ** Clock *)

(** [gettimeofday]: seconds and microseconds. *)
Definition timeval : Type := Z * Z.

Definition get_system_time (tv : timeval) : Z :=
  let result := EPOCH_DIFF in
  let result := u64 (result + tv.1) in
  let result := u64 (result * 10000000) in
  u64 (result + tv.2 * 10).

(** The static variables of [get_current_time]. *)
Record clock := mk_clock { inited : bool; time_last : Z; ids_this_tick : Z }.
Definition clock0 : clock := mk_clock false 0 0.

(** The endless loop, reading the clock once per round; [None] when the given
    readings end before it stops. *)
Fixpoint tick_loop (tvs : list timeval) (last ids : Z) : option (Z * Z * Z * list timeval) :=
  match tvs with
  | [] => None
  | tv :: tvs' =>
      let time_now := get_system_time tv in
      if negb (last =? time_now) then Some (time_now, time_now, 0, tvs')
      else if ids <? UIDS_PER_TICK then Some (time_now, last, u16 (ids + 1), tvs')
      else tick_loop tvs' last ids
  end.

(** The timestamp, the new static variables and the unread clock readings. *)
Definition get_current_time (c : clock) (tvs : list timeval) : option (Z * clock * list timeval) :=
  '(ids, tvs) ←
    (if inited c then Some (ids_this_tick c, tvs)
     else match tvs with [] => None | _ :: tvs' => Some (UIDS_PER_TICK, tvs') end);
  '(now, last, ids, tvs) ← tick_loop tvs (time_last c) ids;
  Some (u64 (now + ids), mk_clock true last ids, tvs).

(** ** Creation *)
Section Create.
(** What the kernel answers when the random stream is stirred. *)
Context (env : Arc4.stir_env).

(** [uid->node[i] = arc4random()] for the first [n] bytes. *)
Fixpoint node_loop (n : nat) (g : Arc4.state) : list Z * Arc4.state :=
  match n with
  | O => ([], g)
  | S n' =>
      let '(r, g) := Arc4.arc4random env g in
      let '(l, g) := node_loop n' g in
      (u8 r :: l, g)
  end.

Definition make_node (g : Arc4.state) : list Z * Arc4.state :=
  let '(l, g) := node_loop 4 g in
  let '(r4, g) := Arc4.arc4random env g in
  let '(r5, g) := Arc4.arc4random env g in
  (l ++ [u8 (Z.land r4 0xf0); u8 (Z.land r5 0xff)], g).

Definition format_quid (clock_seq timestamp : Z) (g : Arc4.state) : quid_t * Arc4.state :=
  let low := Z.land timestamp 0xffffffff in
  let mid := u16 (Z.land (Z.shiftr timestamp 32) 0xffff) in
  let hi := u16 (Z.land (Z.shiftr timestamp 48) 0xfff) in
  let hi := Z.lxor hi QUID_SIGNATURE in
  let hi := Z.lor hi QUID_VERSION_3 in
  let cs_low := u8 (Z.land clock_seq 0xff) in
  let cs_hi := u8 (Z.shiftr (Z.land clock_seq 0x3f00) 8) in
  let cs_hi := Z.lor cs_hi QUID_SIGNATURE in
  let '(n, g) := make_node g in
  (mk_quid low mid hi cs_hi cs_low n, g).

Definition quid_create (c : clock) (tvs : list timeval) (g : Arc4.state) :
    option (quid_t * clock * list timeval * Arc4.state) :=
  '(timestamp, c, tvs) ← get_current_time c tvs;
  let '(r, g) := Arc4.arc4random env g in
  let clockseq := u16 r in
  let '(q, g) := format_quid clockseq timestamp g in
  Some (q, c, tvs, g).

Definition quid_short_create (g : Arc4.state) : list Z * Arc4.state := make_node g.

End Create.

(** The time stamp [quid_decode] reads back from an identifier. *)
Definition decode_timestamp (q : quid_t) : Z :=
  let low := u32 (time_low q) in
  let middle := time_mid q in
  let high := u16 (Z.lxor (time_hi_and_version q - QUID_VERSION_3) QUID_SIGNATURE) in
  low + middle * 2 ^ 32 + high * 2 ^ 48.

(** ** Comparison and text *)
Definition quidcmp (a b : quid_t) : Z := memcmp (quid_bytes a) (quid_bytes b).
Definition quid_shortcmp (a b : list Z) : Z := memcmp a b.

Definition hex (prec : nat) (x : Z) : list Z := fmt_prec 16 prec x.

(** The characters [snprintf] formats in [quidtostr]. *)
Definition quid_chars (u : quid_t) : list Z :=
  bs "{" ++ hex 8 (u32 (time_low u)) ++ bs "-" ++ hex 4 (time_mid u) ++ bs "-" ++
  hex 4 (time_hi_and_version u) ++ bs "-" ++
  hex 2 (clock_seq_hi_and_reserved u) ++ hex 2 (clock_seq_low u) ++ bs "-" ++
  (node u ≫= hex 2) ++ bs "}".

(** The bytes [quidtostr] stores at [s]. *)
Definition quidtostr (u : quid_t) : list Z := snprintf_out (QUID_LENGTH + 1) (quid_chars u).

Definition quid_shorttostr (n : list Z) : list Z :=
  snprintf_out (SHORT_QUID_LENGTH + 1) (bs "{" ++ (n ≫= hex 2) ++ bs "}").

(** The formats of [strtoquid]: offsets are those of the fields, the sizes
    those of the pointer types the arguments are cast to. *)
Definition quid_fmt_body : list directive :=
  [Num 16 8 8 0; Lit (ch "-"); Num 16 4 2 8; Lit (ch "-"); Num 16 4 2 10; Lit (ch "-");
   Num 16 2 2 12; Num 16 2 2 13; Lit (ch "-");
   Num 16 2 4 14; Num 16 2 4 15; Num 16 2 4 16; Num 16 2 4 17; Num 16 2 4 18; Num 16 2 4 19].

(** [strtoquid] on a string [s] and the object [m] that starts at [u];
    [None]: a store outside the object. *)
Definition strtoquid (s : list Z) (m : mem) : option mem :=
  let ssz := length s in
  if (ssz =? QUID_LENGTH)%nat then
    '(_, m) ← sscanf (Lit (ch "{") :: quid_fmt_body ++ [Lit (ch "}")]) s m; Some m
  else if (ssz =? QUID_LENGTH - 2)%nat then
    '(_, m) ← sscanf quid_fmt_body s m; Some m
  else Some m.

(** [strspn]: length of the longest prefix made of [set]'s characters. *)
Fixpoint strspn (s set : list Z) : nat :=
  match s with
  | c :: s' => if existsb (Z.eqb c) set then S (strspn s' set) else 0%nat
  | [] => 0%nat
  end.

(** [strchr(s + from, c)], as an index of [s]. *)
Fixpoint strchr_at (l : list Z) (pos : nat) (c : Z) : option nat :=
  match l with
  | [] => None
  | x :: l' => if x =? c then Some pos else strchr_at l' (S pos) c
  end.
Definition strchr (s : list Z) (from : nat) (c : Z) : option nat :=
  strchr_at (drop from s) from c.

(** The loop over hyphens: [None] when one stands at a position not in
    [allowed], else the number of hyphens. *)
Fixpoint hyphen_loop (fuel : nat) (s : list Z) (allowed : list nat)
    (pch : option nat) (nhyp : Z) : option Z :=
  match fuel, pch with
  | S f, Some phyp =>
      if existsb (Nat.eqb phyp) allowed
      then hyphen_loop f s allowed (strchr s (S phyp) (ch "-")) (nhyp + 1)
      else None
  | _, _ => Some nhyp
  end.

Definition strquid_format (s : list Z) : Z :=
  let ssz := length s in
  let hex_set := "-0123456789abcdefABCDEF" in
  if (ssz =? QUID_LENGTH)%nat then
    if negb (s !!! 0%nat =? ch "{") || negb (s !!! (QUID_LENGTH - 1)%nat =? ch "}") then 0
    else if negb (strspn s (bs ("{}" ++ hex_set)) =? ssz)%nat then 0
    else
      match hyphen_loop (S ssz) s [9; 14; 19; 24]%nat (strchr s 0 (ch "-")) 0 with
      | None => 0
      | Some nhyp => if negb (nhyp =? 4) then 0 else 1
      end
  else if (ssz =? QUID_LENGTH - 2)%nat then
    if negb (strspn s (bs hex_set) =? ssz)%nat then 0
    else
      match hyphen_loop (S ssz) s [8; 13; 18; 23]%nat (strchr s 0 (ch "-")) 0 with
      | None => 0
      | Some nhyp => if negb (nhyp =? 4) then 0 else 2
      end
  else 0.

(** ** itoa *)
Definition INT_DIGITS : nat := 19.

(** The [do ... while (i != 0)] loops, [d] being [i % 10] with its sign; the
    pointer is an index of [buf], and a store below the buffer is [None]. *)
Fixpoint itoa_loop (fuel : nat) (sign i : Z) (buf : mem) (p : nat) : option (mem * nat) :=
  match fuel with
  | O => None
  | S f =>
      match p with
      | O => None
      | S p' =>
          buf ← mstore buf p' [48 + sign * Z.rem i 10];
          let i := Z.quot i 10 in
          if i =? 0 then Some (buf, p') else itoa_loop f sign i buf p'
      end
  end.

(** The static buffer after the call and the returned pointer into it. *)
Definition itoa (buf : mem) (i : Z) : option (mem * nat) :=
  let p := (INT_DIGITS + 1)%nat in
  if 0 <=? i then itoa_loop 64 1 i buf p
  else
    '(buf, p) ← itoa_loop 64 (-1) i buf p;
    match p with
    | O => None
    | S p' => buf ← mstore buf p' [ch "-"]; Some (buf, p')
    end.


(** ** Well-formed identifiers *)
Definition quid_ok (q : quid_t) : Prop :=
  0 <= time_low q < 2 ^ 32 /\ 0 <= time_mid q < 2 ^ 16 /\
  0 <= time_hi_and_version q < 2 ^ 16 /\
  byte_ok (clock_seq_hi_and_reserved q) /\ byte_ok (clock_seq_low q) /\
  length (node q) = 6%nat /\ Forall byte_ok (node q).

(** The marks of version 3: version nibble, reserved bits, checkpoint mark. *)
Definition quid_marked (q : quid_t) : Prop :=
  Z.land (time_hi_and_version q) 0xf000 = 0xa000 /\
  Z.land (clock_seq_hi_and_reserved q) 0xc0 = 0x80 /\
  exists m, node q !! 4%nat = Some m /\ Z.land m 0x0f = 0.

Lemma node_loop_ok env n g :
  length (node_loop env n g).1 = n /\ Forall byte_ok (node_loop env n g).1.
Proof.
  revert g. induction n as [|n IH]; intros g; cbn [node_loop]; [done|].
  destruct (Arc4.arc4random env g) as [r g1].
  pose proof (IH g1) as H. destruct (node_loop env n g1) as [l g2]. simpl in *.
  destruct H as [Hl Hf]. split; [lia|]. constructor; [apply u8_range|done].
Qed.

Lemma make_node_ok env g :
  length (make_node env g).1 = 6%nat /\ Forall byte_ok (make_node env g).1 /\
  exists m, (make_node env g).1 !! 4%nat = Some m /\ Z.land m 0x0f = 0.
Proof.
  unfold make_node. pose proof (node_loop_ok env 4 g) as H.
  destruct (node_loop env 4 g) as [l g1]. destruct H as [Hl Hf]. cbn [fst] in *.
  destruct (Arc4.arc4random env g1) as [r4 g2].
  destruct (Arc4.arc4random env g2) as [r5 g3]. cbn [fst]. split; [|split].
  - rewrite length_app, Hl. done.
  - apply Forall_app_2; [done|]. repeat constructor; apply u8_range.
  - exists (u8 (Z.land r4 0xf0)). rewrite lookup_app_r, Hl by lia. split; [done|].
    unfold u8. rewrite <- Z.land_ones by lia.
    rewrite <- !Z.land_assoc. apply Z.land_0_r.
Qed.

(** All 4096 values of the upper time field. *)
Lemma hi_field h :
  0 <= h < 4096 ->
  let v := Z.lor (Z.lxor h QUID_SIGNATURE) QUID_VERSION_3 in
  0 <= v < 65536 /\ Z.land v 0xf000 = 0xa000 /\
  Z.lxor (v - QUID_VERSION_3) QUID_SIGNATURE = h.
Proof.
  intros Hh.
  assert (forallb (fun h =>
     let v := Z.lor (Z.lxor h QUID_SIGNATURE) QUID_VERSION_3 in
     (0 <=? v) && (v <? 65536) && (Z.land v 0xf000 =? 0xa000) &&
     (Z.lxor (v - QUID_VERSION_3) QUID_SIGNATURE =? h))
     (Z.of_nat <$> seq 0 4096) = true) as E by (vm_compute; reflexivity).
  pose proof (range_forallb _ _ E h ltac:(lia)) as H. cbv zeta beta in H.
  rewrite !andb_true_iff, !Z.eqb_eq, Z.leb_le, Z.ltb_lt in H. cbv zeta. tauto.
Qed.

(** All 64 values of the upper clock sequence field. *)
Lemma cs_field c :
  0 <= c < 64 ->
  byte_ok (Z.lor c QUID_SIGNATURE) /\ Z.land (Z.lor c QUID_SIGNATURE) 0xc0 = 0x80.
Proof.
  intros Hc.
  assert (forallb (fun c => (0 <=? Z.lor c QUID_SIGNATURE) && (Z.lor c QUID_SIGNATURE <? 256) &&
     (Z.land (Z.lor c QUID_SIGNATURE) 0xc0 =? 0x80)) (Z.of_nat <$> seq 0 64) = true) as E
     by (vm_compute; reflexivity).
  pose proof (range_forallb _ _ E c ltac:(lia)) as H. cbv beta in H.
  rewrite !andb_true_iff, Z.eqb_eq, Z.leb_le, Z.ltb_lt in H. unfold byte_ok. tauto.
Qed.

Lemma mask_range x w : 0 <= w -> 0 <= Z.land x (Z.ones w) < 2 ^ w.
Proof. intros. rewrite Z.land_ones by lia. apply Z.mod_pos_bound. lia. Qed.

Lemma cs_hi_range s : 0 <= Z.shiftr (Z.land s 0x3f00) 8 < 64.
Proof.
  rewrite Z.shiftr_land. change (Z.shiftr 0x3f00 8) with (Z.ones 6). by apply mask_range.
Qed.

Lemma format_quid_ok env cs ts g :
  quid_ok (format_quid env cs ts g).1 /\ quid_marked (format_quid env cs ts g).1.
Proof.
  unfold format_quid. pose proof (make_node_ok env g) as Hn.
  destruct (make_node env g) as [n g']. cbn [fst] in *. destruct Hn as (Hl & Hf & Hm).
  pose proof (mask_range (Z.shiftr ts 48) 12 ltac:(lia)) as Hh.
  change (Z.ones 12) with 0xfff in Hh.
  rewrite (u16_small (Z.land (Z.shiftr ts 48) _)) by lia.
  pose proof (hi_field _ Hh) as (Hv & Hver & _).
  pose proof (cs_hi_range cs) as Hc. rewrite (u8_small (Z.shiftr _ 8)) by lia.
  pose proof (cs_field _ Hc) as (Hcb & Hcm).
  split; unfold quid_ok, quid_marked; cbn [time_low time_mid time_hi_and_version
    clock_seq_hi_and_reserved clock_seq_low node].
  - split; [by apply (mask_range ts 32)|]. split; [apply u16_range|]. split; [lia|].
    split; [done|]. split; [apply u8_range|]. by split.
  - done.
Qed.

Lemma format_quid_timestamp env cs ts g :
  0 <= ts < 2 ^ 60 -> decode_timestamp (format_quid env cs ts g).1 = ts.
Proof.
  intros Hts. unfold format_quid, decode_timestamp.
  destruct (make_node env g) as [n g']. cbn [fst time_low time_mid time_hi_and_version].
  pose proof (mask_range (Z.shiftr ts 48) 12 ltac:(lia)) as Hh.
  change (Z.ones 12) with 0xfff in Hh. rewrite (u16_small (Z.land (Z.shiftr ts 48) _)) by lia.
  destruct (hi_field _ Hh) as (Hv & _ & ->). rewrite (u16_small (Z.land (Z.shiftr ts 48) _)) by lia.
  change 0xfff with (Z.ones 12). change 0xffffffff with (Z.ones 32).
  change 0xffff with (Z.ones 16). rewrite !Z.land_ones, !Z.shiftr_div_pow2 by lia.
  pose proof (Z.mod_pos_bound (ts / 2 ^ 32) (2 ^ 16) ltac:(lia)).
  pose proof (Z.mod_pos_bound ts (2 ^ 32) ltac:(lia)). rewrite u16_small, u32_small by lia.
  assert (0 <= ts / 2 ^ 48 < 2 ^ 12)
    by (split; [apply Z.div_pos; lia|apply Z.div_lt_upper_bound; lia]).
  rewrite (Z.mod_small (ts / 2 ^ 48)) by done.
  pose proof (Z.div_mod ts (2 ^ 32) ltac:(lia)).
  pose proof (Z.div_mod (ts / 2 ^ 32) (2 ^ 16) ltac:(lia)) as Hd2.
  rewrite Z.div_div in Hd2 by lia. change (2 ^ 32 * 2 ^ 16) with (2 ^ 48) in Hd2. lia.
Qed.

Lemma get_current_time_range c tvs ts c' tvs' :
  get_current_time c tvs = Some (ts, c', tvs') -> 0 <= ts < 2 ^ 64.
Proof.
  unfold get_current_time. intros H. inv_bind H. injection H as <- _ _. apply u64_range.
Qed.

Lemma quid_create_inv env c tvs g q c' tvs' g' :
  quid_create env c tvs g = Some (q, c', tvs', g') ->
  exists ts r g1, get_current_time c tvs = Some (ts, c', tvs') /\
    format_quid env (u16 r) ts g1 = (q, g').
Proof.
  unfold quid_create. destruct (get_current_time c tvs) as [[[ts c1] tvs1]|]; [|intros [=]].
  generalize (Arc4.arc4random env g). intros [r g1].
  cbn beta iota delta [mbind option_bind].
  destruct (format_quid env (u16 r) ts g1) as [q' g2] eqn:E. intros H.
  injection H as <- <- <- <-. exists ts, r, g1.
  split; [reflexivity|exact E].
Qed.

(** C36: Every identifier [quid_create] makes is well formed, bears the marks of
    version 3 and gives back the time stamp it was made from. *)
Theorem quid_create_spec env c tvs g q c' tvs' g' :
  quid_create env c tvs g = Some (q, c', tvs', g') ->
  quid_ok q /\ quid_marked q /\
  exists ts, get_current_time c tvs = Some (ts, c', tvs') /\
    (ts < 2 ^ 60 -> decode_timestamp q = ts).
Proof.
  intros H. apply quid_create_inv in H as (ts & r & g1 & Ets & Hf).
  destruct (format_quid_ok env (u16 r) ts g1) as [Hok Hm].
  pose proof (format_quid_timestamp env (u16 r) ts g1) as Hdec. rewrite Hf in *.
  split; [exact Hok|]. split; [exact Hm|]. exists ts. split; [exact Ets|].
  intros Hts. apply Hdec. split; [|exact Hts].
  exact (proj1 (get_current_time_range _ _ _ _ _ Ets)).
Qed.

(** A run at a fixed clock reading. *)
Definition created : option (quid_t * clock * list timeval * Arc4.state) :=
  Eval vm_compute in
    quid_create Arc4.env_example clock0 [(1450000000, 5); (1450000000, 5)] Arc4.initial.

Lemma created_eq :
  quid_create Arc4.env_example clock0 [(1450000000, 5); (1450000000, 5)] Arc4.initial = created.
Proof. vm_compute. reflexivity. Qed.

Definition example : quid_t :=
  Eval vm_compute in match created with Some (q, _, _, _) => q | None => mk_quid 0 0 0 0 0 [] end.

Lemma quid_create_spec_witness : quid_ok example /\ quid_marked example.
Proof.
  destruct (quid_create_spec _ _ _ _ _ _ _ _ created_eq) as (Hok & Hm & _).
  exact (conj Hok Hm).
Defined.

End Quid.
