(* ===== verification/QuidText.v ===== *)
(** * Identifiers as text

    The printer, the recogniser and the scanner of [Quid] against each other:
    what [quidtostr] prints is recognised and read back, what [strquid_format]
    accepts, and the three bytes [strtoquid] writes past its object. *)
From S2P Require Import Prelude CLib Arc4 Quid.

Module QuidText.
Import Quid.

(** ** Positions of a character *)
Fixpoint positions (c : Z) (l : list Z) (pos : nat) : list nat :=
  match l with
  | [] => []
  | x :: l' => if x =? c then pos :: positions c l' (S pos) else positions c l' (S pos)
  end.

Lemma positions_app c a b pos :
  positions c (a ++ b) pos = positions c a pos ++ positions c b (pos + length a).
Proof.
  revert pos. induction a as [|x a IH]; intros pos; simpl.
  - by rewrite Nat.add_0_r.
  - rewrite IH. replace (S pos + length a)%nat with (pos + S (length a))%nat by lia.
    by destruct (x =? c).
Qed.

Lemma positions_none c l pos : Forall (fun x => x <> c) l -> positions c l pos = [].
Proof.
  intros H. revert pos. induction H as [|x l Hx Hl IH]; intros pos; simpl; [done|].
  by rewrite (proj2 (Z.eqb_neq x c)).
Qed.

Lemma elem_of_positions c l pos i :
  i ∈ positions c l pos <-> exists k, i = (pos + k)%nat /\ l !! k = Some c.
Proof.
  revert pos. induction l as [|x l IH]; intros pos; simpl.
  - split; [by intros ?%not_elem_of_nil|by intros (k & _ & ?)].
  - assert (i ∈ positions c l (S pos) <-> exists k, i = (pos + S k)%nat /\ l !! k = Some c) as Hr.
    { rewrite IH. split; intros (k & -> & Hk); exists k; split; [lia|done|lia|done]. }
    destruct (Z.eqb_spec x c) as [->|Hne].
    + rewrite elem_of_cons, Hr. split.
      * intros [->|(k & -> & Hk)]; [exists 0%nat; split; [lia|done]|by exists (S k)].
      * intros ([|k] & -> & Hk); [left; lia|right; by exists k].
    + rewrite Hr. split; intros (k & -> & Hk); [by exists (S k)|].
      destruct k as [|k]; [simpl in Hk; congruence|by exists k].
Qed.

Lemma NoDup_positions c l pos : NoDup (positions c l pos).
Proof.
  revert pos. induction l as [|x l IH]; intros pos; simpl; [constructor|].
  destruct (x =? c); [|done]. constructor; [|done].
  rewrite elem_of_positions. intros (k & H & _). lia.
Qed.

Lemma strchr_at_positions l pos c : strchr_at l pos c = head (positions c l pos).
Proof.
  revert pos. induction l as [|x l IH]; intros pos; simpl; [done|].
  by destruct (x =? c).
Qed.

Lemma positions_cons_inv c l pos p ps :
  positions c l pos = p :: ps -> exists k, p = (pos + k)%nat /\ (k < length l)%nat /\
    ps = positions c (drop (S k) l) (S p).
Proof.
  revert pos. induction l as [|x l IH]; intros pos H; simpl in H; [done|].
  destruct (x =? c).
  - injection H as <- <-. exists 0%nat. simpl. rewrite drop_0.
    split; [lia|]. split; [lia|done].
  - apply IH in H as (k & -> & Hk & ->). exists (S k). simpl.
    split; [lia|]. split; [lia|done].
Qed.

(** The hyphen loop looks at every position, provided its fuel exceeds the
    number of characters left. *)
Lemma hyphen_loop_spec fuel s allowed from n :
  (length s < fuel + from)%nat -> (0 < fuel)%nat ->
  hyphen_loop fuel s allowed (strchr s from (ch "-")) n =
    (if forallb (fun p => existsb (Nat.eqb p) allowed) (positions (ch "-") (drop from s) from)
     then Some (n + Z.of_nat (length (positions (ch "-") (drop from s) from))) else None).
Proof.
  revert from n. induction fuel as [|f IH]; intros from n Hf H0; [lia|].
  unfold strchr. rewrite strchr_at_positions.
  destruct (positions (ch "-") (drop from s) from) as [|p ps] eqn:E; cbn [head hyphen_loop forallb].
  - by rewrite Z.add_0_r.
  - apply positions_cons_inv in E as (k & -> & Hk & ->). rewrite length_drop in Hk.
    destruct (existsb _ allowed); [|done]. rewrite drop_drop.
    replace (from + S k)%nat with (S (from + k)) by lia.
    rewrite IH by lia. cbn [andb]. destruct (forallb _ _); [|done]. f_equal. simpl. lia.
Qed.

Lemma strspn_full s set :
  strspn s set = length s <-> Forall (fun c => c ∈ set) s.
Proof.
  assert (Hm : forall c, existsb (Z.eqb c) set = true <-> c ∈ set).
  { intros c. rewrite existsb_exists, list_elem_of_In. split.
    - intros (x & Hx & Hc). apply Z.eqb_eq in Hc. by subst.
    - intros Hc. exists c. by rewrite Z.eqb_refl. }
  induction s as [|c s IH]; simpl; [by split|].
  rewrite Forall_cons, <- Hm. destruct (existsb (Z.eqb c) set).
  - rewrite <- IH. split; [by intros [= ->]|by intros [_ ->]].
  - split; [done|by intros [? _]].
Qed.

(** The set of positions holding a hyphen, read off the loop's answer. *)
Lemma positions_exact s allowed :
  NoDup allowed ->
  forallb (fun p => existsb (Nat.eqb p) allowed) (positions (ch "-") s 0) = true /\
  length (positions (ch "-") s 0) = length allowed <->
  (forall i, s !! i = Some (ch "-") <-> i ∈ allowed).
Proof.
  intros Hnd. set (ps := positions (ch "-") s 0).
  assert (Hps : forall i, i ∈ ps <-> s !! i = Some (ch "-")).
  { intros i. unfold ps. rewrite elem_of_positions. split.
    - by intros (k & -> & Hk).
    - intros Hi. by exists i. }
  assert (Hall : forallb (fun p => existsb (Nat.eqb p) allowed) ps = true <->
                 (forall i, i ∈ ps -> i ∈ allowed)).
  { rewrite forallb_forall. setoid_rewrite existsb_exists. split.
    - intros H i Hi. apply list_elem_of_In in Hi. apply H in Hi as (x & Hx & Hi).
      apply Nat.eqb_eq in Hi. subst. by apply list_elem_of_In.
    - intros H i Hi. exists i. rewrite Nat.eqb_refl. split; [|done].
      apply list_elem_of_In, H. by apply list_elem_of_In. }
  rewrite Hall. setoid_rewrite <- Hps. split.
  - intros [Hsub Hlen].
    assert (ps ≡ₚ allowed) as Hp.
    { apply submseteq_length_Permutation; [|lia].
      apply NoDup_submseteq; [apply NoDup_positions|done]. }
    intros i. by rewrite Hp.
  - intros H. split; [by intros i; apply H|]. apply Permutation_length.
    apply NoDup_Permutation; [apply NoDup_positions|done|done].
Qed.

Definition hex_set : list Z := bs "-0123456789abcdefABCDEF".
Definition brace_set : list Z := bs "{}-0123456789abcdefABCDEF".

Lemma strquid_format_1_iff s :
  strquid_format s = 1 <->
  length s = 38%nat /\ s !! 0%nat = Some (ch "{") /\ s !! 37%nat = Some (ch "}") /\
  Forall (fun c => c ∈ brace_set) s /\
  (forall i, s !! i = Some (ch "-") <-> i ∈ [9; 14; 19; 24]%nat).
Proof.
  rewrite <- positions_exact by (apply (bool_decide_unpack _); reflexivity).
  unfold strquid_format. destruct (Nat.eqb_spec (length s) QUID_LENGTH) as [Hl|Hl].
  2:{ assert (length s <> 38%nat) by done.
      destruct (length s =? QUID_LENGTH - 2)%nat; [|split; [done|tauto]].
      repeat case_match; split; (discriminate || tauto). }
  unfold QUID_LENGTH in *. simpl Nat.sub.
  rewrite (list_lookup_lookup_total_lt s 0), (list_lookup_lookup_total_lt s 37) by lia.
  destruct (Z.eqb_spec (s !!! 0%nat) (ch "{")) as [->|H0]; cbn [negb orb];
    [|split; [done|intros (_ & [= ?] & _); congruence]].
  destruct (Z.eqb_spec (s !!! 37%nat) (ch "}")) as [->|H1]; cbn [negb orb];
    [|split; [done|intros (_ & _ & [= ?] & _); congruence]].
  rewrite hyphen_loop_spec, drop_0 by lia. fold brace_set.
  change (bs ("{}" ++ _)) with brace_set.
  destruct (Nat.eqb_spec (strspn s brace_set) (length s)) as [Hs|Hs]; rewrite strspn_full in Hs;
    cbn [negb]; [|split; [done|tauto]].
  destruct (forallb _ _) eqn:Hf; [|split; [done|intros (_ & _ & _ & _ & ? & _); done]].
  rewrite Z.add_0_l. destruct (Z.eqb_spec (Z.of_nat (length (positions (ch "-") s 0))) 4);
    cbn [negb]; simpl length in *; split; intros H; (discriminate || lia || intuition lia).
Qed.

(** What [strquid_format] accepts as the braced form: 38 characters, braces at
    the ends, hyphens exactly at 9, 14, 19 and 24, and otherwise only
    hexadecimal digits or braces. *)
Theorem strquid_format_braced s :
  strquid_format s = 1 <->
  length s = 38%nat /\ s !! 0%nat = Some (ch "{") /\ s !! 37%nat = Some (ch "}") /\
  Forall (fun c => c ∈ brace_set) s /\
  (forall i, s !! i = Some (ch "-") <-> i ∈ [9; 14; 19; 24]%nat).
Proof. exact (strquid_format_1_iff s). Qed.

(** ** The printed form *)
Definition plain (c : Z) : Prop := c <> ch "-" /\ c <> 0 /\ c ∈ hex_set /\ c ∈ brace_set.

Lemma digit_char_plainb d : 0 <= d < 16 -> plain (digit_char d).
Proof.
  intros Hd.
  assert (forallb (fun d => negb (digit_char d =? ch "-") && negb (digit_char d =? 0) &&
      existsb (Z.eqb (digit_char d)) hex_set && existsb (Z.eqb (digit_char d)) brace_set)
      (Z.of_nat <$> seq 0 16) = true) as E by (vm_compute; reflexivity).
  pose proof (range_forallb _ _ E d ltac:(lia)) as H. cbv beta in H.
  rewrite !andb_true_iff, !negb_true_iff, !Z.eqb_neq, !existsb_exists in H.
  destruct H as [[[H1 H2] (x & Hx & Ex)] (y & Hy & Ey)].
  apply Z.eqb_eq in Ex, Ey. subst. split; [done|]. split; [done|].
  by split; apply list_elem_of_In.
Qed.

Lemma hex_plain w x :
  (0 < w <= 16)%nat -> 0 <= x < 16 ^ Z.of_nat w ->
  length (hex w x) = w /\ Forall plain (hex w x).
Proof.
  intros Hw Hx.
  assert (16 ^ Z.of_nat w <= 16 ^ 16) by (apply Z.pow_le_mono_r; lia).
  destruct (fmt_prec_digits 16 w x) as (ds & E & Hok & Hl & _); [lia..|].
  unfold hex. rewrite E, length_fmap. split; [done|]. apply Forall_fmap.
  eapply Forall_impl; [exact Hok|]. intros d Hd. by apply digit_char_plainb.
Qed.

Lemma hex_bind_plain l :
  Forall byte_ok l -> length (l ≫= hex 2) = (2 * length l)%nat /\ Forall plain (l ≫= hex 2).
Proof.
  induction 1 as [|x l Hx Hl [IHl IHf]]; [done|]. cbn [mbind list_bind].
  destruct (hex_plain 2 x) as [Hlx Hfx]; [lia|unfold byte_ok in Hx; pow_lia|].
  rewrite length_app, Hlx, IHl. simpl length. split; [lia|]. by apply Forall_app_2.
Qed.

(** The fields of an identifier as blocks of digits between separators. *)
Lemma quid_chars_blocks q :
  quid_ok q -> exists b1 b2 b3 b4 b5,
    quid_chars q = bs "{" ++ b1 ++ bs "-" ++ b2 ++ bs "-" ++ b3 ++ bs "-" ++ b4 ++
                   bs "-" ++ b5 ++ bs "}" /\
    length b1 = 8%nat /\ length b2 = 4%nat /\ length b3 = 4%nat /\ length b4 = 4%nat /\
    length b5 = 12%nat /\ Forall plain (b1 ++ b2 ++ b3 ++ b4 ++ b5).
Proof.
  intros (Hlo & Hmid & Hhi & Hch & Hcl & Hln & Hfn). unfold byte_ok in *.
  pose proof (u32_range (time_low q)).
  destruct (hex_plain 8 (u32 (time_low q))) as [L1 F1]; [lia|pow_lia|].
  destruct (hex_plain 4 (time_mid q)) as [L2 F2]; [lia|pow_lia|].
  destruct (hex_plain 4 (time_hi_and_version q)) as [L3 F3]; [lia|pow_lia|].
  destruct (hex_plain 2 (clock_seq_hi_and_reserved q)) as [L4 F4]; [lia|pow_lia|].
  destruct (hex_plain 2 (clock_seq_low q)) as [L5 F5]; [lia|pow_lia|].
  destruct (hex_bind_plain (node q) Hfn) as [L6 F6].
  exists (hex 8 (u32 (time_low q))), (hex 4 (time_mid q)), (hex 4 (time_hi_and_version q)),
    (hex 2 (clock_seq_hi_and_reserved q) ++ hex 2 (clock_seq_low q)), (node q ≫= hex 2).
  split; [unfold quid_chars; by rewrite <- app_assoc|]. rewrite !length_app, L1, L2, L3, L4, L5, L6, Hln.
  do 5 (split; [reflexivity|]). repeat apply Forall_app_2; assumption.
Qed.

Lemma quid_chars_length q : quid_ok q -> length (quid_chars q) = 38%nat.
Proof.
  intros H. destruct (quid_chars_blocks q H) as (b1 & b2 & b3 & b4 & b5 & -> & L1 & L2 & L3 & L4 & L5 & _).
  rewrite !length_app, L1, L2, L3, L4, L5. reflexivity.
Qed.

Lemma Forall_plain_brace b : Forall plain b -> Forall (fun c => c ∈ brace_set) b.
Proof. intros H. eapply Forall_impl; [exact H|]. intros c Hc. apply Hc. Qed.

Lemma Forall_plain_hyphen b : Forall plain b -> Forall (fun c => c <> ch "-") b.
Proof. intros H. eapply Forall_impl; [exact H|]. intros c Hc. apply Hc. Qed.

(** The printed form of a well-formed identifier fills the 39 bytes of the
    buffer exactly (NUL included) and [strquid_format] recognises it. *)
Theorem quidtostr_recognised q :
  quid_ok q ->
  quidtostr q = quid_chars q ++ [0] /\ length (quidtostr q) = 39%nat /\
  strquid_format (quid_chars q) = 1.
Proof.
  intros H. pose proof (quid_chars_length q H) as Hl. split; [|split].
  - unfold quidtostr. change (QUID_LENGTH + 1)%nat with 39%nat. cbn [snprintf_out]. by rewrite take_ge by lia.
  - unfold quidtostr. change (QUID_LENGTH + 1)%nat with 39%nat. cbn [snprintf_out].
    rewrite length_app, length_take, Hl. reflexivity.
  - apply strquid_format_1_iff. split; [done|].
    rewrite <- positions_exact by (apply (bool_decide_unpack _); reflexivity).
    destruct (quid_chars_blocks q H) as (b1 & b2 & b3 & b4 & b5 & -> & L1 & L2 & L3 & L4 & L5 & F).
    rewrite !Forall_app in F. destruct F as (F1 & F2 & F3 & F4 & F5).
    split; [reflexivity|]. split.
    { rewrite !app_assoc. rewrite lookup_app_r; rewrite !length_app, L1, L2, L3, L4, L5;
        [reflexivity|simpl; lia]. }
    split.
    { repeat apply Forall_app_2; try (by apply Forall_plain_brace);
        apply (bool_decide_unpack _); reflexivity. }
    rewrite !positions_app, !length_app, L1, L2, L3, L4, L5.
    rewrite !(positions_none (ch "-") b1), !(positions_none (ch "-") b2),
      !(positions_none (ch "-") b3), !(positions_none (ch "-") b4),
      !(positions_none (ch "-") b5) by (by apply Forall_plain_hyphen).
    split; reflexivity.
Qed.

Lemma example_ok : quid_ok example.
Proof.
  unfold quid_ok, byte_ok, example. cbn.
  repeat split; repeat constructor; unfold byte_ok; lia.
Qed.

Lemma quidtostr_recognised_witness :
  quid_ok example /\ strquid_format (quid_chars example) = 1.
Proof. split; [exact example_ok|]. apply (quidtostr_recognised example example_ok). Defined.

(** ** Reading back *)

Lemma sscanf_hex w n off fmt x r m :
  (0 < w <= 16)%nat -> 0 <= x < 16 ^ Z.of_nat w -> x < 2 ^ 64 -> (off + n <= length m)%nat ->
  sscanf (Num 16 w n off :: fmt) (hex w x ++ r) m =
    ('(k, m') ← sscanf fmt r (take off m ++ le_bytes n x ++ drop (off + n) m); Some (S k, m')).
Proof.
  intros Hw Hx Hx' Hm. cbn [sscanf]. unfold hex.
  rewrite scan_num_fmt_prec by lia. rewrite mstore_Some; rewrite le_bytes_length; done.
Qed.

Lemma sscanf_lit c fmt r m : sscanf (Lit c :: fmt) (c :: r) m = sscanf fmt r m.
Proof. cbn [sscanf]. by rewrite Z.eqb_refl. Qed.

Lemma sscanf_hex_oob w n off fmt x r m :
  (0 < w <= 16)%nat -> 0 <= x < 16 ^ Z.of_nat w -> x < 2 ^ 64 -> (length m < off + n)%nat ->
  sscanf (Num 16 w n off :: fmt) (hex w x ++ r) m = None.
Proof.
  intros Hw Hx Hx' Hm. cbn [sscanf]. unfold hex. rewrite scan_num_fmt_prec by lia.
  unfold mstore. rewrite le_bytes_length, decide_False by lia. done.
Qed.

(** The text between the braces, fields and separators in the order of the
    format. *)
Lemma quid_chars_body q :
  quid_ok q -> exists n0 n1 n2 n3 n4 n5,
    node q = [n0; n1; n2; n3; n4; n5] /\
    quid_chars q = ch "{" :: (hex 8 (time_low q) ++ ch "-" :: hex 4 (time_mid q) ++ ch "-" ::
      hex 4 (time_hi_and_version q) ++ ch "-" :: hex 2 (clock_seq_hi_and_reserved q) ++
      hex 2 (clock_seq_low q) ++ ch "-" ::
      hex 2 n0 ++ hex 2 n1 ++ hex 2 n2 ++ hex 2 n3 ++ hex 2 n4 ++ hex 2 n5 ++ [ch "}"]).
Proof.
  intros (Hlo & _ & _ & _ & _ & Hl & _). unfold quid_chars.
  destruct (node q) as [|n0 [|n1 [|n2 [|n3 [|n4 [|n5 [|]]]]]]]; try discriminate Hl.
  exists n0, n1, n2, n3, n4, n5. split; [reflexivity|].
  rewrite (u32_small (time_low q)) by lia. cbn [mbind list_bind].
  rewrite app_nil_r, <- !app_assoc. reflexivity.
Qed.

(** One conversion of a field whose range is in the context. *)
Ltac scan_step :=
  match goal with
  | |- context [sscanf (Num 16 _ _ _ :: _) (hex _ _ ++ _) _] =>
      first
        [ rewrite sscanf_hex by (first [lia | pow_lia | (cbn [length app take drop le_bytes]; lia)])
        | rewrite sscanf_hex_oob by (first [lia | pow_lia | (cbn [length app take drop le_bytes]; lia)]) ];
      cbn [take drop app le_bytes Nat.add mbind option_bind]
  | |- context [sscanf (Lit _ :: _) (_ :: _) _] => rewrite sscanf_lit
  end.

(** Runs the format of [strtoquid] over the body of a printed identifier, for
    an object with [m] bytes after the 20 of the structure. *)
Ltac scan_body q H m :=
  destruct (quid_chars_body q H) as (n0 & n1 & n2 & n3 & n4 & n5 & Hn & Hq);
  destruct H as (Hlo & Hmid & Hhi & Hch & Hcl & _ & Hf); unfold byte_ok in *;
  rewrite Hn in Hf; rewrite !Forall_cons in Hf; destruct Hf as (H0 & H1 & H2 & H3 & H4 & H5 & _);
  do 20 (destruct m as [|? m]; [cbn [length] in *; lia|]).

(** Reading back what [quidtostr] printed restores the 20 bytes of the
    identifier and clears the three bytes that follow it. *)
Theorem strtoquid_quidtostr q m :
  quid_ok q -> (23 <= length m)%nat ->
  strtoquid (quid_chars q) m = Some (quid_bytes q ++ replicate 3 0 ++ drop 23 m).
Proof.
  intros H Hm. unfold strtoquid. rewrite quid_chars_length by exact H. cbn [Nat.eqb QUID_LENGTH].
  scan_body q H m. do 3 (destruct m as [|? m]; [cbn [length] in *; lia|]).
  rewrite Hq. unfold quid_fmt_body. cbn [app].
  repeat scan_step. cbn [sscanf mbind option_bind].
  unfold quid_bytes. rewrite Hn. cbn [le_bytes app replicate drop].
  rewrite (Z.mod_small (clock_seq_hi_and_reserved q)), (Z.mod_small (clock_seq_low q)),
    (Z.mod_small n0), (Z.mod_small n1), (Z.mod_small n2), (Z.mod_small n3),
    (Z.mod_small n4), (Z.mod_small n5), (Z.div_small n5) by lia. reflexivity.
Qed.

Lemma strtoquid_quidtostr_witness :
  quid_ok example /\
  strtoquid (quid_chars example) (replicate 24 7) = Some (quid_bytes example ++ [0; 0; 0; 7]).
Proof.
  split; [exact example_ok|].
  exact (strtoquid_quidtostr example (replicate 24 7) example_ok ltac:(simpl; lia)).
Defined.

(** On an object that is exactly a [quid_t], as every caller passes, scanning
    a printed identifier stores outside the object. *)
Theorem strtoquid_overflow q m :
  quid_ok q -> length m = sizeof_quid -> strtoquid (quid_chars q) m = None.
Proof.
  intros H Hm. unfold strtoquid. rewrite quid_chars_length by exact H. cbn [Nat.eqb QUID_LENGTH].
  unfold sizeof_quid in Hm. scan_body q H m. destruct m; [|discriminate Hm].
  rewrite Hq. unfold quid_fmt_body. cbn [app]. repeat scan_step. reflexivity.
Qed.

Lemma strtoquid_overflow_witness :
  quid_ok example /\ strtoquid (quid_chars example) (replicate sizeof_quid 0) = None.
Proof.
  split; [exact example_ok|].
  exact (strtoquid_overflow example (replicate sizeof_quid 0) example_ok eq_refl).
Defined.

(** The recogniser accepts strings the scanner reads nothing from: the object
    keeps whatever it held. *)
Theorem strquid_format_accepts_unscannable :
  exists s, strquid_format s = 1 /\ forall m, strtoquid s m = Some m.
Proof.
  exists (bs "{{{{{{{{{-{{{{-{{{{-{{{{-{{{{{{{{{{{{}"). split; [vm_compute; reflexivity|].
  intros m. reflexivity.
Qed.

End QuidText.
