(* ===== verification/QuidClock.v ===== *)
(** * The identifier clock and itoa

    Facts on [get_current_time] (how time stamps grow within a tick, when the
    loop ends, when stamps repeat) and the correctness of [itoa] on its static
    buffer. *)
From S2P Require Import Prelude CLib Arc4 Quid.

Module QuidClock.
Import Quid.

Definition clock_ok (c : clock) : Prop := 0 <= ids_this_tick c <= UIDS_PER_TICK.

Lemma tick_loop_spec tvs last ids now last' ids' tvs' :
  0 <= ids <= UIDS_PER_TICK ->
  tick_loop tvs last ids = Some (now, last', ids', tvs') ->
  last' = now /\ 0 <= ids' <= UIDS_PER_TICK /\ (exists tv, tv ∈ tvs /\ now = get_system_time tv) /\
  (now = last /\ ids' = ids + 1 \/ now <> last /\ ids' = 0).
Proof.
  unfold UIDS_PER_TICK. induction tvs as [|tv tvs IH]; intros Hi H; cbn [tick_loop] in H; [discriminate|].
  destruct (Z.eqb_spec last (get_system_time tv)) as [He|He]; cbn [negb] in H.
  - destruct (Z.ltb_spec ids UIDS_PER_TICK) as [Hlt|Hge]; unfold UIDS_PER_TICK in *.
    + injection H as <- <- <- <-. rewrite u16_small by lia.
      split; [exact He|]. split; [lia|]. split; [|left; split; [symmetry; exact He|reflexivity]].
      exists tv. split; [left|reflexivity].
    + destruct (IH Hi H) as (H1 & H2 & (tv' & Hin & Heq) & H3).
      split; [exact H1|]. split; [exact H2|]. split; [|exact H3].
      exists tv'. split; [by right|exact Heq].
  - injection H as <- <- <- <-. split; [reflexivity|]. split; [lia|].
    split; [|right; split; [congruence|reflexivity]].
    exists tv. split; [left|reflexivity].
Qed.

Lemma get_current_time_inv c tvs ts c' tvs' :
  clock_ok c -> get_current_time c tvs = Some (ts, c', tvs') ->
  clock_ok c' /\ inited c' = true /\ ts = u64 (time_last c' + ids_this_tick c') /\
  (exists tv, tv ∈ tvs /\ time_last c' = get_system_time tv) /\
  (inited c = true -> time_last c' = time_last c -> ids_this_tick c' = ids_this_tick c + 1) /\
  (time_last c' <> time_last c -> ids_this_tick c' = 0).
Proof.
  intros Hc H. unfold get_current_time in H. inv_bind H. injection H as <- <- <-.
  assert (Ha : 0 <= a <= UIDS_PER_TICK).
  { destruct (inited c); [injection E as <- <-; exact Hc|].
    destruct tvs as [|tv tvs]; [discriminate E|]. injection E as <- <-.
    unfold UIDS_PER_TICK. lia. }
  destruct (tick_loop_spec _ _ _ _ _ _ _ Ha E0) as (-> & Hi & (tv & Hin & Htv) & Hor).
  cbn [time_last ids_this_tick inited]. unfold clock_ok. cbn [ids_this_tick].
  split; [exact Hi|]. split; [reflexivity|]. split; [reflexivity|]. split.
  { exists tv. split; [|exact Htv]. destruct (inited c); [injection E as <- <-; exact Hin|].
    destruct tvs as [|tv0 tvs]; [discriminate E|]. injection E as <- <-. by right. }
  split.
  - intros Hin' Heq. rewrite Hin' in E. injection E as <- <-.
    destruct Hor as [[_ ?]|[? _]]; [assumption|contradiction].
  - intros Hne. destruct Hor as [[? _]|[_ ?]]; [contradiction|assumption].
Qed.

(** A time stamp is a clock reading plus at most [UIDS_PER_TICK]; as long as
    the clock reading stays the same each stamp is its predecessor plus one. *)
Theorem timestamps_within_tick c tvs ts1 c1 tvs1 ts2 c2 tvs2 :
  clock_ok c ->
  get_current_time c tvs = Some (ts1, c1, tvs1) ->
  get_current_time c1 tvs1 = Some (ts2, c2, tvs2) ->
  time_last c1 < 2 ^ 63 ->
  (exists tv, tv ∈ tvs /\ get_system_time tv <= ts1 <= get_system_time tv + UIDS_PER_TICK) /\
  (time_last c2 = time_last c1 -> ts2 = ts1 + 1).
Proof.
  intros Hc H1 H2 Hlt.
  destruct (get_current_time_inv _ _ _ _ _ Hc H1) as (Hc1 & Hi1 & -> & (tv & Hin & Htv) & _).
  destruct (get_current_time_inv _ _ _ _ _ Hc1 H2) as (Hc2 & Hi2 & -> & _ & Hs & _).
  assert (0 <= time_last c1) by (rewrite Htv; apply u64_range).
  unfold clock_ok, UIDS_PER_TICK in *. rewrite (u64_small (time_last c1 + _)) by lia. split.
  - exists tv. split; [exact Hin|]. rewrite <- Htv. lia.
  - intros He. specialize (Hs Hi1 He). rewrite He, Hs. rewrite u64_small by lia. lia.
Qed.

Lemma timestamps_within_tick_witness :
  exists c1 tvs1 c2 tvs2,
    get_current_time clock0 [(0, 0); (0, 0); (0, 0)] = Some (116444736000000000, c1, tvs1) /\
    get_current_time c1 tvs1 = Some (116444736000000001, c2, tvs2) /\
    (time_last c2 = time_last c1 -> 116444736000000001 = 116444736000000000 + 1).
Proof.
  do 4 eexists. split; [reflexivity|]. split; [reflexivity|].
  eapply (timestamps_within_tick clock0 [(0, 0); (0, 0); (0, 0)]);
    [vm_compute; split; discriminate|reflexivity|reflexivity|reflexivity].
Defined.

(** The endless loop stops as soon as the clock has moved: one reading other
    than the last tick is enough. *)
Theorem get_current_time_returns c tvs tv :
  inited c = true -> tv ∈ tvs -> get_system_time tv <> time_last c ->
  is_Some (get_current_time c tvs).
Proof.
  intros Hi Hin Hne. unfold get_current_time. rewrite Hi. cbn [mbind option_bind].
  enough (is_Some (tick_loop tvs (time_last c) (ids_this_tick c))) as ([[[? ?] ?] ?] & ->)
    by (eexists; reflexivity).
  generalize (ids_this_tick c). induction tvs as [|tv' tvs IH]; intros ids; cbn [tick_loop].
  - by apply not_elem_of_nil in Hin.
  - destruct (Z.eqb_spec (time_last c) (get_system_time tv')) as [E|_]; cbn [negb]; [|by eexists].
    destruct (_ <? _); [by eexists|]. apply IH.
    apply elem_of_cons in Hin as [->|Hin]; [congruence|exact Hin].
Qed.

Lemma get_current_time_returns_witness :
  is_Some (get_current_time (mk_clock true 116444736000000000 1024) [(0, 0); (0, 1)]).
Proof.
  apply (get_current_time_returns _ _ (0, 1)); [reflexivity| |vm_compute; discriminate].
  right. left.
Defined.

(** [n] successive stamps. *)
Fixpoint timestamps (n : nat) (c : clock) (tvs : list timeval) : option (list Z) :=
  match n with
  | O => Some []
  | S n' =>
      '(ts, c, tvs) ← get_current_time c tvs;
      l ← timestamps n' c tvs; Some (ts :: l)
  end.

(** Stamps are not unique: a microsecond is ten ticks, so the eleventh stamp
    made in one microsecond equals the first made in the next. *)
Theorem timestamps_repeat :
  exists tvs l, timestamps 12 clock0 tvs = Some l /\ ~ NoDup l.
Proof.
  exists (replicate 12 (0, 0) ++ [(0, 1)]). eexists. split; [vm_compute; reflexivity|].
  intros H. apply (bool_decide_pack _) in H. vm_compute in H. exact H.
Qed.

(** ** itoa *)

(** The decimal text of an integer. *)
Definition decimal (i : Z) : list Z :=
  (if i <? 0 then [ch "-"] else []) ++ (digit_char <$> digits 10 (Z.abs i)).

Lemma itoa_loop_spec fuel sign x acc pre suf :
  sign = 1 \/ sign = -1 -> 0 <= x < 10 ^ Z.of_nat fuel -> (0 < fuel)%nat ->
  (length (digits_aux fuel 10 x acc) - length acc <= length pre)%nat ->
  itoa_loop fuel sign (sign * x) (pre ++ (digit_char <$> acc) ++ suf) (length pre) =
    let k := (length pre - (length (digits_aux fuel 10 x acc) - length acc))%nat in
    Some (take k pre ++ (digit_char <$> digits_aux fuel 10 x acc) ++ suf, k).
Proof.
  intros Hs. revert x acc pre. induction fuel as [|f IH]; intros x acc pre Hx Hf Hl; [lia|].
  destruct (digits_aux_spec (S f) 10 x acc) as (ds & Eds & _ & Hne & _); [lia|done|done|].
  destruct pre as [|z pre0 _] using rev_ind.
  { rewrite Eds, length_app in Hl. destruct ds; [done|]. simpl in Hl. lia. }
  rewrite length_app in *. cbn [length] in *. rewrite Nat.add_1_r in *. cbn [itoa_loop].
  assert (Hrem : 48 + sign * Z.rem (sign * x) 10 = digit_char (x `mod` 10)).
  { pose proof (Z.mod_pos_bound x 10 ltac:(lia)). unfold digit_char.
    rewrite (proj2 (Z.ltb_lt _ _)) by lia.
    destruct Hs as [-> | ->].
    - rewrite !Z.mul_1_l, Z.rem_mod_nonneg; lia.
    - replace (-1 * x) with (- x) by lia. rewrite Z.rem_opp_l by lia.
      rewrite Z.rem_mod_nonneg; lia. }
  assert (Hquot : Z.quot (sign * x) 10 = sign * (x / 10)).
  { destruct Hs as [-> | ->].
    - rewrite !Z.mul_1_l, Z.quot_div_nonneg; lia.
    - replace (-1 * x) with (- x) by lia. rewrite Z.quot_opp_l by lia.
      rewrite Z.quot_div_nonneg; lia. }
  rewrite Hrem, Hquot, <- app_assoc.
  rewrite (mstore_app_mid pre0 [z] _ [digit_char (x `mod` 10)]) by done.
  cbn [mbind option_bind]. cbn [digits_aux] in *.
  destruct (Z.ltb_spec x 10) as [Hlt|Hge].
  - rewrite Z.div_small, Z.mul_0_r by lia. cbn [Z.eqb]. rewrite Z.mod_small by lia.
    cbn [length fmap list_fmap]. replace (S (length pre0) - _)%nat with (length pre0) by lia.
    rewrite take_app_length. reflexivity.
  - assert (1 <= x / 10) by (apply Z.div_le_lower_bound; lia).
    destruct (Z.eqb_spec (sign * (x / 10)) 0); [lia|].
    rewrite Nat2Z.inj_succ, Z.pow_succ_r in Hx by lia.
    destruct (Nat.eq_dec f 0%nat) as [->|Hf0]; [change (10 ^ Z.of_nat 0) with 1 in Hx; lia|].
    assert (Hx' : 0 <= x / 10 < 10 ^ Z.of_nat f)
      by (split; [lia|apply Z.div_lt_upper_bound; lia]).
    destruct (digits_aux_spec f 10 (x / 10) (x `mod` 10 :: acc)) as (ds' & Eds' & _ & _ & _);
      [lia|done|lia|].
    etransitivity; [apply (IH (x / 10) (x `mod` 10 :: acc) pre0); [done|lia|]|].
    2:{ cbn zeta. cbn [length]. rewrite Eds', !length_app. cbn [length].
      rewrite Eds', length_app in Hl. cbn [length] in Hl.
      replace (S (length pre0) - _)%nat with (length pre0 - length ds')%nat by lia.
      replace (length pre0 - _)%nat with (length pre0 - length ds')%nat by lia.
      rewrite take_app_le by lia. reflexivity. }
    rewrite Eds', length_app in *. cbn [length] in *. lia.
Qed.

Lemma decimal_scan i :
  - 2 ^ 63 <= i < 2 ^ 63 -> scan_num 10 (length (decimal i)) (decimal i) = Some (i, []).
Proof.
  intros Hi. destruct (digits_spec 10 (Z.abs i)) as (Hok & Hne & Hv & _); [lia|lia|].
  pose proof (scan_num_digits 10 (digits 10 (Z.abs i)) [] ltac:(lia) Hok Hne) as H.
  rewrite app_nil_r, Hv in H. unfold decimal.
  destruct (Z.ltb_spec i 0) as [Hneg|Hpos]; cbn [app length].
  - rewrite length_fmap. unfold scan_num. cbn [skip_space].
    replace (isspace (ch "-")) with false by reflexivity. rewrite Z.eqb_refl.
    destruct (digits 10 (Z.abs i)) as [|d ds] eqn:E; [done|].
    pose proof (scan_digits_spec 10 (d :: ds) 0 [] ltac:(lia) Hok) as Hs.
    rewrite app_nil_r, Hv in Hs.
    replace (10 =? 16) with false by reflexivity. cbn [andb].
    destruct ds as [|d' ds]; cbn [length fmap list_fmap] in *; rewrite Hs; do 2 f_equal; lia.
  - rewrite length_fmap, H. do 2 f_equal. lia.
Qed.

Lemma decimal_nonzero i : - 2 ^ 63 <= i < 2 ^ 63 -> Forall (fun c => c <> 0) (decimal i).
Proof.
  intros Hi. destruct (digits_spec 10 (Z.abs i)) as (Hok & _ & _ & _); [lia|lia|].
  unfold decimal. apply Forall_app_2.
  - destruct (i <? 0); repeat constructor. discriminate.
  - apply Forall_fmap. eapply Forall_impl; [exact Hok|]. intros d Hd.
    unfold compose. cbn beta in *. pose proof (digit_char_range d). lia.
Qed.

(** Reading the text off a buffer that ends with it. *)
Lemma text_at_end pre s :
  length (pre ++ s ++ [0]) = 21%nat -> Forall (fun c => c <> 0) s ->
  (pre ++ s ++ [0]) !! 20%nat = Some 0 /\ cstr (drop (length pre) (pre ++ s ++ [0])) = Some s.
Proof.
  rewrite !length_app. cbn [length]. intros Hl Hs. split.
  - rewrite app_assoc, lookup_app_r; rewrite length_app; [|lia].
    replace (20 - _)%nat with 0%nat by lia. reflexivity.
  - rewrite drop_app_length. by apply cstr_app_nul.
Qed.

(** The loop of [itoa] on the whole buffer: the digits of [|i|] end at the
    final NUL. *)
Lemma itoa_loop_buffer sign x buf :
  sign = 1 \/ sign = -1 -> 0 <= x <= 2 ^ 63 -> length buf = 21%nat -> buf !! 20%nat = Some 0 ->
  (length (digits 10 x) <= 19)%nat /\
  itoa_loop 64 sign (sign * x) buf 20 =
    let k := (20 - length (digits 10 x))%nat in
    Some (take k buf ++ (digit_char <$> digits 10 x) ++ [0], k).
Proof.
  intros Hs Hx Hl H0. destruct (digits_spec 10 x) as (_ & _ & _ & Hlen); [lia|lia|].
  assert (Hk : (length (digits 10 x) <= 19)%nat) by (apply Hlen; [lia|pow_lia]).
  split; [exact Hk|].
  assert (Hb : buf = take 20 buf ++ [0]).
  { rewrite <- (take_drop 20 buf) at 1. f_equal.
    rewrite (drop_S buf 0 20) by done. by rewrite drop_ge by lia. }
  pose proof (itoa_loop_spec 64 sign x [] (take 20 buf) [0] Hs) as H.
  cbn [fmap list_fmap app length] in H. rewrite <- Hb, length_take in H.
  replace (20 `min` length buf)%nat with 20%nat in H by lia.
  fold (digits 10 x) in H. rewrite Nat.sub_0_r in H. cbn zeta in *.
  rewrite take_take, Nat.min_l in H by lia. apply H; [|lia|lia]. pow_lia.
Qed.

(** For every [long], [itoa] stays inside its 21-byte static buffer and
    returns a pointer to the NUL-terminated decimal text of the number, which
    scans back to it. *)
Theorem itoa_correct i buf :
  - 2 ^ 63 <= i < 2 ^ 63 -> length buf = 21%nat -> buf !! 20%nat = Some 0 ->
  exists buf' p,
    itoa buf i = Some (buf', p) /\ length buf' = 21%nat /\ buf' !! 20%nat = Some 0 /\
    cstr (drop p buf') = Some (decimal i) /\
    scan_num 10 (length (decimal i)) (decimal i) = Some (i, []).
Proof.
  intros Hi Hl H0. pose proof (decimal_scan i Hi) as Hscan.
  pose proof (decimal_nonzero i Hi) as Hnz.
  enough (exists pre, length (pre ++ decimal i ++ [0]) = 21%nat /\
            itoa buf i = Some (pre ++ decimal i ++ [0], length pre)) as (pre & Hpl & ->).
  { destruct (text_at_end pre (decimal i) Hpl Hnz) as [H1 H2].
    exists (pre ++ decimal i ++ [0]), (length pre). tauto. }
  unfold itoa, decimal. change (INT_DIGITS + 1)%nat with 20%nat.
  destruct (Z.leb_spec 0 i) as [Hpos|Hneg].
  - rewrite (proj2 (Z.ltb_ge i 0)) by lia. cbn [app].
    replace (itoa_loop 64 1 i buf 20) with (itoa_loop 64 1 (1 * Z.abs i) buf 20)
      by (f_equal; lia).
    destruct (itoa_loop_buffer 1 (Z.abs i) buf) as [Hk ->]; [by left|lia|done|done|].
    cbn zeta. exists (take (20 - length (digits 10 (Z.abs i))) buf).
    rewrite !length_app, length_fmap, length_take. cbn [length]. split; [lia|].
    do 2 f_equal. lia.
  - rewrite (proj2 (Z.ltb_lt i 0)) by lia.
    replace (itoa_loop 64 (-1) i buf 20) with (itoa_loop 64 (-1) (-1 * Z.abs i) buf 20)
      by (f_equal; lia).
    destruct (itoa_loop_buffer (-1) (Z.abs i) buf) as [Hk ->]; [by right|lia|done|done|].
    cbn zeta. set (ds := digits 10 (Z.abs i)) in *. cbn [mbind option_bind].
    destruct (20 - length ds)%nat as [|k] eqn:Ek; [lia|]. exists (take k buf).
    destruct (lookup_lt_is_Some_2 buf k) as [z Hz]; [lia|].
    rewrite (take_S_r buf k z Hz).
    pose proof (length_take buf k) as Htk. rewrite Nat.min_l in Htk by lia.
    pose proof (mstore_app_mid (take k buf) [z] ((digit_char <$> ds) ++ [0]) [ch "-"] eq_refl)
      as Hst.
    rewrite Htk in Hst. rewrite <- !app_assoc, Hst. cbn [mbind option_bind].
    rewrite !length_app, length_fmap, Htk. cbn [length]. split; [lia|reflexivity].
Qed.

Lemma itoa_correct_witness :
  exists buf' p, itoa (replicate 21 0) (- 2 ^ 63) = Some (buf', p) /\
    cstr (drop p buf') = Some (bs "-9223372036854775808").
Proof.
  destruct (itoa_correct (- 2 ^ 63) (replicate 21 0)) as (buf' & p & H1 & _ & _ & H2 & _);
    [lia|reflexivity|reflexivity|]. exists buf', p. split; [exact H1|exact H2].
Defined.

End QuidClock.
