(* ===== verification/Base64.v ===== *)
(** * mumux/base64.c: the encoder of the WebSocket handshake

    The encoder writes through a moving output pointer; the model collects the
    bytes it writes.  A reference encoding and decoder on triplets are the
    specification. *)
From S2P Require Import Prelude CLib.

Module Base64.

Definition BASE64_QUADS_BEFORE_LINEBREAK : Z := 19.

Definition wby_base64_bufsize (input_size : Z) : Z :=
  let triplets := u64 (input_size + 2) / 3 in
  let base_size := u64 (4 * triplets) in
  let line_breaks := u64 (2 * (triplets / BASE64_QUADS_BEFORE_LINEBREAK)) in
  let null_termination := 1 in
  u64 (base_size + line_breaks + null_termination).

Definition enc : list Z :=
  bs "ABCDEFGHIJKLMNOPQRSTUVWXYZabcdefghijklmnopqrstuvwxyz0123456789+/=".

(** [i < input_size ? input[i] : 0] *)
Definition input_at (input : list Z) (i : nat) : Z :=
  match input !! i with Some c => c | None => 0 end.

(** The four characters one round of the loop stores, [i] being the index
    at its start. *)
Definition quad (input : list Z) (i : nat) : list Z :=
  let i0 := u32 (Z.shiftl (input_at input i) 16) in
  let i0 := Z.lor i0 (u32 (Z.shiftl (input_at input (i + 1)) 8)) in
  let i0 := Z.lor i0 (input_at input (i + 2)) in
  let idx_0 := Z.shiftr (Z.land i0 0xfc0000) 18 in let i0 := u32 (Z.shiftl i0 6) in
  let idx_1 := Z.shiftr (Z.land i0 0xfc0000) 18 in let i0 := u32 (Z.shiftl i0 6) in
  let idx_2 := Z.shiftr (Z.land i0 0xfc0000) 18 in let i0 := u32 (Z.shiftl i0 6) in
  let idx_3 := Z.shiftr (Z.land i0 0xfc0000) 18 in
  let idx_2 := if (length input <? i + 3 - 1)%nat then 64 else idx_2 in
  let idx_3 := if (length input <? i + 3)%nat then 64 else idx_3 in
  (fun idx => enc !!! Z.to_nat idx) <$> [idx_0; idx_1; idx_2; idx_3].

(** The [while (i < input_size)] loop: the bytes stored from here on. *)
Fixpoint encode_loop (fuel : nat) (input : list Z) (i : nat) (line_out : Z) : list Z :=
  match fuel with
  | O => []
  | S f =>
      if (i <? length input)%nat then
        let line_out := line_out + 1 in
        quad input i ++
        (if line_out =? BASE64_QUADS_BEFORE_LINEBREAK then bs (String "013" (String "010" "")) else []) ++
        encode_loop f input (i + 3) line_out
      else []
  end.

(** The return value and the bytes stored at [output]. *)
Definition wby_base64_encode (output_size : Z) (input : list Z) : Z * list Z :=
  if output_size <? wby_base64_bufsize (Z.of_nat (length input)) then (1, [])
  else (0, encode_loop (S (length input)) input 0 0 ++ [0]).

(** ** Reference: base64 by triplets *)
Definition sym (i : Z) : Z := enc !!! Z.to_nat i.

Fixpoint spec_quads (l : list Z) : list (list Z) :=
  match l with
  | a :: b :: c :: l' =>
      [sym (a / 4); sym (a `mod` 4 * 16 + b / 16); sym (b `mod` 16 * 4 + c / 64); sym (c `mod` 64)]
        :: spec_quads l'
  | [a; b] => [[sym (a / 4); sym (a `mod` 4 * 16 + b / 16); sym (b `mod` 16 * 4); ch "="]]
  | [a] => [[sym (a / 4); sym (a `mod` 4 * 16); ch "="; ch "="]]
  | [] => []
  end.

(** The value of a symbol. *)
Fixpoint index_of (c : Z) (l : list Z) (pos : Z) : option Z :=
  match l with
  | [] => None
  | x :: l' => if x =? c then Some pos else index_of c l' (pos + 1)
  end.
Definition val (c : Z) : option Z := index_of c (take 64 enc) 0.

Definition decode_quad (q : list Z) : option (list Z) :=
  match q with
  | [s0; s1; s2; s3] =>
      v0 ← val s0; v1 ← val s1;
      if s2 =? ch "=" then Some [v0 * 4 + v1 / 16]
      else
        v2 ← val s2;
        if s3 =? ch "=" then Some [v0 * 4 + v1 / 16; v1 `mod` 16 * 16 + v2 / 4]
        else v3 ← val s3; Some [v0 * 4 + v1 / 16; v1 `mod` 16 * 16 + v2 / 4; v2 `mod` 4 * 64 + v3]
  | _ => None
  end.

Fixpoint decode (qs : list (list Z)) : option (list Z) :=
  match qs with
  | [] => Some []
  | q :: qs' => l ← decode_quad q; r ← decode qs'; Some (l ++ r)
  end.

(** Where the encoder breaks lines: only after the nineteenth quad. *)
Definition layout (qs : list (list Z)) : list Z :=
  if (19 <=? length qs)%nat
  then concat (take 19 qs) ++ [13; 10] ++ concat (drop 19 qs) else concat qs.

(** ** The quads *)
Lemma six_bits x : Z.shiftr (Z.land x 0xfc0000) 18 = (x / 2 ^ 18) `mod` 64.
Proof.
  rewrite Z.shiftr_land. change (Z.shiftr 0xfc0000 18) with (Z.ones 6).
  rewrite Z.land_ones, Z.shiftr_div_pow2 by lia. reflexivity.
Qed.

Lemma pack_bytes a b c :
  byte_ok a -> byte_ok b -> byte_ok c ->
  Z.lor (Z.lor (u32 (Z.shiftl a 16)) (u32 (Z.shiftl b 8))) c = a * 65536 + b * 256 + c.
Proof.
  unfold byte_ok. intros Ha Hb Hc. rewrite !Z.shiftl_mul_pow2 by lia. wrap_small.
  rewrite (Z.lor_comm (a * _)), <- (Z.shiftl_mul_pow2 a), (lor_disjoint_add _ a 16) by lia.
  rewrite Z.lor_comm. replace (b * 2 ^ 8 + a * 2 ^ 16) with (Z.shiftl (b + a * 256) 8)
    by (rewrite Z.shiftl_mul_pow2; lia).
  rewrite lor_disjoint_add by lia. lia.
Qed.

(** The indices of the four symbols, by division. *)
Lemma quad_indices a b c :
  byte_ok a -> byte_ok b -> byte_ok c ->
  let x := a * 65536 + b * 256 + c in
  let x1 := u32 (Z.shiftl x 6) in let x2 := u32 (Z.shiftl x1 6) in let x3 := u32 (Z.shiftl x2 6) in
  (x / 2 ^ 18) `mod` 64 = a / 4 /\
  (x1 / 2 ^ 18) `mod` 64 = a `mod` 4 * 16 + b / 16 /\
  (x2 / 2 ^ 18) `mod` 64 = b `mod` 16 * 4 + c / 64 /\
  (x3 / 2 ^ 18) `mod` 64 = c `mod` 64.
Proof.
  unfold byte_ok, u32. intros Ha Hb Hc. cbv zeta. rewrite !Z.shiftl_mul_pow2 by lia.
  repeat split; Z.div_mod_to_equations; lia.
Qed.

Lemma input_at_lookup input i c : input !! i = Some c -> input_at input i = c.
Proof. unfold input_at. by intros ->. Qed.

Lemma input_at_end input i : (length input <= i)%nat -> input_at input i = 0.
Proof. intros H. unfold input_at. by rewrite lookup_ge_None_2. Qed.

(** The loop's quad at position [i] is the reference quad of the bytes left. *)
Lemma quad_spec pre l :
  Forall byte_ok l -> l <> [] ->
  exists qs, spec_quads l = quad (pre ++ l) (length pre) :: qs /\ qs = spec_quads (drop 3 l).
Proof.
  intros Hl Hne. unfold quad.
  assert (forall k, input_at (pre ++ l) (length pre + k) = input_at l k) as Hat.
  { intros k. unfold input_at. rewrite lookup_app_r by lia.
    by replace (length pre + k - length pre)%nat with k by lia. }
  pose proof (Hat 0%nat) as Hat0. rewrite Nat.add_0_r in Hat0. rewrite Hat0, !Hat.
  assert (Hb : forall k, byte_ok (input_at l k)).
  { intros k. unfold input_at. destruct (l !! k) eqn:E; [|unfold byte_ok; lia].
    eapply Forall_lookup_1; [exact Hl|exact E]. }
  rewrite pack_bytes by apply Hb.
  pose proof (quad_indices _ _ _ (Hb 0%nat) (Hb 1%nat) (Hb 2%nat)) as (E0 & E1 & E2 & E3).
  cbv zeta in *. rewrite !six_bits, E0, E1, E2, E3, length_app.
  replace (length pre + length l <? length pre + 3 - 1)%nat with (length l <? 2)%nat
    by (apply eq_iff_eq_true; rewrite !Nat.ltb_lt; lia).
  replace (length pre + length l <? length pre + 3)%nat with (length l <? 3)%nat
    by (apply eq_iff_eq_true; rewrite !Nat.ltb_lt; lia).
  destruct l as [|a [|b [|c l]]]; [done|..]; cbn [spec_quads length drop]; eexists;
    (split; [|reflexivity]).
  - unfold input_at. cbn. rewrite Z.add_0_r. reflexivity.
  - unfold input_at. cbn. rewrite Z.add_0_r. reflexivity.
  - reflexivity.
Qed.

(** The loop lays out the reference quads, breaking after the nineteenth. *)
Lemma encode_loop_spec fuel pre l k :
  Forall byte_ok l -> (length l < fuel)%nat ->
  encode_loop fuel (pre ++ l) (length pre) (Z.of_nat k) =
    if (k <? 19)%nat && (19 <=? k + length (spec_quads l))%nat
    then concat (take (19 - k) (spec_quads l)) ++ [13; 10] ++ concat (drop (19 - k) (spec_quads l))
    else concat (spec_quads l).
Proof.
  revert pre l k. induction fuel as [|f IH]; intros pre l k Hl Hf; [lia|]. cbn [encode_loop].
  destruct (decide (l = [])) as [->|Hne].
  { rewrite app_nil_r, (proj2 (Nat.ltb_ge _ _)) by lia. cbn [spec_quads length].
    destruct (k <? 19)%nat eqn:Ek; [|done]. apply Nat.ltb_lt in Ek.
    rewrite (proj2 (Nat.leb_gt _ _)) by lia. done. }
  assert (length l <> 0%nat) by (by destruct l).
  rewrite length_app, (proj2 (Nat.ltb_lt _ _)) by lia.
  destruct (quad_spec pre l Hl Hne) as (qs & Eq & ->). rewrite Eq.
  assert (Henc : encode_loop f (pre ++ l) (length pre + 3) (Z.of_nat k + 1) =
    if (S k <? 19)%nat && (19 <=? S k + length (spec_quads (drop 3 l)))%nat
    then concat (take (19 - S k) (spec_quads (drop 3 l))) ++ [13; 10] ++
         concat (drop (19 - S k) (spec_quads (drop 3 l)))
    else concat (spec_quads (drop 3 l))).
  { destruct (decide (length l <= 3)%nat) as [Hs|Hs].
    - rewrite (drop_ge l 3) by lia. destruct f as [|f]; [lia|]. cbn [encode_loop].
      rewrite length_app, (proj2 (Nat.ltb_ge _ _)) by lia. cbn [spec_quads length concat].
      rewrite Nat.add_0_r. destruct (S k <? 19)%nat eqn:E1; [|done].
      apply Nat.ltb_lt in E1. by rewrite (proj2 (Nat.leb_gt _ _)) by lia.
    - rewrite <- (take_drop 3 l) at 1. rewrite app_assoc.
      replace (length pre + 3)%nat with (length (pre ++ take 3 l))
        by (rewrite length_app, length_take; lia).
      replace (Z.of_nat k + 1) with (Z.of_nat (S k)) by lia.
      apply IH; [by apply Forall_drop|rewrite length_drop; lia]. }
  rewrite Henc. cbn [length]. clear. unfold BASE64_QUADS_BEFORE_LINEBREAK.
  set (q := quad _ _). set (qs := spec_quads _).
  destruct (Z.eqb_spec (Z.of_nat k + 1) 19) as [Hk|Hk].
  - replace k with 18%nat by lia. cbn. rewrite ?drop_0, ?app_nil_r, <- ?app_assoc. reflexivity.
  - destruct (Nat.ltb_spec k 19) as [H1|H1]; cbn [andb].
    + rewrite (proj2 (Nat.ltb_lt (S k) 19)) by lia. cbn [andb].
      replace (k + S (length qs))%nat with (S k + length qs)%nat by lia.
      destruct (19 <=? _)%nat; [|done].
      replace (19 - k)%nat with (S (19 - S k)) by lia. cbn [take drop concat]. by rewrite <- app_assoc.
    + rewrite (proj2 (Nat.ltb_ge (S k) 19)) by lia. done.
Qed.

Lemma spec_quads_length l : length (spec_quads l) = ((length l + 2) / 3)%nat.
Proof.
  induction l as [l IH] using (induction_ltof1 _ (@length Z)). unfold ltof in IH.
  destruct l as [|a [|b [|c l]]]; try reflexivity. cbn [spec_quads length].
  rewrite IH by (simpl; lia). replace (S (S (S (length l))) + 2)%nat with (1 * 3 + (length l + 2))%nat by lia.
  rewrite Nat.div_add_l by lia. lia.
Qed.

Lemma spec_quads_4 l : Forall (fun q => length q = 4%nat) (spec_quads l).
Proof.
  induction l as [l IH] using (induction_ltof1 _ (@length Z)). unfold ltof in IH.
  destruct l as [|a [|b [|c l]]]; cbn [spec_quads]; repeat constructor.
  apply IH. simpl. lia.
Qed.

Lemma concat_length_4 (qs : list (list Z)) :
  Forall (fun q => length q = 4%nat) qs -> length (concat qs) = (4 * length qs)%nat.
Proof. induction 1 as [|q qs Hq Hqs IH]; [done|]. cbn. rewrite length_app, Hq, IH. lia. Qed.

Lemma layout_length l :
  length (layout (spec_quads l)) =
    (4 * length (spec_quads l) + if 19 <=? length (spec_quads l) then 2 else 0)%nat.
Proof.
  pose proof (spec_quads_4 l) as H4. unfold layout. destruct (19 <=? _)%nat eqn:E.
  - rewrite !length_app, !concat_length_4 by (by apply Forall_take || apply Forall_drop).
    rewrite length_take, length_drop. apply Nat.leb_le in E. cbn [length]. lia.
  - rewrite concat_length_4 by done. lia.
Qed.

(** ** Decoding *)
Lemma val_sym i : 0 <= i < 64 -> val (sym i) = Some i /\ (sym i =? ch "=") = false.
Proof.
  intros Hi.
  assert (forallb (fun i => bool_decide (val (sym i) = Some i) && negb (sym i =? ch "="))
    (Z.of_nat <$> seq 0 64) = true) as E by (vm_compute; reflexivity).
  pose proof (range_forallb _ _ E i ltac:(lia)) as H. cbv beta in H.
  rewrite andb_true_iff, negb_true_iff in H. destruct H as [H1 H2].
  split; [by apply bool_decide_eq_true in H1|done].
Qed.

Lemma decode_spec_quads l : Forall byte_ok l -> decode (spec_quads l) = Some l.
Proof.
  induction l as [l IH] using (induction_ltof1 _ (@length Z)). unfold ltof in IH. intros Hl.
  destruct l as [|a [|b [|c l]]]; cbn [spec_quads decode]; [done|..];
    repeat match goal with H : Forall byte_ok (_ :: _) |- _ => inversion_clear H end;
    unfold byte_ok in *; unfold decode_quad;
    repeat match goal with
    | |- context [val (sym ?i)] =>
        destruct (val_sym i) as [-> ?]; [Z.div_mod_to_equations; lia|]
    | H : (sym ?i =? ch "=") = false |- context [sym ?i =? ch "="] => rewrite H
    end; rewrite ?Z.eqb_refl; cbn [mbind option_bind app].
  - do 2 f_equal. Z.div_mod_to_equations; lia.
  - do 2 f_equal; [|f_equal]; Z.div_mod_to_equations; lia.
  - rewrite IH; [|simpl; lia|done]. cbn [mbind option_bind app]. f_equal.
    repeat f_equal; Z.div_mod_to_equations; lia.
Qed.

(** No quad contains a NUL. *)
Lemma sym_nonzero i : 0 <= i < 64 -> sym i <> 0.
Proof.
  intros Hi. assert (E : forallb (fun i => negb (sym i =? 0)) (Z.of_nat <$> seq 0 64) = true)
    by (vm_compute; reflexivity).
  pose proof (range_forallb _ _ E i ltac:(lia)) as H. by apply negb_true_iff, Z.eqb_neq in H.
Qed.

Lemma spec_quads_nonzero l : Forall byte_ok l -> Forall (Forall (fun c => c <> 0)) (spec_quads l).
Proof.
  induction l as [l IH] using (induction_ltof1 _ (@length Z)). unfold ltof in IH. intros Hl.
  destruct l as [|a [|b [|c l]]]; cbn [spec_quads]; [constructor|..];
    repeat match goal with H : Forall byte_ok (_ :: _) |- _ => inversion_clear H end;
    unfold byte_ok in *; (constructor; [|try constructor; try (apply IH; [simpl; lia|done])]);
    repeat (constructor; [first [apply sym_nonzero; Z.div_mod_to_equations; lia|discriminate]|]);
    constructor.
Qed.

Lemma encode_value output_size input :
  Forall byte_ok input ->
  wby_base64_bufsize (Z.of_nat (length input)) <= output_size ->
  wby_base64_encode output_size input = (0, layout (spec_quads input) ++ [0]).
Proof.
  intros Hb Hs. unfold wby_base64_encode. rewrite (proj2 (Z.ltb_ge _ _)) by done.
  do 2 f_equal. apply (encode_loop_spec (S (length input)) [] input 0); [done|lia].
Qed.

(** C34: The encoder stores the reference quads of the input, broken once after the
    nineteenth, and a NUL; the quads decode to the input. *)
Theorem base64_encode_correct output_size input :
  Forall byte_ok input ->
  wby_base64_bufsize (Z.of_nat (length input)) <= output_size ->
  wby_base64_encode output_size input = (0, layout (spec_quads input) ++ [0]) /\
  decode (spec_quads input) = Some input.
Proof.
  intros Hb Hs. split; [by apply encode_value|by apply decode_spec_quads].
Qed.

Lemma base64_encode_correct_witness :
  wby_base64_encode 64 (bs "any carnal pleas") = (0, bs "YW55IGNhcm5hbCBwbGVhcw==" ++ [0]).
Proof.
  refine (proj1 (base64_encode_correct 64 (bs "any carnal pleas") _ _)); [|vm_compute; discriminate].
  apply (bool_decide_unpack _). vm_compute. exact I.
Defined.

(** Every byte stored lies in the buffer whose size the caller states; a
    buffer smaller than [wby_base64_bufsize] is refused and left alone. *)
Theorem base64_encode_in_bounds output_size input :
  Forall byte_ok input -> Z.of_nat (length input) < 2 ^ 60 ->
  let '(ret, out) := wby_base64_encode output_size input in
  Z.of_nat (length out) <= Z.max 0 output_size /\ (ret = 0 \/ ret = 1 /\ out = []).
Proof.
  intros Hb Hn. destruct (wby_base64_encode output_size input) as [ret out] eqn:E.
  destruct (Z.ltb_spec output_size (wby_base64_bufsize (Z.of_nat (length input)))) as [Hlt|Hge].
  - unfold wby_base64_encode in E. rewrite (proj2 (Z.ltb_lt _ _)) in E by done.
    injection E as <- <-. simpl. split; [lia|by right].
  - rewrite (encode_value output_size input Hb Hge) in E. injection E as <- <-. split; [|by left].
    rewrite length_app, layout_length, spec_quads_length. cbn [length].
    assert (Hq : Z.of_nat ((length input + 2) / 3) = (Z.of_nat (length input) + 2) / 3)
      by (rewrite Nat2Z.inj_div; f_equal; lia).
    set (t := ((length input + 2) / 3)%nat) in *.
    assert (0 <= (Z.of_nat (length input) + 2) / 3 < 2 ^ 59)
      by (Z.div_mod_to_equations; lia).
    unfold wby_base64_bufsize in Hge. rewrite (u64_small (Z.of_nat _ + 2)), <- Hq in Hge by lia.
    unfold BASE64_QUADS_BEFORE_LINEBREAK in Hge.
    assert (0 <= Z.of_nat t / 19 <= Z.of_nat t) by (Z.div_mod_to_equations; lia).
    rewrite !u64_small in Hge; [|rewrite ?u64_small; lia..].
    destruct (Nat.leb_spec 19 t); [|lia].
    assert (1 <= Z.of_nat t / 19) by (apply Z.div_le_lower_bound; lia). lia.
Qed.

Lemma base64_encode_in_bounds_witness :
  (let '(ret, out) := wby_base64_encode 29 (replicate 20 255) in
   Z.of_nat (length out) <= Z.max 0 29 /\ (ret = 0 \/ ret = 1 /\ out = [])).
Proof.
  apply (base64_encode_in_bounds 29 (replicate 20 255)); [|vm_compute; reflexivity].
  apply (bool_decide_unpack _). vm_compute. exact I.
Defined.

End Base64.
