(* ===== verification/Sha1.v ===== *)
(** * mumux/sha.c: the streaming SHA-1 of the WebSocket handshake

    The compression function, the buffered [update] and the padding [final],
    and their refinement of FIPS 180, whose padding, schedule, functions,
    constants and steps are defined here on their own ([fips_hash]). *)
From S2P Require Import Prelude CLib.

Module Sha1.

Definition wby_sha1_rol (value bits : Z) : Z :=
  Z.lor (u32 (Z.shiftl value bits)) (Z.shiftr value (32 - bits)).

(** ** Compression *)
Definition word_at (block : list Z) (i : nat) : Z :=
  let b k := block !!! (i * 4 + k)%nat in
  Z.lor (Z.lor (Z.lor (u32 (Z.shiftl (b 0%nat) 24)) (u32 (Z.shiftl (b 1%nat) 16)))
               (u32 (Z.shiftl (b 2%nat) 8))) (b 3%nat).

(** The message schedule [w[80]]. *)
Definition schedule (block : list Z) : list Z :=
  let w16 := word_at block <$> seq 0 16 in
  foldl (fun w i =>
    w ++ [wby_sha1_rol (Z.lxor (Z.lxor (Z.lxor (w !!! (i - 3)%nat) (w !!! (i - 8)%nat))
                                       (w !!! (i - 14)%nat)) (w !!! (i - 16)%nat)) 1])
    w16 (seq 16 64).

Record vars := mk_vars { va : Z; vb : Z; vc : Z; vd : Z; ve : Z }.

(** [SHA1_LOOP(start, end, func, constant)] *)
Definition sha1_loop (w : list Z) (start n : nat) (func : Z -> Z -> Z -> Z) (constant : Z)
    (v : vars) : vars :=
  foldl (fun v i =>
    let t := u32 (wby_sha1_rol (va v) 5 + func (vb v) (vc v) (vd v) + ve v + constant + w !!! i) in
    mk_vars t (va v) (wby_sha1_rol (vb v) 30) (vc v) (vd v))
    v (seq start n).

Definition f_ch (b c d : Z) : Z := Z.lxor (Z.land b c) (Z.land (Z.lnot b) d).
Definition f_parity (b c d : Z) : Z := Z.lxor (Z.lxor b c) d.
Definition f_maj (b c d : Z) : Z := Z.lxor (Z.lxor (Z.land b c) (Z.land b d)) (Z.land c d).

Definition wby_sha1_hash_block (state : list Z) (block : list Z) : list Z :=
  let w := schedule block in
  let v := mk_vars (state !!! 0%nat) (state !!! 1%nat) (state !!! 2%nat) (state !!! 3%nat)
                   (state !!! 4%nat) in
  let v := sha1_loop w 0 20 f_ch 0x5a827999 v in
  let v := sha1_loop w 20 20 f_parity 0x6ed9eba1 v in
  let v := sha1_loop w 40 20 f_maj 0x8f1bbcdc v in
  let v := sha1_loop w 60 20 f_parity 0xca62c1d6 v in
  [u32 (state !!! 0%nat + va v); u32 (state !!! 1%nat + vb v); u32 (state !!! 2%nat + vc v);
   u32 (state !!! 3%nat + vd v); u32 (state !!! 4%nat + ve v)].

(** ** The streaming interface *)
Record wby_sha1 := mk_sha1 {
  state : list Z;
  msg_size_hi : Z;  (* msg_size[0] *)
  msg_size_lo : Z;  (* msg_size[1] *)
  buf_used : nat;
  buffer : list Z }.

Definition wby_sha1_init (s : wby_sha1) : wby_sha1 :=
  mk_sha1 [0x67452301; 0xefcdab89; 0x98badcfe; 0x10325476; 0xc3d2e1f0] 0 0 0 (buffer s).

(** The [while (remain > 0)] loop. *)
Fixpoint update_loop (fuel : nat) (s : wby_sha1) (data : list Z) : wby_sha1 :=
  match fuel with
  | O => s
  | S f =>
      match data with
      | [] => s
      | _ =>
          let buf_space := (64 - buf_used s)%nat in
          let copy_size := if (length data <? buf_space)%nat then length data else buf_space in
          let buf := take (buf_used s) (buffer s) ++ take copy_size data ++
                     drop (buf_used s + copy_size) (buffer s) in
          let used := (buf_used s + copy_size)%nat in
          let s :=
            if (used =? 64)%nat
            then mk_sha1 (wby_sha1_hash_block (state s) buf) (msg_size_hi s) (msg_size_lo s) 0 buf
            else mk_sha1 (state s) (msg_size_hi s) (msg_size_lo s) used buf in
          update_loop f s (drop copy_size data)
      end
  end.

Definition wby_sha1_update (s : wby_sha1) (data : list Z) : wby_sha1 :=
  let size := Z.of_nat (length data) in
  let s := update_loop (S (length data)) s data in
  let size_lo_orig := msg_size_lo s in
  let size_lo := u32 (size_lo_orig + u32 (size * 8)) in
  let hi := if size_lo <? size_lo_orig then u32 (msg_size_hi s + 1) else msg_size_hi s in
  mk_sha1 (state s) hi size_lo (buf_used s) (buffer s).

(** [while (s->buf_used != 56) wby_sha1_update(s, &zero, 1);] *)
Fixpoint pad_loop (fuel : nat) (s : wby_sha1) : option wby_sha1 :=
  if (buf_used s =? 56)%nat then Some s
  else match fuel with O => None | S f => pad_loop f (wby_sha1_update s [0]) end.

(** The bytes of 32-bit words, most significant first. *)
Definition word_byte (words : list Z) (i : nat) : Z :=
  Z.land (Z.shiftr (words !!! Nat.div i 4) ((3 - Z.land (Z.of_nat i) 3) * 8)) 0xff.

(** The digest; [None]: the padding loop did not stop, or the assertion that
    the last block is complete fails. *)
Definition wby_sha1_final (s : wby_sha1) : option (list Z) :=
  let count_data := word_byte [msg_size_hi s; msg_size_lo s] <$> seq 0 8 in
  let s := wby_sha1_update s [0x80] in
  s ← pad_loop 64 s;
  let s := wby_sha1_update s count_data in
  if (buf_used s =? 0)%nat then Some (word_byte (state s) <$> seq 0 20) else None.

(** ** FIPS 180: the compression of a block, pad, cut into blocks

    The standard's own terms (4.1.1, 4.2.1, 5.3.1, 6.1.2): words are numbers
    below 2^32, a block is 16 of them, the schedule a recurrence, and a step
    takes the function and the constant of its number. *)
Definition H0 : list Z := [0x67452301; 0xefcdab89; 0x98badcfe; 0x10325476; 0xc3d2e1f0].

Definition ROTL (n x : Z) : Z := (x * 2 ^ n) `mod` 2 ^ 32 + x / 2 ^ (32 - n).

Definition fips_f (t : nat) (x y z : Z) : Z :=
  if (t <? 20)%nat then Z.lxor (Z.land x y) (Z.land (2 ^ 32 - 1 - x) z)
  else if (t <? 40)%nat then Z.lxor (Z.lxor x y) z
  else if (t <? 60)%nat then Z.lxor (Z.lxor (Z.land x y) (Z.land x z)) (Z.land y z)
  else Z.lxor (Z.lxor x y) z.

Definition fips_K (t : nat) : Z :=
  if (t <? 20)%nat then 1518500249 else if (t <? 40)%nat then 1859775393 else if (t <? 60)%nat then 2400959708 else 3395469782.

(** M_t, and the schedule, the newest word first. *)
Definition fips_M (block : list Z) (t : nat) : Z := num_val 256 0 (take 4 (drop (4 * t) block)).
Fixpoint fips_words (block : list Z) (n : nat) : list Z :=
  match n with
  | O => reverse (fips_M block <$> seq 0 16)
  | S n =>
      let w := fips_words block n in
      ROTL 1 (Z.lxor (Z.lxor (Z.lxor (w !!! 2%nat) (w !!! 7%nat)) (w !!! 13%nat)) (w !!! 15%nat)) :: w
  end.
Definition fips_W (block : list Z) : list Z := reverse (fips_words block 64).

Definition fips_step (W : list Z) (abcde : Z * Z * Z * Z * Z) (t : nat) : Z * Z * Z * Z * Z :=
  let '(a, b, c, d, e) := abcde in
  let T := (ROTL 5 a + fips_f t b c d + e + fips_K t + W !!! t) `mod` 2 ^ 32 in
  (T, a, ROTL 30 b, c, d).

Definition fips_block (h block : list Z) : list Z :=
  let hash i := h !!! i in
  let '(a, b, c, d, e) := foldl (fips_step (fips_W block)) (hash 0%nat, hash 1%nat, hash 2%nat, hash 3%nat, hash 4%nat) (seq 0 80) in
  [(a + hash 0%nat) `mod` 2 ^ 32; (b + hash 1%nat) `mod` 2 ^ 32; (c + hash 2%nat) `mod` 2 ^ 32; (d + hash 3%nat) `mod` 2 ^ 32;
   (e + hash 4%nat) `mod` 2 ^ 32].

(** [n] bytes of a number, most significant first. *)

Definition zeros_after (len : nat) : nat := ((64 - (len + 9) mod 64) mod 64)%nat.

Definition pad (m : list Z) : list Z :=
  m ++ [0x80] ++ replicate (zeros_after (length m)) 0 ++ be_bytes 8 (8 * Z.of_nat (length m)).

Fixpoint fips_hash (n : nat) (h : list Z) (l : list Z) : list Z :=
  match n with
  | O => h
  | S n' => fips_hash n' (fips_block h (take 64 l)) (drop 64 l)
  end.

Definition sha1_spec (m : list Z) : list Z :=
  let p := pad m in
  fips_hash (length p / 64) H0 p ≫= be_bytes 4.

(** The same over the code's compression. *)
Fixpoint hash_blocks (n : nat) (h : list Z) (l : list Z) : list Z :=
  match n with
  | O => h
  | S n' => hash_blocks n' (wby_sha1_hash_block h (take 64 l)) (drop 64 l)
  end.

(** ** The compression of the code is the one of the standard *)
Definition word_ok (x : Z) : Prop := 0 <= x < 2 ^ 32.

Lemma word_ok_mod x : word_ok (x `mod` 2 ^ 32).
Proof. apply u32_range. Qed.

Lemma add_disjoint a b : Z.land a b = 0 -> Z.lor a b = a + b.
Proof. intros H. rewrite <- Z.lxor_lor by done. symmetry. by apply Z.add_nocarry_lxor. Qed.

Lemma land_high_low a b n : 0 <= n -> a `mod` 2 ^ n = 0 -> 0 <= b < 2 ^ n -> Z.land a b = 0.
Proof.
  intros Hn Ha Hb. rewrite <- (Z.mod_small b (2 ^ n)) by done. rewrite <- Z.land_ones, (Z.land_comm b), Z.land_assoc, Z.land_ones, Ha by done.
  apply Z.land_0_l.
Qed.

Lemma rol_rotl x n : word_ok x -> 0 < n < 32 -> wby_sha1_rol x n = ROTL n x.
Proof.
  intros Hx Hn. unfold wby_sha1_rol, ROTL, u32. rewrite Z.shiftl_mul_pow2, Z.shiftr_div_pow2 by lia.
  assert (Hp : 2 ^ 32 = 2 ^ (32 - n) * 2 ^ n) by (rewrite <- Z.pow_add_r by lia; f_equal; lia).
  apply add_disjoint, (land_high_low _ _ n); [lia| |].
  - assert (0 < 2 ^ n) by (apply Z.pow_pos_nonneg; lia). assert (0 < 2 ^ (32 - n)) by (apply Z.pow_pos_nonneg; lia).
    rewrite Hp, Z.mul_mod_distr_r by lia. apply Z.mod_mul. lia.
  - unfold word_ok in Hx. split; [apply Z.div_pos; [lia|apply Z.pow_pos_nonneg; lia]|].
    apply Z.div_lt_upper_bound; [apply Z.pow_pos_nonneg; lia|]. lia.
Qed.

Lemma rotl_ok n x : word_ok x -> 0 < n < 32 -> word_ok (ROTL n x).
Proof.
  intros Hx Hn. rewrite <- rol_rotl by done. unfold wby_sha1_rol. apply lor_range; [lia|apply u32_range|].
  rewrite Z.shiftr_div_pow2 by lia. unfold word_ok in Hx. assert (1 <= 2 ^ (32 - n)) by (apply (Z.pow_le_mono_r 2 0); lia).
  split; [apply Z.div_pos; lia|]. apply Z.div_lt_upper_bound; nia.
Qed.

Lemma lxor_ok x y : word_ok x -> word_ok y -> word_ok (Z.lxor x y).
Proof.
  unfold word_ok. intros Hx Hy. rewrite <- (Z.mod_small x (2 ^ 32)), <- (Z.mod_small y (2 ^ 32)) by done.
  assert (E : Z.lxor (x `mod` 2 ^ 32) (y `mod` 2 ^ 32) = (Z.lxor x y) `mod` 2 ^ 32); [|rewrite E; apply u32_range].
  apply Z.bits_inj'. intros i Hi. destruct (Z.lt_ge_cases i 32).
  - by rewrite Z.lxor_spec, !Z.mod_pow2_bits_low, Z.lxor_spec by lia.
  - by rewrite Z.lxor_spec, !Z.mod_pow2_bits_high by lia.
Qed.

Lemma land_not x z : word_ok z -> Z.land (2 ^ 32 - 1 - x) z = Z.land (Z.lnot x) z.
Proof.
  intros Hz. rewrite <- (Z.mod_small z (2 ^ 32)), <- Z.land_ones, (Z.land_comm z), !Z.land_assoc, !Z.land_ones by (done || lia).
  f_equal. unfold Z.lnot. replace (2 ^ 32 - 1 - x) with (Z.pred (- x) + 1 * 2 ^ 32) by lia. by rewrite Z.mod_add.
Qed.

Definition vars_ok (v : vars) : Prop := word_ok (va v) /\ word_ok (vb v) /\ word_ok (vc v) /\ word_ok (vd v) /\ word_ok (ve v).
Definition tuple (v : vars) : Z * Z * Z * Z * Z := (va v, vb v, vc v, vd v, ve v).

Lemma loop_fips w start n f k v :
  (forall t x y z, (start <= t < start + n)%nat -> word_ok z -> fips_f t x y z = f x y z /\ fips_K t = k) -> vars_ok v ->
  foldl (fips_step w) (tuple v) (seq start n) = tuple (sha1_loop w start n f k v) /\ vars_ok (sha1_loop w start n f k v).
Proof.
  unfold sha1_loop. revert start v. induction n as [|n IH]; intros start v Hf Hv; [done|]. cbn [seq foldl].
  set (v1 := mk_vars _ _ _ _ _). destruct Hv as (H1 & H2 & H3 & H4 & H5).
  assert (E : fips_step w (tuple v) start = tuple v1).
  { destruct (Hf start (vb v) (vc v) (vd v) ltac:(lia) H4) as [Ef Ek]. unfold tuple, fips_step. rewrite Ef, Ek, <- !rol_rotl by (done || lia). done. }
  rewrite E. apply IH; [intros t x y z Ht; apply Hf; lia|].
  split; [apply u32_range|]. split; [done|]. split; [|done]. subst v1. cbn [vc]. rewrite rol_rotl by (done || lia). apply rotl_ok; [done|lia].
Qed.

(** ** The words *)
Definition next_word (w : list Z) (t : nat) : Z :=
  wby_sha1_rol (Z.lxor (Z.lxor (Z.lxor (w !!! (t - 3)%nat) (w !!! (t - 8)%nat)) (w !!! (t - 14)%nat)) (w !!! (t - 16)%nat)) 1.

Lemma schedule_words block n :
  let w := foldl (fun w i => w ++ [next_word w i]) (word_at block <$> seq 0 16) (seq 16 n) in
  length w = (16 + n)%nat /\ (forall t, (t < 16)%nat -> w !!! t = word_at block t) /\
  (forall t, (16 <= t < 16 + n)%nat -> w !!! t = next_word w t).
Proof.
  induction n as [|n IH]; [split; [done|]; split; [|lia]|].
  - intros t Ht. cbn [foldl seq]. do 16 (destruct t as [|t]; [reflexivity|]). lia.
  - rewrite (seq_S n 16), foldl_app. cbn [foldl]. destruct IH as (H1 & H2 & H3).
    set (w := foldl _ _ _) in *. clearbody w. cbv zeta. set (x := next_word w (16 + n)).
    assert (Hl : forall t, (t < 16 + n)%nat -> (w ++ [x]) !!! t = w !!! t) by (intros; apply lookup_total_app_l; lia).
    split; [rewrite length_app; cbn; lia|]. split; [intros t Ht; rewrite Hl by lia; by apply H2|].
    intros t Ht. unfold next_word. rewrite !(Hl (t - _)%nat) by lia. destruct (decide (t = 16 + n)%nat) as [->|Hne].
    + rewrite lookup_total_app_r by lia. by rewrite H1, Nat.sub_diag.
    + rewrite Hl by lia. apply H3. lia.
Qed.

Lemma schedule_unfold block :
  schedule block = foldl (fun w i => w ++ [next_word w i]) (word_at block <$> seq 0 16) (seq 16 64).
Proof. reflexivity. Qed.

Lemma schedule_next block i : (16 <= i < 80)%nat -> schedule block !!! i = next_word (schedule block) i.
Proof. intros Hi. rewrite schedule_unfold. apply (schedule_words block 64). exact Hi. Qed.

Lemma schedule_first block i : (i < 16)%nat -> schedule block !!! i = word_at block i.
Proof. intros Hi. rewrite schedule_unfold. by apply (schedule_words block 64). Qed.


Lemma word_at_value b0 b1 b2 b3 : byte_ok b0 -> byte_ok b1 -> byte_ok b2 -> byte_ok b3 ->
  Z.lor (Z.lor (Z.lor (u32 (Z.shiftl b0 24)) (u32 (Z.shiftl b1 16))) (u32 (Z.shiftl b2 8))) b3 = num_val 256 0 [b0; b1; b2; b3] /\
  word_ok (num_val 256 0 [b0; b1; b2; b3]).
Proof.
  unfold byte_ok, word_ok. intros H0 H1 H2 H3. rewrite !Z.shiftl_mul_pow2, !u32_small by lia.
  rewrite (add_disjoint (b0 * 2 ^ 24)) by (apply (land_high_low _ _ 24); [lia|apply Z.mod_mul; lia|lia]).
  rewrite (add_disjoint (b0 * 2 ^ 24 + _)) by (apply (land_high_low _ _ 16);
    [lia|replace (b0 * 2 ^ 24 + b1 * 2 ^ 16) with ((b0 * 2 ^ 8 + b1) * 2 ^ 16) by lia; apply Z.mod_mul; lia|lia]).
  rewrite add_disjoint by (apply (land_high_low _ _ 8);
    [lia|replace (b0 * 2 ^ 24 + b1 * 2 ^ 16 + b2 * 2 ^ 8) with ((b0 * 2 ^ 16 + b1 * 2 ^ 8 + b2) * 2 ^ 8) by lia; apply Z.mod_mul; lia|lia]).
  unfold num_val. cbn [foldl]. lia.
Qed.

Ltac steps := intros Ht; unfold fips_f, fips_K;
  repeat match goal with |- context [(?a <? ?b)%nat] => destruct (Nat.ltb_spec a b); [try (exfalso; lia)|try (exfalso; lia)] end.
Lemma steps_ch t x y z : (0 <= t < 0 + 20)%nat -> word_ok z -> fips_f t x y z = f_ch x y z /\ fips_K t = 0x5a827999.
Proof. steps. intros Hz. rewrite land_not by done. by split. Qed.
Lemma steps_parity t x y z : (20 <= t < 20 + 20)%nat -> fips_f t x y z = f_parity x y z /\ fips_K t = 0x6ed9eba1.
Proof. steps. by split. Qed.
Lemma steps_maj t x y z : (40 <= t < 40 + 20)%nat -> fips_f t x y z = f_maj x y z /\ fips_K t = 0x8f1bbcdc.
Proof. steps. by split. Qed.
Lemma steps_last t x y z : (60 <= t < 60 + 20)%nat -> fips_f t x y z = f_parity x y z /\ fips_K t = 0xca62c1d6.
Proof. steps. by split. Qed.

Section Block.
Context (block : list Z) (Hb : Forall byte_ok block) (Hl : length block = 64%nat).

Lemma fips_M_word t : (t < 16)%nat -> fips_M block t = word_at block t /\ word_ok (word_at block t).
Proof.
  intros Ht. assert (Hk : forall k, (k < 4)%nat -> byte_ok (block !!! (t * 4 + k)%nat)) by (intros k Hk; apply Forall_lookup_total_1; [done|lia]).
  destruct (word_at_value _ _ _ _ (Hk 0%nat ltac:(lia)) (Hk 1%nat ltac:(lia)) (Hk 2%nat ltac:(lia)) (Hk 3%nat ltac:(lia))) as [E Ho].
  fold (word_at block t) in E. rewrite E. split; [|done]. unfold fips_M. f_equal. rewrite Nat.mul_comm.
  apply list_eq. intros i. destruct (decide (i < 4)%nat) as [Hi|Hi].
  - rewrite lookup_take_lt, lookup_drop by done. rewrite (list_lookup_lookup_total_lt block) by lia.
    do 4 (destruct i as [|i]; [done|]). lia.
  - rewrite lookup_ge_None_2 by (rewrite length_take; lia). symmetry. apply lookup_ge_None_2. cbn. lia.
Qed.

Lemma fips_words_run n :
  fips_words block n = reverse (foldl (fun w i => w ++ [next_word w i]) (word_at block <$> seq 0 16) (seq 16 n)) /\
  Forall word_ok (fips_words block n).
Proof.
  induction n as [|n [IH Ho]].
  - change (seq 16 0) with (@nil nat). cbn [fips_words foldl]. assert (E : fips_M block <$> seq 0 16 = word_at block <$> seq 0 16).
    { apply list_fmap_ext. intros i x Hx. apply lookup_seq in Hx as [-> Hi]. by apply fips_M_word. }
    split; [by rewrite E|]. rewrite E. apply Forall_reverse, Forall_fmap, Forall_seq. intros i Hi. apply fips_M_word. lia.
  - pose proof (schedule_words block n) as (Hn & _). cbv zeta in Hn. rewrite (seq_S n 16), foldl_app. cbn [foldl fips_words].
    set (w := foldl _ _ _) in *. rewrite reverse_app. cbn [reverse rev_append app]. rewrite IH in *.
    assert (Hi : forall i, (i < 16)%nat -> word_ok (reverse w !!! i) /\ reverse w !!! i = w !!! (16 + n - S i)%nat).
    { intros i Hi. split; [apply Forall_lookup_total_1; [done|rewrite length_reverse; lia]|].
      rewrite list_lookup_total_alt, reverse_lookup, Hn by lia. by rewrite <- list_lookup_total_alt. }
    destruct (Hi 2%nat ltac:(lia)) as [O2 E2], (Hi 7%nat ltac:(lia)) as [O7 E7], (Hi 13%nat ltac:(lia)) as [O13 E13], (Hi 15%nat ltac:(lia)) as [O15 E15].
    assert (Hx : word_ok (Z.lxor (Z.lxor (Z.lxor (reverse w !!! 2%nat) (reverse w !!! 7%nat)) (reverse w !!! 13%nat)) (reverse w !!! 15%nat)))
      by (repeat apply lxor_ok; done).
    split; [|constructor; [apply rotl_ok; [done|lia]|done]]. rewrite E2, E7, E13, E15 in *.
    f_equal. unfold next_word. symmetry. exact (rol_rotl _ 1 Hx ltac:(lia)).
Qed.

(** The compression in blocks of bytes. *)
Lemma fips_block_run h : length h = 5%nat -> Forall word_ok h ->
  fips_block h block = wby_sha1_hash_block h block /\ Forall word_ok (fips_block h block).
Proof.
  intros Hh Ho. assert (EW : fips_W block = schedule block).
  { unfold fips_W. rewrite (proj1 (fips_words_run 64)), reverse_involutive. by rewrite <- schedule_unfold. }
  destruct h as [|h0 [|h1 [|h2 [|h3 [|h4 [|]]]]]]; try discriminate Hh.
  apply Forall_cons in Ho as [H Ho]. apply Forall_cons in Ho as [H1 Ho]. apply Forall_cons in Ho as [H2 Ho].
  apply Forall_cons in Ho as [H3 Ho]. apply Forall_cons in Ho as [H4 Ho]. unfold fips_block, wby_sha1_hash_block. rewrite EW. cbv zeta.
  cbn [lookup_total list_lookup_total]. set (w := schedule block). set (v0 := mk_vars h0 h1 h2 h3 h4).
  change (h0, h1, h2, h3, h4) with (tuple v0). assert (O0 : vars_ok v0) by exact (conj H (conj H1 (conj H2 (conj H3 H4)))). clearbody w.
  change (seq 0 80) with (seq 0 20 ++ seq 20 20 ++ seq 40 20 ++ seq 60 20). rewrite !foldl_app.
  destruct (loop_fips w 0 20 f_ch 0x5a827999 v0 ltac:(intros t x y z Ht Hz; by apply steps_ch) O0) as [-> O1]. set (v1 := sha1_loop w 0 20 _ _ v0) in *.
  destruct (loop_fips w 20 20 f_parity 0x6ed9eba1 v1 ltac:(intros t x y z Ht _; by apply steps_parity) O1) as [-> O2]. set (v2 := sha1_loop w 20 20 _ _ v1) in *.
  destruct (loop_fips w 40 20 f_maj 0x8f1bbcdc v2 ltac:(intros t x y z Ht _; by apply steps_maj) O2) as [-> O3]. set (v3 := sha1_loop w 40 20 _ _ v2) in *.
  destruct (loop_fips w 60 20 f_parity 0xca62c1d6 v3 ltac:(intros t x y z Ht _; by apply steps_last) O3) as [-> O4]. set (v4 := sha1_loop w 60 20 _ _ v3) in *.
  unfold tuple. split; [unfold u32; by rewrite !(Z.add_comm (_ v4))|].
  do 5 (apply Forall_cons_2; [apply word_ok_mod|]). apply Forall_nil_2.
Qed.
End Block.

Lemma fips_hash_run n h l : Forall byte_ok l -> length l = (64 * n)%nat -> length h = 5%nat -> Forall word_ok h -> fips_hash n h l = hash_blocks n h l.
Proof.
  revert h l. induction n as [|n IH]; intros h l Hb Hl Hh Ho; [done|]. cbn [fips_hash hash_blocks].
  assert (Hl1 : length (take 64 l) = 64%nat) by (rewrite length_take; lia).
  destruct (fips_block_run (take 64 l) (Forall_take _ 64 l Hb) Hl1 h Hh Ho) as [E Hok]. rewrite E in *.
  apply IH; [by apply Forall_drop|rewrite length_drop; lia|done|done].
Qed.

Lemma H0_ok : Forall word_ok H0.
Proof. apply Forall_fold_right. unfold word_ok. cbn. lia. Qed.

Lemma pad_bytes m : Forall byte_ok m -> Forall byte_ok (pad m).
Proof.
  intros H. unfold pad. apply Forall_app_2; [done|]. constructor; [by split|].
  apply Forall_app_2; [apply Forall_replicate; by split|apply be_bytes_ok].
Qed.

(** ** Absorbing bytes one at a time *)
Definition absorb1 (a : list Z * list Z) (c : Z) : list Z * list Z :=
  let buf := a.2 ++ [c] in
  if (length buf =? 64)%nat then (wby_sha1_hash_block a.1 buf, []) else (a.1, buf).

Definition absorb (a : list Z * list Z) (l : list Z) : list Z * list Z := foldl absorb1 a l.

Lemma absorb_app a l1 l2 : absorb a (l1 ++ l2) = absorb (absorb a l1) l2.
Proof. apply foldl_app. Qed.

Lemma absorb_short h p l :
  (length p + length l < 64)%nat -> absorb (h, p) l = (h, p ++ l).
Proof.
  revert p. induction l as [|c l IH]; intros p Hl; cbn [absorb foldl].
  - by rewrite app_nil_r.
  - cbn [length] in Hl. unfold absorb1 at 2. cbn [fst snd]. rewrite length_app. cbn [length].
    rewrite (proj2 (Nat.eqb_neq _ _)) by lia. fold (absorb (h, p ++ [c]) l).
    rewrite IH by (rewrite length_app; cbn [length]; lia). by rewrite <- app_assoc.
Qed.

Lemma absorb_full h p l :
  (length p < 64)%nat -> (length p + length l = 64)%nat ->
  absorb (h, p) l = (wby_sha1_hash_block h (p ++ l), []).
Proof.
  intros Hp Hl. destruct l as [|c l _] using rev_ind; [cbn [length] in Hl; lia|].
  rewrite length_app in Hl. cbn [length] in Hl. rewrite absorb_app, absorb_short by lia.
  cbn [absorb foldl]. unfold absorb1. cbn [fst snd]. rewrite !length_app. cbn [length].
  rewrite (proj2 (Nat.eqb_eq _ _)) by lia. by rewrite app_assoc.
Qed.

(** Whole blocks. *)
Lemma absorb_blocks n h l :
  length l = (64 * n)%nat -> absorb (h, []) l = (hash_blocks n h l, []).
Proof.
  revert h l. induction n as [|n IH]; intros h l Hl.
  - destruct l; [done|cbn [length] in Hl; lia].
  - rewrite <- (take_drop 64 l) at 1. rewrite absorb_app, absorb_full;
      [|cbn [length]; lia|rewrite length_take; cbn [length]; lia].
    cbn [app hash_blocks]. apply IH. rewrite length_drop. lia.
Qed.

Lemma absorb_used a l :
  (length a.2 < 64)%nat ->
  length (absorb a l).2 = ((length a.2 + length l) mod 64)%nat.
Proof.
  revert a. induction l as [|c l IH]; intros [h p] Hp; cbn [absorb foldl fst snd length] in *.
  - rewrite Nat.add_0_r, Nat.mod_small by lia. done.
  - unfold absorb1 at 2. cbn [fst snd]. rewrite length_app. cbn [length].
    destruct (Nat.eqb_spec (length p + 1) 64) as [E|E].
    + fold (absorb (wby_sha1_hash_block h (p ++ [c]), []) l). rewrite IH by (cbn; lia). cbn [snd length].
      replace (length p + S (length l))%nat with (length l + 1 * 64)%nat by lia.
      rewrite Nat.Div0.mod_add. done.
    + fold (absorb (h, p ++ [c]) l). rewrite IH by (cbn; rewrite length_app; cbn [length]; lia).
      cbn [snd]. rewrite length_app. cbn [length]. f_equal. lia.
Qed.

(** ** The concrete state against the abstract one *)
Definition repr (s : wby_sha1) (a : list Z * list Z) : Prop :=
  state s = a.1 /\ buf_used s = length a.2 /\ (length a.2 < 64)%nat /\
  length (buffer s) = 64%nat /\ take (buf_used s) (buffer s) = a.2.

Lemma update_loop_repr fuel s a data :
  repr s a -> (length data < fuel)%nat ->
  repr (update_loop fuel s data) (absorb a data) /\
  msg_size_hi (update_loop fuel s data) = msg_size_hi s /\
  msg_size_lo (update_loop fuel s data) = msg_size_lo s.
Proof.
  revert s a data. induction fuel as [|f IH]; intros s [h p] data (Hst & Hu & Hp & Hb & Ht) Hf;
    [lia|]. cbn [fst snd] in *.
  destruct (decide (data = [])) as [->|Hne]; [by repeat split|].
  cbn [update_loop]. destruct data as [|c data]; [done|]. clear Hne. set (d := c :: data) in *.
  assert (0 < length d)%nat by (cbn; lia).
  set (n := if (length d <? 64 - buf_used s)%nat then length d else (64 - buf_used s)%nat).
  assert (Hn : n = (length d `min` (64 - length p))%nat).
  { unfold n. rewrite Hu. destruct (Nat.ltb_spec (length d) (64 - length p)); lia. }
  clearbody n. rewrite Hst, Hu in *.
  set (buf := take (length p) (buffer s) ++ take n d ++ drop (length p + n) (buffer s)).
  assert (Hbuf : buf = p ++ take n d ++ drop (length p + n) (buffer s)) by (unfold buf; by rewrite Ht).
  assert (Hlb : length buf = 64%nat).
  { rewrite Hbuf, !length_app, length_take, length_drop. lia. }
  rewrite <- (take_drop n d) at 2. rewrite absorb_app.
  assert (Hdl : length (drop n d) = (length d - n)%nat) by apply length_drop.
  assert (Htl : length (take n d) = n) by (rewrite length_take; lia).
  destruct (Nat.eqb_spec (length p + n) 64) as [E|E].
  - rewrite absorb_full by lia.
    assert (buf = p ++ take n d) as ->.
    { rewrite Hbuf, E, drop_ge by lia. by rewrite app_nil_r. }
    apply (IH (mk_sha1 _ _ _ 0 _) (_, [])); [|lia].
    repeat split; cbn [state buf_used buffer fst snd length]; [lia|].
    rewrite length_app. lia.
  - rewrite absorb_short by lia. apply (IH (mk_sha1 _ _ _ _ _) (_, _)); [|lia].
    repeat split; cbn [state buf_used buffer fst snd]; rewrite ?length_app; [lia|lia|done|].
    rewrite Hbuf, app_assoc. rewrite take_app_le by (rewrite length_app; lia).
    by rewrite take_ge by (rewrite length_app; lia).
Qed.

Lemma update_repr s a data : repr s a -> repr (wby_sha1_update s data) (absorb a data).
Proof.
  intros H. destruct (update_loop_repr (S (length data)) s a data H ltac:(lia)) as [Hr _].
  unfold wby_sha1_update. exact Hr.
Qed.

(** The bit count, as one 64-bit number. *)
Definition bits (s : wby_sha1) : Z := msg_size_hi s * 2 ^ 32 + msg_size_lo s.
Definition bits_ok (s : wby_sha1) : Prop := 0 <= msg_size_hi s < 2 ^ 32 /\ 0 <= msg_size_lo s < 2 ^ 32.

Lemma update_bits s a data :
  repr s a -> bits_ok s -> Z.of_nat (length data) < 2 ^ 29 ->
  bits_ok (wby_sha1_update s data) /\
  bits (wby_sha1_update s data) = u64 (bits s + 8 * Z.of_nat (length data)).
Proof.
  intros H [Hhi Hlo] Hl.
  destruct (update_loop_repr (S (length data)) s a data H ltac:(lia)) as (_ & Eh & El).
  unfold wby_sha1_update, bits, bits_ok. cbn [msg_size_hi msg_size_lo]. rewrite Eh, El.
  rewrite (u32_small (_ * 8)) by lia. unfold u32, u64.
  destruct (Z.ltb_spec ((msg_size_lo s + Z.of_nat (length data) * 8) `mod` 2 ^ 32) (msg_size_lo s));
    (split; [split|]); Z.div_mod_to_equations; lia.
Qed.

(** ** Bytes of words *)
Lemma le_bytes_app n m x : le_bytes (n + m) x = le_bytes n x ++ le_bytes m (x / 256 ^ Z.of_nat n).
Proof.
  revert x. induction n as [|n IH]; intros x; cbn [le_bytes Nat.add app].
  - by rewrite Z.div_1_r.
  - rewrite IH, Nat2Z.inj_succ, Z.pow_succ_r, Z.div_div by lia. done.
Qed.

Lemma le_bytes_mod n x y : x `mod` 256 ^ Z.of_nat n = y `mod` 256 ^ Z.of_nat n -> le_bytes n x = le_bytes n y.
Proof.
  revert x y. induction n as [|n IH]; intros x y H; cbn [le_bytes]; [done|].
  rewrite Nat2Z.inj_succ, Z.pow_succ_r in H by lia.
  rewrite !Z.rem_mul_r in H by lia.
  pose proof (Z.mod_pos_bound x 256 ltac:(lia)). pose proof (Z.mod_pos_bound y 256 ltac:(lia)).
  f_equal; [lia|]. apply IH. lia.
Qed.

Lemma be_bytes_4 w :
  be_bytes 4 w =
    [(w / 2 ^ 24) `mod` 256; (w / 2 ^ 16) `mod` 256; (w / 2 ^ 8) `mod` 256; w `mod` 256].
Proof.
  unfold be_bytes, reverse. cbn [le_bytes rev_append]. rewrite !Z.div_div by lia. reflexivity.
Qed.

Lemma word_byte_eq words i k :
  Z.land (Z.of_nat i) 3 = 3 - k -> 0 <= k ->
  word_byte words i = ((words !!! Nat.div i 4) / 2 ^ (8 * k)) `mod` 256.
Proof.
  intros Hk H0. unfold word_byte. rewrite Hk. change 0xff with (Z.ones 8).
  rewrite Z.land_ones, Z.shiftr_div_pow2 by lia. do 3 f_equal. lia.
Qed.

(** Four consecutive bytes of the digest are the bytes of one word. *)
Lemma word_bytes words j :
  word_byte words <$> seq (4 * j) 4 = be_bytes 4 (words !!! j).
Proof.
  rewrite be_bytes_4. cbn [seq fmap list_fmap].
  assert (Hd : forall r, (r < 4)%nat -> ((r + 4 * j) / 4)%nat = j).
  { intros r Hr. rewrite Nat.mul_comm, Nat.div_add, Nat.div_small by lia. lia. }
  assert (Hm : forall r, (r < 4)%nat -> Z.land (Z.of_nat (r + 4 * j)) 3 = Z.of_nat r).
  { intros r Hr. change 3 with (Z.ones 2). rewrite Z.land_ones by lia.
    rewrite Nat2Z.inj_add, Nat2Z.inj_mul, Z.mul_comm, Z.mod_add, Z.mod_small; lia. }
  assert (Hw : forall r, (r < 4)%nat ->
    word_byte words (r + 4 * j) = ((words !!! j) / 2 ^ (8 * (3 - Z.of_nat r))) `mod` 256).
  { intros r Hr. rewrite (word_byte_eq words (r + 4 * j) (3 - Z.of_nat r)), Hd;
      [done|lia|rewrite Hm by lia; lia|lia]. }
  pose proof (Hw 0%nat ltac:(lia)) as W0. pose proof (Hw 1%nat ltac:(lia)) as W1.
  pose proof (Hw 2%nat ltac:(lia)) as W2. pose proof (Hw 3%nat ltac:(lia)) as W3.
  cbn [Nat.add] in W0, W1, W2, W3. rewrite W0, W1, W2, W3.
  change (2 ^ (8 * (3 - Z.of_nat 3))) with 1. by rewrite Z.div_1_r.
Qed.

Lemma digest_bytes words :
  length words = 5%nat -> word_byte words <$> seq 0 20 = words ≫= be_bytes 4.
Proof.
  intros Hl. destruct words as [|w0 [|w1 [|w2 [|w3 [|w4 [|]]]]]]; try discriminate Hl.
  change (seq 0 20) with (seq (4 * 0) 4 ++ seq (4 * 1) 4 ++ seq (4 * 2) 4 ++ seq (4 * 3) 4 ++ seq (4 * 4) 4).
  rewrite !fmap_app, !word_bytes. cbn [mbind list_bind]. by rewrite app_nil_r.
Qed.

Lemma count_bytes s :
  bits_ok s -> word_byte [msg_size_hi s; msg_size_lo s] <$> seq 0 8 = be_bytes 8 (bits s).
Proof.
  intros [Hhi Hlo].
  change (seq 0 8) with (seq (4 * 0) 4 ++ seq (4 * 1) 4).
  rewrite !fmap_app, !word_bytes. cbn [lookup_total list_lookup_total]. unfold be_bytes, bits.
  change (le_bytes 8) with (le_bytes (4 + 4)).
  rewrite (le_bytes_app 4 4), reverse_app. f_equal; f_equal; [f_equal|apply le_bytes_mod];
    change (256 ^ Z.of_nat 4) with (2 ^ 32).
  - rewrite Z.div_add_l, Z.div_small by lia. lia.
  - rewrite Z.add_comm, Z.mod_add by lia. done.
Qed.

(** ** Padding *)
Lemma pad_length m : exists n, length (pad m) = (64 * n)%nat.
Proof.
  exists ((length m + 9 + zeros_after (length m)) / 64)%nat.
  unfold pad, be_bytes. rewrite !length_app, length_replicate, length_reverse, le_bytes_length.
  cbn [length]. set (z := zeros_after (length m)).
  replace (length m + (1 + (z + 8)))%nat with (length m + 9 + z)%nat by lia.
  unfold zeros_after in z. pose proof (Nat.mod_upper_bound (length m + 9) 64 ltac:(lia)).
  pose proof (Nat.div_mod_eq (length m + 9) 64) as H1.
  destruct (decide (((length m + 9) mod 64)%nat = 0%nat)) as [E|E].
  - assert (z = 0%nat) as -> by (unfold z; by rewrite E). rewrite Nat.add_0_r. lia.
  - assert (z = (64 - (length m + 9) mod 64)%nat) as -> by (unfold z; apply Nat.mod_small; lia).
    replace (length m + 9 + _)%nat with (((length m + 9) / 64 + 1) * 64)%nat by lia.
    rewrite Nat.div_mul by lia. lia.
Qed.

(** The digest of a message of bytes, with the compression of the code. *)
Lemma sha1_spec_run m : Forall byte_ok m -> sha1_spec m = hash_blocks (length (pad m) / 64) H0 (pad m) ≫= be_bytes 4.
Proof.
  intros Hm. unfold sha1_spec. destruct (pad_length m) as [n Hn]. rewrite Hn, (Nat.mul_comm 64 n), Nat.div_mul by lia.
  f_equal. apply fips_hash_run; [by apply pad_bytes|done|done|apply H0_ok].
Qed.

Lemma pad_loop_spec fuel s a :
  repr s a -> ((120 - length a.2) mod 64 <= fuel)%nat ->
  exists s', pad_loop fuel s = Some s' /\
    repr s' (absorb a (replicate ((120 - length a.2) mod 64) 0)).
Proof.
  revert s a. induction fuel as [|f IH]; intros s a H Hf.
  all: pose proof H as (_ & Hu & Hp & _).
  all: destruct (Nat.eqb_spec (buf_used s) 56) as [E|E].
  all: cbn [pad_loop]; rewrite ?(proj2 (Nat.eqb_eq _ _) E), ?(proj2 (Nat.eqb_neq _ _) E).
  1,3: exists s; split; [done|]; replace ((120 - length a.2) mod 64)%nat with 0%nat;
       [exact H|rewrite <- Hu, E; reflexivity].
  - exfalso. assert (Hz : ((120 - length a.2) mod 64 = 0)%nat) by lia.
    apply Nat.Div0.div_exact in Hz. lia.
  - assert (Hstep : ((120 - length a.2) mod 64)%nat =
                    S ((120 - length (absorb a [0]).2) mod 64)).
    { rewrite absorb_used by done. cbn [length].
      destruct (decide (length a.2 = 63%nat)) as [->|Hne]; [reflexivity|].
      rewrite (Nat.mod_small (length a.2 + 1)) by lia.
      destruct (decide (length a.2 < 56)%nat).
      - replace (120 - length a.2)%nat with (56 - length a.2 + 1 * 64)%nat by lia.
        replace (120 - (length a.2 + 1))%nat with (55 - length a.2 + 1 * 64)%nat by lia.
        rewrite !Nat.Div0.mod_add, !Nat.mod_small by lia. lia.
      - rewrite !Nat.mod_small by lia. lia. }
    destruct (IH (wby_sha1_update s [0]) (absorb a [0])) as (s' & E' & Hr).
    { by apply update_repr. }
    { lia. }
    exists s'. split; [exact E'|]. rewrite Hstep. cbn [replicate].
    rewrite <- absorb_app in Hr. exact Hr.
Qed.

Lemma hash_blocks_length n h l : length h = 5%nat -> length (hash_blocks n h l) = 5%nat.
Proof. revert h l. induction n; intros h l H; cbn [hash_blocks]; [done|by apply IHn]. Qed.

Lemma final_spec s m :
  Forall byte_ok m -> repr s (absorb (H0, []) m) -> bits_ok s -> bits s = 8 * Z.of_nat (length m) ->
  wby_sha1_final s = Some (sha1_spec m).
Proof.
  intros Hm H Hb Hbits. unfold wby_sha1_final. rewrite count_bytes by done. rewrite Hbits.
  pose proof (update_repr s _ [0x80] H) as H1. rewrite <- absorb_app in H1.
  assert (Hz : ((120 - length (absorb (H0, []) (m ++ [0x80%Z])).2) mod 64)%nat = zeros_after (length m)).
  { rewrite absorb_used by (cbn; lia). rewrite length_app. cbn [length snd Nat.add].
    unfold zeros_after. set (n := length m). clearbody n.
    rewrite (Nat.Div0.add_mod n 9), (Nat.Div0.add_mod n 1).
    pose proof (Nat.mod_upper_bound n 64 ltac:(lia)) as Hr. set (r := (n mod 64)%nat) in *.
    clearbody r.
    assert (E : forallb (fun r => ((120 - (r + 1 mod 64) mod 64) mod 64 =?
      (64 - (r + 9 mod 64) mod 64) mod 64)%nat) (seq 0 64) = true) by (vm_compute; reflexivity).
    rewrite forallb_forall in E. apply Nat.eqb_eq, E, in_seq. lia. }
  destruct (pad_loop_spec 64 _ _ H1) as (s' & -> & H2).
  { rewrite Hz. unfold zeros_after. pose proof (Nat.mod_upper_bound (64 - (length m + 9) mod 64) 64).
    lia. }
  cbn [mbind option_bind]. rewrite Hz, <- absorb_app in H2.
  apply (update_repr _ _ (be_bytes 8 (8 * Z.of_nat (length m)))) in H2.
  rewrite <- absorb_app, <- !app_assoc in H2. fold (pad m) in H2.
  destruct (pad_length m) as [n Hn]. rewrite (absorb_blocks n) in H2 by done.
  destruct H2 as (Hs & Hu & _). cbn [fst snd length] in Hs, Hu. rewrite Hu, Hs. cbn [Nat.eqb].
  rewrite digest_bytes by (by apply hash_blocks_length). rewrite sha1_spec_run, Hn by done.
  rewrite (Nat.mul_comm 64 n), Nat.div_mul by lia. reflexivity.
Qed.

Lemma updates_repr pieces s a :
  repr s a -> bits_ok s ->
  Forall (fun p => Z.of_nat (length p) < 2 ^ 29) pieces ->
  let s' := foldl wby_sha1_update s pieces in
  repr s' (absorb a (concat pieces)) /\ bits_ok s' /\
  bits s' = u64 (bits s + 8 * Z.of_nat (length (concat pieces))).
Proof.
  intros Hr Hb Hp. revert s a Hr Hb. induction Hp as [|p ps Hp Hps IH]; intros s a Hr Hb; cbn [foldl concat].
  - split; [done|]. split; [done|]. cbn [length]. rewrite Z.mul_0_r, Z.add_0_r.
    rewrite u64_small; [done|]. destruct Hb. unfold bits. lia.
  - destruct (update_bits s a p Hr Hb Hp) as [Hb' Eb].
    destruct (IH _ _ (update_repr s a p Hr) Hb') as (H1 & H2 & H3).
    rewrite <- absorb_app in H1. split; [done|]. split; [done|].
    rewrite H3, Eb, length_app. unfold u64. rewrite Zplus_mod_idemp_l. f_equal. lia.
Qed.

Lemma sha1_stream pieces s :
  length (buffer s) = 64%nat ->
  Forall (Forall byte_ok) pieces ->
  Forall (fun p => Z.of_nat (length p) < 2 ^ 29) pieces ->
  8 * Z.of_nat (length (concat pieces)) < 2 ^ 64 ->
  wby_sha1_final (foldl wby_sha1_update (wby_sha1_init s) pieces) = Some (sha1_spec (concat pieces)).
Proof.
  intros Hl Hby Hp Hlen.
  assert (Hr : repr (wby_sha1_init s) (H0, [])) by (repeat split; cbn; lia || done).
  assert (Hb : bits_ok (wby_sha1_init s)) by (unfold bits_ok; cbn; lia).
  destruct (updates_repr pieces _ _ Hr Hb Hp) as (H1 & H2 & H3).
  apply final_spec; [by apply Forall_concat|done|done|]. rewrite H3. unfold bits. cbn [wby_sha1_init msg_size_hi msg_size_lo].
  apply u64_small. lia.
Qed.

(** C33: Whatever way a message is cut into [update] calls of less than 512 MiB,
    [final] stops and returns its FIPS 180 digest: that of the standard's own
    padding, schedule, functions, constants and steps, none of which are the
    code's. *)
Theorem sha1_streaming_correct pieces s :
  length (buffer s) = 64%nat ->
  Forall (Forall byte_ok) pieces ->
  Forall (fun p => Z.of_nat (length p) < 2 ^ 29) pieces ->
  8 * Z.of_nat (length (concat pieces)) < 2 ^ 64 ->
  wby_sha1_final (foldl wby_sha1_update (wby_sha1_init s) pieces) = Some (sha1_spec (concat pieces)).
Proof. exact (sha1_stream pieces s). Qed.

Lemma sha1_streaming_correct_witness :
  wby_sha1_final (foldl wby_sha1_update (wby_sha1_init (mk_sha1 [] 0 0 0 (replicate 64 0)))
    [bs "a"; bs "bc"]) = Some (sha1_spec (bs "abc")).
Proof.
  apply (sha1_streaming_correct [bs "a"; bs "bc"]); [reflexivity|by repeat constructor| |vm_compute; reflexivity].
  repeat constructor.
Defined.

(** The bit count of one call keeps only 32 bits of [size * 8]: a single
    update of 512 MiB leaves the count as it was. *)
Theorem sha1_update_count_truncated s a data :
  repr s a -> bits_ok s -> Z.of_nat (length data) = 2 ^ 29 ->
  bits (wby_sha1_update s data) = bits s.
Proof.
  intros H [Hhi Hlo] Hl.
  destruct (update_loop_repr (S (length data)) s a data H ltac:(lia)) as (_ & Eh & El).
  unfold wby_sha1_update, bits. cbn [msg_size_hi msg_size_lo]. rewrite Eh, El, Hl.
  change (u32 (2 ^ 29 * 8)) with 0. rewrite Z.add_0_r, u32_small by lia.
  by rewrite Z.ltb_irrefl.
Qed.

Lemma sha1_update_count_truncated_witness :
  bits (wby_sha1_update (wby_sha1_init (mk_sha1 [] 0 0 0 (replicate 64 0)))
          (replicate (Z.to_nat (2 ^ 29)) 0)) =
  bits (wby_sha1_init (mk_sha1 [] 0 0 0 (replicate 64 0))).
Proof.
  refine (sha1_update_count_truncated _ (H0, []) (replicate (Z.to_nat (2 ^ 29)) 0) _ _ _).
  - split; [reflexivity|]. split; [reflexivity|]. split; [simpl; lia|].
    split; reflexivity.
  - split; split; vm_compute; congruence.
  - rewrite length_replicate. apply Z2Nat.id. vm_compute. discriminate.
Defined.

(** The digest of "abc" (FIPS 180, appendix A). *)
Example sha1_abc :
  (sha1_spec (bs "abc") ≫= fmt_prec 16 2) = bs "a9993e364706816aba3e25717850c26c9cd0d89d".
Proof. vm_compute. reflexivity. Qed.

(** ** The digest's shape *)
Lemma be_words_ok ws : Forall byte_ok (ws ≫= be_bytes 4).
Proof.
  induction ws as [|w ws IH]; [constructor|]. rewrite bind_cons.
  apply Forall_app. split; [exact (be_bytes_ok 4 w)|exact IH].
Qed.

Lemma digest_length (b : bool) words d :
  (if b then Some (word_byte words <$> seq 0 20) else None) = Some d -> length d = 20%nat.
Proof.
  destruct b; [|discriminate]. intros H. apply (f_equal (default [])) in H.
  change (word_byte words <$> seq 0 20 = d) in H. rewrite <- H, length_fmap. apply length_seq.
Qed.

Lemma sha1_final_length s d : wby_sha1_final s = Some d -> length d = 20%nat.
Proof.
  unfold wby_sha1_final. destruct (pad_loop _ _) as [s'|]; [|discriminate].
  cbn [mbind option_bind]. apply digest_length.
Qed.

End Sha1.
