(* ===== verification/Url.v ===== *)
(** * mumux/url.c: percent decoding and query variables

    Both routines work on offsets of one memory, so that the in-place call of
    [wby_connection_setup_request] (source and destination are one string) is
    covered.  The specification is a decoder on lists. *)
From S2P Require Import Prelude CLib.

Module Url.

(** [HEXTOI] on a lower-cased character. *)
Definition hextoi (x : Z) : Z := if isdigit x then x - 48 else x - ch "W".

(** Whether [%] at offset [i] starts an escape: the two characters after it
    are read only as far as [&&] does. *)
Definition escape_at (m : mem) (i : nat) : option (option (Z * Z)) :=
  c1 ← m !! (i + 1)%nat;
  if isxdigit c1 then
    c2 ← m !! (i + 2)%nat;
    if isxdigit c2 then Some (Some (c1, c2)) else Some None
  else Some None.

(** The loop; [i] and [j] are the source's counters, [left] bounds the rounds.
    The result is the memory and the final [j]. *)
Fixpoint decode_loop (left : nat) (m : mem) (src src_len dst : nat) (dst_len : Z)
    (form : bool) (i j : nat) : option (mem * nat) :=
  match left with
  | O => Some (m, j)
  | S left' =>
      if (i <? src_len)%nat && (Z.of_nat j <? u64 (dst_len - 1)) then
        c ← m !! (src + i)%nat;
        esc ← (if c =? ch "%" then escape_at m (src + i) else Some None);
        match esc with
        | Some (c1, c2) =>
            let a := tolower c1 in
            let b := tolower c2 in
            m ← mstore m (dst + j) [u8 (Z.lor (Z.shiftl (hextoi a) 4) (hextoi b))];
            decode_loop left' m src src_len dst dst_len form (i + 3) (j + 1)
        | None =>
            let v := if form && (c =? ch "+") then ch " " else c in
            m ← mstore m (dst + j) [v];
            decode_loop left' m src src_len dst dst_len form (i + 1) (j + 1)
        end
      else Some (m, j)
  end.

(** [wby_url_decode]: every round advances [i], so [src_len] rounds are
    enough. *)
Definition wby_url_decode (m : mem) (src src_len dst : nat) (dst_len : Z) (form : bool) :
    option (mem * nat) :=
  '(m, j) ← decode_loop src_len m src src_len dst dst_len form 0 0;
  m ← mstore m (dst + j) [0];
  Some (m, j).

(** The first offset at or after [p] of a variable [name]; [e] is the end of
    the string at [buf]. *)
Fixpoint find_var (fuel : nat) (m : mem) (buf e : nat) (name : list Z) (p : nat) :
    option (option nat) :=
  match fuel with
  | O => Some None
  | S f =>
      if (p + length name <? e)%nat then
        start ← (if (p =? buf)%nat then Some true
                 else c ← m !! (p - 1)%nat; Some (c =? ch "&"));
        eq ← m !! (p + length name)%nat;
        here ← mload m p (length name);
        if start && (eq =? ch "=") && strcasecmp_eq name here then Some (Some p)
        else find_var f m buf e name (S p)
      else Some None
  end.

(** [memchr(p, '&', e - p)], or [e]. *)
Fixpoint value_end (l : list Z) (p : nat) : nat :=
  match l with
  | [] => p
  | c :: l' => if c =? ch "&" then p else value_end l' (S p)
  end.

(** The memory and the returned length, -1 when the variable is missing or
    its value does not fit. *)
Definition wby_find_query_var (m : mem) (buf : nat) (name : list Z) (dst : nat) (dst_len : Z) :
    option (mem * Z) :=
  s ← cstr (drop buf m);
  let e := (buf + length s)%nat in
  m ← mstore m dst [0];
  found ← find_var (S (length s)) m buf e name buf;
  match found with
  | None => Some (m, -1)
  | Some p =>
      let p := (p + length name + 1)%nat in
      val ← mload m p (e - p);
      let s := value_end val p in
      if Z.of_nat (s - p) <? dst_len then
        '(m, len) ← wby_url_decode m p (s - p) dst dst_len true;
        Some (m, i32 (Z.of_nat len))
      else Some (m, -1)
  end.

(** ** The decoder on lists *)
Definition hexval (c : Z) : Z := hextoi (tolower c).

Definition plus_char (form : bool) (c : Z) : Z := if form && (c =? ch "+") then ch " " else c.

Fixpoint decode_spec (fuel : nat) (form : bool) (s : list Z) : list Z :=
  match fuel, s with
  | S f, c :: s' =>
      match s' with
      | a :: b :: r =>
          if (c =? ch "%") && isxdigit a && isxdigit b
          then hexval a * 16 + hexval b :: decode_spec f form r
          else plus_char form c :: decode_spec f form s'
      | _ => plus_char form c :: decode_spec f form s'
      end
  | _, _ => []
  end.

Definition decoded (form : bool) (s : list Z) : list Z := decode_spec (length s) form s.

(** Percent encoding of every byte that is not a letter, a digit or one of
    "-_.~". *)
Definition unreserved (c : Z) : bool :=
  isdigit c || ((65 <=? c) && (c <=? 90)) || ((97 <=? c) && (c <=? 122)) ||
  (c =? ch "-") || (c =? ch "_") || (c =? ch ".") || (c =? ch "~").
Definition encode1 (c : Z) : list Z :=
  if unreserved c then [c] else ch "%" :: fmt_prec 16 2 c.
Definition url_encode (s : list Z) : list Z := s ≫= encode1.

(** ** Facts *)
Lemma hexval_range c : byte_ok c -> isxdigit c = true -> 0 <= hexval c < 16.
Proof.
  intros Hc Hx. assert (forallb (fun c => implb (isxdigit c) ((0 <=? hexval c) && (hexval c <? 16)))
    (Z.of_nat <$> seq 0 256) = true) as E by (vm_compute; reflexivity).
  pose proof (range_forallb _ _ E c ltac:(unfold byte_ok in Hc; lia)) as H. cbv beta in H.
  rewrite Hx in H. cbn [implb] in H. rewrite andb_true_iff, Z.leb_le, Z.ltb_lt in H. exact H.
Qed.

Lemma escape_value a b :
  0 <= a < 16 -> 0 <= b < 16 -> u8 (Z.lor (Z.shiftl a 4) b) = a * 16 + b.
Proof.
  intros Ha Hb. rewrite Z.lor_comm, lor_disjoint_add by lia. rewrite u8_small; lia.
Qed.

Lemma decode_spec_fuel f1 f2 form s :
  (length s <= f1)%nat -> (length s <= f2)%nat -> decode_spec f1 form s = decode_spec f2 form s.
Proof.
  revert f2 s. induction f1 as [|f1 IH]; intros f2 s H1 H2.
  - destruct s; [|cbn [length] in H1; lia]. by destruct f2.
  - destruct s as [|c s]; [by destruct f2|]. destruct f2 as [|f2]; [cbn [length] in H2; lia|].
    cbn [length] in *. cbn [decode_spec].
    destruct s as [|a [|b r]]; [f_equal; apply IH; cbn [length] in *; lia..|].
    destruct (_ && _ && _); f_equal; apply IH; cbn [length] in *; lia.
Qed.

(** The decoder by its first character. *)
Lemma decoded_cons form c s :
  decoded form (c :: s) =
    match s with
    | a :: b :: r =>
        if (c =? ch "%") && isxdigit a && isxdigit b
        then hexval a * 16 + hexval b :: decoded form r
        else plus_char form c :: decoded form s
    | _ => plus_char form c :: decoded form s
    end.
Proof.
  unfold decoded. change (decode_spec (length (c :: s)) form (c :: s)) with
    (match s with
     | a :: b :: r =>
         if (c =? ch "%") && isxdigit a && isxdigit b
         then hexval a * 16 + hexval b :: decode_spec (length s) form r
         else plus_char form c :: decode_spec (length s) form s
     | _ => plus_char form c :: decode_spec (length s) form s
     end).
  destruct s as [|a [|b r]]; [done..|]. destruct (_ && _ && _); [|done].
  f_equal. apply decode_spec_fuel; cbn [length]; lia.
Qed.

(** Reading past the front part of a memory. *)
Lemma lookup_mid (pre l : mem) k : (pre ++ l) !! (length pre + k)%nat = l !! k.
Proof. rewrite lookup_app_r by lia. f_equal. lia. Qed.

(** Whether the escape test at the head of [s] (followed by a character that
    is no hexadecimal digit) succeeds is a matter of [s] alone. *)
Lemma escape_at_head pre c s t post :
  isxdigit t = false ->
  escape_at (pre ++ (c :: s) ++ t :: post) (length pre) =
    Some (match s with
          | a :: b :: _ => if isxdigit a && isxdigit b then Some (a, b) else None
          | _ => None
          end).
Proof.
  intros Ht. unfold escape_at. rewrite !lookup_mid.
  destruct s as [|a [|b s]]; cbn [app]; cbn [lookup list_lookup mbind option_bind].
  - by rewrite Ht.
  - destruct (isxdigit a); cbn [mbind option_bind]; [by rewrite Ht|done].
  - destruct (isxdigit a); cbn [mbind option_bind andb]; [by destruct (isxdigit b)|done].
Qed.

Lemma mstore_cons m w v l m1 :
  mstore m w [v] = Some m1 -> mstore m w (v :: l) = mstore m1 (w + 1) l.
Proof.
  unfold mstore. cbn [length]. case_decide as H1; [|done]. intros [= <-].
  cbn [app]. rewrite length_app, length_take. cbn [length]. rewrite length_drop.
  case_decide as H2; case_decide as H3; [|lia|lia|done]. f_equal.
  assert (Hw : length (take w m) = w) by (rewrite length_take; lia).
  rewrite take_app, drop_app, Hw. replace (w + 1 - w)%nat with 1%nat by lia.
  replace (w + 1 + length l - w)%nat with (S (length l)) by lia.
  rewrite (take_ge (take w m)) by lia. rewrite (drop_ge (take w m)) by lia.
  rewrite <- app_assoc. cbn [take drop app]. rewrite drop_drop, take_0. cbn [app].
  do 4 f_equal. lia.
Qed.

(** A one-byte store below or beyond what is still to be read. *)
Lemma mstore_drop m w v m1 r :
  mstore m w [v] = Some m1 -> (w < r)%nat -> drop r m1 = drop r m.
Proof.
  unfold mstore. cbn [length]. case_decide as H1; [|done]. intros [= <-] Hr. cbn [app].
  rewrite drop_app, length_take, Nat.min_l by lia. rewrite (drop_ge (take w m)) by (rewrite length_take; lia).
  replace (r - w)%nat with (S (r - w - 1)) by lia. cbn [drop app].
  rewrite drop_drop. f_equal. lia.
Qed.

Lemma mstore_take m w v m1 r :
  mstore m w [v] = Some m1 -> (r <= w)%nat -> take r m1 = take r m.
Proof.
  unfold mstore. cbn [length]. case_decide as H1; [|done]. intros [= <-] Hr.
  rewrite take_app_le by (rewrite length_take; lia). rewrite take_take. f_equal. lia.
Qed.

(** After a store that does not touch them, the characters still to be read
    are the same, up to the terminator. *)
Lemma unread_after m w v m1 pos s t post k :
  mstore m w [v] = Some m1 -> drop pos m = s ++ t :: post -> (pos + length s < length m)%nat ->
  (k <= length s)%nat -> (w < pos + k \/ pos + length s < w)%nat ->
  exists post', drop (pos + k) m1 = drop k s ++ t :: post'.
Proof.
  intros Hm Hd Hl Hk [Hw|Hw].
  - exists post. rewrite (mstore_drop _ _ _ _ _ Hm Hw), <- drop_drop, Hd.
    by rewrite drop_app_le by lia.
  - pose proof (mstore_take _ _ _ _ (pos + length s + 1) Hm ltac:(lia)) as Ht.
    exists (drop (pos + length s + 1) m1).
    rewrite <- (take_drop (pos + length s + 1) m1) at 1. rewrite Ht.
    rewrite drop_app_le by (rewrite length_take; lia).
    replace (pos + length s + 1)%nat with ((pos + k) + (length s - k + 1))%nat at 1 by lia.
    rewrite <- take_drop_commute, <- drop_drop, Hd, drop_app_le by lia.
    rewrite take_app, length_drop, take_ge by (rewrite length_drop; lia).
    replace (length s - k + 1 - (length s - k))%nat with 1%nat by lia.
    cbn [take]. by rewrite <- app_assoc.
Qed.

(** What a round reads: the character and, behind it, the digits of an escape. *)
Lemma decode_reads m pos c s t post :
  drop pos m = c :: s ++ t :: post -> isxdigit t = false ->
  m !! pos = Some c /\
  escape_at m pos = Some (match s with
    | a :: b :: _ => if isxdigit a && isxdigit b then Some (a, b) else None | _ => None end).
Proof.
  intros Hd Ht.
  assert (Hm : m = take pos m ++ (c :: s) ++ t :: post) by (cbn [app]; rewrite <- Hd, take_drop; done).
  assert (Htl : length (take pos m) = pos).
  { apply (f_equal length) in Hd. rewrite length_drop in Hd. cbn [length] in Hd.
    rewrite length_take. lia. }
  split.
  - rewrite <- (Nat.add_0_r pos), <- lookup_drop, Hd. done.
  - pose proof (escape_at_head (take pos m) c s t post Ht) as He. by rewrite Htl, <- Hm in He.
Qed.

(** The escape a round finds, the byte it stores for it, and how far it goes. *)
Lemma next_char form c s :
  Forall byte_ok s ->
  exists esc v k,
    (if c =? ch "%" then Some (match s with
       | a :: b :: _ => if isxdigit a && isxdigit b then Some (a, b) else None | _ => None end)
     else Some None) = Some esc /\
    match esc with
    | Some (c1, c2) =>
        v = u8 (Z.lor (Z.shiftl (hextoi (tolower c1)) 4) (hextoi (tolower c2))) /\ k = 3%nat
    | None => v = plus_char form c /\ k = 1%nat
    end /\
    decoded form (c :: s) = v :: decoded form (drop k (c :: s)) /\ (0 < k <= S (length s))%nat.
Proof.
  intros Hb.
  assert (Hplain : decoded form (c :: s) = plus_char form c :: decoded form s ->
    exists v k, (v = plus_char form c /\ k = 1%nat) /\
      decoded form (c :: s) = v :: decoded form (drop k (c :: s)) /\ (0 < k <= S (length s))%nat)
    by (intros E; exists (plus_char form c), 1%nat; split; [done|split; [exact E|lia]]).
  destruct (Z.eqb_spec c (ch "%")) as [->|Hc].
  2:{ exists None. destruct Hplain as (v & k & Hvk); [|by exists v, k].
      rewrite decoded_cons, (proj2 (Z.eqb_neq c (ch "%")) Hc). by destruct s as [|a [|b r]]. }
  destruct s as [|a [|b r]].
  1,2: exists None; destruct Hplain as (v & k & Hvk); [apply decoded_cons|by exists v, k].
  destruct (isxdigit a && isxdigit b) eqn:Hx.
  - pose proof Hx as [Hxa Hxb]%andb_true_iff.
    apply Forall_cons in Hb as [Hba Hb]. apply Forall_cons in Hb as [Hbb _].
    exists (Some (a, b)), (hexval a * 16 + hexval b), 3%nat. split; [done|]. split; [split; [|done]|split].
    + by rewrite escape_value by (by apply hexval_range).
    + rewrite decoded_cons, Z.eqb_refl, Hxa, Hxb. reflexivity.
    + cbn [length]. lia.
  - exists None. destruct Hplain as (v & k & Hvk); [|by exists v, k].
    rewrite decoded_cons, Z.eqb_refl. cbn [andb]. by rewrite Hx.
Qed.

(** What the rest of the loop stores, given what is left of the string and of
    the room. *)
Definition stores (run : option (list Z * nat)) (m : list Z) (dst j : nat) (D : list Z) : Prop :=
  run = (m' ← mstore m (dst + j) D; Some (m', (j + length D)%nat)).

Lemma stores_nothing m dst j :
  (dst + j <= length m)%nat -> stores (Some (m, j)) m dst j [].
Proof.
  intros H. unfold stores. rewrite mstore_Some by (cbn [length]; lia).
  cbn [length app mbind option_bind]. rewrite Nat.add_0_r, take_drop. do 2 f_equal. lia.
Qed.

(** One round that stores [v], then the rest. *)
Lemma stores_cons m dst j v D (rest : list Z -> option (list Z * nat)) :
  (dst + j < length m)%nat ->
  (forall m1, mstore m (dst + j) [v] = Some m1 -> stores (rest m1) m1 dst (j + 1) D) ->
  stores (m1 ← mstore m (dst + j) [v]; rest m1) m dst j (v :: D).
Proof.
  intros Hl Hr. unfold stores.
  assert (exists m1, mstore m (dst + j) [v] = Some m1) as [m1 Hm1]
    by (rewrite mstore_Some by (cbn [length]; lia); eauto).
  rewrite Hm1, (mstore_cons _ _ _ D _ Hm1). cbn [mbind option_bind].
  rewrite (Hr m1 Hm1). rewrite Nat.add_assoc. destruct (mstore m1 _ _); [|done].
  cbn [mbind option_bind length]. do 2 f_equal. lia.
Qed.

(** The loop stores the decoded characters, as many as fit. *)
Lemma decode_loop_spec left m src src_len dst dst_len form i j s t post :
  drop (src + i) m = s ++ t :: post -> length s = (src_len - i)%nat -> (i <= src_len)%nat ->
  (length s <= left)%nat -> isxdigit t = false -> Forall byte_ok s ->
  (dst + j <= src + i \/ src + src_len < dst + j)%nat ->
  let D := take (Z.to_nat (u64 (dst_len - 1) - Z.of_nat j)) (decoded form s) in
  (dst + j + length D <= length m)%nat ->
  stores (decode_loop left m src src_len dst dst_len form i j) m dst j D.
Proof.
  revert m i j s post. induction left as [|left IH];
    intros m i j s post Hd Hs Hi Hleft Ht Hb Hpos D HD.
  { assert (s = []) as -> by (destruct s; [done|cbn [length] in *; lia]).
    unfold decoded in D. cbn in D. subst D. rewrite take_nil in *.
    apply stores_nothing. cbn [length] in HD. lia. }
  cbn [decode_loop].
  destruct (Nat.ltb_spec i src_len) as [Hlt|Hge]; cbn [andb].
  2:{ assert (D = []) as -> by (unfold D; destruct s; [exact (take_nil _)|cbn [length] in Hs; lia]).
      apply stores_nothing. cbn [length] in HD. lia. }
  destruct (Z.ltb_spec (Z.of_nat j) (u64 (dst_len - 1))) as [Hj|Hj].
  2:{ assert (D = []) as -> by (unfold D; by replace (Z.to_nat _) with 0%nat by lia).
      apply stores_nothing. cbn [length] in HD. lia. }
  destruct s as [|c s]; [cbn [length] in Hs; lia|]. cbn [length] in Hs.
  destruct (decode_reads _ _ _ _ _ _ Hd Ht) as [Hc He].
  rewrite Hc. cbn [mbind option_bind]. rewrite He.
  destruct (next_char form c s (Forall_inv_tail Hb)) as (esc & v & k & -> & Hesc & Hv & Hk).
  assert (Hround : stores (m1 ← mstore m (dst + j) [v];
      decode_loop left m1 src src_len dst dst_len form (i + k) (j + 1)) m dst j D).
  { unfold D in *.
    replace (Z.to_nat _) with (S (Z.to_nat (u64 (dst_len - 1) - Z.of_nat (j + 1)))) in * by lia.
    rewrite Hv in *. cbn [take length] in HD, Hleft |- *. apply stores_cons; [lia|]. intros m1 Hm1.
    pose proof (mstore_length _ _ _ _ Hm1) as Hl1.
    assert (Hml : (src + i + S (length s) < length m)%nat).
    { apply (f_equal length) in Hd. rewrite length_drop, length_app in Hd. cbn [length] in Hd. lia. }
    destruct (unread_after m (dst + j) v m1 (src + i) (c :: s) t post k Hm1 Hd) as [post' Hd'];
      [cbn [length]; lia..|]. rewrite <- Nat.add_assoc in Hd'.
    assert (length (drop k (c :: s)) = (S (length s) - k)%nat) by (rewrite length_drop; done).
    apply (IH m1 (i + k)%nat (j + 1)%nat (drop k (c :: s)) post' Hd'); try lia; [exact Ht|].
    by apply Forall_drop. }
  cbn [mbind option_bind]. by destruct esc as [[c1 c2]|]; destruct Hesc as [-> ->].
Qed.

(** A store over the first bytes of which one was already stored. *)
Lemma mstore_again m w v m1 l :
  mstore m w [v] = Some m1 -> (0 < length l)%nat -> mstore m1 w l = mstore m w l.
Proof.
  intros Hm Hl. pose proof (mstore_length _ _ _ _ Hm) as Hlen. unfold mstore. rewrite Hlen.
  case_decide as Hd; [|done]. f_equal.
  rewrite (mstore_take _ _ _ _ _ Hm), (mstore_drop _ _ _ _ _ Hm) by lia. done.
Qed.

Lemma wby_url_decode_stored m src dst dst_len form s t post :
  drop src m = s ++ t :: post -> isxdigit t = false -> Forall byte_ok s ->
  (dst <= src \/ src + length s < dst)%nat -> 0 < dst_len < 2 ^ 64 ->
  let out := take (Z.to_nat (dst_len - 1)) (decoded form s) in
  (dst + length out < length m)%nat ->
  wby_url_decode m src (length s) dst dst_len form =
    (m' ← mstore m dst (out ++ [0]); Some (m', length out)).
Proof.
  intros Hd Ht Hb Hpos Hlen out Hout. unfold wby_url_decode.
  assert (Hu : Z.to_nat (u64 (dst_len - 1) - Z.of_nat 0) = Z.to_nat (dst_len - 1))
    by (rewrite u64_small by lia; f_equal; lia).
  rewrite (decode_loop_spec _ m src _ dst dst_len form 0 0 s t post);
    rewrite ?Hu, ?Nat.add_0_r; fold out; try done; try lia.
  rewrite mstore_Some by lia. cbn [mbind option_bind Nat.add].
  set (m1 := take dst m ++ out ++ drop (dst + length out) m).
  rewrite !mstore_Some; rewrite ?length_app; cbn [length]; unfold m1;
    rewrite ?length_app, ?length_take, ?length_drop; try lia.
  cbn [mbind option_bind]. do 2 f_equal.
  rewrite (app_assoc _ out), take_app_length', drop_app_ge
    by (rewrite length_app, length_take; lia).
  rewrite length_app, length_take, drop_drop, <- !app_assoc. do 4 f_equal. lia.
Qed.

(** C35: Decoding a string in place, or into a buffer clear of it: the decoded
    characters that fit in [dst_len - 1] bytes and a NUL are stored, and their
    number is returned; nothing else in memory changes. *)
Theorem wby_url_decode_correct m src dst dst_len form s t post :
  drop src m = s ++ t :: post -> isxdigit t = false -> Forall byte_ok s ->
  (dst <= src \/ src + length s < dst)%nat -> 0 < dst_len < 2 ^ 64 ->
  let out := take (Z.to_nat (dst_len - 1)) (decoded form s) in
  (dst + length out < length m)%nat ->
  wby_url_decode m src (length s) dst dst_len form =
    (m' ← mstore m dst (out ++ [0]); Some (m', length out)).
Proof. exact (wby_url_decode_stored m src dst dst_len form s t post). Qed.

Lemma wby_url_decode_correct_witness :
  exists m', wby_url_decode (bs "/a%20b+c" ++ [0; 7]) 0 8 0 9 true = Some (m', 6%nat) /\
    cstr m' = Some (bs "/a b c").
Proof.
  eexists. split.
  - etransitivity.
    + apply (wby_url_decode_correct (bs "/a%20b+c" ++ [0; 7]) 0 0 9 true (bs "/a%20b+c") 0 [7]);
        [reflexivity|reflexivity| |left; lia|lia|vm_compute; lia].
      apply (bool_decide_unpack _). vm_compute. exact I.
    + vm_compute. reflexivity.
  - reflexivity.
Defined.


Lemma decoded_length form s : (length (decoded form s) <= length s)%nat.
Proof.
  induction s as [s IH] using (induction_ltof1 _ (@length Z)). unfold ltof in IH.
  destruct s as [|c s]; [done|]. rewrite decoded_cons.
  destruct s as [|a [|b r]]; cbn [length];
    [pose proof (IH [] ltac:(simpl; lia)); cbn [length] in *; lia
    |pose proof (IH [a] ltac:(simpl; lia)); cbn [length] in *; lia|].
  pose proof (IH (a :: b :: r) ltac:(simpl; lia)). pose proof (IH r ltac:(simpl; lia)).
  destruct (_ && _ && _); cbn [length] in *; lia.
Qed.

(** ** Round trip with percent encoding *)
Lemma hex2_chars c :
  byte_ok c -> exists a b, fmt_prec 16 2 c = [a; b] /\ isxdigit a = true /\ isxdigit b = true /\
    hexval a * 16 + hexval b = c.
Proof.
  intros Hc.
  assert (E : forallb (fun c => match fmt_prec 16 2 c with
      | [a; b] => isxdigit a && isxdigit b && (hexval a * 16 + hexval b =? c)
      | _ => false end) (Z.of_nat <$> seq 0 256) = true) by (vm_compute; reflexivity).
  pose proof (range_forallb _ _ E c ltac:(unfold byte_ok in Hc; lia)) as H. cbv beta in H.
  destruct (fmt_prec 16 2 c) as [|a [|b [|]]]; try discriminate H. exists a, b.
  rewrite !andb_true_iff, Z.eqb_eq in H. tauto.
Qed.

(** Decoding what percent encoding produced gives the original bytes, whether
    or not [+] stands for a blank. *)
Theorem url_decode_encode form s :
  Forall byte_ok s -> decoded form (url_encode s) = s.
Proof.
  induction 1 as [|c s Hc Hs IH]; [done|]. unfold url_encode. cbn [mbind list_bind].
  fold (mbind encode1 s). fold (url_encode s). unfold encode1.
  destruct (unreserved c) eqn:Hu; cbn [app].
  - assert ((c =? ch "%") = false /\ (c =? ch "+") = false) as [H1 H2].
    { split; apply Z.eqb_neq; intros ->; discriminate Hu. }
    rewrite decoded_cons, H1. unfold plus_char. rewrite H2, andb_false_r. cbn [andb].
    rewrite IH. by destruct (url_encode s) as [|? [|]].
  - destruct (hex2_chars c Hc) as (a & b & -> & Ha & Hb & Hv). cbn [app].
    rewrite decoded_cons, Z.eqb_refl, Ha, Hb, Hv. cbn [andb]. by rewrite IH.
Qed.

Lemma url_decode_encode_witness :
  decoded true (url_encode (bs "a b&c=d+%")) = bs "a b&c=d+%".
Proof.
  apply (url_decode_encode true). apply (bool_decide_unpack _). vm_compute. exact I.
Defined.

(** ** Query variables *)
Section Query.
Context (name : list Z).

(** A query string "k1=v1&k2=v2..." and the first value of a name. *)
Fixpoint render (ps : list (list Z * list Z)) : list Z :=
  match ps with
  | [] => []
  | (k, v) :: ps' =>
      k ++ ch "=" :: v ++ match ps' with [] => [] | _ => ch "&" :: render ps' end
  end.

Fixpoint first_var (ps : list (list Z * list Z)) : option (list Z) :=
  match ps with
  | [] => None
  | (k, v) :: ps' => if strcasecmp_eq name k then Some v else first_var ps'
  end.

Definition no (c : Z) (l : list Z) : Prop := Forall (fun x => x <> c) l.
Definition pair_ok (p : list Z * list Z) : Prop :=
  no (ch "&") p.1 /\ no (ch "=") p.1 /\ no (ch "&") p.2.
#[export] Instance no_dec c l : Decision (no c l).
Proof. unfold no. apply _. Defined.
#[export] Instance pair_ok_dec p : Decision (pair_ok p).
Proof. unfold pair_ok. apply _. Defined.

(** The search as a scan of the rest of the string; [sep] says whether a
    variable can start here. *)
Definition match_here (sep : bool) (l : list Z) : bool :=
  sep && bool_decide (l !! length name = Some (ch "=")) &&
  strcasecmp_eq name (take (length name) l).

Fixpoint scan (sep : bool) (l : list Z) : option nat :=
  match l with
  | [] => None
  | c :: l' => if match_here sep l then Some 0%nat else S <$> scan (c =? ch "&") l'
  end.

Lemma scan_short sep l : (length l <= length name)%nat -> scan sep l = None.
Proof.
  revert sep. induction l as [|c l IH]; intros sep Hl; [done|]. cbn [scan].
  unfold match_here. rewrite (lookup_ge_None_2 _ _ Hl), bool_decide_false, andb_false_r by done.
  cbn [andb length] in *. by rewrite IH by lia.
Qed.

Lemma is_char_eqb c d : bool_decide (Some c = Some d) = (c =? d).
Proof.
  destruct (Z.eqb_spec c d) as [->|Hne]; [by apply bool_decide_true|apply bool_decide_false; congruence].
Qed.

(** A variable can start at the beginning of the string and behind an
    ampersand; what a round of the search reads to decide it. *)
Definition starts_here (q : list Z) (k : nat) : bool :=
  (k =? 0)%nat || bool_decide (q !! (k - 1)%nat = Some (ch "&")).

Lemma lookup_in_memory m buf q post k :
  drop buf m = q ++ 0 :: post -> (k < length q)%nat -> m !! (buf + k)%nat = q !! k.
Proof. intros Hd Hk. rewrite <- lookup_drop, Hd. by apply lookup_app_l. Qed.

Lemma starts_here_read m buf q post k :
  drop buf m = q ++ 0 :: post -> (k <= length q)%nat ->
  (if (buf + k =? buf)%nat then Some true else c ← m !! (buf + k - 1)%nat; Some (c =? ch "&")) =
  Some (starts_here q k).
Proof.
  intros Hd Hk. unfold starts_here. destruct k as [|k].
  - rewrite Nat.add_0_r, Nat.eqb_refl. done.
  - rewrite (proj2 (Nat.eqb_neq _ _)) by lia. replace (buf + S k - 1)%nat with (buf + k)%nat by lia.
    rewrite (lookup_in_memory _ _ _ _ _ Hd) by lia. replace (S k - 1)%nat with k by lia.
    destruct (lookup_lt_is_Some_2 q k) as [c Hc]; [lia|]. rewrite Hc. cbn [Nat.eqb orb].
    by rewrite is_char_eqb.
Qed.

Lemma name_read m buf q post k n :
  drop buf m = q ++ 0 :: post -> (k + n <= length q)%nat ->
  mload m (buf + k) n = Some (take n (drop k q)).
Proof.
  intros Hd Hk. unfold mload. assert (length (drop buf m) = (length q + S (length post))%nat) as Hl
    by (rewrite Hd, length_app; done).
  rewrite length_drop in Hl. rewrite decide_True by lia. f_equal.
  rewrite <- drop_drop, Hd, drop_app_le by lia. apply take_app_le. rewrite length_drop. lia.
Qed.

Lemma find_var_scan fuel m buf q post k :
  drop buf m = q ++ 0 :: post -> (k <= length q)%nat -> (length q < fuel + k)%nat ->
  find_var fuel m buf (buf + length q) name (buf + k) =
    Some ((fun o => buf + k + o)%nat <$> scan (starts_here q k) (drop k q)).
Proof.
  revert k. induction fuel as [|f IH]; intros k Hd Hk Hf; [lia|]. cbn [find_var].
  destruct (Nat.ltb_spec (buf + k + length name) (buf + length q)) as [Hlt|Hge].
  2:{ by rewrite scan_short by (rewrite length_drop; lia). }
  destruct (lookup_lt_is_Some_2 q (k + length name)) as [eq Heq]; [lia|].
  destruct (lookup_lt_is_Some_2 q k) as [c Hc]; [lia|].
  pose proof (starts_here_read m buf q post k Hd Hk) as Hs. cbv beta in Hs.
  etransitivity; [apply (f_equal (fun o => o ≫= _)); exact Hs|]. cbn [mbind option_bind].
  rewrite <- Nat.add_assoc, (lookup_in_memory _ _ _ _ _ Hd), Heq by lia.
  rewrite (name_read _ _ _ _ _ _ Hd) by lia. cbn [mbind option_bind].
  rewrite (drop_S q c k Hc). cbn [scan]. rewrite <- (drop_S q c k Hc).
  unfold match_here. rewrite lookup_drop, Heq, is_char_eqb.
  destruct (starts_here q k && _ && _); [cbn; do 2 f_equal; lia|].
  rewrite <- Nat.add_succ_r, (IH (S k)) by (done || lia).
  unfold starts_here. cbn [Nat.eqb orb]. replace (S k - 1)%nat with k by lia.
  rewrite Hc, is_char_eqb. destruct (scan _ _); [|done]. cbn. do 2 f_equal. lia.
Qed.

Lemma scan_false_skip a l :
  no (ch "&") a -> scan false (a ++ ch "&" :: l) = (fun o => length a + 1 + o)%nat <$> scan true l.
Proof.
  induction 1 as [|c a Hc Ha IH]; cbn [app scan]; unfold match_here; cbn [andb].
  - rewrite Z.eqb_refl. destruct (scan true l); [|done]. cbn. f_equal.
  - rewrite (proj2 (Z.eqb_neq c (ch "&")) Hc), IH. destruct (scan true l); [|done].
    cbn. f_equal.
Qed.

Lemma scan_false_none a : no (ch "&") a -> scan false a = None.
Proof.
  induction 1 as [|c a Hc Ha IH]; cbn [scan]; [done|]. unfold match_here. cbn [andb].
  by rewrite (proj2 (Z.eqb_neq c (ch "&")) Hc), IH.
Qed.

Lemma tolower_eq_char c : tolower c = ch "=" -> c = ch "=".
Proof.
  unfold tolower, ch. cbn. destruct ((65 <=? c) && (c <=? 90)) eqn:E; [|done].
  apply andb_true_iff in E as [?%Z.leb_le ?%Z.leb_le]. lia.
Qed.

(** At the start of a rendered variable the test compares the whole key. *)
Lemma match_here_key k r :
  no (ch "=") name -> no (ch "=") k ->
  match_here true (k ++ ch "=" :: r) = strcasecmp_eq name k.
Proof.
  intros Hn Hk. unfold match_here, strcasecmp_eq. cbn [andb].
  destruct (lt_eq_lt_dec (length name) (length k)) as [[Hlt|Heq]|Hgt].
  - rewrite lookup_app_l by done. rewrite (bool_decide_false (tolower <$> name = tolower <$> k)).
    2:{ intros E%(f_equal length). rewrite !length_fmap in E. lia. }
    rewrite bool_decide_false; [done|]. intros E.
    by apply (Forall_lookup_1 _ _ _ _ Hk) in E.
  - rewrite Heq, lookup_app_r, Nat.sub_diag, take_app_length by lia. done.
  - rewrite (bool_decide_false (tolower <$> name = tolower <$> k)).
    2:{ intros E%(f_equal length). rewrite !length_fmap in E. lia. }
    rewrite (bool_decide_false (tolower <$> name = _)), andb_false_r; [done|].
    intros E. apply (f_equal (fun l => l !! length k)) in E.
    rewrite !list_lookup_fmap, lookup_take_lt, lookup_app_r, Nat.sub_diag in E by lia.
    destruct (name !! length k) as [c|] eqn:Hc; [|done]. cbn in E. injection E as E.
    by apply (Forall_lookup_1 _ _ _ _ Hn) in Hc; apply Hc, tolower_eq_char.
Qed.

(** The scan finds the first variable of that name, and its value follows the
    equals sign, up to the next separator. *)
Lemma scan_render ps :
  no (ch "=") name -> Forall pair_ok ps ->
  match first_var ps with
  | None => scan true (render ps) = None
  | Some v => exists o r, scan true (render ps) = Some o /\
      (o + length name + 1 <= length (render ps))%nat /\
      drop (o + length name + 1) (render ps) = v ++ r /\
      (r = [] \/ exists r', r = ch "&" :: r')
  end.
Proof.
  intros Hn. induction 1 as [|[k v] ps (Hk1 & Hk2 & Hv) Hps IH]; [done|].
  cbn [fst snd] in *. cbn [render first_var].
  set (tail := match ps with [] => [] | _ => ch "&" :: render ps end).
  pose proof (match_here_key k (v ++ tail) Hn Hk2) as Hm.
  destruct (strcasecmp_eq name k) eqn:Hs.
  - exists 0%nat, tail. split; [|split; [|split]].
    + destruct (k ++ ch "=" :: v ++ tail) as [|c l] eqn:E; [by destruct k|].
      cbn [scan]. by rewrite Hm.
    + unfold strcasecmp_eq in Hs. apply bool_decide_eq_true, (f_equal length) in Hs.
      rewrite !length_fmap in Hs. rewrite !length_app. cbn [length]. lia.
    + unfold strcasecmp_eq in Hs. apply bool_decide_eq_true, (f_equal length) in Hs.
      rewrite !length_fmap in Hs. rewrite Hs. cbn [Nat.add].
      rewrite drop_app_ge by lia. by replace (length k + 1 - length k)%nat with 1%nat by lia.
    + unfold tail. destruct ps; [by left|right; eauto].
  - (* the first character is no separator, so the scan goes on to the next pair *)
    assert (Hstep : scan true (k ++ ch "=" :: v ++ tail) =
      S <$> scan false (drop 1 (k ++ ch "=" :: v ++ tail))).
    { destruct k as [|c k]; cbn [app drop scan] in *; rewrite Hm; [done|].
      apply Forall_cons in Hk1 as [Hc _]. by rewrite (proj2 (Z.eqb_neq _ _) Hc). }
    assert (Hno : no (ch "&") (drop 1 (k ++ ch "=" :: v))).
    { apply Forall_drop, Forall_app. split; [done|]. by constructor. }
    assert (Hd : drop 1 (k ++ ch "=" :: v ++ tail) = drop 1 (k ++ ch "=" :: v) ++ tail).
    { destruct k; cbn [app drop]; [done|]. by rewrite !drop_0, <- (app_assoc k). }
    rewrite Hstep, Hd. unfold tail. destruct ps as [|p ps]; [by rewrite app_nil_r, scan_false_none|].
    rewrite scan_false_skip by done. set (q := p :: ps) in *.
    destruct (first_var q) as [w|]; [|by rewrite IH].
    destruct IH as (o & r & Ho & Hlo & Hr & Hrr). rewrite Ho. eexists _, r. split; [done|].
    clear - Hlo Hr Hrr.
    assert (Hl : length (drop 1 (k ++ ch "=" :: v)) = (length k + length v)%nat)
      by (rewrite length_drop, length_app; cbn [length]; lia).
    rewrite Hl. split; [rewrite !length_app; cbn [length]; rewrite length_app; cbn [length]; lia|].
    split; [|done]. rewrite <- Hr.
    replace (k ++ ch "=" :: v ++ ch "&" :: render q) with ((k ++ ch "=" :: v ++ [ch "&"]) ++ render q)
      by (rewrite <- app_assoc; cbn [app]; do 2 f_equal; by rewrite <- app_assoc).
    rewrite drop_app_ge; rewrite length_app; cbn [length]; rewrite length_app; cbn [length]; [|lia].
    f_equal. lia.
Qed.

Lemma value_end_app v r p :
  no (ch "&") v -> (r = [] \/ exists r', r = ch "&" :: r') ->
  value_end (v ++ r) p = (p + length v)%nat.
Proof.
  intros Hv Hr. revert p. induction Hv as [|c v Hc Hv IH]; intros p; cbn [app value_end length].
  - destruct Hr as [->|[r' ->]]; cbn [value_end]; [lia|]. rewrite Z.eqb_refl. lia.
  - rewrite (proj2 (Z.eqb_neq _ _) Hc), IH. lia.
Qed.

Lemma first_var_in ps v : first_var ps = Some v -> exists k, (k, v) ∈ ps.
Proof.
  induction ps as [|[k w] ps IH]; cbn [first_var]; [done|].
  case_match; [intros [= ->]; eexists; left|intros H1; destruct (IH H1) as [k' ?]; exists k'; by right].
Qed.
End Query.

(** The value of a variable, copied behind the query string: [m1] is the memory
    after the NUL that the search starts with. *)
Lemma value_stored m m1 p v r post dst dst_len :
  mstore m dst [0] = Some m1 -> drop p m1 = v ++ r ++ 0 :: post ->
  r = [] \/ (exists r', r = ch "&" :: r') -> Forall byte_ok v ->
  (p + length v < dst)%nat -> Z.of_nat (length v) < dst_len < 2 ^ 31 ->
  Z.of_nat dst + dst_len <= Z.of_nat (length m) ->
  ('(m2, n) ← wby_url_decode m1 p (length v) dst dst_len true; Some (m2, i32 (Z.of_nat n))) =
  (m' ← mstore m dst (decoded true v ++ [0]); Some (m', Z.of_nat (length (decoded true v)))).
Proof.
  intros Hm1 Hp Hr Hbv Hdst Hlen Hfit. pose proof (mstore_length _ _ _ _ Hm1) as Hl1.
  assert (exists t post2, isxdigit t = false /\ r ++ 0 :: post = t :: post2) as (t & post2 & Ht & Hrt).
  { destruct Hr as [->|[r' ->]]; cbn [app]; eexists _, _; (split; [|done]); done. }
  rewrite Hrt in Hp. pose proof (decoded_length true v) as Hdl.
  assert (Htake : take (Z.to_nat (dst_len - 1)) (decoded true v) = decoded true v)
    by (apply take_ge; lia).
  rewrite (wby_url_decode_stored m1 p dst dst_len true v t post2 Hp Ht Hbv), Htake; try lia.
  2:{ rewrite Htake. lia. }
  rewrite (mstore_again m dst 0 m1) by (done || (rewrite length_app; cbn [length]; lia)).
  destruct (mstore m dst (decoded true v ++ [0])); [|reflexivity]. cbn [mbind option_bind].
  do 2 f_equal. apply i32_small. lia.
Qed.

(** Looking a name up in a query string: the value of the first variable of
    that name (upper and lower case alike) is decoded into [dst] and its
    length returned, provided it fits; a missing name, or a value that does not fit
    [dst], returns -1 and leaves the empty string in [dst]. *)
Theorem wby_find_query_var_correct m buf name dst dst_len ps post :
  drop buf m = render ps ++ 0 :: post -> Forall (fun c => c <> 0) (render ps) ->
  Forall byte_ok (render ps) -> no (ch "=") name -> Forall pair_ok ps ->
  (buf + length (render ps) < dst)%nat -> 0 < dst_len < 2 ^ 31 ->
  Z.of_nat dst + dst_len <= Z.of_nat (length m) ->
  wby_find_query_var m buf name dst dst_len =
    match first_var name ps with
    | Some v =>
        if Z.of_nat (length v) <? dst_len
        then m' ← mstore m dst (decoded true v ++ [0]); Some (m', Z.of_nat (length (decoded true v)))
        else m' ← mstore m dst [0]; Some (m', -1)
    | None => m' ← mstore m dst [0]; Some (m', -1)
    end.
Proof.
  intros Hd Hnz Hb Hn Hps Hdst Hlen Hfit. unfold wby_find_query_var.
  rewrite Hd, cstr_app_nul by done. cbn [mbind option_bind].
  set (q := render ps) in *.
  assert (Hlm : (buf + length q < length m)%nat) by lia.
  destruct (mstore m dst [0]) as [m1|] eqn:Hm1.
  2:{ rewrite mstore_Some in Hm1 by (cbn [length]; lia). done. }
  cbn [mbind option_bind]. pose proof (mstore_length _ _ _ _ Hm1) as Hl1.
  destruct (unread_after m dst 0 m1 buf q 0 post 0 Hm1 Hd Hlm) as [post' Hd']; [lia|lia|].
  rewrite Nat.add_0_r, drop_0 in Hd'.
  pose proof (find_var_scan name (S (length q)) m1 buf q post' 0 Hd' ltac:(lia) ltac:(lia)) as Hf.
  rewrite Nat.add_0_r, drop_0 in Hf. change (starts_here q 0) with true in Hf. rewrite Hf.
  pose proof (scan_render name ps Hn Hps) as Hscan. fold q in Hscan.
  destruct (first_var name ps) as [v|] eqn:Hv; [|by rewrite Hscan].
  destruct Hscan as (o & r & -> & Hlo & Hr & Hrr). cbn [fmap option_fmap option_map mbind option_bind].
  apply first_var_in in Hv as [k Hin]. rewrite Forall_forall in Hps.
  destruct (Hps _ Hin) as (_ & _ & Hamp). cbn [snd] in Hamp.
  (* the value in the memory *)
  set (p := (buf + o + length name + 1)%nat).
  assert (Hq : length q = (o + length name + 1 + (length v + length r))%nat).
  { apply (f_equal length) in Hr as Hr'. rewrite length_drop, length_app in Hr'. lia. }
  assert (Hp : drop p m1 = v ++ r ++ 0 :: post').
  { unfold p. rewrite <- !Nat.add_assoc, <- drop_drop, Hd', drop_app_le by lia.
    by rewrite Nat.add_assoc, Hr, <- app_assoc. }
  replace (buf + 0 + o + length name + 1)%nat with p by (unfold p; lia).
  assert (Hload : mload m1 p (buf + length q - p) = Some (v ++ r)).
  { unfold mload. rewrite decide_True by lia. rewrite Hp. f_equal.
    rewrite app_assoc, take_app_le; [apply take_ge|]; rewrite length_app; lia. }
  rewrite Hload. cbn [mbind option_bind]. rewrite value_end_app by done.
  replace (p + length v - p)%nat with (length v) by lia.
  destruct (Z.ltb_spec (Z.of_nat (length v)) dst_len) as [Hfits|Hbig]; [|done].
  apply (value_stored m m1 p v r post'); [done..| |lia|lia|lia].
  apply (Forall_drop _ (o + length name + 1)) in Hb. rewrite Hr in Hb.
  by apply Forall_app in Hb as [? _].
Qed.

Definition query_mem : mem := Eval vm_compute in bs "a=1&NAME=b%20c&name=2" ++ [0] ++ replicate 8 7.

Lemma wby_find_query_var_correct_witness :
  exists m', wby_find_query_var query_mem 0 (bs "name") 22 8 = Some (m', 3) /\
    cstr (drop 22 m') = Some (bs "b c").
Proof.
  eexists. split.
  - etransitivity.
    + apply (wby_find_query_var_correct query_mem 0 (bs "name") 22 8
        [(bs "a", bs "1"); (bs "NAME", bs "b%20c"); (bs "name", bs "2")] (replicate 8 7)).
      * reflexivity.
      * apply (bool_decide_unpack _). vm_compute. exact I.
      * apply (bool_decide_unpack _). vm_compute. exact I.
      * apply (bool_decide_unpack _). vm_compute. exact I.
      * apply (bool_decide_unpack _). vm_compute. exact I.
      * vm_compute. lia.
      * lia.
      * vm_compute. discriminate.
    + vm_compute. reflexivity.
  - reflexivity.
Defined.

End Url.
