(* ===== verification/HttpUtil.v ===== *)
(** * mumux/util.c and the websocket frame header of mumux/request.c

    The request scanner and the in-place tokeniser work on offsets of the
    server's memory; frame headers are byte lists. *)
From S2P Require Import Prelude CLib.

Module HttpUtil.

(** ** util.c *)
Definition CR : Z := 13.
Definition LF : Z := 10.
Definition CRLF : list Z := [CR; LF].

(** The rounds of [wb_peek_request_size]: [p] is [buf + i]. *)
Fixpoint peek_loop (rounds : nat) (m : mem) (p : nat) (i : Z) : option Z :=
  match rounds with
  | O => Some (-1)
  | S n =>
      c0 ← m !! p;
      if negb (c0 =? CR) then peek_loop n m (p + 1) (i + 1) else
      c1 ← m !! (p + 1)%nat;
      if negb (c1 =? LF) then peek_loop n m (p + 1) (i + 1) else
      c2 ← m !! (p + 2)%nat;
      if negb (c2 =? CR) then peek_loop n m (p + 1) (i + 1) else
      c3 ← m !! (p + 3)%nat;
      if negb (c3 =? LF) then peek_loop n m (p + 1) (i + 1) else
      Some (i + 4)
  end.

Definition wb_peek_request_size (m : mem) (buf : nat) (len : Z) : option Z :=
  peek_loop (Z.to_nat (len - 3)) m buf 0.

(** The first offset at or after [p] that is no blank or tab; [l] is the
    memory at [p]. *)
Fixpoint skip_blanks (l : list Z) (p : nat) : option nat :=
  match l with
  | [] => None
  | c :: l' => if (c =? ch " ") || (c =? 9) then skip_blanks l' (S p) else Some p
  end.
Definition wby_skipws (m : mem) (p : nat) : option nat := skip_blanks (drop p m) p.

(** The loop of [wby_tok_inplace]; [left] is [max - token_count], [toks] the
    tokens found so far (last first).  Every round but the last moves [b]
    behind a separator, so [fuel] above the length of the string is enough. *)
Fixpoint tok_loop (fuel : nat) (m : mem) (b : nat) (separator : list Z) (skipws : bool)
    (left : nat) (toks : list nat) : option (mem * list nat) :=
  match fuel, left with
  | O, _ => None
  | _, O => Some (m, reverse toks)
  | S f, S left' =>
      b ← (if skipws then wby_skipws m b else Some b);
      s ← cstr (drop b m);
      match find_sub separator s with
      | Some len =>
          m' ← mstore m (b + len) [0];
          let b' := (b + len + length separator)%nat in
          if (0 <? len)%nat then tok_loop f m' b' separator skipws left' (b :: toks)
          else tok_loop f m' b' separator skipws left toks
      | None => Some (m, reverse (b :: toks))
      end
  end.

(** The memory and the tokens; their number is the source's result. *)
Definition wby_tok_inplace (m : mem) (buf : nat) (separator : list Z) (max : nat) (skipws : bool) :
    option (mem * list nat) :=
  tok_loop (S (length m)) m buf separator skipws max [].

(** The header bytes; their number is the source's result. *)
Definition wby_make_websocket_header (opcode payload_len : Z) (fin : bool) : list Z :=
  let b0 := u8 (Z.lor (if fin then 0x80 else 0x00) opcode) in
  if payload_len <? 126 then [b0; u8 (Z.land payload_len 0x7f)]
  else if payload_len <? 65536 then [b0; 126; u8 (Z.shiftr payload_len 8); u8 payload_len]
  else [b0; 127; 0; 0; 0; 0; u8 (Z.shiftr payload_len 24); u8 (Z.shiftr payload_len 16);
        u8 (Z.shiftr payload_len 8); u8 payload_len].

(** [struct wby_buffer]: fill level, capacity and the offset of the bytes in
    the server's memory. *)
Record buffer := mk_buffer { used : Z; bmax : Z; data : nat }.

(** What [wby_read_buffered_data] copies out of the buffer with [left] bytes
    unread: the bytes, the bytes left and the length still wanted.  A negative
    size makes [memcpy] leave the object. *)
Definition wby_read_buffered_data (m : mem) (left : Z) (b : buffer) (dest_len : Z) :
    option (list Z * Z * Z) :=
  if left =? 0 then Some ([], left, dest_len)
  else
    let len := i32 dest_len in
    let offset := i32 (i32 (used b) - left) in
    let read_size := if len >? left then left else len in
    if (read_size <? 0) || (Z.of_nat (data b) + offset <? 0) then None else
    bytes ← mload m (Z.to_nat (Z.of_nat (data b) + offset)) (Z.to_nat read_size);
    Some (bytes, left - read_size, u64 (dest_len - read_size)).

(** ** Frame headers (request.c) *)
Definition WBY_WSF_FIN : Z := 1.
Definition WBY_WSF_MASKED : Z := 2.

Record wby_frame := mk_frame {
  fr_flags : Z; fr_opcode : Z; fr_header_size : Z; fr_mask_key : list Z; fr_payload_length : Z }.

(** [buf] is the used part of the buffer; the result is the source's (0 or
    -1) and the frame. *)
Definition wby_scan_websocket_frame (frame : wby_frame) (buf : list Z) : Z * wby_frame :=
  match buf with
  | header0 :: header1 :: rest =>
      let fin := negb (Z.land header0 0x80 =? 0) in
      let masked := negb (Z.land header1 0x80 =? 0) in
      let flags := Z.lor (if fin then WBY_WSF_FIN else 0) (if masked then WBY_WSF_MASKED else 0) in
      let mask_bytes := if masked then 4%nat else 0%nat in
      let opcode := Z.land header0 0xf in
      let len := Z.land header1 0x7f in
      let len_bytes := if len =? 126 then 2%nat else if len =? 127 then 8%nat else 0%nat in
      if (length rest <? len_bytes + mask_bytes)%nat then (-1, frame) else
      let len0 := if (len_bytes =? 0)%nat then len else 0 in
      let len := foldl (fun len b => Z.lor (u32 (Z.shiftl len 8)) b) len0 (take len_bytes rest) in
      let key := if masked then take 4 (drop len_bytes rest) else fr_mask_key frame in
      (0, mk_frame flags opcode (2 + Z.of_nat (len_bytes + mask_bytes)) key (i32 len))
  | _ => (-1, frame)
  end.

(** [wby_websocket_pong] (connection.h). *)
Definition wby_websocket_pong : list Z := [0x80; 10; 0x00].

(** ** The end of the request header *)
Lemma peek_loop_spec l : forall m p i,
  mload m p (length l) = Some l ->
  peek_loop (length l - 3) m p i =
    Some (match find_sub (CRLF ++ CRLF) l with Some k => i + Z.of_nat k + 4 | None => -1 end).
Proof.
  induction l as [|c l IH]; intros m p i Hl; [done|].
  assert (Hget : forall j x, (c :: l) !! j = Some x -> m !! (p + j)%nat = Some x).
  { intros j x Hj. unfold mload in Hl. case_decide; [|done]. injection Hl as Hl.
    rewrite <- lookup_drop, <- Hj, <- Hl. symmetry. apply lookup_take_lt.
    apply lookup_lt_Some in Hj. done. }
  assert (Hl' : mload m (p + 1) (length l) = Some l).
  { unfold mload in *. cbn [length] in *. case_decide; [|done]. rewrite decide_True by lia.
    injection Hl as Hl. f_equal. rewrite <- drop_drop.
    destruct (drop p m) as [|x r] eqn:E; [done|]. cbn [take] in Hl. injection Hl as -> Hl. exact Hl. }
  destruct l as [|c1 [|c2 [|c3 r]]]; [by rewrite find_sub_short by (cbn; lia)..|].
  set (l := c1 :: c2 :: c3 :: r) in *.
  replace (length (c :: l) - 3)%nat with (S (length l - 3)) by (subst l; cbn [length]; lia).
  assert (Hnext : peek_loop (length l - 3) m (p + 1) (i + 1) =
    Some (match S <$> find_sub (CRLF ++ CRLF) l with Some k => i + Z.of_nat k + 4 | None => -1 end)).
  { rewrite (IH m (p + 1)%nat (i + 1) Hl'). destruct (find_sub _ l); [|done].
    cbn [fmap option_fmap option_map]. do 2 f_equal. lia. }
  cbn [peek_loop find_sub]. pose proof (Hget 0%nat c eq_refl) as H0. rewrite Nat.add_0_r in H0.
  rewrite H0, (Hget 1%nat c1), (Hget 2%nat c2), (Hget 3%nat c3) by done.
  cbn [mbind option_bind].
  replace (take (length (CRLF ++ CRLF)) (c :: l)) with [c; c1; c2; c3] by done.
  assert (Hne : forall a b : list Z, a <> b -> bool_decide (a = b) = false)
    by (intros; by apply bool_decide_false).
  destruct (Z.eqb_spec c CR) as [->|Hc]; cbn [negb]; [|rewrite Hne by (intros [=]; done); done].
  destruct (Z.eqb_spec c1 LF) as [->|Hc]; cbn [negb]; [|rewrite Hne by (intros [=]; done); done].
  destruct (Z.eqb_spec c2 CR) as [->|Hc]; cbn [negb]; [|rewrite Hne by (intros [=]; done); done].
  destruct (Z.eqb_spec c3 LF) as [->|Hc]; cbn [negb]; [|rewrite Hne by (intros [=]; done); done].
  rewrite bool_decide_true by done. do 2 f_equal. lia.
Qed.

Lemma peek_request_size m buf l :
  mload m buf (length l) = Some l ->
  wb_peek_request_size m buf (Z.of_nat (length l)) =
    Some (match find_sub (CRLF ++ CRLF) l with Some k => Z.of_nat k + 4 | None => -1 end).
Proof.
  intros Hl. unfold wb_peek_request_size.
  replace (Z.to_nat (Z.of_nat (length l) - 3)) with (length l - 3)%nat by lia.
  by rewrite (peek_loop_spec l m buf 0 Hl).
Qed.

(** The size of the request envelope is where its first empty line ends; -1
    when there is none yet. *)
Theorem wb_peek_request_size_spec m buf l :
  mload m buf (length l) = Some l ->
  wb_peek_request_size m buf (Z.of_nat (length l)) =
    Some (match find_sub (CRLF ++ CRLF) l with Some k => Z.of_nat k + 4 | None => -1 end).
Proof. apply peek_request_size. Qed.

Lemma wb_peek_request_size_spec_witness :
  wb_peek_request_size (bs "GET /" ++ CRLF ++ CRLF ++ bs "body") 0 13 = Some 9.
Proof.
  exact (wb_peek_request_size_spec (bs "GET /" ++ CRLF ++ CRLF ++ bs "body") 0
    (bs "GET /" ++ CRLF ++ CRLF ++ bs "body") eq_refl).
Defined.

(** ** Frame headers *)

(** The frame header of RFC 6455: flag and opcode, mask bit and length, the
    extended length, the masking key. *)
Definition rfc_header (fin : bool) (opcode : Z) (key : option (list Z)) (len : Z) : list Z :=
  let b0 := (if fin then 128 else 0) + opcode in
  let mb := match key with Some _ => 128 | None => 0 end in
  (if len <? 126 then [b0; mb + len]
   else if len <? 65536 then b0 :: mb + 126 :: be_bytes 2 len
   else b0 :: mb + 127 :: be_bytes 8 len) ++ default [] key.

Definition key_ok (key : option (list Z)) : Prop :=
  match key with Some k => length k = 4%nat | None => True end.

Definition rfc_frame (fin : bool) (opcode : Z) (key : option (list Z)) (len : Z) (frame : wby_frame) :
    wby_frame :=
  mk_frame ((if fin then WBY_WSF_FIN else 0) + (if key then WBY_WSF_MASKED else 0)) opcode
    (Z.of_nat (length (rfc_header fin opcode key len))) (default (fr_mask_key frame) key) (i32 len).

Lemma len_fold l : forall a, Forall byte_ok l ->
  foldl (fun len b => Z.lor (u32 (Z.shiftl len 8)) b) (u32 a) l = u32 (num_val 256 a l).
Proof.
  induction l as [|b l IH]; intros a Hl; [done|]. apply Forall_cons in Hl as [Hb Hl].
  change (num_val 256 a (b :: l)) with (num_val 256 (a * 256 + b) l).
  rewrite <- (IH (a * 256 + b) Hl). cbn [foldl]. f_equal.
  unfold byte_ok in Hb. rewrite Z.shiftl_mul_pow2 by lia. unfold u32.
  assert (E : ((a `mod` 2 ^ 32 * 2 ^ 8) `mod` 2 ^ 32) = (a `mod` 2 ^ 24) * 2 ^ 8).
  { rewrite Z.mul_mod_idemp_l by lia. change (2 ^ 32) with (2 ^ 24 * 2 ^ 8).
    by rewrite Z.mul_mod_distr_r by lia. }
  rewrite E, Z.lor_comm, <- Z.shiftl_mul_pow2, lor_disjoint_add by lia.
  change (2 ^ 32) with (2 ^ 8 * 2 ^ 24). change 256 with (2 ^ 8).
  rewrite (Z.add_comm (a * _)), Z.rem_mul_r, Z.mod_add, Z.div_add by lia.
  rewrite (Z.mod_small b), (Z.div_small b) by lia. rewrite Z.add_0_l. lia.
Qed.

Lemma first_byte fin opcode :
  0 <= opcode < 16 ->
  let b0 := (if fin : bool then 128 else 0) + opcode in
  negb (Z.land b0 0x80 =? 0) = fin /\ Z.land b0 0xf = opcode.
Proof.
  intros Ho b0.
  assert (E : forallb (fun o => (Z.land o 0x80 =? 0) && (Z.land o 0xf =? o) &&
      negb (Z.land (128 + o) 0x80 =? 0) && (Z.land (128 + o) 0xf =? o)) (Z.of_nat <$> seq 0 16) = true)
    by (vm_compute; reflexivity).
  pose proof (range_forallb _ _ E opcode ltac:(lia)) as H. cbv beta in H.
  rewrite !andb_true_iff, !Z.eqb_eq in H. destruct H as [[[H1 H2] H3] H4]. unfold b0.
  destruct fin; cbv iota; [done|]. by rewrite Z.add_0_l, H1.
Qed.

Lemma second_byte (masked : bool) l :
  0 <= l < 128 ->
  let b1 := (if masked then 128 else 0) + l in
  negb (Z.land b1 0x80 =? 0) = masked /\ Z.land b1 0x7f = l.
Proof.
  intros Ho b0.
  assert (E : forallb (fun o => (Z.land o 0x80 =? 0) && (Z.land o 0x7f =? o) &&
      negb (Z.land (128 + o) 0x80 =? 0) && (Z.land (128 + o) 0x7f =? o)) (Z.of_nat <$> seq 0 128) = true)
    by (vm_compute; reflexivity).
  pose proof (range_forallb _ _ E l ltac:(lia)) as H. cbv beta in H.
  rewrite !andb_true_iff, !Z.eqb_eq in H. destruct H as [[[H1 H2] H3] H4]. unfold b0.
  destruct masked; cbv iota; [done|]. by rewrite Z.add_0_l, H1.
Qed.

(** Scanning two header bytes followed by [n] length bytes, the key and
    anything else. *)
Lemma scan_parts frame fin opcode (masked : bool) l7 ext key rest :
  0 <= opcode < 16 -> 0 <= l7 < 128 ->
  length ext = (if l7 =? 126 then 2%nat else if l7 =? 127 then 8%nat else 0%nat) ->
  length key = (if masked then 4 else 0)%nat ->
  wby_scan_websocket_frame frame
    (((if fin : bool then 128 else 0) + opcode) :: ((if masked then 128 else 0) + l7) :: ext ++ key ++ rest) =
  (0, mk_frame ((if fin then WBY_WSF_FIN else 0) + (if masked then WBY_WSF_MASKED else 0)) opcode
        (2 + Z.of_nat (length ext + length key)) (if masked then key else fr_mask_key frame)
        (i32 (foldl (fun len b => Z.lor (u32 (Z.shiftl len 8)) b)
          (if (length ext =? 0)%nat then l7 else 0) ext))).
Proof.
  intros Ho Hl He Hk. unfold wby_scan_websocket_frame.
  destruct (first_byte fin opcode Ho) as [-> ->]. destruct (second_byte masked l7 Hl) as [-> ->].
  rewrite <- He, <- Hk, !length_app, (proj2 (Nat.ltb_ge _ _)) by lia.
  rewrite take_app_length, drop_app_length.
  replace (if masked then take 4 (key ++ rest) else fr_mask_key frame)
    with (if masked then key else fr_mask_key frame).
  - f_equal. f_equal; by destruct fin, masked.
  - destruct masked; [|done]. by rewrite <- Hk, take_app_length.
Qed.

(** The scanner reads every frame header back: flags, opcode, header size,
    masking key and payload length, whatever follows the header. *)
Theorem scan_rfc_header frame fin opcode key len rest :
  0 <= opcode < 16 -> 0 <= len < 2 ^ 32 -> key_ok key ->
  wby_scan_websocket_frame frame (rfc_header fin opcode key len ++ rest) =
    (0, rfc_frame fin opcode key len frame).
Proof.
  intros Ho Hlen Hk. unfold rfc_frame, rfc_header.
  set (masked := match key with Some _ => true | None => false end).
  replace (match key with Some _ => 128 | None => 0 end) with (if masked then 128 else 0)
    by (by unfold masked; destruct key).
  assert (Hkl : length (default [] key) = (if masked then 4 else 0)%nat)
    by (unfold masked; by destruct key).
  assert (Hkey : (if masked then default [] key else fr_mask_key frame) = default (fr_mask_key frame) key)
    by (unfold masked; by destruct key).
  assert (Hfl : (if masked then WBY_WSF_MASKED else 0) = (if key then WBY_WSF_MASKED else 0))
    by (unfold masked; by destruct key).
  assert (Hext : forall n l7, (n = 2 \/ n = 8)%nat -> len < 256 ^ Z.of_nat n -> 0 <= l7 < 128 ->
    (if l7 =? 126 then 2%nat else if l7 =? 127 then 8%nat else 0%nat) = n ->
    wby_scan_websocket_frame frame
      ((((if fin then 128 else 0) + opcode :: (if masked then 128 else 0) + l7 :: be_bytes n len) ++
        default [] key) ++ rest) =
    (0, mk_frame ((if fin then WBY_WSF_FIN else 0) + (if key then WBY_WSF_MASKED else 0)) opcode
      (Z.of_nat (length (((if fin then 128 else 0) + opcode :: (if masked then 128 else 0) + l7 ::
         be_bytes n len) ++ default [] key)))
      (default (fr_mask_key frame) key) (i32 len))).
  { intros n l7 Hn Hb Hl7 E. cbn [app]. rewrite <- app_assoc.
    rewrite (scan_parts frame fin opcode masked l7 (be_bytes n len) (default [] key) rest Ho Hl7)
      by (rewrite ?be_bytes_length; done).
    rewrite be_bytes_length, Hkey, Hfl, (proj2 (Nat.eqb_neq n 0)) by lia.
    change 0 with (u32 0) at 4. rewrite len_fold by apply be_bytes_ok.
    rewrite num_val_be_bytes, (Z.mod_small len), u32_small by lia. f_equal. f_equal.
    cbn [length]. rewrite length_app, be_bytes_length. lia. }
  destruct (Z.ltb_spec len 126) as [H1|H1].
  - cbn [app].
    pose proof (scan_parts frame fin opcode masked len [] (default [] key) rest Ho ltac:(lia)) as E.
    cbn [app] in E. rewrite E; [|by rewrite !(proj2 (Z.eqb_neq _ _)) by lia|done].
    rewrite Hkey, Hfl. cbn [length Nat.eqb foldl]. f_equal. f_equal. lia.
  - destruct (Z.ltb_spec len 65536) as [H2|H2]; apply Hext; try done; try pow_lia; auto.
Qed.

Lemma scan_rfc_header_witness :
  wby_scan_websocket_frame (mk_frame 0 0 0 [0; 0; 0; 0] 0)
    ([0x81; 0xfe; 1; 44; 9; 8; 7; 6] ++ bs "payload") =
  (0, mk_frame 3 1 8 [9; 8; 7; 6] 300).
Proof.
  exact (scan_rfc_header (mk_frame 0 0 0 [0; 0; 0; 0] 0) true 1 (Some [9; 8; 7; 6]) 300 (bs "payload")
    ltac:(lia) ltac:(lia) eq_refl).
Defined.

Lemma u8_shiftr x k : 0 <= k -> u8 (Z.shiftr x k) = (x / 2 ^ k) `mod` 256.
Proof. intros Hk. unfold u8. by rewrite Z.shiftr_div_pow2. Qed.

Lemma be_bytes_2 x : be_bytes 2 x = [u8 (Z.shiftr x 8); u8 x].
Proof. by rewrite u8_shiftr by lia. Qed.

Lemma be_bytes_8 x :
  0 <= x < 2 ^ 32 ->
  be_bytes 8 x = [0; 0; 0; 0; u8 (Z.shiftr x 24); u8 (Z.shiftr x 16); u8 (Z.shiftr x 8); u8 x].
Proof.
  intros Hx. rewrite !u8_shiftr by lia. unfold be_bytes, reverse.
  cbn [le_bytes rev_append]. rewrite !Z.div_div by lia. cbn [Z.mul Pos.mul].
  rewrite !(Z.div_small x (_ * _)) by lia. reflexivity.
Qed.

(** The header the server puts in front of its own frames is the one of the
    RFC, in its shortest form and without a mask. *)
Theorem wby_make_websocket_header_rfc opcode payload_len fin :
  0 <= opcode < 16 -> 0 <= payload_len < 2 ^ 31 ->
  wby_make_websocket_header opcode payload_len fin = rfc_header fin opcode None payload_len.
Proof.
  intros Ho Hl. unfold wby_make_websocket_header, rfc_header. rewrite app_nil_r.
  assert (Hb0 : u8 (Z.lor (if fin then 0x80 else 0x00) opcode) = (if fin then 128 else 0) + opcode).
  { destruct fin; cbv iota.
    - transitivity (u8 (Z.lor opcode (Z.shiftl 8 4))); [by rewrite Z.lor_comm|].
      rewrite lor_disjoint_add by lia.
      rewrite u8_small by lia. lia.
    - by rewrite Z.lor_0_l, u8_small by lia. }
  rewrite Hb0. destruct (Z.ltb_spec payload_len 126) as [H1|H1].
  - change 0x7f with (Z.ones 7). rewrite Z.land_ones, Z.mod_small, u8_small by lia. done.
  - destruct (Z.ltb_spec payload_len 65536) as [H2|H2].
    + by rewrite be_bytes_2.
    + by rewrite be_bytes_8 by lia.
Qed.

Lemma wby_make_websocket_header_rfc_witness :
  wby_make_websocket_header 2 70000 true = [0x82; 127; 0; 0; 0; 0; 0; 1; 17; 112].
Proof. exact (wby_make_websocket_header_rfc 2 70000 true ltac:(lia) ltac:(lia)). Defined.

(** A header of which bytes are still missing is not taken for a frame. *)
Theorem scan_incomplete_header frame fin opcode key len p :
  0 <= opcode < 16 -> 0 <= len < 2 ^ 32 -> key_ok key ->
  p `prefix_of` rfc_header fin opcode key len -> p <> rfc_header fin opcode key len ->
  wby_scan_websocket_frame frame p = (-1, frame).
Proof.
  intros Ho Hlen Hk [r Hr] Hne. unfold wby_scan_websocket_frame.
  destruct p as [|h0 [|h1 p]]; [done..|].
  assert (0 < length r)%nat as Hr0.
  { destruct r; [|cbn [length]; lia]. rewrite app_nil_r in Hr. congruence. }
  unfold rfc_header in Hr.
  set (masked := match key with Some _ => true | None => false end) in *.
  assert (Hmb : match key with Some _ => 128 | None => 0 end = if masked then 128 else 0)
    by (unfold masked; by destruct key).
  assert (Hkl : length (default [] key) = (if masked then 4 else 0)%nat)
    by (unfold masked; by destruct key).
  rewrite Hmb in Hr.
  assert (Hcase : exists l7 ext, 0 <= l7 < 128 /\
    length ext = (if l7 =? 126 then 2%nat else if l7 =? 127 then 8%nat else 0%nat) /\
    h1 = (if masked then 128 else 0) + l7 /\ ext ++ default [] key = p ++ r).
  { destruct (Z.ltb_spec len 126); [|destruct (Z.ltb_spec len 65536)]; cbn [app] in Hr;
      injection Hr as _ Hh1 Hr.
    - exists len, []. rewrite !(proj2 (Z.eqb_neq _ _)) by lia. split; [lia|done].
    - exists 126, (be_bytes 2 len). rewrite be_bytes_length. split; [lia|done].
    - exists 127, (be_bytes 8 len). rewrite be_bytes_length. split; [lia|done]. }
  destruct Hcase as (l7 & ext & Hl7 & Hext & -> & Hp).
  destruct (second_byte masked l7 Hl7) as [-> ->]. rewrite <- Hext.
  apply (f_equal length) in Hp. rewrite !length_app, Hkl in Hp.
  by rewrite (proj2 (Nat.ltb_lt _ _)) by lia.
Qed.

Lemma scan_incomplete_header_witness :
  wby_scan_websocket_frame (mk_frame 0 0 0 [] 0) [0x81; 0xfe; 1; 44; 9; 8; 7] = (-1, mk_frame 0 0 0 [] 0).
Proof.
  apply (scan_incomplete_header (mk_frame 0 0 0 [] 0) true 1 (Some [9; 8; 7; 6]) 300 _);
    [lia|lia|reflexivity|by exists [6]|discriminate].
Defined.

(** What the server answers a ping with is no pong but the start of a
    continuation frame of ten bytes. *)
Lemma pong_is_continuation frame rest :
  wby_scan_websocket_frame frame (wby_websocket_pong ++ rest) =
    (0, mk_frame WBY_WSF_FIN 0 2 (fr_mask_key frame) 10).
Proof. reflexivity. Qed.

(** ** The tokeniser *)

(** The first occurrence of [sep] behind [t] is right behind it. *)
Definition sep_free (sep t : list Z) : Prop := find_sub sep (t ++ sep) = Some (length t).
Definition blank (c : Z) : bool := (c =? ch " ") || (c =? 9).
Definition starts_plain (s : list Z) : Prop := match s with [] => True | c :: _ => blank c = false end.
Definition nonzero (s : list Z) : Prop := Forall (fun c => c <> 0) s.

#[export] Instance sep_free_dec sep t : Decision (sep_free sep t).
Proof. unfold sep_free. apply _. Defined.
#[export] Instance starts_plain_dec s : Decision (starts_plain s).
Proof. destruct s; apply _. Defined.
#[export] Instance nonzero_dec s : Decision (nonzero s).
Proof. unfold nonzero. apply _. Defined.

Lemma skip_blanks_spec bl s p :
  forallb blank bl = true -> starts_plain s -> s <> [] ->
  skip_blanks (bl ++ s) p = Some (p + length bl)%nat.
Proof.
  intros Hb Hs Hne. revert p Hb. induction bl as [|c bl IH]; intros p Hb; cbn [app skip_blanks].
  - destruct s as [|c s]; [done|]. unfold blank in Hs. cbn [starts_plain] in Hs. cbn [skip_blanks length].
    unfold blank in Hs. rewrite Hs. f_equal. lia.
  - cbn [forallb] in Hb. apply andb_true_iff in Hb as [Hc Hb]. unfold blank in Hc. rewrite Hc, IH by done.
    cbn [length]. f_equal. lia.
Qed.

(** The start of the next token: behind the blanks, if they are skipped. *)
Lemma token_start (skipws : bool) m b bl s :
  str_at m b (bl ++ s) -> (if skipws then forallb blank bl = true /\ starts_plain s else bl = []) ->
  (if skipws then wby_skipws m b else Some b) = Some (b + length bl)%nat.
Proof.
  intros Hm Hs. destruct skipws; [|subst; cbn [length]; f_equal; lia].
  destruct Hs as [Hb Hs]. unfold wby_skipws. rewrite (str_at_drop _ _ _ Hm), <- app_assoc.
  apply skip_blanks_spec; [done| |]; by destruct s.
Qed.

Lemma str_at_app_r m b s t : str_at m b (s ++ t) -> str_at m (b + length s) t.
Proof.
  intros H i c Hi. rewrite <- Nat.add_assoc. apply H. rewrite <- app_assoc, lookup_app_r by lia.
  rewrite <- Hi. f_equal. lia.
Qed.

Lemma sep_free_nonempty sep t : sep_free sep t -> t <> [] -> (0 < length sep)%nat.
Proof.
  intros Hs Ht. destruct sep; [|cbn [length]; lia]. destruct t; [done|].
  unfold sep_free in Hs. rewrite app_nil_r in Hs. cbn [find_sub] in Hs.
  by rewrite bool_decide_true in Hs.
Qed.

Lemma str_at_app_l m b s c t : str_at m b (s ++ c :: t) -> forall m',
  mstore m (b + length s) [0] = Some m' -> str_at m' b s.
Proof.
  intros H m' Hm i x Hi. rewrite (mstore_lookup _ _ _ _ _ Hm). cbn [length].
  destruct (decide (i < length s)%nat) as [Hl|Hl].
  - rewrite decide_False by lia. apply H. rewrite lookup_app_l in * by done.
    by rewrite <- app_assoc, lookup_app_l by done.
  - apply lookup_lt_Some in Hi as Hl'. rewrite length_app in Hl'. cbn [length] in Hl'.
    assert (i = length s) as -> by lia. rewrite decide_True by lia.
    rewrite lookup_app_r, Nat.sub_diag in Hi by lia. rewrite Nat.sub_diag. done.
Qed.

(** One round that finds a separator behind a token. *)
Lemma tok_step f m b sep (skipws : bool) left toks bl t rest :
  str_at m b (bl ++ t ++ sep ++ rest) -> nonzero (bl ++ t ++ sep ++ rest) ->
  (if skipws then forallb blank bl = true /\ starts_plain t else bl = []) ->
  t <> [] -> sep_free sep t ->
  exists m', tok_loop (S f) m b sep skipws (S left) toks =
      tok_loop f m' (b + length bl + length t + length sep) sep skipws left ((b + length bl)%nat :: toks) /\
    same_outside (b + length bl) (b + length bl + length t + length sep) m m' /\
    str_at m' (b + length bl) t /\ str_at m' (b + length bl + length t + length sep) rest.
Proof.
  intros Hm Hz Hbl Ht Hsep.
  assert (Hs0 : (0 < length sep)%nat).
  { by eapply sep_free_nonempty. }
  assert (Hbl' : if skipws then forallb blank bl = true /\ starts_plain (t ++ sep ++ rest) else bl = []).
  { destruct skipws; [|done]. destruct Hbl as [? ?]. split; [done|]. by destruct t. }
  cbn [tok_loop]. rewrite (token_start skipws m b bl _ Hm Hbl'). cbn [mbind option_bind].
  pose proof (str_at_app_r _ _ _ _ Hm) as Hm1. apply Forall_app in Hz as [_ Hz].
  rewrite (str_at_cstr _ _ _ Hm1 Hz). cbn [mbind option_bind].
  unfold sep_free in Hsep. rewrite app_assoc, (find_sub_app _ _ rest _ Hsep).
  pose proof (str_at_bound _ _ _ Hm1) as Hb. rewrite !length_app in Hb.
  destruct (mstore_is_Some m (b + length bl + length t) [0]) as [m' Hm']; [cbn [length]; lia|].
  rewrite Hm'. cbn [mbind option_bind].
  assert (Htl : (0 < length t)%nat) by (destruct t; [done|cbn [length]; lia]).
  rewrite (proj2 (Nat.ltb_lt _ _)) by done. exists m'. split; [done|].
  pose proof (mstore_same_outside _ _ _ _ Hm') as Hso. cbn [length] in Hso.
  split; [eapply same_outside_weaken; [done|lia|lia]|].
  destruct sep as [|c sep]; [cbn [length] in Hs0; lia|]. cbn [app] in Hm1. split.
  - by eapply str_at_app_l.
  - apply (str_at_same _ _ _ _ _ _ Hso); [|right; cbn [length]; lia].
    rewrite app_comm_cons in Hm1. apply str_at_app_r, str_at_app_r in Hm1. done.
Qed.

(** The last token: no separator any more. *)
Lemma tok_last f m b sep (skipws : bool) left toks bl t :
  str_at m b (bl ++ t) -> nonzero (bl ++ t) ->
  (if skipws then forallb blank bl = true /\ starts_plain t else bl = []) ->
  find_sub sep t = None ->
  tok_loop (S f) m b sep skipws (S left) toks = Some (m, reverse ((b + length bl)%nat :: toks)).
Proof.
  intros Hm Hz Hbl Hsep. cbn [tok_loop]. rewrite (token_start skipws m b bl _ Hm Hbl).
  cbn [mbind option_bind]. pose proof (str_at_app_r _ _ _ _ Hm) as Hm1.
  apply Forall_app in Hz as [_ Hz]. rewrite (str_at_cstr _ _ _ Hm1 Hz).
  cbn [mbind option_bind]. by rewrite Hsep.
Qed.

(** ** Splitting a joined string *)
Definition join (sep : list Z) (ts : list (list Z)) (last : list Z) : list Z :=
  (ts ≫= fun t => t ++ sep) ++ last.

Fixpoint offsets (sep : list Z) (b : nat) (ts : list (list Z)) : list nat :=
  match ts with
  | [] => [b]
  | t :: ts' => b :: offsets sep (b + length t + length sep) ts'
  end.

Lemma offsets_length sep b ts : length (offsets sep b ts) = S (length ts).
Proof. revert b. induction ts; intros; cbn; auto. Qed.

(** The string at every token's offset. *)
Definition strs_at (m : mem) (offs : list nat) (ts : list (list Z)) : Prop :=
  Forall2 (str_at m) offs ts.

Lemma strs_at_same m m' lo hi offs ts :
  same_outside lo hi m m' -> strs_at m offs ts ->
  Forall2 (fun off t => (off + length t < lo \/ hi <= off)%nat) offs ts -> strs_at m' offs ts.
Proof.
  intros Hs. unfold strs_at. induction 1 as [|o t offs ts Ho Hts IH]; intros H; [constructor|].
  inversion H; subst. constructor; [by eapply str_at_same|auto].
Qed.

Lemma tok_loop_join ts : forall f m b sep left toks last,
  str_at m b (join sep ts last) -> nonzero (join sep ts last) ->
  Forall (fun t => t <> [] /\ sep_free sep t) ts -> find_sub sep last = None ->
  (length ts < left)%nat -> (length ts < f)%nat ->
  exists m', tok_loop f m b sep false left toks = Some (m', reverse toks ++ offsets sep b ts) /\
    same_outside b (b + length (join sep ts last)) m m' /\
    strs_at m' (offsets sep b ts) (ts ++ [last]).
Proof.
  induction ts as [|t ts IH]; intros f m b sep left toks last Hm Hz Hts Hlast Hleft Hf;
    (destruct f as [|f]; [cbn [length] in Hf; lia|]); (destruct left as [|left]; [lia|]).
  - unfold join in *. cbn [mbind list_bind app] in *. exists m.
    rewrite (tok_last f m b sep false left toks [] last) by done. cbn [length]. rewrite Nat.add_0_r.
    split; [by rewrite reverse_cons|]. split; [apply same_outside_refl|]. by repeat constructor.
  - unfold join in *. cbn [mbind list_bind] in *. rewrite <- !app_assoc in *.
    apply Forall_cons in Hts as [[Ht Hsep] Hts]. cbn [length] in *.
    destruct (tok_step f m b sep false left toks [] t _ Hm Hz eq_refl Ht Hsep) as (m1 & E & Hs1 & Ht1 & Hr1).
    cbn [length] in *. rewrite Nat.add_0_r in *. rewrite E.
    assert (Hz1 : nonzero ((ts ≫= fun t => t ++ sep) ++ last)).
    { unfold nonzero in *. apply Forall_app in Hz as [_ Hz]. by apply Forall_app in Hz as [_ Hz]. }
    destruct (IH f m1 _ sep left (b :: toks) last Hr1 Hz1 Hts Hlast ltac:(lia) ltac:(lia))
      as (m2 & E2 & Hs2 & Hst).
    exists m2. rewrite E2, reverse_cons, <- app_assoc. split; [done|]. rewrite !length_app in *. split.
    + eapply same_outside_trans; eapply same_outside_weaken; try done; lia.
    + cbn [app offsets]. constructor; [|done]. eapply str_at_same; [exact Hs2|done|left].
      pose proof (sep_free_nonempty sep t Hsep Ht). lia.
Qed.

End HttpUtil.
