(* ===== verification/Conn.v ===== *)
(** * mumux: connections (socket.c, connection.c, request.c, response.c)

    The code of a connection runs in a state monad over the connection's
    structure and the world: the memory that holds the buffers, the scripted
    answers of the kernel, and the trace of what was asked of it.  [None] is
    undefined behaviour.  The debug log is off ([log] is NULL). *)
From S2P Require Import Prelude CLib HttpUtil Url Sha1 Base64.

Module Conn.
Export HttpUtil.

(** ** The kernel

    What a call of [recv], [send] or [fcntl] answers is not the program's
    choice: every call takes the next answer of a script, over which the
    theorems quantify.  An exhausted script answers the way an idle, healthy
    socket does. *)
Inductive recv_answer :=
| RData (l : list Z)   (* bytes are waiting *)
| REof                 (* the peer has shut the connection down *)
| RErr (errno : Z).

Definition EBADF : Z := 9.
Definition EAGAIN : Z := 11.

Inductive event :=
| Sent (sock : Z) (l : list Z)
| Blocking (sock : Z) (on : bool)
| Closed (sock : Z).

Record world := mk_world {
  memory : mem;
  recvs : list recv_answer;
  sends : list Z;        (* how many bytes a send takes; negative for an error *)
  fcntls : list Z;
  accepts : list Z;
  trace : list event }.

Definition set_memory (m : mem) (w : world) : world :=
  mk_world m (recvs w) (sends w) (fcntls w) (accepts w) (trace w).
Definition set_recvs (l : list recv_answer) (w : world) : world :=
  mk_world (memory w) l (sends w) (fcntls w) (accepts w) (trace w).
Definition set_sends (l : list Z) (w : world) : world :=
  mk_world (memory w) (recvs w) l (fcntls w) (accepts w) (trace w).
Definition set_fcntls (l : list Z) (w : world) : world :=
  mk_world (memory w) (recvs w) (sends w) l (accepts w) (trace w).
Definition set_accepts (l : list Z) (w : world) : world :=
  mk_world (memory w) (recvs w) (sends w) (fcntls w) l (trace w).
Definition log_event (e : event) (w : world) : world :=
  mk_world (memory w) (recvs w) (sends w) (fcntls w) (accepts w) (trace w ++ [e]).

(** ** The connection's state *)
Definition WBY_CON_FLAG_ALIVE : Z := 1.
Definition WBY_CON_FLAG_FRESH_CONNECTION : Z := 2.
Definition WBY_CON_FLAG_CLOSE_AFTER_RESPONSE : Z := 4.
Definition WBY_CON_FLAG_CHUNKED_RESPONSE : Z := 8.
Definition WBY_CON_FLAG_WEBSOCKET : Z := 16.

Definition has (f x : Z) : bool := negb (Z.land f x =? 0).
Definition clear (f x : Z) : Z := Z.land f (u16 (Z.lnot x)).

Inductive con_state := REQUEST | SEND_CONTINUE | SERVE | WEBSOCKET.

(** Strings of the request are offsets into the header buffer. *)
Record wby_request := mk_request {
  method : nat; uri : nat; http_version : nat; query_params : option nat;
  content_length : Z; header_count : Z; headers : list (nat * nat) }.

Record wby_connection := mk_connection {
  user_data : Z;
  flags : Z;
  state : con_state;
  socket : Z;
  request : wby_request;
  request_buffer_size : Z;
  header_buf : buffer;
  io_buf : buffer;
  io_buffer_size : Z;
  header_body_left : Z;
  io_data_left : Z;
  continue_data_left : Z;
  body_bytes_read : Z;
  ws_frame : wby_frame;
  ws_opcode : Z;
  blocking_count : Z }.

Definition set_user_data (x : Z) (c : wby_connection) : wby_connection :=
  mk_connection x (flags c) (state c) (socket c) (request c) (request_buffer_size c) (header_buf
    c) (io_buf c) (io_buffer_size c) (header_body_left c) (io_data_left c) (continue_data_left
    c) (body_bytes_read c) (ws_frame c) (ws_opcode c) (blocking_count c).
Definition set_flags (x : Z) (c : wby_connection) : wby_connection :=
  mk_connection (user_data c) x (state c) (socket c) (request c) (request_buffer_size c)
    (header_buf c) (io_buf c) (io_buffer_size c) (header_body_left c) (io_data_left c)
    (continue_data_left c) (body_bytes_read c) (ws_frame c) (ws_opcode c) (blocking_count c).
Definition set_state (x : con_state) (c : wby_connection) : wby_connection :=
  mk_connection (user_data c) (flags c) x (socket c) (request c) (request_buffer_size c)
    (header_buf c) (io_buf c) (io_buffer_size c) (header_body_left c) (io_data_left c)
    (continue_data_left c) (body_bytes_read c) (ws_frame c) (ws_opcode c) (blocking_count c).
Definition set_socket (x : Z) (c : wby_connection) : wby_connection :=
  mk_connection (user_data c) (flags c) (state c) x (request c) (request_buffer_size c)
    (header_buf c) (io_buf c) (io_buffer_size c) (header_body_left c) (io_data_left c)
    (continue_data_left c) (body_bytes_read c) (ws_frame c) (ws_opcode c) (blocking_count c).
Definition set_request (x : wby_request) (c : wby_connection) : wby_connection :=
  mk_connection (user_data c) (flags c) (state c) (socket c) x (request_buffer_size c)
    (header_buf c) (io_buf c) (io_buffer_size c) (header_body_left c) (io_data_left c)
    (continue_data_left c) (body_bytes_read c) (ws_frame c) (ws_opcode c) (blocking_count c).
Definition set_request_buffer_size (x : Z) (c : wby_connection) : wby_connection :=
  mk_connection (user_data c) (flags c) (state c) (socket c) (request c) x (header_buf c)
    (io_buf c) (io_buffer_size c) (header_body_left c) (io_data_left c) (continue_data_left c)
    (body_bytes_read c) (ws_frame c) (ws_opcode c) (blocking_count c).
Definition set_header_buf (x : buffer) (c : wby_connection) : wby_connection :=
  mk_connection (user_data c) (flags c) (state c) (socket c) (request c) (request_buffer_size c)
    x (io_buf c) (io_buffer_size c) (header_body_left c) (io_data_left c) (continue_data_left c)
    (body_bytes_read c) (ws_frame c) (ws_opcode c) (blocking_count c).
Definition set_io_buf (x : buffer) (c : wby_connection) : wby_connection :=
  mk_connection (user_data c) (flags c) (state c) (socket c) (request c) (request_buffer_size c)
    (header_buf c) x (io_buffer_size c) (header_body_left c) (io_data_left c)
    (continue_data_left c) (body_bytes_read c) (ws_frame c) (ws_opcode c) (blocking_count c).
Definition set_io_buffer_size (x : Z) (c : wby_connection) : wby_connection :=
  mk_connection (user_data c) (flags c) (state c) (socket c) (request c) (request_buffer_size c)
    (header_buf c) (io_buf c) x (header_body_left c) (io_data_left c) (continue_data_left c)
    (body_bytes_read c) (ws_frame c) (ws_opcode c) (blocking_count c).
Definition set_header_body_left (x : Z) (c : wby_connection) : wby_connection :=
  mk_connection (user_data c) (flags c) (state c) (socket c) (request c) (request_buffer_size c)
    (header_buf c) (io_buf c) (io_buffer_size c) x (io_data_left c) (continue_data_left c)
    (body_bytes_read c) (ws_frame c) (ws_opcode c) (blocking_count c).
Definition set_io_data_left (x : Z) (c : wby_connection) : wby_connection :=
  mk_connection (user_data c) (flags c) (state c) (socket c) (request c) (request_buffer_size c)
    (header_buf c) (io_buf c) (io_buffer_size c) (header_body_left c) x (continue_data_left c)
    (body_bytes_read c) (ws_frame c) (ws_opcode c) (blocking_count c).
Definition set_continue_data_left (x : Z) (c : wby_connection) : wby_connection :=
  mk_connection (user_data c) (flags c) (state c) (socket c) (request c) (request_buffer_size c)
    (header_buf c) (io_buf c) (io_buffer_size c) (header_body_left c) (io_data_left c) x
    (body_bytes_read c) (ws_frame c) (ws_opcode c) (blocking_count c).
Definition set_body_bytes_read (x : Z) (c : wby_connection) : wby_connection :=
  mk_connection (user_data c) (flags c) (state c) (socket c) (request c) (request_buffer_size c)
    (header_buf c) (io_buf c) (io_buffer_size c) (header_body_left c) (io_data_left c)
    (continue_data_left c) x (ws_frame c) (ws_opcode c) (blocking_count c).
Definition set_ws_frame (x : wby_frame) (c : wby_connection) : wby_connection :=
  mk_connection (user_data c) (flags c) (state c) (socket c) (request c) (request_buffer_size c)
    (header_buf c) (io_buf c) (io_buffer_size c) (header_body_left c) (io_data_left c)
    (continue_data_left c) (body_bytes_read c) x (ws_opcode c) (blocking_count c).
Definition set_ws_opcode (x : Z) (c : wby_connection) : wby_connection :=
  mk_connection (user_data c) (flags c) (state c) (socket c) (request c) (request_buffer_size c)
    (header_buf c) (io_buf c) (io_buffer_size c) (header_body_left c) (io_data_left c)
    (continue_data_left c) (body_bytes_read c) (ws_frame c) x (blocking_count c).
Definition set_blocking_count (x : Z) (c : wby_connection) : wby_connection :=
  mk_connection (user_data c) (flags c) (state c) (socket c) (request c) (request_buffer_size c)
    (header_buf c) (io_buf c) (io_buffer_size c) (header_body_left c) (io_data_left c)
    (continue_data_left c) (body_bytes_read c) (ws_frame c) (ws_opcode c) x.

(** ** The monad *)
Definition M (A : Type) : Type := wby_connection * world -> option (A * (wby_connection * world)).
#[export] Instance M_ret : MRet M := fun A x s => Some (x, s).
#[export] Instance M_bind : MBind M := fun A B f m s =>
  match m s with Some (x, s') => f x s' | None => None end.

Definition ub {A} : M A := fun _ => None.
Definition get {A} (f : wby_connection -> A) : M A := fun s => Some (f s.1, s).
Definition upd (f : wby_connection -> wby_connection) : M unit := fun s => Some (tt, (f s.1, s.2)).
Definition getw {A} (f : world -> A) : M A := fun s => Some (f s.2, s).
Definition updw (f : world -> world) : M unit := fun s => Some (tt, (s.1, f s.2)).
Definition lift {A} (o : option A) : M A := fun s => x ← o; Some (x, s).

(** A memory operation, and the string at an offset. *)
Definition on_mem {A} (f : mem -> option (mem * A)) : M A := fun s =>
  '(m, x) ← f (memory s.2); Some (x, (s.1, set_memory m s.2)).
Definition store (i : nat) (l : list Z) : M unit :=
  on_mem (fun m => m' ← mstore m i l; Some (m', tt)).
Definition str (p : nat) : M (list Z) := fun s => t ← cstr (drop p (memory s.2)); Some (t, s).

Definition set_flag (x : Z) : M unit := upd (fun c => set_flags (Z.lor (flags c) x) c).
Definition clear_flag (x : Z) : M unit := upd (fun c => set_flags (clear (flags c) x) c).

(** ** The system calls *)
Inductive recv_result := Got (l : list Z) | Eof | Error (errno : Z).

(** At most [n] of the waiting bytes; the rest keeps waiting. *)
Definition recv (sock : Z) (n : nat) : M recv_result :=
  if sock <? 0 then mret (Error EBADF) else
  script ← getw recvs;
  match script with
  | [] => mret (Error EAGAIN)
  | RErr e :: r => updw (set_recvs r);; mret (Error e)
  | REof :: r => updw (set_recvs r);; mret Eof
  | RData l :: r =>
      match take n l with
      | [] => updw (set_recvs r);; mret Eof
      | got =>
          updw (set_recvs (match drop n l with [] => r | more => RData more :: r end));;
          mret (Got got)
      end
  end.

(** The number of bytes taken, or a negative number. *)
Definition send (sock : Z) (l : list Z) : M Z :=
  if sock <? 0 then mret (-1) else
  script ← getw sends;
  match script with
  | [] => updw (log_event (Sent sock l));; mret (Z.of_nat (length l))
  | a :: r =>
      updw (set_sends r);;
      if a <? 0 then mret (-1)
      else
        let n := Z.min a (Z.of_nat (length l)) in
        updw (log_event (Sent sock (take (Z.to_nat n) l)));; mret n
  end.

(** The next answer of [fcntl]; a closed descriptor is refused. *)
Definition fcntl (sock : Z) : M Z :=
  if sock <? 0 then mret (-1) else
  script ← getw fcntls;
  match script with
  | [] => mret 0
  | a :: r => updw (set_fcntls r);; mret a
  end.

(** ** socket.c *)
Definition WBY_OK : Z := 0.
Definition WBY_INVALID_SOCKET : Z := -1.

Definition wby_socket_is_valid (sock : Z) : bool := sock >? 0.
Definition wby_socket_close (sock : Z) : M unit := updw (log_event (Closed sock)).
Definition wby_socket_is_blocking_error (error : Z) : bool := EAGAIN =? error.

Definition wby_socket_set_blocking (sock : Z) (blocking : bool) : M Z :=
  fl ← fcntl sock;
  if fl <? 0 then mret fl
  else
    r ← fcntl sock;
    (if r =? WBY_OK then updw (log_event (Blocking sock blocking)) else mret tt);; mret r.

Definition wby_socket_config_incoming (sock : Z) : M Z :=
  err ← wby_socket_set_blocking sock false;
  if negb (err =? WBY_OK) then mret err else mret 0.

(** Every round sends at least one byte, so [length l] rounds are enough. *)
Fixpoint send_loop (fuel : nat) (sock : Z) (l : list Z) : M Z :=
  match l, fuel with
  | [], _ => mret 0
  | _, O => ub
  | _, S f =>
      err ← send sock l;
      if err <=? 0 then mret 1 else send_loop f sock (drop (Z.to_nat err) l)
  end.
Definition wby_socket_send (sock : Z) (l : list Z) : M Z := send_loop (length l) sock l.

Inductive fill := WBY_FILL_OK | WBY_FILL_ERROR | WBY_FILL_FULL.

Definition set_used (x : Z) (b : buffer) : buffer := mk_buffer x (bmax b) (data b).

(** Every round that goes on fills at least one byte of the buffer. *)
Fixpoint recv_loop (fuel : nat) (sock : Z) (b : buffer) : M (fill * buffer) :=
  match fuel with
  | O => ub
  | S f =>
      let buf_left := i32 (bmax b) - i32 (used b) in
      if buf_left =? 0 then mret (WBY_FILL_FULL, b)
      else if buf_left <? 0 then ub
      else
        r ← recv sock (Z.to_nat buf_left);
        match r with
        | Error e =>
            if wby_socket_is_blocking_error e then mret (WBY_FILL_OK, b)
            else mret (WBY_FILL_ERROR, b)
        | Eof => mret (WBY_FILL_ERROR, b)
        | Got l =>
            store (data b + Z.to_nat (used b)) l;;
            recv_loop f sock (set_used (used b + Z.of_nat (length l)) b)
        end
  end.
Definition wby_socket_recv (sock : Z) (b : buffer) : M (fill * buffer) :=
  recv_loop (S (Z.to_nat (i32 (bmax b) - i32 (used b)))) sock b.

Definition wby_socket_flush (sock : Z) (b : buffer) : M (Z * buffer) :=
  r ← (if used b >? 0 then
         m ← getw memory;
         l ← lift (mload m (data b) (Z.to_nat (i32 (used b))));
         wby_socket_send sock l
       else mret 0);
  if negb (r =? WBY_OK) then mret (1, b) else mret (0, set_used 0 b).

(** ** connection.c *)
Definition wby_connection_set_blocking : M Z :=
  n ← get blocking_count;
  r ← (if n =? 0 then (sock ← get socket; wby_socket_set_blocking sock true) else mret WBY_OK);
  if negb (r =? WBY_OK) then clear_flag WBY_CON_FLAG_ALIVE;; mret (-1)
  else upd (set_blocking_count (u64 (n + 1)));; mret 0.

Definition wby_connection_set_nonblocking : M Z :=
  count ← get blocking_count;
  fl ← get flags;
  r ← (if has fl WBY_CON_FLAG_ALIVE && (count =? 1)
       then (sock ← get socket; wby_socket_set_blocking sock false) else mret WBY_OK);
  if negb (r =? WBY_OK) then clear_flag WBY_CON_FLAG_ALIVE;; mret (-1)
  else upd (set_blocking_count (u64 (count - 1)));; mret 0.

Definition wby_connection_reset (request_buffer_size io_buffer_size : Z) (c : wby_connection) :
    wby_connection :=
  set_header_buf (mk_buffer 0 request_buffer_size (data (header_buf c)))
    (set_io_buf (mk_buffer 0 io_buffer_size (data (io_buf c)))
    (set_header_body_left 0 (set_io_data_left 0 (set_continue_data_left 0
    (set_body_bytes_read 0 (set_state REQUEST (set_user_data 0 (set_blocking_count 0 c)))))))).

Definition wby_connection_close : M unit :=
  sock ← get socket;
  (if negb (sock =? WBY_INVALID_SOCKET) then
     wby_socket_close sock;; upd (set_socket WBY_INVALID_SOCKET) else mret tt);;
  upd (set_flags 0).

(** The rounds of the copy loop of [wby_connection_push]; a round that copies
    nothing is followed by a flush. *)
Fixpoint push_loop (fuel : nat) (l : list Z) : M Z :=
  match l, fuel with
  | [], _ => mret 0
  | _, O => ub
  | _, S f =>
      b ← get io_buf;
      sock ← get socket;
      let buf_space := i32 (bmax b) - i32 (used b) in
      let len := Z.of_nat (length l) in
      let copy_size := if len <? buf_space then len else buf_space in
      if copy_size <? 0 then ub
      else
        let n := Z.to_nat copy_size in
        store (data b + Z.to_nat (used b)) (take n l);;
        let b := set_used (used b + copy_size) b in
        upd (set_io_buf b);;
        let l := drop n l in
        if used b =? bmax b then
          '(r, b) ← wby_socket_flush sock b;
          upd (set_io_buf b);;
          if negb (r =? WBY_OK) then mret 1
          else if Z.of_nat (length l) >=? bmax b then wby_socket_send sock l
          else push_loop f l
        else push_loop f l
  end.

Definition wby_connection_push (l : list Z) : M Z :=
  st ← get state;
  match st with
  | SERVE =>
      match l with
      | [] =>
          b ← get io_buf;
          sock ← get socket;
          '(r, b) ← wby_socket_flush sock b;
          upd (set_io_buf b);; mret r
      | _ => push_loop (S (S (length l))) l
      end
  | _ => mret 1
  end.

(** ** request.c *)

(** The blocking reads of [wby_read], [len] bytes still wanted and [got] read
    so far.  A round that goes on has used up an answer of the kernel, so one
    round more than there are answers is enough. *)
Fixpoint read_loop (fuel : nat) (len : Z) (got : list Z) : M (Z * list Z) :=
  if len <=? 0 then mret (0, got) else
  match fuel with
  | O => ub
  | S f =>
      sock ← get socket;
      r ← recv sock (Z.to_nat len);
      match r with
      | Error _ => clear_flag WBY_CON_FLAG_ALIVE;; mret (-1, got)
      | Eof => read_loop f len got
      | Got l =>
          let err := Z.of_nat (length l) in
          upd (fun c => set_body_bytes_read (i32 (body_bytes_read c + err)) c);;
          read_loop f (len - err) (got ++ l)
      end
  end.

(** The first bytes come from what arrived with the request header, the next
    ones from what arrived with the frame header. *)
Definition read_header_body (len : Z) : M (list Z * Z) :=
  left ← get header_body_left;
  if left >? 0 then
    m ← getw memory;
    b ← get header_buf;
    '(l, left, len) ← lift (wby_read_buffered_data m left b len);
    upd (set_header_body_left left);;
    upd (fun c => set_body_bytes_read (i32 (body_bytes_read c + Z.of_nat (length l))) c);;
    mret (l, len)
  else mret ([], len).

Definition read_io_data (len : Z) : M (list Z * Z) :=
  left ← get io_data_left;
  if left >? 0 then
    m ← getw memory;
    b ← get io_buf;
    '(l, left, len) ← lift (wby_read_buffered_data m left b len);
    upd (set_io_data_left left);;
    upd (fun c => set_body_bytes_read (i32 (body_bytes_read c + Z.of_nat (length l))) c);;
    mret (l, len)
  else mret ([], len).

(** The bytes from position [i] of the payload on, unmasked. *)
Fixpoint unmask (mask : list Z) (i : Z) (l : list Z) : list Z :=
  match l with
  | [] => []
  | c :: l' => Z.lxor c (mask !!! Z.to_nat (Z.land i 3)) :: unmask mask (i + 1) l'
  end.

(** The result and the bytes that are at [ptr] then; a failed read leaves the
    bytes read so far masked. *)
Definition wby_read (len : Z) : M (Z * list Z) :=
  start_pos ← get body_bytes_read;
  '(l1, len) ← read_header_body len;
  '(l2, len) ← read_io_data len;
  script ← getw recvs;
  '(r, l) ← read_loop (S (length script)) len (l1 ++ l2);
  if negb (r =? 0) then mret (r, l)
  else
    fl ← get flags;
    fr ← get ws_frame;
    if has fl WBY_CON_FLAG_WEBSOCKET && has (fr_flags fr) WBY_WSF_MASKED
    then
      end_pos ← get body_bytes_read;
      let n := Z.to_nat (end_pos - start_pos) in
      mret (0, unmask (fr_mask_key fr) start_pos (take n l) ++ drop n l)
    else mret (0, l).

(** Chunks of at most 1024 bytes, so [count] rounds are enough. *)
Fixpoint discard_loop (fuel : nat) (count : Z) : M Z :=
  if count <=? 0 then mret 0 else
  match fuel with
  | O => ub
  | S f =>
      let read_size := if count >? 1024 then 1024 else count in
      '(r, _) ← wby_read read_size;
      if negb (r =? WBY_OK) then mret (-1) else discard_loop f (count - read_size)
  end.
Definition wby_con_discard_incoming_data (count : Z) : M Z := discard_loop (Z.to_nat count) count.

(** The value of the first header of that name. *)
Fixpoint find_header_loop (m : mem) (hs : list (nat * nat)) (name : list Z) : option (option nat) :=
  match hs with
  | [] => Some None
  | (n, v) :: hs' =>
      s ← cstr (drop n m);
      if strcasecmp_eq s name then Some (Some v) else find_header_loop m hs' name
  end.
Definition wby_find_header (name : list Z) : M (option nat) :=
  m ← getw memory;
  req ← get request;
  lift (find_header_loop m (take (Z.to_nat (header_count req)) (headers req)) name).

Definition wby_con_is_websocket_request : M Z :=
  hdr ← wby_find_header (bs "Connection");
  match hdr with
  | None => mret 0
  | Some p =>
      s ← str p;
      if negb (strcasecmp_eq s (bs "Upgrade")) then mret 0 else
      hdr ← wby_find_header (bs "Upgrade");
      match hdr with
      | None => mret 0
      | Some p => s ← str p; mret (if strcasecmp_eq s (bs "websocket") then 1 else 0)
      end
  end.

(** A failed send to a websocket ends the connection. *)
Definition send_or_die (l : list Z) : M Z :=
  sock ← get socket;
  r ← wby_socket_send sock l;
  if negb (r =? WBY_OK) then clear_flag WBY_CON_FLAG_ALIVE;; mret (-1) else mret 0.

Definition wby_frame_begin (opcode : Z) : M Z :=
  upd (set_ws_opcode (u8 opcode));; wby_connection_set_blocking.

Definition wby_frame_end : M Z :=
  op ← get ws_opcode;
  send_or_die (wby_make_websocket_header op 0 true);;
  wby_connection_set_nonblocking.

Definition wby_write (l : list Z) : M Z :=
  fl ← get flags;
  if has fl WBY_CON_FLAG_WEBSOCKET then
    op ← get ws_opcode;
    let header := wby_make_websocket_header op (i32 (Z.of_nat (length l))) false in
    upd (set_ws_opcode 0);;
    r ← send_or_die header;
    if negb (r =? 0) then mret (-1) else send_or_die l
  else if has fl WBY_CON_FLAG_CHUNKED_RESPONSE then
    wby_connection_push (fmt_prec 16 1 (u32 (Z.of_nat (length l))) ++ CRLF);;
    wby_connection_push l;;
    wby_connection_push CRLF
  else wby_connection_push l.

(** [wby_printf] of a text already formatted: the buffer holds 1023
    characters and a NUL, but as many bytes are written as the whole text
    has. *)
Definition wby_printf (text : list Z) : M Z :=
  if (1024 <? length text)%nat then ub
  else wby_write (if (length text =? 1024)%nat then take 1023 text ++ [0] else text).

(** ** connection.c: the request header *)
Definition WBY_MAX_HEADERS : nat := 64.

Definition upd_req (f : wby_request -> wby_request) : M unit :=
  upd (fun c => set_request (f (request c)) c).
Definition set_line (mt u v : nat) (r : wby_request) : wby_request :=
  mk_request mt u v (query_params r) 0 (header_count r) (headers r).
Definition set_query (q : option nat) (r : wby_request) : wby_request :=
  mk_request (method r) (uri r) (http_version r) q (content_length r) (header_count r) (headers r).
Definition set_header (i : nat) (h : nat * nat) (r : wby_request) : wby_request :=
  mk_request (method r) (uri r) (http_version r) (query_params r) (content_length r) (header_count r)
    (<[i := h]> (headers r)).
Definition set_content_length (n : Z) (r : wby_request) : wby_request :=
  mk_request (method r) (uri r) (http_version r) (query_params r) n (header_count r) (headers r).
Definition set_header_count (n : Z) (r : wby_request) : wby_request :=
  mk_request (method r) (uri r) (http_version r) (query_params r) (content_length r) n (headers r).

(** Header [i] of the lines still to parse. *)
Fixpoint parse_headers (lines : list nat) (i : nat) : M Z :=
  match lines with
  | [] => mret 0
  | line :: lines' =>
      tok ← on_mem (fun m => wby_tok_inplace m line (bs ":") 2 true);
      match tok with
      | [name; value] =>
          upd_req (set_header i (name, value));;
          n ← str name;
          if strcasecmp_eq (bs "content-length") n then
            v ← str value;
            upd_req (set_content_length (i32 (strtoul10 v)));;
            parse_headers lines' (S i)
          else if strcasecmp_eq (bs "transfer-encoding") n then mret 1
          else parse_headers lines' (S i)
      | _ => mret 1
      end
  end.

Definition parse_request_line (line : nat) : M Z :=
  tok ← on_mem (fun m => wby_tok_inplace m line (bs " ") 16 false);
  match tok with
  | [mt; u; v] =>
      upd_req (set_line mt u v);;
      s ← str u;
      (match find_char (ch "?") s with
       | Some q => upd_req (set_query (Some (u + q + 1)%nat));; store (u + q) [0]
       | None => upd_req (set_query None)
       end);;
      s ← str u;
      on_mem (fun m => Url.wby_url_decode m u (length s) u (Z.of_nat (length s) + 1) true);;
      mret 0
  | _ => mret 1
  end.

Definition wby_connection_setup_request (request_size : Z) : M Z :=
  b ← get header_buf;
  let buf := data b in
  store (buf + Z.to_nat (request_size - 2)) [0];;
  lines ← on_mem (fun m => wby_tok_inplace m buf CRLF (WBY_MAX_HEADERS + 2) false);
  let header_count := Z.of_nat (length lines) - 2 in
  if (length lines <? 1)%nat || (header_count >? Z.of_nat WBY_MAX_HEADERS) then mret 1 else
  r ← parse_request_line (default 0%nat (lines !! 0%nat));
  if negb (r =? 0) then mret 1 else
  r ← parse_headers (take (Z.to_nat header_count) (drop 1 lines)) 0;
  if negb (r =? 0) then mret 1
  else upd_req (set_header_count header_count);; mret 0.

(** ** response.c *)
Definition wby_status_map : list (Z * string) :=
  [(100, "Continue"); (101, "Switching Protocols"); (200, "OK"); (201, "Created");
   (202, "Accepted"); (203, "Non-Authoritative Information"); (204, "No Content");
   (205, "Reset Content"); (206, "Partial Content"); (300, "Multiple Choices");
   (301, "Moved Permanently"); (302, "Found"); (303, "See Other"); (304, "Not Modified");
   (305, "Use Proxy"); (307, "Temporary Redirect"); (400, "Bad Request"); (401, "Unauthorized");
   (402, "Payment Required"); (403, "Forbidden"); (404, "Not Found"); (405, "Method Not Allowed");
   (406, "Not Acceptable"); (407, "Proxy Authentication Required"); (408, "Request Time-out");
   (409, "Conflict"); (410, "Gone"); (411, "Length Required"); (412, "Precondition Failed");
   (413, "Request Entity Too Large"); (414, "Request-URI Too Large");
   (415, "Unsupported Media Type"); (416, "Requested range not satisfiable");
   (417, "Expectation Failed"); (500, "Internal Server Error"); (501, "Not Implemented");
   (502, "Bad Gateway"); (503, "Service Unavailable"); (504, "Gateway Time-out");
   (505, "HTTP Version not supported")]%string.

Fixpoint status_loop (l : list (Z * string)) (status_code : Z) : string :=
  match l with
  | [] => "Unknown"%string
  | (n, text) :: l' => if n =? status_code then text else status_loop l' status_code
  end.
Definition wby_response_status_text (status_code : Z) : list Z :=
  bs (status_loop wby_status_map status_code).

(** The results of [wby_printf] are ignored. *)
Definition print_header (h : list Z * list Z) : M unit :=
  (if strcasecmp_eq h.1 (bs "Connection") && strcasecmp_eq h.2 (bs "close")
   then set_flag WBY_CON_FLAG_CLOSE_AFTER_RESPONSE else mret tt);;
  wby_printf (h.1 ++ bs ": " ++ h.2 ++ CRLF);; mret tt.

Fixpoint print_headers (hs : list (list Z * list Z)) : M unit :=
  match hs with [] => mret tt | h :: hs' => print_header h;; print_headers hs' end.

(** The body the handler did not read. *)
Definition drain_body : M Z :=
  req ← get request;
  n ← get body_bytes_read;
  if n <? content_length req then
    r ← wby_con_discard_incoming_data (content_length req - n);
    if negb (r =? WBY_OK) then clear_flag WBY_CON_FLAG_ALIVE;; mret (-1) else mret 0
  else mret 0.

Definition wby_response_begin (status_code content_length : Z) (headers : list (list Z * list Z)) :
    M Z :=
  r ← drain_body;
  if negb (r =? 0) then mret (-1) else
  wby_printf (bs "HTTP/1.1 " ++ fmt_int status_code ++ bs " " ++
    wby_response_status_text status_code ++ CRLF);;
  (if content_length >=? 0
   then wby_printf (bs "Content-Length: " ++ fmt_int content_length ++ CRLF)
   else wby_printf (bs "Transfer-Encoding: chunked" ++ CRLF));;
  wby_printf (bs "Server: wby" ++ CRLF);;
  print_headers headers;;
  fl ← get flags;
  (if negb (has fl WBY_CON_FLAG_CLOSE_AFTER_RESPONSE) then
     connection_header ← wby_find_header (bs "Connection");
     match connection_header with
     | Some p =>
         s ← str p;
         if strcasecmp_eq (bs "close") s then
           set_flag WBY_CON_FLAG_CLOSE_AFTER_RESPONSE;;
           wby_printf (bs "Connection: close" ++ CRLF);; mret tt
         else mret tt
     | None => mret tt
     end
   else mret tt);;
  wby_printf CRLF;;
  (if content_length <? 0 then set_flag WBY_CON_FLAG_CHUNKED_RESPONSE else mret tt);;
  mret 0.

Definition wby_response_end : M unit :=
  fl ← get flags;
  (if has fl WBY_CON_FLAG_CHUNKED_RESPONSE then
     wby_connection_push (bs "0" ++ CRLF ++ CRLF);; clear_flag WBY_CON_FLAG_CHUNKED_RESPONSE
   else mret tt);;
  wby_connection_push [];;
  req ← get request;
  if content_length req =? 0 then wby_connection_close else mret tt.

(** ** connection.c: the websocket handshake *)
Definition wby_websocket_guid : list Z := bs "258EAFA5-E914-47DA-95CA-C5AB0DC85B11".

(** The digest of the key, in Base64, without the NUL. *)
Definition websocket_accept (key : list Z) : option (Z * list Z) :=
  let sha := Sha1.wby_sha1_init (Sha1.mk_sha1 (replicate 5 0) 0 0 0 (replicate 64 0)) in
  let sha := Sha1.wby_sha1_update sha key in
  let sha := Sha1.wby_sha1_update sha wby_websocket_guid in
  digest ← Sha1.wby_sha1_final sha;
  let '(r, out) := Base64.wby_base64_encode 64 digest in
  if negb (r =? WBY_OK) then Some (r, []) else s ← cstr out; Some (r, s).

Definition wby_connection_send_websocket_upgrade : M Z :=
  hdr ← wby_find_header (bs "Sec-WebSocket-Version");
  match hdr with
  | None => mret 1
  | Some p =>
      v ← str p;
      if negb (bool_decide (v = bs "13")) then mret 1 else
      hdr ← wby_find_header (bs "Sec-WebSocket-Key");
      match hdr with
      | None => mret 1
      | Some p =>
          key ← str p;
          '(r, output_digest) ← lift (websocket_accept key);
          if negb (r =? WBY_OK) then mret 1 else
          wby_response_begin 101 0
            [(bs "Upgrade", bs "websocket"); (bs "Connection", bs "Upgrade");
             (bs "Sec-WebSocket-Accept", output_digest)];;
          wby_response_end;;
          mret 0
      end
  end.

End Conn.
