(* ===== verification/Request.v ===== *)
(** * mumux: the request parser against the text of a request

    [wby_connection_setup_request] cuts the received bytes into strings in
    place.  Here a request is rendered as text, and the strings the parser
    leaves in memory are compared with its parts. *)
From S2P Require Import Prelude CLib HttpUtil Url Conn.

Module Request.
Import Conn.

(** ** The text of a request *)
Record header := mk_header { h_name : list Z; h_blanks : list Z; h_value : list Z }.
Record http := mk_http {
  h_method : list Z; h_path : list Z; h_query : option (list Z); h_version : list Z;
  h_headers : list header }.

Definition render_uri (h : http) : list Z :=
  h_path h ++ match h_query h with Some q => ch "?" :: q | None => [] end.
Definition render_line (h : http) : list Z := join (bs " ") [h_method h; render_uri h] (h_version h).
Definition render_header (x : header) : list Z := h_name x ++ ch ":" :: h_blanks x ++ h_value x.
Definition render_lines (h : http) : list (list Z) := render_line h :: (render_header <$> h_headers h).

(** Every line ends with a line break, and an empty line ends the whole. *)
Definition render (h : http) : list Z := join CRLF (render_lines h) CRLF.

Definition without (c : Z) (l : list Z) : Prop := Forall (fun x => x <> c) l.

Definition word_ok (l : list Z) : Prop :=
  l <> [] /\ without (ch " ") l /\ without CR l /\ nonzero l /\ Forall byte_ok l.

Definition header_ok (x : header) : Prop :=
  h_name x <> [] /\ without (ch ":") (h_name x) /\ starts_plain (h_name x) /\
  forallb blank (h_blanks x) = true /\ starts_plain (h_value x) /\
  head (h_value x) <> Some (ch ":") /\
  strcasecmp_eq (bs "transfer-encoding") (h_name x) = false /\
  without CR (render_header x) /\ nonzero (render_header x).

Definition http_ok (h : http) : Prop :=
  word_ok (h_method h) /\ word_ok (h_path h) /\ without (ch "?") (h_path h) /\
  word_ok (render_uri h) /\ word_ok (h_version h) /\
  Z.of_nat (length (h_path h)) < 2 ^ 63 /\
  (length (h_headers h) <= WBY_MAX_HEADERS)%nat /\ Forall header_ok (h_headers h).

(** What is kept of a value: the part before a colon. *)
Definition before_colon (v : list Z) : list Z :=
  match find_char (ch ":") v with Some k => take k v | None => v end.

(** The last Content-Length header counts. *)
Definition clen (n : Z) (hs : list header) : Z :=
  foldl (fun n x => if strcasecmp_eq (bs "content-length") (h_name x)
                    then i32 (strtoul10 (before_colon (h_value x))) else n) n hs.

Definition header_is (m : mem) (p : nat * nat) (x : header) : Prop :=
  str_at m p.1 (h_name x) /\ str_at m p.2 (before_colon (h_value x)).

(** A header's strings lie between [lo] and [hi]. *)
Definition header_in (lo hi : nat) (p : nat * nat) (x : header) : Prop :=
  (lo <= p.1 /\ p.1 + length (h_name x) < hi /\
   lo <= p.2 /\ p.2 + length (before_colon (h_value x)) < hi)%nat.

(** The parsed request shows the parts of [h]. *)
Definition request_is (m : mem) (r : wby_request) (h : http) : Prop :=
  str_at m (method r) (h_method h) /\
  str_at m (uri r) (Url.decoded true (h_path h)) /\
  str_at m (http_version r) (h_version h) /\
  match h_query h, query_params r with
  | Some q, Some p => str_at m p q
  | None, None => True
  | _, _ => False
  end /\
  content_length r = clen 0 (h_headers h) /\
  header_count r = Z.of_nat (length (h_headers h)) /\
  Forall2 (header_is m) (take (length (h_headers h)) (headers r)) (h_headers h).

(** ** Running the monad *)
Lemma bind_run {A B} (m : M A) (f : A -> M B) s x s' :
  m s = Some (x, s') -> (m ≫= f) s = f x s'.
Proof. intros H. unfold mbind, M_bind. by rewrite H. Qed.

(** Runs the first step of the computation on the left, which [H] evaluates. *)
Ltac run H := etransitivity; [eapply bind_run; exact H|cbv beta iota].

Lemma on_mem_run {A} (f : mem -> option (mem * A)) c w m x :
  f (memory w) = Some (m, x) -> on_mem f (c, w) = Some (x, (c, set_memory m w)).
Proof. intros H. unfold on_mem. cbn [fst snd]. by rewrite H. Qed.

Lemma store_run i l c w m :
  mstore (memory w) i l = Some m -> store i l (c, w) = Some (tt, (c, set_memory m w)).
Proof. intros H. apply on_mem_run. by rewrite H. Qed.

Lemma str_run p c w s :
  str_at (memory w) p s -> nonzero s -> str p (c, w) = Some (s, (c, w)).
Proof. intros H Hz. unfold str. cbn [fst snd]. by rewrite (str_at_cstr _ _ _ H Hz). Qed.

(** ** Separators *)
Lemma find_sub_without c sep t : without c t -> find_sub (c :: sep) t = None.
Proof.
  induction 1 as [|x t Hx Ht IH]; cbn [find_sub].
  - rewrite take_nil. by rewrite bool_decide_false.
  - rewrite bool_decide_false, IH; [done|]. cbn [length take]. congruence.
Qed.

Lemma sep_free_without c sep t : without c t -> sep_free (c :: sep) t.
Proof.
  unfold sep_free. induction 1 as [|x t Hx Ht IH]; cbn [app].
  - cbn [find_sub]. rewrite bool_decide_true; [done|]. by rewrite firstn_all.
  - cbn [find_sub length]. rewrite bool_decide_false by (cbn [length take]; congruence).
    cbn [app] in IH. by rewrite IH.
Qed.

Lemma find_char_at c t r : without c t -> find_char c (t ++ c :: r) = Some (length t).
Proof.
  intros Ht. unfold find_char. pose proof (sep_free_without c [] t Ht) as H.
  unfold sep_free in H. rewrite cons_middle, app_assoc. by apply find_sub_app.
Qed.

Lemma find_char_Some c v k :
  find_char c v = Some k -> exists r, v = take k v ++ c :: r /\ without c (take k v).
Proof.
  unfold find_char. revert k. induction v as [|x v IH]; intros k; cbn [find_sub].
  - by rewrite bool_decide_false.
  - case_bool_decide as H.
    + intros [= <-]. cbn [length take] in H. injection H as ->. exists v. split; [done|constructor].
    + destruct (find_sub [c] v) as [j|]; [|done]. intros [= <-].
      destruct (IH j eq_refl) as (r & E & Hr). exists r. cbn [take app]. split; [by f_equal|].
      constructor; [|done]. intros ->. apply H. by cbn [length take]; rewrite take_0.
Qed.

(** ** One header line *)
Lemma header_tokens m b x :
  header_ok x -> str_at m b (render_header x) ->
  exists m', wby_tok_inplace m b (bs ":") 2 true =
      Some (m', [b; (b + length (h_name x) + 1 + length (h_blanks x))%nat]) /\
    same_outside b (b + length (render_header x)) m m' /\
    header_is m' (b, (b + length (h_name x) + 1 + length (h_blanks x))%nat) x.
Proof.
  intros (Hn & Hnc & Hnp & Hbl & Hvp & Hvc & _ & _ & Hz) Hm. destruct x as [n bl v].
  unfold render_header in *. cbn [h_name h_blanks h_value] in *.
  pose proof (str_at_bound _ _ _ Hm) as Hb. rewrite length_app in Hb. cbn [length] in Hb.
  unfold wby_tok_inplace.
  destruct (length m) as [|f] eqn:Hlm; [lia|].
  destruct (tok_step (S f) m b (bs ":") true 1 [] [] n (bl ++ v)) as (m1 & E1 & Hs1 & Hn1 & Hr1);
    [exact Hm|exact Hz|done|done|by apply sep_free_without|].
  rewrite E1. clear E1. cbn [length] in *. rewrite Nat.add_0_r in *.
  change (length (bs ":")) with 1%nat in *.
  assert (Hz1 : nonzero (bl ++ v)) by (apply Forall_app in Hz as [_ Hz]; by inversion Hz).
  unfold header_is, before_colon. cbn [h_name h_value fst snd].
  destruct (find_char (ch ":") v) as [k|] eqn:Hk.
  - destruct (find_char_Some _ _ _ Hk) as (r & Ev & Hk'). set (v1 := take k v) in *.
    assert (v1 <> []) as Hv1 by (intros E; rewrite E in Ev; rewrite Ev in Hvc; done).
    destruct (tok_step f m1 (b + length n + 1) (bs ":") true 0 [b] bl v1 r)
      as (m2 & E2 & Hs2 & Hn2 & _);
      [rewrite Ev in Hr1; exact Hr1|rewrite Ev in Hz1; exact Hz1| |done|by apply sep_free_without|].
    { split; [done|]. rewrite Ev in Hvp. by destruct v1. }
    change (length (bs ":")) with 1%nat in *.
    exists m2. rewrite E2. destruct f as [|f]; [lia|]. cbn [tok_loop].
    split; [by rewrite !reverse_cons|].
    assert (length v1 <= length v)%nat by (unfold v1; rewrite length_take; lia).
    rewrite length_app. cbn [length]. rewrite length_app.
    apply (f_equal length) in Ev. rewrite length_app in Ev. cbn [length] in Ev.
    split; [eapply same_outside_trans; eapply same_outside_weaken; try done; lia|].
    split; [|exact Hn2]. eapply str_at_same; [exact Hs2|done|left; lia].
  - rewrite (tok_last f m1 (b + length n + 1) (bs ":") true 0 [b] bl v) by done. exists m1.
    split; [by rewrite !reverse_cons|]. split; [|split; [done|by apply str_at_app_r]].
    rewrite length_app. cbn [length]. eapply same_outside_weaken; [done|lia|lia].
Qed.

(** ** All header lines *)

(** Where the lines start; [offsets] is this and the end. *)
Fixpoint starts (b : nat) (ts : list (list Z)) : list nat :=
  match ts with [] => [] | t :: ts' => b :: starts (b + length t + 2) ts' end.

Definition total (ts : list (list Z)) : nat := sum_list_with (fun t => length t + 2)%nat ts.

Lemma offsets_starts b ts : offsets CRLF b ts = starts b ts ++ [(b + total ts)%nat].
Proof.
  revert b. induction ts as [|t ts IH]; intros b; cbn [offsets starts app].
  - unfold total. cbn. by rewrite Nat.add_0_r.
  - rewrite IH. unfold total. cbn [sum_list_with].
    change (length CRLF) with 2%nat. do 3 f_equal. lia.
Qed.

Definition lines_at (m : mem) (b : nat) (ts : list (list Z)) : Prop :=
  Forall2 (str_at m) (starts b ts) ts.

Lemma lines_at_same m m' lo hi b ts :
  same_outside lo hi m m' -> (hi <= b)%nat -> lines_at m b ts -> lines_at m' b ts.
Proof.
  intros Hs. revert b. unfold lines_at. induction ts as [|t ts IH]; intros b Hb H; [constructor|].
  cbn [starts] in *. inversion H; subst. constructor; [eapply str_at_same; eauto|]. apply IH; [lia|done].
Qed.

(** The request after the loop over header lines: everything but the header
    table and the content length is kept. *)
Record parsed (lo hi : nat) (m : mem) (i : nat) (hs : list header) (r r' : wby_request) : Prop := {
  p_method : method r' = method r;
  p_uri : uri r' = uri r;
  p_version : http_version r' = http_version r;
  p_query : query_params r' = query_params r;
  p_count : header_count r' = header_count r;
  p_clen : content_length r' = clen (content_length r) hs;
  p_length : length (headers r') = length (headers r);
  p_before : take i (headers r') = take i (headers r);
  p_headers : Forall2 (header_is m) (take (length hs) (drop i (headers r'))) hs;
  p_inside : Forall2 (header_in lo hi) (take (length hs) (drop i (headers r'))) hs }.

(** The request once header [x] is entered at [i]. *)
Definition enter (i : nat) (p : nat * nat) (x : header) (r : wby_request) : wby_request :=
  let r := set_header i p r in
  if strcasecmp_eq (bs "content-length") (h_name x)
  then set_content_length (i32 (strtoul10 (before_colon (h_value x)))) r else r.

Lemma enter_headers i p x r : headers (enter i p x r) = <[i := p]> (headers r).
Proof. unfold enter. cbv zeta. by destruct (strcasecmp_eq _ _). Qed.

Lemma parsed_cons lo hi m i p x hs r r' :
  (i < length (headers r))%nat -> header_is m p x -> header_in lo hi p x ->
  parsed lo hi m (S i) hs (enter i p x r) r' -> parsed lo hi m i (x :: hs) r r'.
Proof.
  intros Hi Hx Hin [Hm Hu Hv Hq Hc Hcl Hl Hb Hh Hhi].
  pose proof (enter_headers i p x r) as Hhd.
  assert (Hsame : method (enter i p x r) = method r /\ uri (enter i p x r) = uri r /\
    http_version (enter i p x r) = http_version r /\ query_params (enter i p x r) = query_params r /\
    header_count (enter i p x r) = header_count r)
    by (unfold enter; cbv zeta; by destruct (strcasecmp_eq _ _)).
  destruct Hsame as (H1 & H2 & H3 & H4 & H5). rewrite Hhd in *. rewrite length_insert in Hl.
  assert (Hi' : headers r' !! i = Some p).
  { rewrite <- (lookup_take_lt _ (S i)), Hb, lookup_take_lt by lia. by apply list_lookup_insert_eq. }
  split; try congruence.
  - rewrite Hcl. unfold clen. cbn [foldl]. f_equal. unfold enter. cbv zeta. by destruct (strcasecmp_eq _ _).
  - apply (f_equal (take i)) in Hb. rewrite !take_take, !Nat.min_l in Hb by lia.
    rewrite Hb. by rewrite take_insert_ge by lia.
  - rewrite (drop_S _ _ _ Hi'). cbn [length take]. by constructor.
  - rewrite (drop_S _ _ _ Hi'). cbn [length take]. by constructor.
Qed.

Lemma parse_headers_ok lo hi hs : forall i b c w,
  (lo <= b)%nat -> (b + total (render_header <$> hs) <= hi)%nat ->
  Forall header_ok hs -> lines_at (memory w) b (render_header <$> hs) ->
  (i + length hs <= length (headers (request c)))%nat ->
  exists m' r', parse_headers (starts b (render_header <$> hs)) i (c, w) =
      Some (0, (set_request r' c, set_memory m' w)) /\
    same_outside b (b + total (render_header <$> hs)) (memory w) m' /\
    parsed lo hi m' i hs (request c) r'.
Proof.
  induction hs as [|x hs IH]; intros i b c w Hlo Hhi Hok Hl Hi.
  - exists (memory w), (request c). cbn [fmap list_fmap starts parse_headers].
    split; [by destruct c, w|]. split; [apply same_outside_refl|].
    by split.
  - apply Forall_cons in Hok as [Hx Hok]. cbn [fmap list_fmap starts] in *. inversion Hl as [|? ? ? ? Hline Hrest]; subst.
    destruct (header_tokens (memory w) b x Hx Hline) as (m1 & E1 & Hs1 & Hn1 & Hv1).
    cbn [fst snd] in *. set (vo := (b + length (h_name x) + 1 + length (h_blanks x))%nat) in *.
    cbn [parse_headers].
    pose proof Hx as (_ & _ & _ & _ & _ & _ & Hte & _ & Hz). unfold render_header in Hz.
    unfold nonzero in Hz. rewrite Forall_app, Forall_cons, Forall_app in Hz. destruct Hz as (Hzn & _ & _ & Hzv).
    assert (Hzc : nonzero (before_colon (h_value x)))
      by (unfold before_colon; destruct (find_char _ _); [by apply Forall_take|done]).
    set (r1 := enter i (b, vo) x (request c)).
    destruct (IH (S i) (b + length (render_header x) + 2)%nat (set_request r1 c) (set_memory m1 w))
      as (m2 & r2 & E2 & Hs2 & Hp); [lia|unfold total in *; cbn [fmap list_fmap sum_list_with] in *; lia|done| |  |].
    { eapply lines_at_same; [exact Hs1|lia|done]. }
    { cbn [request set_request length] in *.
      unfold r1. rewrite enter_headers, length_insert. lia. }
    exists m2, r2. split; [|split].
    + run (on_mem_run (fun m => wby_tok_inplace m b (bs ":") 2 true) c w m1 _ E1).
      run (eq_refl (Some (tt, (set_request (set_header i (b, vo) (request c)) c, set_memory m1 w)))).
      run (str_run b (set_request (set_header i (b, vo) (request c)) c) (set_memory m1 w) _ Hn1 Hzn).
      rewrite Hte. unfold r1, enter in E2. cbv zeta in E2.
      destruct (strcasecmp_eq (bs "content-length") (h_name x)); [|exact E2].
      run (str_run vo (set_request (set_header i (b, vo) (request c)) c) (set_memory m1 w) _ Hv1 Hzc).
      exact E2.
    + unfold total in *. cbn [fmap list_fmap sum_list_with].
      eapply same_outside_trans; eapply same_outside_weaken; try done; lia.
    + assert (Hrl : length (render_header x) =
          (length (h_name x) + 1 + length (h_blanks x) + length (h_value x))%nat)
        by (unfold render_header; rewrite length_app; cbn [length]; rewrite length_app; lia).
      assert (length (before_colon (h_value x)) <= length (h_value x))%nat
        by (unfold before_colon; destruct (find_char _ _); rewrite ?length_take; lia).
      apply (parsed_cons lo hi m2 i (b, vo) x hs (request c) r2); [cbn [length] in Hi; lia| | |exact Hp].
      * split; (eapply str_at_same; [exact Hs2|done|left]); unfold vo; cbn [fst snd]; lia.
      * unfold header_in, vo, total in *. cbn [fst snd fmap list_fmap sum_list_with] in *. lia.
Qed.

(** ** The request line *)
Lemma mstore_str_at m i s m' : mstore m i (s ++ [0]) = Some m' -> str_at m' i s.
Proof.
  intros Hm j c Hj. rewrite (mstore_lookup _ _ _ _ _ Hm). apply lookup_lt_Some in Hj as Hl.
  rewrite decide_True by lia. rewrite <- Hj. f_equal. lia.
Qed.

(** Decoding a string in place. *)
Lemma decode_in_place m u s :
  str_at m u s -> Forall byte_ok s -> Z.of_nat (length s) < 2 ^ 63 ->
  exists m', Url.wby_url_decode m u (length s) u (Z.of_nat (length s) + 1) true =
      Some (m', length (Url.decoded true s)) /\
    same_outside u (u + length s + 1) m m' /\ str_at m' u (Url.decoded true s).
Proof.
  intros Hm Hb Hl. pose proof (Url.decoded_length true s) as Hd.
  assert (Hout : take (Z.to_nat (Z.of_nat (length s) + 1 - 1)) (Url.decoded true s) = Url.decoded true s)
    by (apply take_ge; lia).
  pose proof (str_at_bound _ _ _ Hm) as Hbd.
  rewrite (Url.wby_url_decode_stored m u u _ true s 0 _ (str_at_drop _ _ _ Hm)); try done; try lia.
  2:{ rewrite Hout. lia. }
  rewrite Hout. destruct (mstore_is_Some m u (Url.decoded true s ++ [0])) as [m' Hm'];
    [rewrite length_app; cbn [length]; lia|].
  rewrite Hm'. exists m'. split; [done|]. split; [|by eapply mstore_str_at].
  apply mstore_same_outside in Hm'. rewrite length_app in Hm'. cbn [length] in Hm'.
  eapply same_outside_weaken; [done|lia|lia].
Qed.

(** Cutting off the query. *)
Lemma cut_query m u h :
  str_at m u (render_uri h) -> without (ch "?") (h_path h) ->
  exists m', (match find_char (ch "?") (render_uri h) with
              | Some q => mstore m (u + q) [0] | None => Some m end) = Some m' /\
    find_char (ch "?") (render_uri h) = (fun _ => length (h_path h)) <$> h_query h /\
    same_outside u (u + length (render_uri h)) m m' /\
    str_at m' u (h_path h) /\
    match h_query h with Some q => str_at m' (u + length (h_path h) + 1) q | None => True end.
Proof.
  intros Hm Hp. unfold render_uri in *. destruct (h_query h) as [q|].
  - rewrite find_char_at by done. pose proof (str_at_bound _ _ _ Hm) as Hb.
    rewrite length_app in *. cbn [length] in *.
    destruct (mstore_is_Some m (u + length (h_path h)) [0]) as [m' Hm']; [cbn [length]; lia|].
    exists m'. rewrite Hm'. pose proof (mstore_same_outside _ _ _ _ Hm') as Hs. cbn [length] in Hs.
    split; [done|]. split; [done|]. split; [eapply same_outside_weaken; [done|lia|lia]|].
    split; [by eapply str_at_app_l|].
    rewrite cons_middle, app_assoc in Hm. apply str_at_app_r in Hm.
    rewrite length_app in Hm. cbn [length] in Hm. rewrite Nat.add_assoc in Hm.
    eapply str_at_same; [exact Hs|done|lia].
  - rewrite app_nil_r in *. exists m. unfold find_char. rewrite find_sub_without by done.
    split; [done|]. split; [done|]. split; [apply same_outside_refl|]. done.
Qed.

Record line_parsed (m : mem) (e : nat) (h : http) (r r' : wby_request) : Prop := {
  l_method : str_at m (method r') (h_method h);
  l_uri : str_at m (uri r') (Url.decoded true (h_path h));
  l_version : str_at m (http_version r') (h_version h);
  l_query : match h_query h, query_params r' with
            | Some q, Some p => str_at m p q | None, None => True | _, _ => False end;
  l_clen : content_length r' = 0;
  l_headers : headers r' = headers r;
  l_inside : (method r' + length (h_method h) <= e /\ uri r' + length (Url.decoded true (h_path h)) <= e /\
              http_version r' + length (h_version h) <= e)%nat /\
             match h_query h, query_params r' with Some q, Some p => (p + length q <= e)%nat | _, _ => True end }.

Lemma line_tokens m b h :
  http_ok h -> str_at m b (render_line h) ->
  exists m' u v, wby_tok_inplace m b (bs " ") 16 false = Some (m', [b; u; v]) /\
    same_outside b (b + length (render_line h)) m m' /\
    str_at m' b (h_method h) /\ str_at m' u (render_uri h) /\ str_at m' v (h_version h) /\
    (b + length (h_method h) < u)%nat /\ (u + length (render_uri h) < v)%nat /\
    (v + length (h_version h) <= b + length (render_line h))%nat.
Proof.
  intros ((Hm1 & Hm2 & _ & Hm4 & _) & _ & _ & (Hu1 & Hu2 & _ & Hu4 & _) & (_ & Hv2 & _ & Hv4 & _) & _) Hm.
  destruct (tok_loop_join [h_method h; render_uri h] (S (length m)) m b (bs " ") 16 [] (h_version h))
    as (m' & E & Hs & Ht); [exact Hm| | | |cbn [length]; lia| |].
  - unfold join. cbn [mbind list_bind app]. unfold nonzero. rewrite !Forall_app. repeat split; try done.
    all: repeat constructor; done.
  - repeat constructor; try done; by apply sep_free_without.
  - by apply find_sub_without.
  - apply str_at_bound in Hm. cbn [length]. unfold render_line, join in Hm.
    cbn [mbind list_bind app] in Hm. rewrite !length_app in Hm. cbn [length] in Hm.
    change (length (bs " ")) with 1%nat in Hm. lia.
  - unfold wby_tok_inplace. rewrite E. cbn [offsets app reverse] in *.
    change (length (bs " ")) with 1%nat in *.
    inversion Ht as [|? ? ? ? H1 Ht1]; subst. inversion Ht1 as [|? ? ? ? H2 Ht2]; subst.
    inversion Ht2 as [|? ? ? ? H3 Ht3]; subst.
    eexists m', _, _. split; [reflexivity|]. split; [done|]. split; [done|]. split; [done|].
    split; [done|]. unfold render_line, join. cbn [mbind list_bind app]. rewrite !length_app.
    change (length (bs " ")) with 1%nat. cbn [length]. lia.
Qed.

Lemma parse_request_line_ok b c w h :
  http_ok h -> str_at (memory w) b (render_line h) ->
  exists m' r', parse_request_line b (c, w) = Some (0, (set_request r' c, set_memory m' w)) /\
    same_outside b (b + length (render_line h)) (memory w) m' /\
    line_parsed m' (b + length (render_line h)) h (request c) r'.
Proof.
  intros Hok Hm. pose proof Hok as (_ & (_ & _ & _ & Hpz & Hpb) & Hpq & (_ & _ & _ & Huz & _) & _ & Hlen & _).
  destruct (line_tokens _ _ _ Hok Hm) as (m1 & u & v & E1 & Hs1 & Hmt & Hu & Hv & L1 & L2 & L3).
  destruct (cut_query m1 u h Hu Hpq) as (m2 & E2 & Hfind & Hs2 & Hp2 & Hq2).
  destruct (decode_in_place m2 u (h_path h) Hp2 Hpb Hlen) as (m3 & E3 & Hs3 & Hp3).
  assert (Hul : (length (h_path h) <= length (render_uri h))%nat)
    by (unfold render_uri; rewrite length_app; lia).
  set (r1 := set_line b u v (request c)).
  set (r2 := set_query ((fun _ => u + length (h_path h) + 1)%nat <$> h_query h) r1).
  exists m3, r2. split; [|split].
  - unfold parse_request_line.
    run (on_mem_run (fun m => wby_tok_inplace m b (bs " ") 16 false) c w m1 _ E1).
    run (eq_refl (Some (tt, (set_request r1 c, set_memory m1 w)))).
    run (str_run u (set_request r1 c) (set_memory m1 w) _ Hu Huz).
    etransitivity; [eapply (bind_run _ _ _ tt (set_request r2 c, set_memory m2 w))|cbv beta].
    { rewrite Hfind in *. unfold r2. destruct (h_query h) as [q|]; cbn [fmap option_fmap option_map] in *.
      - run (eq_refl (Some (tt, (set_request (set_query (Some (u + length (h_path h) + 1)%nat) r1) c, set_memory m1 w)))).
        by apply (store_run _ _ _ (set_memory m1 w)).
      - injection E2 as <-. done. }
    run (str_run u (set_request r2 c) (set_memory m2 w) _ Hp2 Hpz).
    run (on_mem_run (fun m => Url.wby_url_decode m u (length (h_path h)) u (Z.of_nat (length (h_path h)) + 1) true)
      (set_request r2 c) (set_memory m2 w) m3 _ E3).
    done.
  - eapply same_outside_trans; [exact Hs1|].
    eapply same_outside_trans; eapply same_outside_weaken; try done; lia.
  - assert (Hs23 : same_outside u (u + length (render_uri h) + 1) m1 m3)
      by (eapply same_outside_trans; eapply same_outside_weaken; try done; lia).
    assert (Hv3 : str_at m3 v (h_version h)) by (eapply str_at_same; [exact Hs23|done|lia]).
    assert (Hm3 : str_at m3 b (h_method h)) by (eapply str_at_same; [exact Hs23|done|lia]).
    pose proof (Url.decoded_length true (h_path h)) as Hdl.
    split; try done.
    + unfold r2. cbn [query_params set_query]. destruct (h_query h); [|done].
      cbn [fmap option_fmap option_map]. eapply str_at_same; [exact Hs3|done|lia].
    + unfold r2. cbn [query_params set_query method uri http_version r1 set_line].
      split; [lia|]. unfold render_uri in L2. destruct (h_query h) as [q|]; [|done].
      cbn [fmap option_fmap option_map]. rewrite length_app in L2. cbn [length] in L2. lia.
Qed.

(** ** The whole request *)
Lemma lines_at_strs m b ts last :
  strs_at m (offsets CRLF b ts) (ts ++ [last]) -> lines_at m b ts.
Proof.
  intros H. unfold strs_at, lines_at in *. rewrite offsets_starts in H.
  apply Forall2_app_inv in H as [H _]; [done|]. clear. revert b.
  induction ts; intros; cbn; auto.
Qed.

Lemma render_line_ok h : http_ok h -> without CR (render_line h) /\ nonzero (render_line h) /\ render_line h <> [].
Proof.
  intros ((Hm1 & _ & Hm3 & Hm4 & _) & _ & _ & (Hu1 & _ & Hu3 & Hu4 & _) & (_ & _ & Hv3 & Hv4 & _) & _).
  unfold render_line, join. cbn [mbind list_bind app]. unfold without, nonzero.
  rewrite !Forall_app. split; [|split].
  - repeat split; try done; repeat constructor; done.
  - repeat split; try done; repeat constructor; done.
  - destruct (h_method h); done.
Qed.

Lemma render_lines_ok h :
  http_ok h -> Forall (fun t => t <> [] /\ sep_free CRLF t) (render_lines h) /\
    nonzero (join CRLF (render_lines h) []).
Proof.
  intros Hok. pose proof (render_line_ok h Hok) as (Hl1 & Hl2 & Hl3).
  destruct Hok as (_ & _ & _ & _ & _ & _ & _ & Hh).
  assert (Hall : Forall (fun t => without CR t /\ nonzero t /\ t <> []) (render_lines h)).
  { constructor; [done|]. apply Forall_fmap. eapply Forall_impl; [exact Hh|].
    intros x (Hn & _ & _ & _ & _ & _ & _ & Hc & Hz). split; [exact Hc|]. split; [exact Hz|].
    unfold render_header. by destruct (h_name x). }
  split.
  - eapply Forall_impl; [exact Hall|]. intros t (Hc & _ & Ht). split; [done|]. by apply sep_free_without.
  - unfold join. rewrite app_nil_r. unfold nonzero. apply Forall_bind. eapply Forall_impl; [exact Hall|].
    intros t (_ & Hz & _). apply Forall_app. split; [exact Hz|]. by repeat constructor.
Qed.

Lemma join_length ts last : length (join CRLF ts last) = (total ts + length last)%nat.
Proof.
  unfold join, total. rewrite length_app. f_equal. induction ts as [|t ts IH]; [done|].
  cbn [mbind list_bind sum_list_with]. rewrite !length_app. change (length CRLF) with 2%nat.
  f_equal. exact IH.
Qed.

(** The parts of the request line survive the parsing of the headers. *)
Lemma request_assembled lo hi' m2 m3 e n h r r2 r3 c hi :
  line_parsed m2 e h r r2 -> same_outside (e + 2) hi m2 m3 ->
  n = length (h_headers h) -> parsed lo hi' m3 0 (h_headers h) (request (set_request r2 c)) r3 ->
  request_is m3 (set_header_count (Z.of_nat n) r3) h.
Proof.
  intros [Hm Hu Hv Hq Hc Hh [(I1 & I2 & I3) I4]] Hs -> [P1 P2 P3 P4 P5 P6 P7 P8 P9 _].
  cbn [request set_request] in *.
  unfold request_is. cbn [method uri http_version query_params content_length header_count headers set_header_count].
  rewrite P1, P2, P3, P4, P6, Hc.
  split; [eapply str_at_same; [exact Hs|done|lia]|].
  split; [eapply str_at_same; [exact Hs|done|lia]|].
  split; [eapply str_at_same; [exact Hs|done|lia]|].
  split; [|done]. destruct (h_query h), (query_params r2); try done.
  eapply str_at_same; [exact Hs|done|lia].
Qed.

Lemma starts_length b ts : length (starts b ts) = length ts.
Proof. revert b. induction ts; intros; cbn; auto. Qed.

(** The header count the parser computes from the number of strings. *)
Lemma header_count_of n :
  (n <= WBY_MAX_HEADERS)%nat ->
  Z.of_nat (S (S n)) - 2 = Z.of_nat n /\ (Z.of_nat n >? Z.of_nat WBY_MAX_HEADERS) = false.
Proof. intros. split; [lia|]. rewrite Z.gtb_ltb. apply Z.ltb_ge. lia. Qed.

Lemma total_length ts : (length ts <= total ts)%nat.
Proof. unfold total. induction ts; cbn [length sum_list_with]; lia. Qed.

(** A string that ends where the NUL was put. *)
Lemma envelope_str m p l s m' :
  mload m p (length l) = Some l -> s `prefix_of` l -> mstore m (p + length s) [0] = Some m' ->
  str_at m' p s.
Proof.
  intros Hl [r ->] Hm i c Hi. rewrite (mstore_lookup _ _ _ _ _ Hm). cbn [length].
  apply lookup_lt_Some in Hi as Hlt. rewrite length_app in Hlt. cbn [length] in Hlt.
  destruct (decide (i < length s)%nat) as [Hc|Hc].
  - rewrite decide_False by lia. apply (mload_lookup _ _ _ _ _ Hl).
    rewrite lookup_app_l in Hi |- * by done. done.
  - rewrite decide_True by lia. rewrite lookup_app_r in Hi by lia. rewrite <- Hi. f_equal. lia.
Qed.

(** The line break that ends the envelope becomes a NUL, and the text is cut
    into its lines. *)
Lemma envelope_split m buf h :
  http_ok h -> mload m buf (length (render h)) = Some (render h) ->
  exists m0 m1, mstore m (buf + total (render_lines h)) [0] = Some m0 /\
    wby_tok_inplace m0 buf CRLF (WBY_MAX_HEADERS + 2) false =
      Some (m1, offsets CRLF buf (render_lines h)) /\
    same_outside buf (buf + length (render h)) m m1 /\ lines_at m1 buf (render_lines h).
Proof.
  intros Hok Hload. pose proof (render_lines_ok h Hok) as [Hts Hz]. set (ts := render_lines h) in *.
  assert (Hsize : length (render h) = (total ts + 2)%nat) by (unfold render; apply join_length).
  assert (Hjoin : length (join CRLF ts []) = total ts) by (rewrite join_length; cbn [length]; lia).
  assert (Hb : (buf + length (render h) <= length m)%nat) by (unfold mload in Hload; by case_decide).
  destruct (mstore_is_Some m (buf + total ts) [0]) as [m0 Hm0]; [cbn [length]; lia|].
  pose proof (mstore_same_outside _ _ _ _ Hm0) as Hs0. cbn [length] in Hs0.
  assert (H0 : str_at m0 buf (join CRLF ts [])).
  { apply (envelope_str _ _ _ _ _ Hload); [|by rewrite Hjoin]. exists CRLF. unfold render, join. fold ts.
    by rewrite app_nil_r. }
  destruct (tok_loop_join ts (S (length m0)) m0 buf CRLF 66 [] [] H0 Hz Hts eq_refl)
    as (m1 & E1 & Hs1 & Ht1).
  { unfold ts, render_lines. cbn [length]. rewrite length_fmap.
    destruct Hok as (_ & _ & _ & _ & _ & _ & Hn & _). unfold WBY_MAX_HEADERS in Hn. lia. }
  { destruct Hs0 as [-> _]. pose proof (total_length ts). lia. }
  exists m0, m1. split; [done|]. split; [exact E1|]. split; [|by apply (lines_at_strs _ _ _ [])].
  rewrite Hjoin in Hs1. apply (same_outside_trans _ _ _ m0); eapply same_outside_weaken; try done; lia.
Qed.

(** The first string is the request line, and the header lines follow it. *)
Lemma envelope_offsets buf h :
  offsets CRLF buf (render_lines h) = buf :: starts (buf + length (render_line h) + 2)
    (render_header <$> h_headers h) ++ [(buf + total (render_lines h))%nat] /\
  length (render_lines h) = S (length (h_headers h)) /\
  total (render_lines h) = (length (render_line h) + 2 + total (render_header <$> h_headers h))%nat.
Proof.
  split; [by rewrite offsets_starts|]. split; [|done].
  unfold render_lines. cbn [length]. f_equal. apply length_fmap.
Qed.

Lemma setup_request_ok c w h :
  http_ok h ->
  mload (memory w) (data (header_buf c)) (length (render h)) = Some (render h) ->
  length (headers (request c)) = WBY_MAX_HEADERS ->
  exists m r, wby_connection_setup_request (Z.of_nat (length (render h))) (c, w) =
      Some (0, (set_request r c, set_memory m w)) /\
    same_outside (data (header_buf c)) (data (header_buf c) + length (render h)) (memory w) m /\
    request_is m r h /\
    Forall2 (header_in (data (header_buf c)) (data (header_buf c) + length (render h)))
      (take (length (h_headers h)) (headers r)) (h_headers h).
Proof.
  intros Hok Hload Hlen. set (buf := data (header_buf c)) in *. set (hs := h_headers h).
  destruct (envelope_split _ _ _ Hok Hload) as (m0 & m1 & Hm0 & E1 & Hs1 & Hl1).
  destruct (envelope_offsets buf h) as (Hoffs & Hlts & Htot). fold hs in Hoffs, Hlts, Htot.
  assert (Hsize : length (render h) = (total (render_lines h) + 2)%nat) by (unfold render; apply join_length).
  inversion Hl1 as [|? ? ? ? Hline Hrest]; subst.
  assert (Hn : (length hs <= WBY_MAX_HEADERS)%nat) by (by destruct Hok as (_ & _ & _ & _ & _ & _ & Hn & _)).
  destruct (parse_request_line_ok buf c (set_memory m1 (set_memory m0 w)) h Hok Hline)
    as (m2 & r2 & E2 & Hs2 & Hp2).
  destruct (parse_headers_ok buf (buf + length (render h)) hs 0 (buf + length (render_line h) + 2) (set_request r2 c)
    (set_memory m2 (set_memory m1 (set_memory m0 w)))) as (m3 & r3 & E3 & Hs3 & Hp3).
  { lia. }
  { lia. }
  { by destruct Hok as (_ & _ & _ & _ & _ & _ & _ & Hh). }
  { eapply lines_at_same; [exact Hs2|lia|exact Hrest]. }
  { cbn [request set_request]. by rewrite (l_headers _ _ _ _ _ Hp2), Hlen. }
  exists m3, (set_header_count (Z.of_nat (length hs)) r3). split; [|split; [|split; [|exact (p_inside _ _ _ _ _ _ _ Hp3)]]].
  - unfold wby_connection_setup_request.
    run (eq_refl (Some (header_buf c, (c, w)))). fold buf.
    replace (Z.to_nat (Z.of_nat (length (render h)) - 2)) with (total (render_lines h)) by lia.
    run (store_run _ _ c w _ Hm0).
    run (on_mem_run (fun m => wby_tok_inplace m buf CRLF (WBY_MAX_HEADERS + 2) false) c
      (set_memory m0 w) m1 _ E1).
    rewrite offsets_length. destruct (header_count_of (length hs) Hn) as [Hc1 Hc2].
    rewrite Hlts, Hc1, Hc2, Nat2Z.id. cbn [Nat.ltb Nat.leb orb].
    rewrite Hoffs. cbn [lookup list_lookup default]. run E2.
    cbn [Z.eqb negb]. rewrite skipn_cons, drop_0, take_app_le, take_ge
      by (rewrite starts_length, length_fmap; lia).
    run E3. done.
  - apply (same_outside_trans _ _ _ m1); [exact Hs1|].
    apply (same_outside_trans _ _ _ m2); eapply same_outside_weaken; try done; lia.
  - eapply request_assembled; [exact Hp2|exact Hs3|reflexivity|exact Hp3].
Qed.

(** A header line is split at every colon, and what is behind the second is
    lost: the value of [Host: localhost:8888] is [localhost]. *)
Lemma value_cut_at_colon c w h :
  http_ok h ->
  mload (memory w) (data (header_buf c)) (length (render h)) = Some (render h) ->
  length (headers (request c)) = WBY_MAX_HEADERS ->
  exists m r, wby_connection_setup_request (Z.of_nat (length (render h))) (c, w) =
      Some (0, (set_request r c, set_memory m w)) /\ request_is m r h.
Proof.
  intros Hok Hl Hn. destruct (setup_request_ok c w h Hok Hl Hn) as (m & r & E & _ & Hr & _). by exists m, r.
Qed.

(** The header's strings, and the number of the last Content-Length, if any. *)
Definition header_shown (m : mem) (p : nat * nat) (x : header) : Prop := str_at m p.1 (h_name x) /\ str_at m p.2 (h_value x).
Definition last_length (hs : list header) : option (list Z) :=
  last (h_value <$> filter (fun x => strcasecmp_eq (bs "content-length") (h_name x) = true) hs).

(** The request as it was sent. *)
Record request_shown (m : mem) (r : wby_request) (h : http) : Prop := {
  shown_method : str_at m (method r) (h_method h);
  shown_uri : str_at m (uri r) (Url.decoded true (h_path h));
  shown_version : str_at m (http_version r) (h_version h);
  shown_query : match h_query h, query_params r with
    | Some q, Some p => str_at m p q
    | None, None => True
    | _, _ => False
    end;
  shown_length : content_length r = match last_length (h_headers h) with Some v => i32 (strtoul10 v) | None => 0 end;
  shown_count : header_count r = Z.of_nat (length (h_headers h));
  shown_headers : Forall2 (header_shown m) (take (length (h_headers h)) (headers r)) (h_headers h);
}.

Definition colon_free (hs : list header) : Prop := Forall (fun x => without (ch ":") (h_value x)) hs.

Lemma find_char_without c v : without c v -> find_char c v = None.
Proof. apply find_sub_without. Qed.

Lemma before_colon_id v : without (ch ":") v -> before_colon v = v.
Proof. intros H. unfold before_colon. by rewrite find_char_without. Qed.

Lemma clen_last hs : colon_free hs ->
  clen 0 hs = match last_length hs with Some v => i32 (strtoul10 v) | None => 0 end.
Proof.
  unfold clen, last_length. induction hs as [|x hs IH] using rev_ind; [done|]. intros H.
  apply Forall_app in H as [H Hx]. rewrite Forall_singleton in Hx.
  rewrite foldl_app, filter_app, fmap_app. cbn [foldl]. rewrite (IH H), (before_colon_id _ Hx).
  destruct (strcasecmp_eq (bs "content-length") (h_name x)) eqn:E.
  - rewrite filter_cons_True, filter_nil by done. cbn [fmap list_fmap]. by rewrite last_snoc.
  - rewrite filter_cons_False, filter_nil by congruence. cbn [fmap list_fmap]. by rewrite app_nil_r.
Qed.

Lemma headers_shown m ps hs : colon_free hs -> Forall2 (header_is m) ps hs -> Forall2 (header_shown m) ps hs.
Proof.
  intros Hc H. induction H as [|p x ps hs [H1 H2] _ IH]; [constructor|]. apply Forall_cons in Hc as [Hx Hc].
  constructor; [|by apply IH]. split; [done|]. by rewrite before_colon_id in H2.
Qed.

(** C3: Receiving the text of a well-formed request whose header values have no
    colon, with anything behind it in the buffer, is understood: method,
    decoded path, query, version, the names and the values of all headers, and
    the content length are those that were sent, and nothing outside the text is
    changed. *)
Theorem setup_request_correct c w h :
  http_ok h -> colon_free (h_headers h) ->
  mload (memory w) (data (header_buf c)) (length (render h)) = Some (render h) ->
  length (headers (request c)) = WBY_MAX_HEADERS ->
  exists m r, wby_connection_setup_request (Z.of_nat (length (render h))) (c, w) =
      Some (0, (set_request r c, set_memory m w)) /\
    same_outside (data (header_buf c)) (data (header_buf c) + length (render h)) (memory w) m /\
    request_shown m r h.
Proof.
  intros Hok Hcf Hl Hn. destruct (setup_request_ok c w h Hok Hl Hn) as (m & r & E & Hs & (H1 & H2 & H3 & H4 & H5 & H6 & H7) & _).
  exists m, r. split; [done|]. split; [done|]. split; [done..|by rewrite H5, clen_last|done|].
  by apply headers_shown.
Qed.

(** A request with a query, a header whose value has a colon, and a body. *)
Definition example_http : http :=
  mk_http (bs "POST") (bs "/a%20b") (Some (bs "x=1")) (bs "HTTP/1.1")
    [mk_header (bs "Host") (bs " ") (bs "localhost:8888"); mk_header (bs "Content-Length") (bs " ") (bs "4")].
Definition example_world : world :=
  Eval vm_compute in mk_world (render example_http ++ bs "body" ++ replicate 10 0) [] [] [] [] [].
Definition example_con : wby_connection :=
  Eval vm_compute in
  mk_connection 0 0 REQUEST 4 (mk_request 0 0 0 None 0 0 (replicate 64 (0, 0)%nat)) 128
    (mk_buffer 0 128 0) (mk_buffer 0 16 0) 16 0 0 0 0 (mk_frame 0 0 0 [0; 0; 0; 0] 0) 0 0.

#[export] Instance word_ok_dec l : Decision (word_ok l).
Proof. unfold word_ok, without. apply _. Defined.
#[export] Instance header_ok_dec x : Decision (header_ok x).
Proof. unfold header_ok, without. apply _. Defined.
#[export] Instance colon_free_dec hs : Decision (colon_free hs).
Proof. unfold colon_free, without. apply _. Defined.
#[export] Instance http_ok_dec h : Decision (http_ok h).
Proof. unfold http_ok, without. apply _. Defined.

Definition plain_http : http :=
  mk_http (bs "POST") (bs "/a%20b") (Some (bs "x=1")) (bs "HTTP/1.1")
    [mk_header (bs "Host") (bs " ") (bs "localhost"); mk_header (bs "Content-Length") (bs " ") (bs "4")].
Definition plain_world : world := Eval vm_compute in mk_world (render plain_http ++ bs "body" ++ replicate 10 0) [] [] [] [] [].

Lemma setup_request_correct_witness :
  exists m r, wby_connection_setup_request (Z.of_nat (length (render plain_http))) (example_con, plain_world) =
      Some (0, (set_request r example_con, set_memory m plain_world)) /\
    request_shown m r plain_http /\ content_length r = 4.
Proof.
  destruct (setup_request_correct example_con plain_world plain_http) as (m & r & E & _ & Hr);
    [apply (bool_decide_unpack _); vm_compute; exact I|apply (bool_decide_unpack _); vm_compute; exact I|reflexivity|reflexivity|].
  exists m, r. split; [exact E|]. split; [exact Hr|]. rewrite (shown_length _ _ _ Hr). reflexivity.
Defined.

End Request.
