(* ===== verification/Stream.v ===== *)
(** * mumux: the bytes a connection sends and receives

    Writing: what the socket has taken followed by what the I/O buffer still
    holds is the stream of bytes written.  Reading: the bytes that came with
    the header, then those of the socket, unmasked for a websocket. *)
From S2P Require Import Prelude CLib HttpUtil Sha1 Base64 Conn Request.

Module Stream.
Import Conn Request.

(** The bytes sent on a socket. *)
Definition sent_by (sock : Z) (e : event) : list Z :=
  match e with Sent s l => if s =? sock then l else [] | _ => [] end.
Definition sent_on (sock : Z) (tr : list event) : list Z := tr ≫= sent_by sock.

Definition buffered (b : buffer) (m : mem) : list Z := take (Z.to_nat (used b)) (drop (data b) m).

(** The stream written so far. *)
Definition written (c : wby_connection) (w : world) : list Z :=
  sent_on (socket c) (trace w) ++ buffered (io_buf c) (memory w).

Definition buffer_ok (b : buffer) (m : mem) : Prop :=
  0 <= used b <= bmax b /\ bmax b < 2 ^ 31 /\ Z.of_nat (data b) + bmax b <= Z.of_nat (length m).

(** ** Sending *)

(** Nothing but sends on [sock], of [p] in all, happened. *)
Record sent_only (sock : Z) (p : list Z) (w w' : world) : Prop := {
  so_memory : memory w' = memory w;
  so_recvs : recvs w' = recvs w;
  so_fcntls : fcntls w' = fcntls w;
  so_accepts : accepts w' = accepts w;
  so_sends : sends w = [] -> sends w' = [];
  so_trace : exists ls, trace w' = trace w ++ (Sent sock <$> ls) /\ concat ls = p }.

Lemma sent_only_refl sock w : sent_only sock [] w w.
Proof. split; try done. exists []. by rewrite app_nil_r. Qed.

Lemma sent_only_trans sock p q w1 w2 w3 :
  sent_only sock p w1 w2 -> sent_only sock q w2 w3 -> sent_only sock (p ++ q) w1 w3.
Proof.
  intros [? ? ? ? ? (l1 & T1 & C1)] [? ? ? ? ? (l2 & T2 & C2)]. split; try congruence; [auto|].
  exists (l1 ++ l2). rewrite T2, T1, fmap_app, concat_app, app_assoc. by rewrite C1, C2.
Qed.

Lemma sent_on_app sock t1 t2 : sent_on sock (t1 ++ t2) = sent_on sock t1 ++ sent_on sock t2.
Proof. apply bind_app. Qed.

Lemma sent_only_sent sock p w w' :
  sent_only sock p w w' -> sent_on sock (trace w') = sent_on sock (trace w) ++ p.
Proof.
  intros [_ _ _ _ _ (ls & -> & <-)]. rewrite sent_on_app. f_equal.
  induction ls as [|l ls IH]; [done|]. cbn [fmap list_fmap concat]. unfold sent_on in *.
  rewrite bind_cons, IH. cbn [sent_by]. by rewrite Z.eqb_refl.
Qed.

(** One send takes a prefix; an idle script takes all. *)
Lemma send_spec sock l c w :
  exists r w', send sock l (c, w) = Some (r, (c, w')) /\
    (r < 0 \/ 0 <= r <= Z.of_nat (length l)) /\
    sent_only sock (if r <? 0 then [] else take (Z.to_nat r) l) w w' /\
    (sends w = [] -> 0 <= sock -> r = Z.of_nat (length l)).
Proof.
  unfold send. destruct (Z.ltb_spec sock 0) as [Hs|Hs].
  { exists (-1), w. split; [done|]. split; [lia|]. split; [apply sent_only_refl|lia]. }
  destruct (sends w) as [|a r] eqn:E.
  - exists (Z.of_nat (length l)), (log_event (Sent sock l) w).
    split; [unfold mbind, M_bind, getw; cbn; by rewrite E|]. split; [lia|]. split; [|done].
    rewrite (proj2 (Z.ltb_ge _ _)), Nat2Z.id, firstn_all by lia.
    split; try done. exists [l]. split; [done|]. cbn. by rewrite app_nil_r.
  - destruct (Z.ltb_spec a 0) as [Ha|Ha].
    + exists (-1), (set_sends r w). split; [unfold mbind, M_bind, getw; cbn; rewrite E; cbn;
        by rewrite (proj2 (Z.ltb_lt a 0) Ha)|]. split; [lia|]. split; [|done].
      split; try done; [by rewrite E|]. exists []. by rewrite app_nil_r.
    + set (n := Z.min a (Z.of_nat (length l))).
      exists n, (log_event (Sent sock (take (Z.to_nat n) l)) (set_sends r w)).
      split; [unfold mbind, M_bind, getw; cbn; rewrite E; cbn; by rewrite (proj2 (Z.ltb_ge a 0) Ha)|].
      split; [lia|]. split; [|done]. rewrite (proj2 (Z.ltb_ge n 0)) by lia.
      split; try done; [by rewrite E|]. exists [take (Z.to_nat n) l]. split; [done|]. cbn. by rewrite app_nil_r.
Qed.

(** The send loop sends everything, or fails having sent a prefix. *)
Lemma send_loop_spec fuel : forall sock l c w, (length l <= fuel)%nat ->
  exists r w' p, send_loop fuel sock l (c, w) = Some (r, (c, w')) /\ sent_only sock p w w' /\
    ((r = 0 /\ p = l) \/ (r = 1 /\ p `prefix_of` l)) /\ (sends w = [] -> 0 <= sock -> r = 0).
Proof.
  induction fuel as [|f IH]; intros sock l c w Hl; (destruct l as [|x l]; [|]).
  1, 3: exists 0, w, []; split; [done|]; split; [apply sent_only_refl|]; split; [by left|done].
  { cbn [length] in Hl. lia. }
  cbn [send_loop]. destruct (send_spec sock (x :: l) c w) as (r & w1 & E & Hr & Hs & Hidle).
  destruct (Z.leb_spec r 0) as [Hr0|Hr0].
  - exists 1, w1, []. split.
    { run E. by rewrite (proj2 (Z.leb_le r 0)). }
    split; [|split; [right; split; [done|apply prefix_nil]|]].
    + destruct (Z.ltb_spec r 0); [done|]. by replace (Z.to_nat r) with 0%nat in Hs by lia.
    + intros H1 H2. pose proof (Hidle H1 H2). cbn [length] in *. lia.
  - rewrite (proj2 (Z.ltb_ge r 0)) in Hs by lia.
    destruct (IH sock (drop (Z.to_nat r) (x :: l)) c w1) as (r2 & w2 & p & E2 & Hs2 & Hp & Hi2).
    { rewrite length_drop. cbn [length] in *. lia. }
    exists r2, w2, (take (Z.to_nat r) (x :: l) ++ p).
    split; [run E; by rewrite (proj2 (Z.leb_gt r 0))|].
    split; [by eapply sent_only_trans|]. split.
    + destruct Hp as [[-> ->]|[-> [q Hq]]]; [left; by rewrite take_drop|right].
      split; [done|]. exists q. by rewrite <- app_assoc, <- Hq, take_drop.
    + intros H1 H2. apply Hi2; [|done]. by apply (so_sends _ _ _ _ Hs).
Qed.

Lemma socket_send_spec sock l c w :
  exists r w' p, wby_socket_send sock l (c, w) = Some (r, (c, w')) /\ sent_only sock p w w' /\
    ((r = 0 /\ p = l) \/ (r = 1 /\ p `prefix_of` l)) /\ (sends w = [] -> 0 <= sock -> r = 0).
Proof. apply send_loop_spec. lia. Qed.

(** ** Flushing *)
Lemma flush_spec sock b c w :
  buffer_ok b (memory w) ->
  exists r b' w' p, wby_socket_flush sock b (c, w) = Some ((r, b'), (c, w')) /\ sent_only sock p w w' /\
    ((r = 0 /\ p = buffered b (memory w) /\ b' = set_used 0 b) \/
     (r = 1 /\ p `prefix_of` buffered b (memory w) /\ b' = b)) /\
    (sends w = [] -> 0 <= sock -> r = 0).
Proof.
  intros (Hu & Hmax & Hb). unfold wby_socket_flush. rewrite Z.gtb_ltb.
  destruct (Z.ltb_spec 0 (used b)) as [H0|H0].
  - assert (Hl : mload (memory w) (data b) (Z.to_nat (i32 (used b))) = Some (buffered b (memory w))).
    { unfold mload. rewrite i32_small by lia. by rewrite decide_True by lia. }
    destruct (socket_send_spec sock (buffered b (memory w)) c w) as (r & w' & p & E & Hs & Hr & Hi).
    assert (Hrun : (m ← getw memory; l ← lift (mload m (data b) (Z.to_nat (i32 (used b))));
        wby_socket_send sock l) (c, w) = Some (r, (c, w'))).
    { run (eq_refl (Some (memory w, (c, w)))). unfold lift at 1. rewrite Hl. exact E. }
    destruct Hr as [[-> ->]|[-> Hp]]; eexists _, _, w', _; (split; [run Hrun; reflexivity|]);
      (split; [exact Hs|]); (split; [|exact Hi]); [by left|by right].
  - exists 0, (set_used 0 b), w, []. split; [done|]. split; [apply sent_only_refl|]. split; [|done].
    left. split; [done|]. unfold buffered. by replace (used b) with 0 by lia.
Qed.

(** ** Pushing *)

(** From [c], [w] to [c'], [w'] the bytes [l] were written with result [r]:
    only the I/O buffer and the world changed, and what failed has sent a
    prefix of what was to be sent. *)
Record pushed (l : list Z) (r : Z) (c : wby_connection) (w : world) (c' : wby_connection) (w' : world) :
    Prop := {
  ps_con : c' = set_io_buf (set_used (used (io_buf c')) (io_buf c)) c;
  ps_ok : buffer_ok (io_buf c') (memory w');
  ps_mem : same_outside (data (io_buf c)) (data (io_buf c) + Z.to_nat (bmax (io_buf c))) (memory w) (memory w');
  ps_recvs : recvs w' = recvs w;
  ps_fcntls : fcntls w' = fcntls w;
  ps_accepts : accepts w' = accepts w;
  ps_res : (r = 0 /\ written c' w' = written c w ++ l) \/
           (r = 1 /\ sent_on (socket c) (trace w') `prefix_of` written c w ++ l);
  ps_idle : sends w = [] -> 0 <= socket c -> r = 0 /\ sends w' = [] }.

Lemma set_io_buf_id c : set_io_buf (set_used (used (io_buf c)) (io_buf c)) c = c.
Proof. destruct c as [? ? ? ? ? ? ? [] ? ? ? ? ? ? ? ?]. done. Qed.

Lemma pushed_refl c w : buffer_ok (io_buf c) (memory w) -> pushed [] 0 c w c w.
Proof.
  intros Hb. split; try done; [by rewrite set_io_buf_id|]. left. by rewrite app_nil_r.
Qed.

Lemma pushed_trans l1 l2 r c w c1 w1 c2 w2 :
  pushed l1 0 c w c1 w1 -> pushed l2 r c1 w1 c2 w2 -> pushed (l1 ++ l2) r c w c2 w2.
Proof.
  intros [C1 O1 M1 ? ? ? R1 I1] [C2 O2 M2 ? ? ? R2 I2].
  assert (Hd : data (io_buf c1) = data (io_buf c)) by (by rewrite C1).
  assert (Hm : bmax (io_buf c1) = bmax (io_buf c)) by (by rewrite C1).
  assert (Hs : socket c1 = socket c) by (by rewrite C1).
  destruct R1 as [[_ R1]|[? _]]; [|done].
  split; try congruence.
  - rewrite C2 at 1. by rewrite C1.
  - eapply same_outside_trans; [exact M1|]. by rewrite <- Hd, <- Hm.
  - rewrite Hs in R2. rewrite R1 in R2. by rewrite app_assoc.
  - intros Hi Hs0. destruct (I1 Hi Hs0) as [_ ?]. apply I2; [done|]. by rewrite Hs.
Qed.

Lemma pushed_copy c w l :
  buffer_ok (io_buf c) (memory w) -> used (io_buf c) + Z.of_nat (length l) <= bmax (io_buf c) ->
  exists m', mstore (memory w) (data (io_buf c) + Z.to_nat (used (io_buf c))) l = Some m' /\
    pushed l 0 c w (set_io_buf (set_used (used (io_buf c) + Z.of_nat (length l)) (io_buf c)) c)
      (set_memory m' w).
Proof.
  intros (Hu & Hmax & Hb) Hl. set (b := io_buf c) in *.
  destruct (mstore_is_Some (memory w) (data b + Z.to_nat (used b)) l) as [m' Hm']; [lia|].
  exists m'. split; [done|]. pose proof (mstore_length _ _ _ _ Hm') as Hlen.
  split; try done.
  - cbn. unfold buffer_ok, set_used. cbn. rewrite Hlen. lia.
  - apply mstore_same_outside in Hm'. fold b; eapply same_outside_weaken; [done|lia|lia].
  - left. split; [done|]. unfold written. cbn [socket io_buf set_io_buf memory set_memory trace].
    rewrite <- app_assoc. f_equal. fold b. unfold buffered, set_used. cbn [used data].
    rewrite mstore_Some in Hm' by lia. injection Hm' as <-.
    replace (Z.to_nat (used b + Z.of_nat (length l))) with (Z.to_nat (used b) + length l)%nat by lia.
    rewrite drop_app_le by (rewrite length_take; lia). rewrite <- take_drop_commute.
    set (X := take (Z.to_nat (used b)) (drop (data b) (memory w))).
    assert (HX : length X = Z.to_nat (used b)) by (unfold X; rewrite length_take, length_drop; lia).
    rewrite (app_assoc X l). apply take_app_length'. rewrite length_app. lia.
Qed.

Lemma pushed_flush c w :
  buffer_ok (io_buf c) (memory w) ->
  exists r b' w', wby_socket_flush (socket c) (io_buf c) (c, w) = Some ((r, b'), (c, w')) /\
    pushed [] r c w (set_io_buf b' c) w' /\ (r = 0 \/ r = 1) /\ (r = 0 -> used b' = 0).
Proof.
  intros Hb. destruct (flush_spec (socket c) (io_buf c) c w Hb) as (r & b' & w' & p & E & Hs & Hr & Hi).
  exists r, b', w'. split; [done|]. pose proof (sent_only_sent _ _ _ _ Hs) as Hsent.
  pose proof (so_memory _ _ _ _ Hs) as Hm. destruct Hb as (Hu & Hmax & Hb).
  split; [|split; [destruct Hr as [[-> _]|[-> _]]; auto|
                   destruct Hr as [(_ & _ & ->)|(-> & _)]; [done|lia]]].
  split; try apply Hs.
  - destruct Hr as [(_ & _ & ->)|(_ & _ & ->)]; [done|]. by rewrite <- (set_io_buf_id c) at 1.
  - rewrite Hm. destruct Hr as [(_ & _ & ->)|(_ & _ & ->)]; cbn; unfold buffer_ok, set_used; cbn; lia.
  - rewrite Hm. apply same_outside_refl.
  - destruct Hr as [(-> & -> & ->)|(-> & Hp & ->)].
    + left. split; [done|]. unfold written. cbn [socket io_buf set_io_buf]. rewrite Hsent, Hm, app_nil_r.
      by rewrite app_nil_r.
    + right. split; [done|]. rewrite Hsent, app_nil_r. by apply prefix_app.
  - intros H1 H2. split; [by apply Hi|]. by apply (so_sends _ _ _ _ Hs).
Qed.

Lemma pushed_send c w l :
  buffer_ok (io_buf c) (memory w) -> used (io_buf c) = 0 ->
  exists r w', wby_socket_send (socket c) l (c, w) = Some (r, (c, w')) /\ pushed l r c w c w'.
Proof.
  intros Hb H0. destruct (socket_send_spec (socket c) l c w) as (r & w' & p & E & Hs & Hr & Hi).
  exists r, w'. split; [done|]. pose proof (sent_only_sent _ _ _ _ Hs) as Hsent.
  pose proof (so_memory _ _ _ _ Hs) as Hm.
  assert (He : buffered (io_buf c) (memory w) = []) by (unfold buffered; by rewrite H0).
  split; try apply Hs.
  - by rewrite set_io_buf_id.
  - by rewrite Hm.
  - rewrite Hm. apply same_outside_refl.
  - unfold written. rewrite Hm, He, !app_nil_r, Hsent.
    destruct Hr as [[-> ->]|[-> Hp]]; [by left|right; split; [done|by apply prefix_app]].
  - intros H1 H2. split; [by apply Hi|]. by apply (so_sends _ _ _ _ Hs).
Qed.

(** A failure part way is a failure of the whole. *)
Lemma pushed_fail l1 l c w c1 w1 : pushed l1 1 c w c1 w1 -> l1 `prefix_of` l -> pushed l 1 c w c1 w1.
Proof.
  intros [? ? ? ? ? ? R I] [k ->]. split; try done. right. destruct R as [[? _]|[_ R]]; [done|].
  split; [done|]. rewrite app_assoc. by apply prefix_app_r.
Qed.

(** The bytes one round copies: what the buffer has room for. *)
Definition round_room (b : buffer) (l : list Z) : nat :=
  Nat.min (length l) (Z.to_nat (bmax b - used b)).

(** A round up to the test for a full buffer. *)
Lemma push_round f x l c w m1 r s' :
  let L := x :: l in let b := io_buf c in let n := round_room b L in
  let c1 := set_io_buf (set_used (used b + Z.of_nat n) b) c in
  buffer_ok b (memory w) ->
  mstore (memory w) (data b + Z.to_nat (used b)) (take n L) = Some m1 ->
  (if used b + Z.of_nat n =? bmax b then
     '(r, b2) ← wby_socket_flush (socket c) (io_buf c1);
     upd (set_io_buf b2);;
     if negb (r =? WBY_OK) then mret 1
     else if Z.of_nat (length (drop n L)) >=? bmax b2 then wby_socket_send (socket c) (drop n L)
     else push_loop f (drop n L)
   else push_loop f (drop n L)) (c1, set_memory m1 w) = Some (r, s') ->
  push_loop (S f) L (c, w) = Some (r, s').
Proof.
  intros L b n c1 (Hu & Hmax & Hm) Em H.
  assert (Hn : (if Z.of_nat (length L) <? i32 (bmax b) - i32 (used b) then Z.of_nat (length L)
                else i32 (bmax b) - i32 (used b)) = Z.of_nat n).
  { rewrite !i32_small by lia. unfold n, round_room. set (k := length L).
    destruct (Z.ltb_spec (Z.of_nat k) (bmax b - used b)); lia. }
  unfold L at 1. cbn [push_loop]. fold L.
  run (eq_refl (Some (b, (c, w)))). run (eq_refl (Some (socket c, (c, w)))).
  rewrite Hn, Nat2Z.id, (proj2 (Z.ltb_ge _ _)) by lia.
  run (store_run _ _ c w _ Em). run (eq_refl (Some (tt, (c1, set_memory m1 w)))). exact H.
Qed.

Lemma push_loop_spec fuel : forall l c w,
  buffer_ok (io_buf c) (memory w) ->
  (length l + (if (used (io_buf c) =? bmax (io_buf c))%Z then 1 else 0) < fuel)%nat ->
  exists r c' w', push_loop fuel l (c, w) = Some (r, (c', w')) /\ pushed l r c w c' w'.
Proof.
  induction fuel as [|f IH]; intros l c w Hb Hf; [lia|].
  destruct l as [|x l]; [exists 0, c, w; split; [done|by apply pushed_refl]|].
  set (L := x :: l) in *. pose proof Hb as (Hu & Hmax & Hm).
  set (b := io_buf c) in *. set (n := round_room b L).
  assert (Hnl : length (take n L) = n) by (rewrite length_take; unfold n, round_room; lia).
  destruct (pushed_copy c w (take n L) Hb) as (m1 & Em & P1);
    [fold b; rewrite Hnl; unfold n, round_room; lia|].
  fold b in Em, P1. rewrite Hnl in P1. pose proof (push_round f x l c w m1) as Hround.
  cbv zeta in Hround. fold L b in Hround. fold n in Hround. specialize (fun r s' => Hround r s' Hb Em).
  set (c1 := set_io_buf (set_used (used b + Z.of_nat n) b) c) in *. set (w1 := set_memory m1 w) in *.
  (* after the copy the code flushes, sends the rest directly, or goes round *)
  assert (Hgo : forall c2 w2, pushed (take n L) 0 c w c2 w2 ->
    (length (drop n L) + (if (used (io_buf c2) =? bmax (io_buf c2))%Z then 1 else 0) < f)%nat ->
    exists r c' w', push_loop f (drop n L) (c2, w2) = Some (r, (c', w')) /\ pushed L r c w c' w').
  { intros c2 w2 P Hlt. destruct (IH (drop n L) c2 w2 (ps_ok _ _ _ _ _ _ P) Hlt) as (r & c' & w' & E & P').
    exists r, c', w'. split; [done|]. rewrite <- (take_drop n L). by eapply pushed_trans. }
  assert (Hdl : length (drop n L) = (length L - n)%nat) by apply length_drop.
  assert (Hn : n = Nat.min (length L) (Z.to_nat (bmax b - used b))) by done.
  assert (HL : length L = S (length l)) by done. clearbody L.
  destruct (Z.eqb_spec (used b + Z.of_nat n) (bmax b)) as [Hfull|Hfull].
  2:{ destruct (Hgo _ _ P1) as (r & c' & w' & E & P); [|exists r, c', w'; split; [by apply Hround|done]].
    unfold c1. cbn [io_buf set_io_buf used set_used bmax]. rewrite (proj2 (Z.eqb_neq _ _)) by done.
    destruct (Z.eqb_spec (used b) (bmax b)); lia. }
  destruct (pushed_flush c1 w1 (ps_ok _ _ _ _ _ _ P1)) as (r & b' & w2 & E2 & P2 & Hr & Hr0).
  assert (Hb' : bmax b' = bmax b) by (pose proof (ps_con _ _ _ _ _ _ P2) as C; by apply (f_equal (fun c => bmax (io_buf c))) in C).
  pose proof (pushed_trans _ _ _ _ _ _ _ _ _ P1 P2) as P12. rewrite app_nil_r in P12.
  destruct Hr as [-> | ->].
  2:{ exists 1, (set_io_buf b' c1), w2. split; [|eapply pushed_fail; [exact P12|exists (drop n L); by rewrite take_drop]].
      apply Hround. run E2. by run (eq_refl (Some (tt, (set_io_buf b' c1, w2)))). }
  destruct (Z.geb_spec (Z.of_nat (length (drop n L))) (bmax b)) as [Hbig|Hsmall].
  - destruct (pushed_send (set_io_buf b' c1) w2 (drop n L) (ps_ok _ _ _ _ _ _ P2) (Hr0 eq_refl))
      as (r3 & w3 & E3 & P3).
    exists r3, (set_io_buf b' c1), w3. split; [|rewrite <- (take_drop n L); by eapply pushed_trans].
    apply Hround. run E2. run (eq_refl (Some (tt, (set_io_buf b' c1, w2)))).
    cbn [Z.eqb negb WBY_OK]. rewrite Hb'. rewrite (proj2 (Z.geb_le _ _)) by lia. exact E3.
  - destruct (Hgo _ _ P12) as (r & c' & w' & E & P); [|exists r, c', w'; split; [|done]].
    { cbn [io_buf set_io_buf]. rewrite (Hr0 eq_refl), Hb'. destruct (Z.eqb_spec 0 (bmax b)), (Z.eqb_spec (used b) (bmax b)); lia. }
    apply Hround. run E2. run (eq_refl (Some (tt, (set_io_buf b' c1, w2)))).
    cbn [Z.eqb negb WBY_OK]. rewrite Hb'. rewrite Z.geb_leb, (proj2 (Z.leb_gt _ _)) by lia. exact E.
Qed.

Lemma push_pushed c w l :
  state c = SERVE -> buffer_ok (io_buf c) (memory w) ->
  exists r c' w', wby_connection_push l (c, w) = Some (r, (c', w')) /\ pushed l r c w c' w' /\
    (l = [] -> r = 0 -> used (io_buf c') = 0).
Proof.
  intros Hst Hb. destruct l as [|x l].
  - destruct (pushed_flush c w Hb) as (r & b' & w' & E & P & Hr & Hr0).
    exists r, (set_io_buf b' c), w'. split; [|split; [done|by intros _]].
    unfold wby_connection_push. run (eq_refl (Some (state c, (c, w)))). rewrite Hst.
    run (eq_refl (Some (io_buf c, (c, w)))). run (eq_refl (Some (socket c, (c, w)))).
    run E. done.
  - destruct (push_loop_spec (S (S (length (x :: l)))) (x :: l) c w Hb) as (r & c' & w' & E & P).
    { destruct (_ =? _); lia. }
    exists r, c', w'. split; [|done]. unfold wby_connection_push.
    run (eq_refl (Some (state c, (c, w)))). by rewrite Hst.
Qed.

(** C27: Writing to a connection that is being served: on success the stream, sent
    or still buffered, has grown by exactly the bytes written; on failure only
    a prefix of it was sent; no byte outside the I/O buffer changes and the
    buffer never overflows, whatever the kernel takes. *)
Theorem wby_connection_push_correct c w l :
  state c = SERVE -> buffer_ok (io_buf c) (memory w) ->
  exists r c' w', wby_connection_push l (c, w) = Some (r, (c', w')) /\
    same_outside (data (io_buf c)) (data (io_buf c) + Z.to_nat (bmax (io_buf c))) (memory w) (memory w') /\
    buffer_ok (io_buf c') (memory w') /\
    ((r = 0 /\ written c' w' = written c w ++ l) \/
     (r = 1 /\ sent_on (socket c) (trace w') `prefix_of` written c w ++ l)) /\
    (l = [] -> r = 0 -> used (io_buf c') = 0).
Proof.
  intros Hst Hb. destruct (push_pushed c w l Hst Hb) as (r & c' & w' & E & P & H0).
  exists r, c', w'. split; [done|]. split; [apply P|]. split; [apply P|]. by split; [apply P|].
Qed.

(** ** Responses on a healthy socket *)
Record serving (c : wby_connection) (w : world) : Prop := {
  sv_state : state c = SERVE;
  sv_buffer : buffer_ok (io_buf c) (memory w);
  sv_sends : sends w = [];
  sv_socket : 0 <= socket c }.

Lemma pushed_serving l c w c' w' : pushed l 0 c w c' w' -> serving c w -> serving c' w'.
Proof.
  intros [C O _ _ _ _ _ I] [H1 H2 H3 H4]. destruct (I H3 H4) as [_ Hs].
  split; try done; by rewrite C.
Qed.

(** [m] returns [x] having written [l], and changes nothing else of the
    connection but what [F] does at the end. *)
Definition emitsF {A} (m : M A) (l : list Z) (x : A) (F : wby_connection -> wby_connection)
    (c : wby_connection) (w : world) : Prop :=
  exists c' w', m (c, w) = Some (x, (F c', w')) /\ pushed l 0 c w c' w'.
Definition emits {A} (m : M A) (l : list Z) (x : A) := emitsF m l x (fun c => c).

Lemma emits_ret {A} (x : A) c w : serving c w -> emits (mret x) [] x c w.
Proof. intros H. exists c, w. split; [done|]. apply pushed_refl, H. Qed.

Lemma emits_bind {A B} (m : M A) (f : A -> M B) l1 l2 x y F c w :
  emits m l1 x c w -> (forall c' w', pushed l1 0 c w c' w' -> emitsF (f x) l2 y F c' w') ->
  emitsF (m ≫= f) (l1 ++ l2) y F c w.
Proof.
  intros (c1 & w1 & E1 & P1) Hf. destruct (Hf c1 w1 P1) as (c2 & w2 & E2 & P2).
  exists c2, w2. split; [run E1; exact E2|]. by eapply pushed_trans.
Qed.

(** A step that only looks. *)
Lemma emits_look {A B} (m : M A) (f : A -> M B) x l y F c w :
  m (c, w) = Some (x, (c, w)) -> emitsF (f x) l y F c w -> emitsF (m ≫= f) l y F c w.
Proof. intros Em (c' & w' & E & P). exists c', w'. split; [|done]. run Em. exact E. Qed.

Lemma emits_push l c w : serving c w -> emits (wby_connection_push l) l 0 c w.
Proof.
  intros [Hst Hb Hs H0]. destruct (push_pushed c w l Hst Hb) as (r & c' & w' & E & P & _).
  exists c', w'. destruct (ps_idle _ _ _ _ _ _ P Hs H0) as [-> _]. done.
Qed.

Definition plain (c : wby_connection) : Prop :=
  has (flags c) WBY_CON_FLAG_WEBSOCKET = false /\ has (flags c) WBY_CON_FLAG_CHUNKED_RESPONSE = false.

Lemma emits_write l c w : serving c w -> plain c -> emits (wby_write l) l 0 c w.
Proof.
  intros Hs [Hp1 Hp2]. unfold wby_write. apply (emits_look _ _ (flags c)); [done|]. rewrite Hp1, Hp2. by apply emits_push.
Qed.

Lemma emits_printf l c w :
  serving c w -> plain c -> (length l < 1024)%nat -> emits (wby_printf l) l 0 c w.
Proof.
  intros Hs Hp Hl. unfold wby_printf. rewrite (proj2 (Nat.ltb_ge _ _)), (proj2 (Nat.eqb_neq _ _)) by lia.
  by apply emits_write.
Qed.

Lemma pushed_flags l r c w c' w' : pushed l r c w c' w' -> flags c' = flags c.
Proof. intros P. by rewrite (ps_con _ _ _ _ _ _ P). Qed.
Lemma pushed_request l r c w c' w' : pushed l r c w c' w' -> request c' = request c.
Proof. intros P. by rewrite (ps_con _ _ _ _ _ _ P). Qed.
Lemma pushed_plain l r c w c' w' : pushed l r c w c' w' -> plain c -> plain c'.
Proof. intros P. unfold plain. by rewrite (pushed_flags _ _ _ _ _ _ P). Qed.

(** ** The head of a response *)
Definition header_text (h : list Z * list Z) : list Z := h.1 ++ bs ": " ++ h.2 ++ CRLF.
Definition head_text (status content_length : Z) (hs : list (list Z * list Z)) : list Z :=
  (bs "HTTP/1.1 " ++ fmt_int status ++ bs " " ++ wby_response_status_text status ++ CRLF) ++
  (if content_length >=? 0 then bs "Content-Length: " ++ fmt_int content_length ++ CRLF
   else bs "Transfer-Encoding: chunked" ++ CRLF) ++
  (bs "Server: wby" ++ CRLF) ++ (hs ≫= header_text) ++ CRLF.

Definition headers_ok (hs : list (list Z * list Z)) : Prop :=
  Forall (fun h => (length h.1 + length h.2 < 1000)%nat /\
    strcasecmp_eq h.1 (bs "Connection") && strcasecmp_eq h.2 (bs "close") = false) hs.

(** The client does not ask for the connection to be closed, whatever the I/O
    buffer holds. *)
Definition no_close_header (c : wby_connection) (m : mem) : Prop :=
  forall m', same_outside (data (io_buf c)) (data (io_buf c) + Z.to_nat (bmax (io_buf c))) m m' ->
    exists o, find_header_loop m' (take (Z.to_nat (header_count (request c))) (headers (request c)))
        (bs "Connection") = Some o /\
      match o with
      | None => True
      | Some p => exists s, cstr (drop p m') = Some s /\ strcasecmp_eq (bs "close") s = false
      end.

Lemma digits_aux_length fuel b x acc : (length (digits_aux fuel b x acc) <= fuel + S (length acc))%nat.
Proof.
  revert x acc. induction fuel as [|f IH]; intros x acc; cbn [digits_aux]; [lia|].
  case_match; cbn [length]; [lia|]. pose proof (IH (x / b) (x `mod` b :: acc)) as Hd. cbn [length] in Hd. lia.
Qed.

Lemma fmt_int_length x : (length (fmt_int x) <= 66)%nat.
Proof.
  unfold fmt_int, digits. rewrite length_app, length_fmap.
  pose proof (digits_aux_length 64 10 (Z.abs x) []) as H. cbn [length] in H.
  case_match; cbn [length]; lia.
Qed.

Lemma status_text_length n : (length (wby_response_status_text n) <= 40)%nat.
Proof.
  unfold wby_response_status_text.
  assert (H : Forall (fun p => (length (bs p.2) <= 40)%nat) wby_status_map)
    by (apply (bool_decide_unpack _); vm_compute; exact I).
  induction H as [|[k t] l Hk Hl IH]; [vm_compute; lia|]. cbn [status_loop]. by case_match.
Qed.

Lemma emits_headers hs : forall c w,
  serving c w -> plain c -> headers_ok hs -> emits (print_headers hs) (hs ≫= header_text) tt c w.
Proof.
  induction hs as [|h hs IH]; intros c w Hs Hp Hok; [by apply emits_ret|].
  apply Forall_cons in Hok as [[Hl Hn] Hok]. cbn [print_headers]. rewrite bind_cons.
  apply (emits_bind _ _ _ _ tt).
  - unfold print_header. rewrite Hn. cbn [andb]. apply (emits_look _ _ tt); [done|].
    rewrite <- (app_nil_r (header_text h)). apply (emits_bind _ _ _ _ 0).
    + apply emits_printf; [done|done|]. unfold header_text. rewrite !length_app. change (length (bs ": ")) with 2%nat.
      change (length CRLF) with 2%nat. lia.
    + intros c' w' P. apply emits_ret. by eapply pushed_serving.
  - intros c' w' P. apply IH; [by eapply pushed_serving|by eapply pushed_plain|done].
Qed.

Lemma find_connection c w :
  no_close_header c (memory w) ->
  exists o, wby_find_header (bs "Connection") (c, w) = Some (o, (c, w)) /\
    match o with
    | None => True
    | Some p => exists s, str p (c, w) = Some (s, (c, w)) /\ strcasecmp_eq (bs "close") s = false
    end.
Proof.
  intros H. destruct (H _ (same_outside_refl _ _ _)) as (o & E & Ho). exists o. split.
  - unfold wby_find_header. run (eq_refl (Some (memory w, (c, w)))).
    run (eq_refl (Some (request c, (c, w)))). unfold lift. by rewrite E.
  - destruct o as [p|]; [|done]. destruct Ho as (s & Es & Hs). exists s. split; [|done].
    unfold str. cbn [fst snd]. by rewrite Es.
Qed.

Lemma pushed_no_close l c w c' w' :
  pushed l 0 c w c' w' -> no_close_header c (memory w) -> no_close_header c' (memory w').
Proof.
  intros P H m Hm. rewrite (ps_con _ _ _ _ _ _ P) in Hm |- *.
  cbn [io_buf set_io_buf set_used data bmax request] in *.
  apply H. eapply same_outside_trans; [apply P|done].
Qed.

Definition drained (c : wby_connection) : Prop := content_length (request c) <= body_bytes_read c.

Lemma response_begin_emits st n hs c w :
  serving c w -> plain c -> drained c -> headers_ok hs -> no_close_header c (memory w) ->
  emitsF (wby_response_begin st n hs) (head_text st n hs) 0
    (fun c => if n <? 0 then set_flags (Z.lor (flags c) WBY_CON_FLAG_CHUNKED_RESPONSE) c else c) c w.
Proof.
  intros Hs Hp Hd Hh Hc. unfold wby_response_begin.
  apply (emits_look _ _ 0).
  { unfold drain_body. run (eq_refl (Some (request c, (c, w)))). run (eq_refl (Some (body_bytes_read c, (c, w)))).
    rewrite (proj2 (Z.ltb_ge _ _)) by apply Hd. done. }
  cbn [Z.eqb negb]. unfold head_text.
  pose proof (fmt_int_length st) as H1. pose proof (fmt_int_length n) as H2. pose proof (status_text_length st) as H3.
  apply (emits_bind _ _ _ _ 0).
  { apply emits_printf; [done|done|]. rewrite !length_app. cbn [length]. 
    change (length (bs "HTTP/1.1 ")) with 9%nat. change (length (bs " ")) with 1%nat. change (length CRLF) with 2%nat. lia. }
  intros c1 w1 P1. pose proof (pushed_serving _ _ _ _ _ P1 Hs) as Hs1. pose proof (pushed_plain _ _ _ _ _ _ P1 Hp) as Hp1.
  pose proof (pushed_no_close _ _ _ _ _ P1 Hc) as Hc1. clear P1 Hs Hp Hc Hd.
  apply (emits_bind _ _ _ _ 0).
  { destruct (n >=? 0); apply emits_printf; try done; rewrite ?length_app; [|vm_compute; lia].
    change (length (bs "Content-Length: ")) with 16%nat. change (length CRLF) with 2%nat. lia. }
  intros c2 w2 P2. pose proof (pushed_serving _ _ _ _ _ P2 Hs1) as Hs2. pose proof (pushed_plain _ _ _ _ _ _ P2 Hp1) as Hp2.
  pose proof (pushed_no_close _ _ _ _ _ P2 Hc1) as Hc2. clear P2 Hs1 Hp1 Hc1.
  apply (emits_bind _ _ _ _ 0).
  { apply emits_printf; try done. vm_compute. lia. }
  intros c3 w3 P3. pose proof (pushed_serving _ _ _ _ _ P3 Hs2) as Hs3. pose proof (pushed_plain _ _ _ _ _ _ P3 Hp2) as Hp3.
  pose proof (pushed_no_close _ _ _ _ _ P3 Hc2) as Hc3. clear P3 Hs2 Hp2 Hc2.
  apply (emits_bind _ _ _ _ tt); [by apply emits_headers|].
  intros c4 w4 P4. pose proof (pushed_serving _ _ _ _ _ P4 Hs3) as Hs4. pose proof (pushed_plain _ _ _ _ _ _ P4 Hp3) as Hp4.
  pose proof (pushed_no_close _ _ _ _ _ P4 Hc3) as Hc4. clear P4 Hs3 Hp3 Hc3.
  apply (emits_look _ _ (flags c4)); [done|].
  apply (emits_look _ _ tt).
  { destruct (negb _); [|done]. destruct (find_connection c4 w4 Hc4) as (o & E & Ho). run E.
    destruct o as [p|]; [|done]. destruct Ho as (s & Es & Hcl). run Es. by rewrite Hcl. }
  rewrite <- (app_nil_r CRLF). apply (emits_bind _ _ _ _ 0).
  { apply emits_printf; try done. vm_compute. lia. }
  intros c5 w5 P5. pose proof (pushed_serving _ _ _ _ _ P5 Hs4) as Hs5.
  exists c5, w5. split; [|apply pushed_refl, Hs5]. by destruct (n <? 0).
Qed.

(** ** Whole responses *)

(** The response is flushed and, when the request had no body, the connection
    closed. *)
Definition ended (c : wby_connection) (c' : wby_connection) (w' : world) : Prop :=
  if content_length (request c) =? 0
  then socket c' = WBY_INVALID_SOCKET /\ flags c' = 0 /\ last (trace w') = Some (Closed (socket c))
  else socket c' = socket c /\ flags c' = clear (flags c) WBY_CON_FLAG_CHUNKED_RESPONSE.

Lemma push_flushes c w :
  serving c w ->
  exists c' w', wby_connection_push [] (c, w) = Some (0, (c', w')) /\ pushed [] 0 c w c' w' /\
    sent_on (socket c) (trace w') = written c w.
Proof.
  intros [Hst Hb Hs H0]. destruct (push_pushed c w [] Hst Hb) as (r & c' & w' & E & P & Hu).
  destruct (ps_idle _ _ _ _ _ _ P Hs H0) as [-> _]. exists c', w'. split; [done|]. split; [done|].
  destruct (ps_res _ _ _ _ _ _ P) as [[_ R]|[? _]]; [|done].
  rewrite app_nil_r in R. rewrite <- R. unfold written, buffered. rewrite (Hu eq_refl eq_refl).
  change (Z.to_nat 0) with 0%nat. rewrite take_0, app_nil_r. f_equal. by rewrite (ps_con _ _ _ _ _ _ P).
Qed.

Lemma sent_on_closed s s' tr : sent_on s (tr ++ [Closed s']) = sent_on s tr.
Proof. rewrite sent_on_app. cbn. by rewrite app_nil_r. Qed.

(** What a response leaves alone. *)
Definition rest_same (c : wby_connection) (w : world) (c' : wby_connection) (w' : world) : Prop :=
  state c' = state c /\ blocking_count c' = blocking_count c /\ fcntls w' = fcntls w /\ recvs w' = recvs w.

(** The last two steps of [wby_response_end]. *)
Lemma flush_and_close c w :
  serving c w -> clear (flags c) WBY_CON_FLAG_CHUNKED_RESPONSE = flags c ->
  exists c' w', (wby_connection_push [];;
    req ← get request;
    if content_length req =? 0 then wby_connection_close else mret tt) (c, w) = Some (tt, (c', w')) /\
    sent_on (socket c) (trace w') = written c w /\ ended c c' w' /\ rest_same c w c' w'.
Proof.
  intros Hs Hf. destruct (push_flushes c w Hs) as (c1 & w1 & E & P & Hsent).
  pose proof (pushed_flags _ _ _ _ _ _ P) as Hfl. pose proof (pushed_request _ _ _ _ _ _ P) as Hreq.
  assert (Hsock : socket c1 = socket c) by (by rewrite (ps_con _ _ _ _ _ _ P)).
  unfold ended. destruct (content_length (request c) =? 0) eqn:Hcl.
  - exists (set_flags 0 (set_socket WBY_INVALID_SOCKET c1)), (log_event (Closed (socket c)) w1).
    split; [|split].
    + run E. run (eq_refl (Some (request c1, (c1, w1)))). rewrite Hreq, Hcl.
      unfold wby_connection_close. run (eq_refl (Some (socket c1, (c1, w1)))). rewrite Hsock.
      assert (Hne : (socket c =? WBY_INVALID_SOCKET) = false)
        by (apply Z.eqb_neq; pose proof (sv_socket _ _ Hs); unfold WBY_INVALID_SOCKET; lia).
      rewrite Hne. done.
    + cbn [trace log_event]. by rewrite sent_on_closed.
    + split; [split; [done|]; split; [done|]; cbn [trace log_event]; apply last_snoc|].
      unfold rest_same. cbn. rewrite (ps_con _ _ _ _ _ _ P). by destruct P.
  - exists c1, w1. split; [|split; [done|]].
    + run E. run (eq_refl (Some (request c1, (c1, w1)))). by rewrite Hreq, Hcl.
    + split; [split; [done|]; by rewrite Hfl, Hf|].
      unfold rest_same. rewrite (ps_con _ _ _ _ _ _ P). by destruct P.
Qed.

Lemma response_ok st body hs c w :
  serving c w -> plain c -> clear (flags c) WBY_CON_FLAG_CHUNKED_RESPONSE = flags c ->
  drained c -> headers_ok hs -> no_close_header c (memory w) ->
  exists c' w', (wby_response_begin st (Z.of_nat (length body)) hs;; wby_write body;; wby_response_end)
      (c, w) = Some (tt, (c', w')) /\
    sent_on (socket c) (trace w') =
      written c w ++ head_text st (Z.of_nat (length body)) hs ++ body /\
    ended c c' w' /\ rest_same c w c' w'.
Proof.
  intros Hs Hp Hf Hd Hh Hc.
  destruct (response_begin_emits st (Z.of_nat (length body)) hs c w Hs Hp Hd Hh Hc) as (c1 & w1 & E1 & P1).
  rewrite (proj2 (Z.ltb_ge _ _)) in E1 by lia.
  pose proof (pushed_serving _ _ _ _ _ P1 Hs) as Hs1. pose proof (pushed_plain _ _ _ _ _ _ P1 Hp) as Hp1.
  destruct (emits_write body c1 w1 Hs1 Hp1) as (c2 & w2 & E2 & P2).
  pose proof (pushed_trans _ _ _ _ _ _ _ _ _ P1 P2) as P.
  pose proof (pushed_serving _ _ _ _ _ P Hs) as Hs2. pose proof (pushed_plain _ _ _ _ _ _ P Hp) as Hp2.
  assert (Hf2 : flags c2 = flags c) by (by rewrite (pushed_flags _ _ _ _ _ _ P)).
  destruct (flush_and_close c2 w2 Hs2) as (c' & w' & E & Hsent & Hend & Hrest); [by rewrite Hf2|].
  exists c', w'. split; [|split].
  - run E1. run E2. unfold wby_response_end. run (eq_refl (Some (flags c2, (c2, w2)))).
    rewrite (proj2 Hp2). run (eq_refl (Some (tt, (c2, w2)))). exact E.
  - assert (Hsock : socket c2 = socket c) by (by rewrite (ps_con _ _ _ _ _ _ P)).
    rewrite Hsock in Hsent. rewrite Hsent. destruct (ps_res _ _ _ _ _ _ P) as [[_ ->]|[? _]]; done.
  - unfold ended in *. rewrite (pushed_request _ _ _ _ _ _ P), Hf2 in Hend.
    split; [by rewrite (ps_con _ _ _ _ _ _ P) in Hend|].
    unfold rest_same in *. destruct Hrest as (-> & -> & -> & ->).
    rewrite (ps_con _ _ _ _ _ _ P). by destruct P.
Qed.

(** C4: A response of known length on a socket that takes what it is given: the
    peer receives what was buffered before, the head and the body, and a
    request without a body has its connection closed. *)
Theorem response_sent st body hs c w :
  serving c w -> plain c -> clear (flags c) WBY_CON_FLAG_CHUNKED_RESPONSE = flags c ->
  drained c -> headers_ok hs -> no_close_header c (memory w) ->
  exists c' w', (wby_response_begin st (Z.of_nat (length body)) hs;; wby_write body;; wby_response_end)
      (c, w) = Some (tt, (c', w')) /\
    sent_on (socket c) (trace w') =
      written c w ++ head_text st (Z.of_nat (length body)) hs ++ body /\
    ended c c' w'.
Proof.
  intros Hs Hp Hf Hd Hh Hc.
  destruct (response_ok st body hs c w Hs Hp Hf Hd Hh Hc) as (c' & w' & E & Hsent & Hend & _).
  by exists c', w'.
Qed.

(** ** Chunked responses *)
Definition chunk (l : list Z) : list Z :=
  (fmt_prec 16 1 (u32 (Z.of_nat (length l))) ++ CRLF) ++ l ++ CRLF.
Definition last_chunk : list Z := bs "0" ++ CRLF ++ CRLF.

(** A client's decoder: the size in hexadecimal, the bytes, a line break; the
    empty chunk ends the body. *)
Definition eat (p l : list Z) : option (list Z) :=
  if bool_decide (take (length p) l = p) then Some (drop (length p) l) else None.

Fixpoint dechunk (fuel : nat) (l : list Z) : option (list Z * list Z) :=
  match fuel with
  | O => None
  | S f =>
      let '(size, n, l) := scan_digits 64 16 0 l in
      if (n =? 0)%nat then None else
      l ← eat CRLF l;
      if size =? 0 then l ← eat CRLF l; Some ([], l)
      else if Z.of_nat (length l) <? size then None
      else
        rest ← eat CRLF (drop (Z.to_nat size) l);
        '(body, rest) ← dechunk f rest;
        Some (take (Z.to_nat size) l ++ body, rest)
  end.

Lemma eat_app p l : eat p (p ++ l) = Some l.
Proof. unfold eat. by rewrite take_app_length, bool_decide_true, drop_app_length. Qed.

Lemma scan_size x r :
  0 <= x < 2 ^ 32 ->
  exists n, scan_digits 64 16 0 (fmt_prec 16 1 x ++ CRLF ++ r) = (x, S n, CRLF ++ r).
Proof.
  intros Hx. destruct (digits_spec 16 x ltac:(lia) ltac:(lia)) as (Hok & Hne & Hv & Hlen).
  unfold fmt_prec. destruct (digits 16 x) as [|d ds] eqn:E; [done|].
  replace (1 - length (d :: ds))%nat with 0%nat by (cbn [length]; lia). cbn [replicate app].
  pose proof (Hlen 16%nat ltac:(lia) ltac:(pow_lia)) as Hl.
  exists (length ds). change (CRLF ++ r) with (CR :: LF :: r).
  rewrite (scan_digits_stop 64 16 (d :: ds) 0 CR (LF :: r)) by (done || lia). by rewrite Hv.
Qed.

Lemma dechunk_chunks ds : forall fuel r,
  Forall (fun d => d <> [] /\ Z.of_nat (length d) < 2 ^ 31) ds -> (length ds < fuel)%nat ->
  dechunk fuel ((ds ≫= chunk) ++ last_chunk ++ r) = Some (concat ds, r).
Proof.
  induction ds as [|d ds IH]; intros fuel r Hds Hf; (destruct fuel as [|f]; [lia|]).
  - reflexivity.
  - apply Forall_cons in Hds as [[Hd Hl] Hds]. cbn [length] in Hf.
    cbn [dechunk]. rewrite bind_cons. unfold chunk at 1. rewrite <- !app_assoc.
    rewrite u32_small by lia.
    destruct (scan_size (Z.of_nat (length d)) (d ++ CRLF ++ (ds ≫= chunk) ++ last_chunk ++ r) ltac:(lia))
      as [n ->].
    cbn [Nat.eqb]. rewrite eat_app. cbn [mbind option_bind].
    assert (Hpos : (0 < length d)%nat) by (destruct d; [done|cbn [length]; lia]).
    rewrite (proj2 (Z.eqb_neq _ _)) by lia. rewrite (proj2 (Z.ltb_ge _ _)) by (rewrite length_app; lia).
    rewrite Nat2Z.id, drop_app_length, take_app_length, eat_app. cbn [mbind option_bind].
    rewrite IH by (done || lia). done.
Qed.

Definition chunked (c : wby_connection) : Prop :=
  has (flags c) WBY_CON_FLAG_WEBSOCKET = false /\ has (flags c) WBY_CON_FLAG_CHUNKED_RESPONSE = true.

Lemma emits_chunk l c w : serving c w -> chunked c -> emits (wby_write l) (chunk l) 0 c w.
Proof.
  intros Hs [H1 H2]. unfold wby_write, chunk.
  apply (emits_look _ _ (flags c)); [done|]. rewrite H1, H2.
  apply (emits_bind _ _ _ _ 0); [by apply emits_push|]. intros c1 w1 P1.
  apply (emits_bind _ _ _ _ 0); [apply emits_push; by eapply pushed_serving|]. intros c2 w2 P2.
  apply emits_push. eapply pushed_serving; [exact P2|]. by eapply pushed_serving.
Qed.

Fixpoint write_all (ds : list (list Z)) : M unit :=
  match ds with [] => mret tt | d :: ds' => wby_write d;; write_all ds' end.

Lemma emits_chunks ds : forall c w, serving c w -> chunked c -> emits (write_all ds) (ds ≫= chunk) tt c w.
Proof.
  induction ds as [|d ds IH]; intros c w Hs Hc; [by apply emits_ret|].
  cbn [write_all]. rewrite bind_cons. apply (emits_bind _ _ _ _ 0); [by apply emits_chunk|].
  intros c' w' P. apply IH; [by eapply pushed_serving|].
  unfold chunked. by rewrite (pushed_flags _ _ _ _ _ _ P).
Qed.

Lemma clear_clear f x : clear (clear f x) x = clear f x.
Proof. unfold clear. by rewrite <- Z.land_assoc, Z.land_diag. Qed.

Lemma serving_flags c w f : serving c w -> serving (set_flags f c) w.
Proof. by intros [? ? ? ?]. Qed.

Lemma set_chunked f :
  has (Z.lor f WBY_CON_FLAG_CHUNKED_RESPONSE) WBY_CON_FLAG_CHUNKED_RESPONSE = true /\
  has (Z.lor f WBY_CON_FLAG_CHUNKED_RESPONSE) WBY_CON_FLAG_WEBSOCKET = has f WBY_CON_FLAG_WEBSOCKET.
Proof.
  unfold has. rewrite !Z.land_lor_distr_l. split.
  - apply negb_true_iff, Z.eqb_neq. intros H%Z.lor_eq_0_iff. destruct H as [_ H]. discriminate H.
  - change (Z.land WBY_CON_FLAG_CHUNKED_RESPONSE WBY_CON_FLAG_WEBSOCKET) with 0. by rewrite Z.lor_0_r.
Qed.

(** C5: A response without a length on a socket that takes what it is given: the
    peer receives the head and a body from which a chunk decoder recovers the
    bytes written, provided no write was empty. *)
Theorem chunked_response_sent st ds hs c w :
  serving c w -> plain c -> drained c -> headers_ok hs -> no_close_header c (memory w) ->
  Forall (fun d => d <> [] /\ Z.of_nat (length d) < 2 ^ 31) ds ->
  exists c' w' body, (wby_response_begin st (-1) hs;; write_all ds;; wby_response_end) (c, w) =
      Some (tt, (c', w')) /\
    sent_on (socket c) (trace w') = written c w ++ head_text st (-1) hs ++ body /\
    dechunk (S (length ds)) body = Some (concat ds, []).
Proof.
  intros Hs Hp Hd Hh Hc Hds.
  destruct (response_begin_emits st (-1) hs c w Hs Hp Hd Hh Hc) as (c1 & w1 & E1 & P1).
  cbn [Z.ltb Z.compare] in E1. set (c1' := set_flags (Z.lor (flags c1) WBY_CON_FLAG_CHUNKED_RESPONSE) c1) in *.
  assert (Hs1 : serving c1' w1) by (apply serving_flags; by eapply pushed_serving).
  assert (Hch : chunked c1').
  { destruct (set_chunked (flags c1)) as [H1 H2]. split; [|exact H1].
    unfold c1'. cbn [flags set_flags]. rewrite H2. by apply (pushed_plain _ _ _ _ _ _ P1). }
  destruct (emits_chunks ds c1' w1 Hs1 Hch) as (c2 & w2 & E2 & P2).
  pose proof (pushed_serving _ _ _ _ _ P2 Hs1) as Hs2.
  destruct (emits_push last_chunk c2 w2 Hs2) as (c3 & w3 & E3 & P3).
  pose proof (pushed_trans _ _ _ _ _ _ _ _ _ P2 P3) as P.
  set (c3' := set_flags (clear (flags c3) WBY_CON_FLAG_CHUNKED_RESPONSE) c3).
  assert (Hs3 : serving c3' w3) by (apply serving_flags; by eapply pushed_serving).
  destruct (flush_and_close c3' w3 Hs3) as (c' & w' & E & Hsent & _); [apply clear_clear|].
  exists c', w', ((ds ≫= chunk) ++ last_chunk). split; [|split].
  - run E1. run E2. unfold wby_response_end. run (eq_refl (Some (flags c2, (c2, w2)))).
    assert (Hf : has (flags c2) WBY_CON_FLAG_CHUNKED_RESPONSE = true)
      by (rewrite (pushed_flags _ _ _ _ _ _ P2); apply Hch).
    rewrite Hf. etransitivity; [eapply (bind_run _ _ _ tt (c3', w3)); by run E3|exact E].
  - assert (Hsock : socket c3' = socket c).
    { change (socket c3') with (socket c3). rewrite (ps_con _ _ _ _ _ _ P). change (socket c1' = socket c).
      unfold c1'. cbn [socket set_flags]. by rewrite (ps_con _ _ _ _ _ _ P1). }
    rewrite Hsock in Hsent. rewrite Hsent.
    destruct (ps_res _ _ _ _ _ _ P) as [[_ R]|[? _]]; [|done].
    destruct (ps_res _ _ _ _ _ _ P1) as [[_ R1]|[? _]]; [|done].
    change (written c3' w3) with (written c3 w3). rewrite R. change (written c1' w1) with (written c1 w1).
    rewrite R1. by rewrite <- app_assoc.
  - rewrite <- (app_nil_r (_ ++ last_chunk)), <- app_assoc. by apply dechunk_chunks; [|lia].
Qed.

(** An empty write in between ends the body for the client. *)
Lemma empty_write_ends_body a b :
  a <> [] -> Z.of_nat (length a) < 2 ^ 31 ->
  dechunk 3 (([a; []; b] ≫= chunk) ++ last_chunk) = Some (a, chunk b ++ last_chunk).
Proof.
  intros Ha Hl. rewrite !bind_cons. cbn [mbind list_bind]. rewrite app_nil_r.
  change (chunk []) with last_chunk.
  pose proof (dechunk_chunks [a] 3 (chunk b ++ last_chunk) ltac:(by repeat constructor) ltac:(cbn; lia)) as H.
  rewrite bind_cons in H. cbn [mbind list_bind concat] in H. rewrite !app_nil_r in H.
  by rewrite <- !app_assoc.
Qed.

(** ** Reading *)

(** The unread tail of a buffer. *)
Definition tail_of (b : buffer) (left : Z) (m : mem) : list Z :=
  take (Z.to_nat left) (drop (Z.to_nat (Z.of_nat (data b) + (used b - left))) m).

Definition tail_ok (b : buffer) (left : Z) (m : mem) : Prop :=
  buffer_ok b m /\ 0 <= left <= used b.

Lemma tail_length b left m : tail_ok b left m -> length (tail_of b left m) = Z.to_nat left.
Proof. intros [(Hu & _ & Hb) Hl]. unfold tail_of. rewrite length_take, length_drop. lia. Qed.

Lemma take_more (l : list Z) (n k : nat) : take (n + k) l = take n l ++ take k (drop n l).
Proof. by rewrite <- (take_drop n (take (n + k) l)), take_take, <- take_drop_commute, Nat.min_l by lia. Qed.

Lemma read_buffered_spec b left m len :
  tail_ok b left m -> 0 <= len < 2 ^ 31 ->
  exists n, n = Z.min len left /\
  wby_read_buffered_data m left b len =
    Some (take (Z.to_nat len) (tail_of b left m), left - n, len - n).
Proof.
  intros Ht Hlen. pose proof (tail_length _ _ _ Ht) as Htl. destruct Ht as [(Hu & Hmax & Hb) Hl].
  exists (Z.min len left). split; [done|]. unfold wby_read_buffered_data.
  destruct (Z.eqb_spec left 0) as [->|Hne].
  { destruct (tail_of b 0 m) eqn:E; [|done]. rewrite take_nil, Z.min_r by lia. by rewrite !Z.sub_0_r. }
  rewrite (i32_small (used b)), (i32_small len), (i32_small (used b - left)) by lia. cbv zeta. set (n := if len >? left then left else len).
  assert (Hn : n = Z.min len left) by (unfold n; destruct (Z.gtb_spec len left); lia).
  rewrite (proj2 (orb_false_iff _ _)) by (split; apply Z.ltb_ge; lia).
  unfold mload. rewrite decide_True by lia. cbn [mbind option_bind].
  rewrite u64_small, Hn by lia. do 3 f_equal. unfold tail_of. rewrite take_take. f_equal. lia.
Qed.

(** What a read finds in one of the two buffers. *)
Lemma read_header_body_spec len c w :
  tail_ok (header_buf c) (header_body_left c) (memory w) -> 0 <= len < 2 ^ 31 ->
  0 <= body_bytes_read c -> body_bytes_read c + len < 2 ^ 31 ->
  let l := take (Z.to_nat len) (tail_of (header_buf c) (header_body_left c) (memory w)) in
  let n := Z.of_nat (length l) in
  exists c', read_header_body len (c, w) = Some ((l, len - n), (c', w)) /\
    c' = set_body_bytes_read (body_bytes_read c + n) (set_header_body_left (header_body_left c - n) c).
Proof.
  intros Ht Hlen Hb Hbl l n. pose proof (tail_length _ _ _ Ht) as Htl.
  assert (Hn : n = Z.min len (header_body_left c)).
  { unfold n, l. rewrite length_take, Htl. destruct Ht as [_ ?]. lia. }
  unfold read_header_body.
  destruct (Z.gtb_spec (header_body_left c) 0) as [H0|H0].
  - eexists. split; [|reflexivity].
    run (eq_refl (Some (header_body_left c, (c, w)))).
    rewrite Z.gtb_ltb, (proj2 (Z.ltb_lt _ _)) by lia.
    run (eq_refl (Some (memory w, (c, w)))). run (eq_refl (Some (header_buf c, (c, w)))).
    destruct (read_buffered_spec _ _ _ len Ht Hlen) as (k & Hk & E). rewrite <- Hn in Hk. subst k.
    unfold lift. etransitivity; [eapply bind_run; unfold mbind at 1, option_bind; rewrite E; reflexivity|].
    cbv beta iota. fold l. run (eq_refl (Some (tt, (set_header_body_left (header_body_left c - n) c, w)))).
    fold n. etransitivity; [eapply bind_run; reflexivity|]. cbv beta.
    cbn [body_bytes_read set_header_body_left fst snd]. rewrite i32_small by lia. done.
  - assert (n = 0) as Hn0 by (destruct Ht as [_ ?]; lia).
    exists c. split.
    + run (eq_refl (Some (header_body_left c, (c, w)))).
      rewrite Z.gtb_ltb, (proj2 (Z.ltb_ge _ _)) by lia.
      unfold l in *. destruct (take _ _); [|unfold n in Hn0; cbn [length] in Hn0; lia].
      rewrite Hn0. by rewrite Z.sub_0_r.
    + rewrite Hn0, Z.add_0_r, Z.sub_0_r. by destruct c.
Qed.

Lemma read_io_data_spec len c w :
  tail_ok (io_buf c) (io_data_left c) (memory w) -> 0 <= len < 2 ^ 31 ->
  0 <= body_bytes_read c -> body_bytes_read c + len < 2 ^ 31 ->
  let l := take (Z.to_nat len) (tail_of (io_buf c) (io_data_left c) (memory w)) in
  let n := Z.of_nat (length l) in
  exists c', read_io_data len (c, w) = Some ((l, len - n), (c', w)) /\
    c' = set_body_bytes_read (body_bytes_read c + n) (set_io_data_left (io_data_left c - n) c).
Proof.
  intros Ht Hlen Hb Hbl l n. pose proof (tail_length _ _ _ Ht) as Htl.
  assert (Hn : n = Z.min len (io_data_left c)).
  { unfold n, l. rewrite length_take, Htl. destruct Ht as [_ ?]. lia. }
  unfold read_io_data.
  destruct (Z.gtb_spec (io_data_left c) 0) as [H0|H0].
  - eexists. split; [|reflexivity].
    run (eq_refl (Some (io_data_left c, (c, w)))).
    rewrite Z.gtb_ltb, (proj2 (Z.ltb_lt _ _)) by lia.
    run (eq_refl (Some (memory w, (c, w)))). run (eq_refl (Some (io_buf c, (c, w)))).
    destruct (read_buffered_spec _ _ _ len Ht Hlen) as (k & Hk & E). rewrite <- Hn in Hk. subst k.
    unfold lift. etransitivity; [eapply bind_run; unfold mbind at 1, option_bind; rewrite E; reflexivity|].
    cbv beta iota. fold l. run (eq_refl (Some (tt, (set_io_data_left (io_data_left c - n) c, w)))).
    fold n. etransitivity; [eapply bind_run; reflexivity|]. cbv beta.
    cbn [body_bytes_read set_io_data_left fst snd]. rewrite i32_small by lia. done.
  - assert (n = 0) as Hn0 by (destruct Ht as [_ ?]; lia).
    exists c. split.
    + run (eq_refl (Some (io_data_left c, (c, w)))).
      rewrite Z.gtb_ltb, (proj2 (Z.ltb_ge _ _)) by lia.
      unfold l in *. destruct (take _ _); [|unfold n in Hn0; cbn [length] in Hn0; lia].
      rewrite Hn0. by rewrite Z.sub_0_r.
    + rewrite Hn0, Z.add_0_r, Z.sub_0_r. by destruct c.
Qed.

(** One receive of waiting bytes. *)
Lemma recv_data sock n l r c w :
  0 <= sock -> (0 < n)%nat -> l <> [] -> recvs w = RData l :: r ->
  recv sock n (c, w) = Some (Got (take n l),
    (c, set_recvs (match drop n l with [] => r | more => RData more :: r end) w)).
Proof.
  intros Hs Hn Hl Hr. unfold recv. rewrite (proj2 (Z.ltb_ge _ _)) by done.
  run (eq_refl (Some (recvs w, (c, w)))). rewrite Hr.
  destruct n as [|n]; [lia|]. destruct l as [|x l]; [done|]. done.
Qed.

Lemma read_loop_spec chunks : forall fuel len got c w rest,
  recvs w = (RData <$> chunks) ++ rest -> Forall (fun l => l <> []) chunks ->
  0 <= len <= Z.of_nat (length (concat chunks)) -> (length chunks < fuel)%nat -> 0 <= socket c ->
  0 <= body_bytes_read c -> body_bytes_read c + len < 2 ^ 31 ->
  exists rs, read_loop fuel len got (c, w) =
    Some ((0, got ++ take (Z.to_nat len) (concat chunks)),
      (set_body_bytes_read (body_bytes_read c + len) c, set_recvs rs w)).
Proof.
  induction chunks as [|l chunks IH]; intros fuel len got c w rest Hr Hne Hlen Hf Hs Hb Hbl;
    (destruct fuel as [|f]; [cbn [length] in Hf; lia|]).
  - cbn [concat length] in *. exists (recvs w). cbn [read_loop]. rewrite (proj2 (Z.leb_le _ _)) by lia.
    replace len with 0 by lia. rewrite take_nil, app_nil_r, Z.add_0_r. by destruct c, w.
  - destruct (Z.leb_spec len 0) as [H0|H0].
    { exists (recvs w). cbn [read_loop]. rewrite (proj2 (Z.leb_le _ _)) by lia. replace len with 0 by lia. rewrite take_0, app_nil_r, Z.add_0_r. by destruct c, w. }
    apply Forall_cons in Hne as [Hl Hne]. cbn [concat length fmap list_fmap app] in *.
    rewrite length_app in Hlen. set (n := Z.to_nat len).
    pose proof (recv_data (socket c) n l _ c w Hs ltac:(lia) Hl Hr) as E.
    assert (Hstep : forall x, read_loop f (len - Z.of_nat (length (take n l))) (got ++ take n l)
        (set_body_bytes_read (body_bytes_read c + Z.of_nat (length (take n l))) c,
         set_recvs (match drop n l with [] => (RData <$> chunks) ++ rest
                    | more => RData more :: (RData <$> chunks) ++ rest end) w) = x ->
      read_loop (S f) len got (c, w) = x).
    { intros x <-. cbn [read_loop]. rewrite (proj2 (Z.leb_gt _ _)) by lia.
      run (eq_refl (Some (socket c, (c, w)))). run E.
      etransitivity; [eapply bind_run; reflexivity|]. cbv beta. cbn [fst snd].
      rewrite i32_small by (rewrite length_take; lia). done. }
    destruct (decide (length l <= n)%nat) as [Hle|Hgt].
    + rewrite (take_ge l n), (drop_ge l n) in Hstep by lia.
      destruct (IH f (len - Z.of_nat (length l)) (got ++ l)
        (set_body_bytes_read (body_bytes_read c + Z.of_nat (length l)) c)
        (set_recvs ((RData <$> chunks) ++ rest) w) rest eq_refl Hne) as (rs & E2);
        cbn [body_bytes_read set_body_bytes_read socket]; try lia.
      exists rs. apply Hstep. rewrite E2. rewrite <- app_assoc, (take_app_ge l) by lia.
      replace (Z.to_nat (len - Z.of_nat (length l))) with (n - length l)%nat by (unfold n; lia).
      cbn [body_bytes_read set_body_bytes_read].
      replace (body_bytes_read c + Z.of_nat (length l) + (len - Z.of_nat (length l)))
        with (body_bytes_read c + len) by lia.
      reflexivity.
    + eexists. apply Hstep. rewrite (take_app_le l) by lia.
      assert (Hd0 : len - Z.of_nat (length (take n l)) = 0) by (rewrite length_take; unfold n; lia).
      rewrite Hd0. replace (body_bytes_read c + Z.of_nat (length (take n l))) with (body_bytes_read c + len) by lia.
      destruct f; reflexivity.
Qed.

(** What a read delivers: for a masked websocket frame the bytes are
    combined with the key, counting from the start of the payload. *)
Definition delivered (c : wby_connection) (l : list Z) : list Z :=
  if has (flags c) WBY_CON_FLAG_WEBSOCKET && has (fr_flags (ws_frame c)) WBY_WSF_MASKED
  then unmask (fr_mask_key (ws_frame c)) (body_bytes_read c) l else l.

(** Everything a connection can read: what came with the request header, with
    the frame, and what the socket delivers. *)
Definition incoming (c : wby_connection) (w : world) (chunks : list (list Z)) : list Z :=
  tail_of (header_buf c) (header_body_left c) (memory w) ++
  tail_of (io_buf c) (io_data_left c) (memory w) ++ concat chunks.

Record readable (c : wby_connection) (w : world) (chunks : list (list Z)) : Prop := {
  rd_header : tail_ok (header_buf c) (header_body_left c) (memory w);
  rd_io : tail_ok (io_buf c) (io_data_left c) (memory w);
  rd_recvs : exists rest, recvs w = (RData <$> chunks) ++ rest;
  rd_chunks : Forall (fun l => l <> []) chunks;
  rd_socket : 0 <= socket c;
  rd_bytes : 0 <= body_bytes_read c }.

Lemma take_three (a b c : list Z) n :
  take n (a ++ b ++ c) =
    take n a ++ take (n - length a) b ++ take (n - length a - length b) c.
Proof. by rewrite !take_app. Qed.

(** Reading [len] bytes when that many arrive: exactly the next [len] bytes,
    wherever they were buffered, unmasked by their position in the payload. *)
Theorem wby_read_correct c w chunks len :
  readable c w chunks -> 0 <= len <= Z.of_nat (length (incoming c w chunks)) ->
  body_bytes_read c + len < 2 ^ 31 ->
  exists c' w', wby_read len (c, w) =
      Some ((0, delivered c (take (Z.to_nat len) (incoming c w chunks))), (c', w')) /\
    body_bytes_read c' = body_bytes_read c + len /\ memory w' = memory w /\ flags c' = flags c.
Proof.
  intros [Hth Hti [rest Hr] Hne Hs Hb] Hlen Hbl.
  pose proof (tail_length _ _ _ Hth) as Hlh. pose proof (tail_length _ _ _ Hti) as Hli.
  unfold incoming in *. set (A := tail_of (header_buf c) _ _) in *. set (B := tail_of (io_buf c) _ _) in *.
  rewrite !length_app in Hlen.
  destruct (read_header_body_spec len c w Hth ltac:(lia) Hb Hbl) as (c1 & E1 & Hc1). fold A in E1, Hc1.
  set (n1 := Z.of_nat (length (take (Z.to_nat len) A))) in *.
  assert (Hn1 : n1 = Z.min len (Z.of_nat (length A))) by (unfold n1; rewrite length_take; lia).
  destruct (read_io_data_spec (len - n1) c1 w) as (c2 & E2 & Hc2);
    rewrite ?Hc1; cbn [io_buf io_data_left body_bytes_read set_body_bytes_read set_header_body_left];
    try lia; [exact Hti|].
  rewrite Hc1 in E2, Hc2. cbn [io_buf io_data_left body_bytes_read set_body_bytes_read set_header_body_left] in E2, Hc2.
  rewrite <- Hc1 in E2. fold B in E2, Hc2.
  set (n2 := Z.of_nat (length (take (Z.to_nat (len - n1)) B))) in *.
  assert (Hn2 : n2 = Z.min (len - n1) (Z.of_nat (length B))) by (unfold n2; rewrite length_take; lia).
  destruct (read_loop_spec chunks (S (length (recvs w))) (len - n1 - n2)
    (take (Z.to_nat len) A ++ take (Z.to_nat (len - n1)) B) c2 w rest Hr Hne) as (rs & E3);
    try (rewrite Hc2; cbn [socket body_bytes_read set_body_bytes_read set_io_data_left set_header_body_left]; lia);
    [lia|rewrite Hr, length_app, length_fmap; lia|].
  set (c3 := set_body_bytes_read (body_bytes_read c2 + (len - n1 - n2)) c2) in *.
  assert (Hl : (take (Z.to_nat len) A ++ take (Z.to_nat (len - n1)) B) ++
      take (Z.to_nat (len - n1 - n2)) (concat chunks) = take (Z.to_nat len) (A ++ B ++ concat chunks)).
  { rewrite take_three, <- app_assoc. f_equal. f_equal; [|f_equal; lia].
    destruct (decide (len <= Z.of_nat (length A))) as [Hd|Hd]; [|f_equal; lia].
    replace (Z.to_nat (len - n1)) with 0%nat by lia. by replace (Z.to_nat len - length A)%nat with 0%nat by lia. }
  rewrite Hl in E3. set (L := take (Z.to_nat len) (A ++ B ++ concat chunks)) in *.
  assert (HL : length L = Z.to_nat len) by (unfold L; rewrite length_take, !length_app; lia).
  assert (Hb3 : body_bytes_read c3 = body_bytes_read c + len)
    by (unfold c3; rewrite Hc2; cbn [body_bytes_read set_body_bytes_read]; lia).
  assert (Hsame : flags c3 = flags c /\ ws_frame c3 = ws_frame c)
    by (unfold c3; rewrite Hc2; done).
  destruct Hsame as [Hfl Hfr].
  exists c3, (set_recvs rs w). split; [|done].
  unfold wby_read. run (eq_refl (Some (body_bytes_read c, (c, w)))). run E1. run E2.
  run (eq_refl (Some (recvs w, (c2, w)))). run E3. cbn [Z.eqb negb].
  run (eq_refl (Some (flags c3, (c3, set_recvs rs w)))). run (eq_refl (Some (ws_frame c3, (c3, set_recvs rs w)))).
  rewrite Hfl, Hfr. unfold delivered.
  destruct (has _ _ && has _ _); [|done].
  run (eq_refl (Some (body_bytes_read c3, (c3, set_recvs rs w)))). rewrite Hb3.
  replace (Z.to_nat (body_bytes_read c + len - body_bytes_read c)) with (length L) by lia.
  rewrite firstn_all, drop_all, app_nil_r. done.
Qed.

(** Unmasking is masking again. *)
Lemma unmask_involutive key i l :
  unmask key i (unmask key i l) = l.
Proof.
  revert i. induction l as [|x l IH]; intros i; [done|]. cbn [unmask].
  rewrite IH, Z.lxor_assoc, Z.lxor_nilpotent, Z.lxor_0_r. done.
Qed.

(** A read past the end of what the peer sent goes round for as long as the
    kernel reports the end of the stream: [n] such reports change nothing, so
    on a closed connection the call does not return. *)
Theorem wby_read_spins_at_eof n c w len :
  0 < len < 2 ^ 31 -> header_body_left c = 0 -> io_data_left c = 0 -> 0 <= socket c ->
  forall s, wby_read len (c, set_recvs (replicate n REof ++ s) w) = wby_read len (c, set_recvs s w).
Proof.
  intros Hlen Hh Hi Hs s.
  assert (Hloop : read_loop (S (length (replicate n REof ++ s))) len [] (c, set_recvs (replicate n REof ++ s) w) =
                  read_loop (S (length s)) len [] (c, set_recvs s w)).
  { induction n as [|k IH]; [done|]. cbn [replicate app length]. rewrite <- IH. clear IH.
    set (f := S (length _)). change (read_loop (S f) len []) with
      (if len <=? 0 then mret (0, []) else
       sock ← get socket; r ← recv sock (Z.to_nat len);
       match r with
       | Error _ => clear_flag WBY_CON_FLAG_ALIVE;; mret (-1, [])
       | Eof => read_loop f len []
       | Got l =>
           upd (fun c => set_body_bytes_read (i32 (body_bytes_read c + Z.of_nat (length l))) c);;
           read_loop f (len - Z.of_nat (length l)) ([] ++ l)
       end : M (Z * list Z)).
    rewrite (proj2 (Z.leb_gt _ _)) by lia.
    run (eq_refl (Some (socket c, (c, set_recvs (REof :: replicate k REof ++ s) w)))).
    etransitivity; [eapply (bind_run _ _ _ Eof (c, set_recvs (replicate k REof ++ s) w))|done].
    unfold recv. rewrite (proj2 (Z.ltb_ge _ _)) by done. reflexivity. }
  assert (Hrun : forall q, wby_read len (c, set_recvs q w) =
    ('(r, l) ← read_loop (S (length q)) len [];
     if negb (r =? 0) then mret (r, l)
     else
       fl ← get flags; fr ← get ws_frame;
       if has fl WBY_CON_FLAG_WEBSOCKET && has (fr_flags fr) WBY_WSF_MASKED
       then
         end_pos ← get body_bytes_read;
         let n := Z.to_nat (end_pos - body_bytes_read c) in
         mret (0, unmask (fr_mask_key fr) (body_bytes_read c) (take n l) ++ drop n l)
       else mret (0, l)) (c, set_recvs q w)).
  { intros q. unfold wby_read. run (eq_refl (Some (body_bytes_read c, (c, set_recvs q w)))).
    etransitivity; [eapply (bind_run _ _ _ ([], len) (c, set_recvs q w))|].
    { unfold read_header_body. run (eq_refl (Some (header_body_left c, (c, set_recvs q w)))). by rewrite Hh. }
    cbv beta iota. etransitivity; [eapply (bind_run _ _ _ ([], len) (c, set_recvs q w))|].
    { unfold read_io_data. run (eq_refl (Some (io_data_left c, (c, set_recvs q w)))). by rewrite Hi. }
    done. }
  rewrite !Hrun. unfold mbind, M_bind. by rewrite Hloop.
Qed.

(** ** The websocket handshake *)

(** The accept key of the RFC: SHA-1 of key and GUID, in Base64. *)
Definition accept_digest (key : list Z) : list Z := Sha1.sha1_spec (key ++ wby_websocket_guid).
Definition accept_key (key : list Z) : list Z := Base64.layout (Base64.spec_quads (accept_digest key)).

Lemma websocket_accept_value key :
  Forall byte_ok key -> Z.of_nat (length key) < 2 ^ 28 ->
  websocket_accept key = Some (0, accept_key key) /\ (length (accept_key key) <= 100)%nat.
Proof.
  intros Hk Hl. unfold websocket_accept.
  pose proof (Sha1.sha1_stream [key; wby_websocket_guid]
    (Sha1.mk_sha1 (replicate 5 0) 0 0 0 (replicate 64 0))) as H.
  cbn [foldl concat] in H. rewrite app_nil_r in H. fold (accept_digest key) in H.
  assert (Hg : length wby_websocket_guid = 36%nat) by reflexivity.
  assert (Hkg : Forall (Forall byte_ok) [key; wby_websocket_guid]).
  { apply Forall_cons. split; [done|]. apply Forall_singleton. apply (bool_decide_unpack _). vm_compute. exact I. }
  rewrite H; [|reflexivity|exact Hkg|repeat constructor; lia|rewrite length_app; lia].
  cbn [mbind option_bind].
  assert (Hd : length (accept_digest key) = 20%nat).
  { eapply Sha1.sha1_final_length. apply H; [reflexivity|exact Hkg|repeat constructor; lia|rewrite length_app; lia]. }
  assert (Hb : Forall byte_ok (accept_digest key)) by apply Sha1.be_words_ok.
  rewrite Base64.encode_value; [|done|rewrite Hd; vm_compute; discriminate].
  cbn [Z.eqb negb WBY_OK]. fold (accept_key key).
  assert (Hq : length (Base64.spec_quads (accept_digest key)) = 7%nat)
    by (rewrite Base64.spec_quads_length, Hd; reflexivity).
  assert (Hkey : accept_key key = concat (Base64.spec_quads (accept_digest key)))
    by (unfold accept_key, Base64.layout; by rewrite Hq).
  rewrite cstr_app_nul.
  - split; [done|]. rewrite Hkey, Base64.concat_length_4, Hq by apply Base64.spec_quads_4. lia.
  - rewrite Hkey. apply Forall_concat, Base64.spec_quads_nonzero, Hb.
Qed.

(** The value a header lookup finds. *)
Definition header_value (name v : list Z) (c : wby_connection) (w : world) : Prop :=
  exists p, wby_find_header name (c, w) = Some (Some p, (c, w)) /\ str p (c, w) = Some (v, (c, w)).

Definition upgrade_headers (key : list Z) : list (list Z * list Z) :=
  [(bs "Upgrade", bs "websocket"); (bs "Connection", bs "Upgrade"); (bs "Sec-WebSocket-Accept", accept_key key)].

Lemma upgrade_headers_ok key :
  (length (accept_key key) <= 100)%nat -> headers_ok (upgrade_headers key).
Proof.
  intros Hl. unfold headers_ok, upgrade_headers. repeat apply Forall_cons_2; [..|constructor]; cbn [fst snd];
    (split; [|reflexivity]); change (length (bs "Upgrade")) with 7%nat;
    change (length (bs "websocket")) with 9%nat; change (length (bs "Connection")) with 10%nat;
    change (length (bs "Sec-WebSocket-Accept")) with 20%nat; lia.
Qed.

(** The handshake sends the response RFC 6455 asks for, and then ends the
    response like any other: a request without a body, which every handshake
    is, loses its connection, so that no websocket is ever established. *)
Theorem upgrade_closes_connection key c w :
  serving c w -> plain c -> clear (flags c) WBY_CON_FLAG_CHUNKED_RESPONSE = flags c ->
  drained c -> no_close_header c (memory w) ->
  header_value (bs "Sec-WebSocket-Version") (bs "13") c w ->
  header_value (bs "Sec-WebSocket-Key") key c w ->
  Forall byte_ok key -> Z.of_nat (length key) < 2 ^ 28 -> content_length (request c) = 0 ->
  exists c' w', wby_connection_send_websocket_upgrade (c, w) = Some (0, (c', w')) /\
    sent_on (socket c) (trace w') = written c w ++ head_text 101 0 (upgrade_headers key) /\
    socket c' = WBY_INVALID_SOCKET /\ flags c' = 0 /\ last (trace w') = Some (Closed (socket c)).
Proof.
  intros Hs Hp Hf Hd Hc (pv & Ev1 & Ev2) (pk & Ek1 & Ek2) Hk Hl Hcl.
  destruct (websocket_accept_value key Hk Hl) as [Ha Hlen].
  destruct (response_begin_emits 101 0 (upgrade_headers key) c w Hs Hp Hd (upgrade_headers_ok key Hlen) Hc)
    as (c1 & w1 & E1 & P1). cbn [Z.ltb Z.compare] in E1.
  pose proof (pushed_serving _ _ _ _ _ P1 Hs) as Hs1. pose proof (pushed_plain _ _ _ _ _ _ P1 Hp) as Hp1.
  assert (Hf1 : flags c1 = flags c) by (by rewrite (pushed_flags _ _ _ _ _ _ P1)).
  assert (Hsock : socket c1 = socket c) by (by rewrite (ps_con _ _ _ _ _ _ P1)).
  destruct (flush_and_close c1 w1 Hs1) as (c' & w' & E & Hsent & Hend & _); [by rewrite Hf1|].
  unfold ended in Hend. rewrite (pushed_request _ _ _ _ _ _ P1), Hcl, Z.eqb_refl, Hsock in Hend.
  exists c', w'. split; [|split; [|exact Hend]].
  - unfold wby_connection_send_websocket_upgrade. run Ev1. run Ev2.
    rewrite bool_decide_true by done. cbn [negb]. run Ek1. run Ek2.
    etransitivity; [eapply (bind_run _ _ _ (0, accept_key key) (c, w)); unfold lift; by rewrite Ha|].
    cbv beta iota. cbn [Z.eqb negb WBY_OK]. run E1.
    etransitivity; [eapply (bind_run _ _ _ tt (c', w'))|done].
    unfold wby_response_end. run (eq_refl (Some (flags c1, (c1, w1)))). rewrite (proj2 Hp1).
    run (eq_refl (Some (tt, (c1, w1)))). exact E.
  - rewrite Hsock in Hsent. rewrite Hsent. destruct (ps_res _ _ _ _ _ _ P1) as [[_ ->]|[? _]]; done.
Qed.

(** ** Examples *)
Definition idle_con : wby_connection :=
  Eval vm_compute in set_state SERVE (set_flags WBY_CON_FLAG_ALIVE (set_io_buf (mk_buffer 3 16 130) example_con)).
Definition idle_world : world := Eval vm_compute in mk_world (replicate 130 0 ++ bs "old" ++ replicate 20 0) [] [] [] [] [].

Lemma idle_serving : serving idle_con idle_world.
Proof. split; try done; vm_compute; repeat split; discriminate. Qed.

Lemma wby_connection_push_correct_witness :
  exists r c' w', wby_connection_push (bs "Hello, world!") (idle_con, idle_world) = Some (r, (c', w')) /\
    ((r = 0 /\ written c' w' = bs "oldHello, world!") \/ r = 1).
Proof.
  destruct (wby_connection_push_correct idle_con idle_world (bs "Hello, world!")) as (r & c' & w' & E & _ & _ & R & _);
    [reflexivity|apply idle_serving|].
  exists r, c', w'. split; [exact E|]. destruct R as [[-> R]|[-> _]]; [left|right; reflexivity].
  split; [reflexivity|]. rewrite R. reflexivity.
Defined.

Lemma response_sent_witness :
  exists c' w', (wby_response_begin 200 5 [];; wby_write (bs "hello");; wby_response_end) (idle_con, idle_world) =
      Some (tt, (c', w')) /\
    sent_on 4 (trace w') = bs "oldHTTP/1.1 200 OK" ++ CRLF ++ bs "Content-Length: 5" ++ CRLF ++
      bs "Server: wby" ++ CRLF ++ CRLF ++ bs "hello" /\ flags c' = 0.
Proof.
  destruct (response_sent 200 (bs "hello") [] idle_con idle_world) as (c' & w' & E & H & Hend);
    [apply idle_serving|split; reflexivity|reflexivity|vm_compute; discriminate|constructor|intros m _; exists None; split; [reflexivity|exact I]|].
  exists c', w'. split; [exact E|]. split; [exact H|]. apply Hend.
Defined.

(** A handshake as it is received, with the key of RFC 6455. *)
Definition handshake_mem : mem :=
  Eval vm_compute in
  bs "GET" ++ [0] ++ bs "Connection" ++ [0] ++ bs "Upgrade" ++ [0] ++ bs "Sec-WebSocket-Version" ++ [0] ++
  bs "13" ++ [0] ++ bs "Sec-WebSocket-Key" ++ [0] ++ bs "dGhlIHNhbXBsZSBub25jZQ==" ++ [0] ++ replicate 16 0.
Definition handshake_con : wby_connection :=
  Eval vm_compute in
  set_io_buf (mk_buffer 0 16 91) (set_request (mk_request 0 0 0 None 0 3 [(4, 15); (23, 45); (48, 66)]%nat) idle_con).
Definition handshake_world : world := Eval vm_compute in mk_world handshake_mem [] [] [] [] [].

Lemma handshake_no_close : no_close_header handshake_con handshake_mem.
Proof.
  intros m' [Hl Hs]. exists (Some 15%nat).
  assert (exists r, m' = take 91 handshake_mem ++ r) as [r ->].
  { exists (drop 91 m'). rewrite <- (take_drop 91 m') at 1. f_equal. apply list_eq. intros i.
    destruct (decide (i < 91)%nat); [rewrite !lookup_take_lt by lia; apply Hs; left; cbn; lia|].
    by rewrite !lookup_take_ge by lia. }
  split; [reflexivity|]. exists (bs "Upgrade"). split; reflexivity.
Qed.

Lemma upgrade_closes_connection_witness :
  exists c' w', wby_connection_send_websocket_upgrade (handshake_con, handshake_world) = Some (0, (c', w')) /\
    sent_on 4 (trace w') = head_text 101 0 [(bs "Upgrade", bs "websocket"); (bs "Connection", bs "Upgrade");
      (bs "Sec-WebSocket-Accept", bs "s3pPLMBiTxaQ9kYGzzhZRbK+xOo=")] /\ socket c' = -1.
Proof.
  destruct (upgrade_closes_connection (bs "dGhlIHNhbXBsZSBub25jZQ==") handshake_con handshake_world)
    as (c' & w' & E & Hsent & Hsock & _).
  - split; try done; vm_compute; repeat split; discriminate.
  - split; reflexivity.
  - reflexivity.
  - vm_compute. discriminate.
  - exact handshake_no_close.
  - exists 45%nat. split; vm_compute; reflexivity.
  - exists 66%nat. split; vm_compute; reflexivity.
  - apply (bool_decide_unpack _). vm_compute. exact I.
  - vm_compute. reflexivity.
  - reflexivity.
  - exists c', w'. split; [exact E|]. split; [|exact Hsock]. etransitivity; [exact Hsent|vm_compute; reflexivity].
Defined.

(** A masked frame "Hello" of RFC 6455, of which two bytes came with the
    header. *)
Definition masked_con : wby_connection :=
  Eval vm_compute in
  set_io_data_left 2 (set_ws_frame (mk_frame 3 1 6 [0x37; 0xfa; 0x21; 0x3d] 5)
    (set_io_buf (mk_buffer 8 16 0) (set_flags (WBY_CON_FLAG_ALIVE + WBY_CON_FLAG_WEBSOCKET) idle_con))).
Definition masked_world : world :=
  Eval vm_compute in
  mk_world ([0x81; 0x85; 0x37; 0xfa; 0x21; 0x3d; 0x7f; 0x9f] ++ replicate 130 0)
    [RData [0x4d]; RData [0x51; 0x58; 0x81]] [] [] [] [].

Lemma wby_read_correct_witness :
  exists c' w', wby_read 5 (masked_con, masked_world) = Some ((0, bs "Hello"), (c', w')).
Proof.
  destruct (wby_read_correct masked_con masked_world [[0x4d]; [0x51; 0x58; 0x81]] 5)
    as (c' & w' & E & _).
  - split; try (vm_compute; repeat split; discriminate).
    + exists []. reflexivity.
    + repeat constructor; discriminate.
  - vm_compute. split; discriminate.
  - vm_compute. reflexivity.
  - exists c', w'. rewrite E. vm_compute. reflexivity.
Defined.

Lemma wby_read_spins_at_eof_witness :
  wby_read 1 (idle_con, set_recvs (replicate 3 REof) idle_world) = wby_read 1 (idle_con, idle_world).
Proof.
  exact (wby_read_spins_at_eof 3 idle_con idle_world 1 ltac:(lia) eq_refl eq_refl ltac:(vm_compute; discriminate) []).
Defined.

Lemma chunked_response_sent_witness :
  exists c' w' body, (wby_response_begin 200 (-1) [];; write_all [bs "ab"; bs "c"];; wby_response_end)
      (idle_con, idle_world) = Some (tt, (c', w')) /\ dechunk 3 body = Some (bs "abc", []).
Proof.
  destruct (chunked_response_sent 200 [bs "ab"; bs "c"] [] idle_con idle_world) as (c' & w' & body & E & _ & H);
    [apply idle_serving|split; reflexivity|vm_compute; discriminate|constructor|intros m _; exists None; split; [reflexivity|exact I]| |].
  { apply (bool_decide_unpack _). vm_compute. exact I. }
  exists c', w', body. split; [exact E|exact H].
Defined.

End Stream.
