(* ===== verification/Server.v ===== *)
(** * mumux/server.c: the connection table

    The server's table is the array of [connection_max] connection structures;
    only the first [con_count] are in use.  A connection's own code runs in the
    monad of [Conn]; the server's in one over the table and the world.  The
    handlers of the configuration, and what [socket], [bind], [listen] and
    [select] answer, are arguments. *)
From S2P Require Import Prelude CLib HttpUtil Conn.

Module Server.
Import Conn.

#[export] Instance con_state_eq_dec : EqDecision con_state.
Proof. solve_decision. Defined.

(** ** Configuration and memory layout *)
Record wby_config := mk_config {
  connection_max : nat;
  cf_request_buffer_size : Z;
  cf_io_buffer_size : Z }.

Record wby_server := mk_server {
  config : wby_config;
  memory_size : Z;
  srv_socket : Z;
  con_count : nat;
  con : list wby_connection }.

(** [sizeof] and alignment of [struct wby_connection] (LP64). *)
Definition SIZEOF_CONNECTION : Z := 1200.
Definition WBY_CONN_ALIGN : Z := 8.

Definition needed_memory (cfg : wby_config) : Z :=
  let n := Z.of_nat (connection_max cfg) in
  u64 (u64 (u64 (u64 (n * SIZEOF_CONNECTION) + u64 (n * cf_request_buffer_size cfg)) +
            u64 (n * cf_io_buffer_size cfg)) + WBY_CONN_ALIGN).

Definition wby_init (cfg : wby_config) : wby_server * Z :=
  (mk_server cfg (needed_memory cfg) 0 0 [], needed_memory cfg).

(** [WBY_ALIGN_PTR] *)
Definition align_ptr (x mask : Z) : Z := Z.land (x + (mask - 1)) (Z.lnot (mask - 1)).

(** A connection structure of zero bytes. *)
Definition zero_connection : wby_connection :=
  mk_connection 0 0 REQUEST 0 (mk_request 0 0 0 None 0 0 (replicate WBY_MAX_HEADERS (0, 0)%nat)) 0
    (mk_buffer 0 0 0) (mk_buffer 0 0 0) 0 0 0 0 0 (mk_frame 0 0 0 [0; 0; 0; 0] 0) 0 0.

(** The loop that hands out the buffers; [buffer] is the offset in the memory. *)
Fixpoint layout (cfg : wby_config) (n : nat) (buffer : Z) : list wby_connection :=
  match n with
  | O => []
  | S n' =>
      let c := set_header_buf (mk_buffer 0 0 (Z.to_nat buffer)) zero_connection in
      let buffer := buffer + cf_request_buffer_size cfg in
      let c := set_io_buf (mk_buffer 0 0 (Z.to_nat buffer)) c in
      let c := set_request_buffer_size (cf_request_buffer_size cfg) c in
      let c := set_io_buffer_size (cf_io_buffer_size cfg) c in
      c :: layout cfg n' (buffer + cf_io_buffer_size cfg)
  end.

(** The table [wby_start] sets up in memory at address [base]. *)
Definition start_table (cfg : wby_config) (base : Z) : list wby_connection :=
  layout cfg (connection_max cfg)
    (align_ptr base WBY_CONN_ALIGN - base + Z.of_nat (connection_max cfg) * SIZEOF_CONNECTION).

(** ** The server's monad *)
Definition SV (A : Type) : Type := wby_server * world -> option (A * (wby_server * world)).
#[export] Instance SV_ret : MRet SV := fun A x s => Some (x, s).
#[export] Instance SV_bind : MBind SV := fun A B f m s =>
  match m s with Some (x, s') => f x s' | None => None end.

Definition sget {A} (f : wby_server -> A) : SV A := fun s => Some (f s.1, s).
Definition supd (f : wby_server -> wby_server) : SV unit := fun s => Some (tt, (f s.1, s.2)).
Definition world_get {A} (f : world -> A) : SV A := fun s => Some (f s.2, s).
Definition world_upd (f : world -> world) : SV unit := fun s => Some (tt, (s.1, f s.2)).

Definition set_con (l : list wby_connection) (s : wby_server) : wby_server :=
  mk_server (config s) (memory_size s) (srv_socket s) (con_count s) l.
Definition set_con_count (n : nat) (s : wby_server) : wby_server :=
  mk_server (config s) (memory_size s) (srv_socket s) n (con s).
Definition set_srv_socket (x : Z) (s : wby_server) : wby_server :=
  mk_server (config s) (memory_size s) x (con_count s) (con s).

(** Code of connection [i]. *)
Definition on_con {A} (i : nat) (m : M A) : SV A := fun s =>
  c ← con s.1 !! i;
  '(x, (c', w')) ← m (c, s.2);
  Some (x, (set_con (<[i := c']> (con s.1)) s.1, w')).

(** Code that touches no connection. *)
Definition no_con {A} (m : M A) : SV A := fun s =>
  '(x, (_, w')) ← m (zero_connection, s.2); Some (x, (s.1, w')).

(** ** Starting and stopping *)
Definition wby_start (base sock bind_result listen_result : Z) : SV Z :=
  cfg ← sget config;
  size ← sget memory_size;
  world_upd (set_memory (replicate (Z.to_nat size) 0));;
  supd (set_srv_socket WBY_INVALID_SOCKET);;
  supd (set_con (start_table cfg base));;
  if negb (wby_socket_is_valid sock) then mret (-1) else
  r ← no_con (wby_socket_set_blocking sock false);
  if negb (r =? WBY_OK) then no_con (wby_socket_close sock);; mret (-1)
  else if negb (bind_result =? WBY_OK) then no_con (wby_socket_close sock);; mret (-1)
  else if negb (listen_result =? WBY_OK) then
    no_con (wby_socket_close sock);; no_con (wby_socket_close sock);; mret (-1)
  else supd (set_srv_socket sock);; mret 0.

Fixpoint stop_loop (l : list wby_connection) : SV unit :=
  match l with
  | [] => mret tt
  | c :: l' => no_con (wby_socket_close (socket c));; stop_loop l'
  end.
Definition wby_stop : SV unit :=
  sock ← sget srv_socket;
  no_con (wby_socket_close sock);;
  n ← sget con_count;
  l ← sget con;
  stop_loop (take n l).

(** ** New connections *)
Definition accept : SV Z :=
  script ← world_get accepts;
  match script with
  | [] => mret (-1)
  | a :: r => world_upd (set_accepts r);; mret a
  end.

Definition wby_on_incoming : SV Z :=
  connection_index ← sget con_count;
  cfg ← sget config;
  if (connection_index =? connection_max cfg)%nat then mret 1 else
  fd ← accept;
  if negb (wby_socket_is_valid fd) then mret 1 else
  on_con connection_index (upd (fun c => set_flags WBY_CON_FLAG_FRESH_CONNECTION
    (wby_connection_reset (cf_request_buffer_size cfg) (cf_io_buffer_size cfg) c)));;
  supd (set_con_count (connection_index + 1));;
  r ← no_con (wby_socket_config_incoming fd);
  if negb (r =? WBY_OK) then no_con (wby_socket_close fd);; mret 1
  else
    on_con connection_index (set_flag WBY_CON_FLAG_ALIVE;; upd (set_socket fd));;
    mret 0.

(** ** The state machine of a connection *)
Definition wby_continue_header : list Z := bs "HTTP/1.1 100 Continue" ++ CRLF ++ CRLF.
Definition wby_plain_text_headers : list (list Z * list Z) := [(bs "Content-Type", bs "text/plain")].
Definition html_headers : list (list Z * list Z) := [(bs "Content-Type", bs "text/html")].

Section Handlers.
Context (dispatch : M Z) (ws_connect : option (M Z)) (ws_connected ws_closed : M unit)
        (ws_frame_handler : wby_frame -> M Z).
Context (cfg : wby_config).

Definition die : M bool := clear_flag WBY_CON_FLAG_ALIVE;; mret false.
Definition reset : M unit :=
  upd (wby_connection_reset (cf_request_buffer_size cfg) (cf_io_buffer_size cfg)).

(** Each state's part of the loop; [true] goes round again, [false] returns. *)
Definition state_request : M bool :=
  sock ← get socket;
  b ← get header_buf;
  '(result, b) ← wby_socket_recv sock b;
  upd (set_header_buf b);;
  match result with
  | WBY_FILL_ERROR => die
  | _ =>
      m ← getw memory;
      request_size ← lift (wb_peek_request_size m (data b) (i32 (used b)));
      if request_size <? 0 then
        (if bmax b =? used b then clear_flag WBY_CON_FLAG_ALIVE else mret tt);; mret false
      else
        r ← wby_connection_setup_request request_size;
        if negb (r =? WBY_OK) then die
        else
          upd (set_header_body_left (i32 (used b) - request_size));;
          expect_header ← wby_find_header (bs "Expect");
          match expect_header with
          | Some p =>
              s ← str p;
              if strcasecmp_eq s (bs "100-continue") then
                upd (set_continue_data_left (Z.of_nat (length wby_continue_header)));;
                upd (set_state SEND_CONTINUE);; mret true
              else upd (set_state SERVE);; mret true
          | None => upd (set_state SERVE);; mret true
          end
  end.

Definition state_send_continue : M bool :=
  left ← get continue_data_left;
  sock ← get socket;
  let offset := Z.of_nat (length wby_continue_header) - left in
  written ← send sock (drop (Z.to_nat offset) wby_continue_header);
  if written <? 0 then die
  else
    upd (set_continue_data_left (left - written));;
    (if left - written =? 0 then upd (set_state SERVE) else mret tt);;
    mret true.

(** The 400 and 404 pages. *)
Definition error_page (status : Z) (hs : list (list Z * list Z)) (text : M (list Z)) : M unit :=
  wby_response_begin status (-1) hs;;
  t ← text;
  wby_printf t;;
  wby_response_end.

Definition uri_text (before after : list Z) : M (list Z) :=
  req ← get request; u ← str (uri req); mret (before ++ u ++ after).

Definition serve_websocket_request : M unit :=
  allowed ← (match ws_connect with None => mret 1 | Some f => f end);
  if negb (allowed =? WBY_OK) then
    error_page 400 wby_plain_text_headers (uri_text (bs "WebSockets not supported at ") CRLF)
  else
    r ← wby_connection_send_websocket_upgrade;
    if negb (r =? WBY_OK) then
      error_page 400 wby_plain_text_headers (mret (bs "WebSockets couldn't not be enabled" ++ CRLF))
    else
      set_flag WBY_CON_FLAG_WEBSOCKET;; ws_connected.

Definition state_serve : M bool :=
  b ← get io_buf;
  upd (set_io_buf (set_used 0 b));;
  r ← wby_connection_set_blocking;
  if negb (r =? WBY_OK) then mret false
  else
    ws ← wby_con_is_websocket_request;
    (if negb (ws =? 0) then serve_websocket_request
     else
       d ← dispatch;
       if negb (d =? 0) then
         error_page 404 html_headers (uri_text (bs "<h1>404 Not Found</h1><hr />Request: ") CRLF)
       else mret tt);;
    wby_connection_set_nonblocking;;
    fl ← get flags;
    if has fl WBY_CON_FLAG_ALIVE then
      if has fl WBY_CON_FLAG_CLOSE_AFTER_RESPONSE then die
      else
        reset;;
        (if negb (has fl WBY_CON_FLAG_WEBSOCKET) then upd (set_state REQUEST)
         else
           b ← get io_buf;
           upd (set_io_buf (set_used 0 b));; upd (set_state WEBSOCKET));;
        mret true
    else mret true.

Definition discard_rest (fr : wby_frame) : M Z :=
  n ← get body_bytes_read;
  if n <? fr_payload_length fr
  then wby_con_discard_incoming_data (fr_payload_length fr - n) else mret 0.

Definition state_websocket : M bool :=
  sock ← get socket;
  b ← get io_buf;
  '(result, b) ← wby_socket_recv sock b;
  upd (set_io_buf b);;
  match result with
  | WBY_FILL_ERROR => die
  | _ =>
      m ← getw memory;
      bytes ← lift (mload m (data b) (Z.to_nat (used b)));
      old ← get ws_frame;
      let '(r, fr) := wby_scan_websocket_frame old bytes in
      upd (set_ws_frame fr);;
      if negb (r =? WBY_OK) then mret false
      else
        upd (set_body_bytes_read 0);;
        upd (set_io_data_left (i32 (used b) - fr_header_size fr));;
        r ← wby_connection_set_blocking;
        if negb (r =? WBY_OK) then mret false
        else if fr_opcode fr =? 8 then die
        else
          ok ← (if fr_opcode fr =? 9 then wby_socket_send sock wby_websocket_pong else ws_frame_handler fr);
          if negb (ok =? WBY_OK) then die
          else
            r ← discard_rest fr;
            if negb (r =? WBY_OK) then die
            else
              r ← wby_connection_set_nonblocking;
              if negb (r =? WBY_OK) then mret false
              else reset;; upd (set_state WEBSOCKET);; mret true
  end.

Definition state_step : M bool :=
  st ← get state;
  match st with
  | REQUEST => state_request
  | SEND_CONTINUE => state_send_continue
  | SERVE => state_serve
  | WEBSOCKET => state_websocket
  end.

(** [for (;;)], and whether it has returned in [fuel] rounds. *)
Fixpoint update_loop (fuel : nat) : M bool :=
  match fuel with
  | O => mret false
  | S f => again ← state_step; if again : bool then update_loop f else mret true
  end.

Definition wby_update_connection (fuel : nat) : M bool :=
  clear_flag WBY_CON_FLAG_FRESH_CONNECTION;; update_loop fuel.

(** ** One round of the server *)

(** The answer of [select]: its result and the descriptors found ready, of
    which only those asked for count. *)
Record select_answer := mk_select { sel_err : Z; sel_read : Z -> bool; sel_write : Z -> bool }.

Definition read_set (s : wby_server) : list Z :=
  (if (con_count s <? connection_max (config s))%nat then [srv_socket s] else []) ++
  (socket <$> take (con_count s) (con s)).
Definition write_set (s : wby_server) : list Z :=
  socket <$> filter (fun c => bool_decide (state c = SEND_CONTINUE)) (take (con_count s) (con s)).

Fixpoint incoming_loop (fuel : nat) : SV unit :=
  match fuel with
  | O => mret tt
  | S f => err ← wby_on_incoming; if err =? 0 then incoming_loop f else mret tt
  end.

(** Connections [i] to [i + n - 1]; the server is still in the first whose loop
    has not returned. *)
Fixpoint data_loop (fuel : nat) (rd wr : Z -> bool) (i n : nat) : SV bool :=
  match n with
  | O => mret true
  | S n' =>
      l ← sget con;
      returned ← (match l !! i with
       | Some c =>
           if rd (socket c) || wr (socket c) || has (flags c) WBY_CON_FLAG_FRESH_CONNECTION
           then on_con i (wby_update_connection fuel) else mret true
       | None => fun _ => None
       end);
      if returned : bool then data_loop fuel rd wr (i + 1) n' else mret false
  end.

(** [memmove] of the [remain] structures behind slot [i]: the last one used
    stays where it was, too. *)
Definition compact (i remain : nat) (l : list wby_connection) : list wby_connection :=
  take i l ++ take remain (drop (i + 1) l) ++ drop (i + remain) l.

(** Every round either goes on to the next slot or frees one, so as many
    rounds as connections are enough. *)
Fixpoint close_loop (rounds : nat) (i : nat) : SV unit :=
  match rounds with
  | O => mret tt
  | S k =>
      n ← sget con_count;
      if (i <? n)%nat then
        l ← sget con;
        match l !! i with
        | Some c =>
            if negb (has (flags c) WBY_CON_FLAG_ALIVE) then
              (if has (flags c) WBY_CON_FLAG_WEBSOCKET then on_con i ws_closed else mret tt);;
              on_con i wby_connection_close;;
              supd (fun s => set_con (compact i (n - i - 1) (con s)) s);;
              supd (set_con_count (n - 1));;
              close_loop k i
            else close_loop k (i + 1)
        | None => fun _ => None
        end
      else mret tt
  end.

Definition wby_update (fuel : nat) (sel : select_answer) : SV bool :=
  rs ← sget read_set;
  ws ← sget write_set;
  let rd x := bool_decide (x ∈ rs) && sel_read sel x in
  let wr x := bool_decide (x ∈ ws) && sel_write sel x in
  if sel_err sel <? 0 then mret true
  else
    sock ← sget srv_socket;
    cfg ← sget config;
    (if rd sock then incoming_loop (connection_max cfg + 1) else mret tt);;
    count ← sget con_count;
    returned ← data_loop fuel rd wr 0 count;
    if negb returned then mret false
    else count ← sget con_count; close_loop count 0;; mret true.
End Handlers.

(** ** The memory layout *)
Lemma align_ptr_spec x : 0 <= x -> x <= align_ptr x WBY_CONN_ALIGN < x + 8 /\ align_ptr x WBY_CONN_ALIGN `mod` 8 = 0.
Proof.
  intros Hx. unfold align_ptr, WBY_CONN_ALIGN. change (8 - 1) with (Z.ones 3).
  rewrite <- Z.ldiff_land, Z.ldiff_ones_r, Z.shiftl_mul_pow2, Z.shiftr_div_pow2 by lia.
  change (Z.ones 3) with 7. change (2 ^ 3) with 8. split; [Z.div_mod_to_equations; lia|].
  by rewrite Z.mod_mul by lia.
Qed.

Definition sizes_ok (cfg : wby_config) : Prop :=
  0 <= cf_request_buffer_size cfg /\ 0 <= cf_io_buffer_size cfg /\
  Z.of_nat (connection_max cfg) *
    (SIZEOF_CONNECTION + cf_request_buffer_size cfg + cf_io_buffer_size cfg) + WBY_CONN_ALIGN < 2 ^ 64.

Lemma needed_memory_value cfg :
  sizes_ok cfg ->
  needed_memory cfg = Z.of_nat (connection_max cfg) *
    (SIZEOF_CONNECTION + cf_request_buffer_size cfg + cf_io_buffer_size cfg) + WBY_CONN_ALIGN.
Proof.
  intros (Hr & Hi & Hs). unfold needed_memory, SIZEOF_CONNECTION, WBY_CONN_ALIGN in *. cbv zeta.
  set (n := Z.of_nat (connection_max cfg)) in *.
  assert (0 <= n) by lia. assert (0 <= n * cf_request_buffer_size cfg) by nia.
  assert (0 <= n * cf_io_buffer_size cfg) by nia. rewrite !Z.mul_add_distr_l in *.
  rewrite (u64_small (n * 1200)), (u64_small (n * cf_request_buffer_size cfg)),
    (u64_small (n * cf_io_buffer_size cfg)), (u64_small (n * 1200 + _)), (u64_small (_ + n * cf_io_buffer_size cfg)),
    u64_small by lia. lia.
Qed.

Lemma layout_lookup cfg n : forall buffer i c,
  0 <= cf_request_buffer_size cfg -> 0 <= cf_io_buffer_size cfg -> 0 <= buffer ->
  layout cfg n buffer !! i = Some c ->
  (i < n)%nat /\
  Z.of_nat (data (header_buf c)) = buffer + Z.of_nat i * (cf_request_buffer_size cfg + cf_io_buffer_size cfg) /\
  Z.of_nat (data (io_buf c)) = Z.of_nat (data (header_buf c)) + cf_request_buffer_size cfg.
Proof.
  induction n as [|n IH]; intros buffer i c Hr Hi Hb Hc; [done|].
  cbn [layout] in Hc. destruct i as [|i].
  - injection Hc as <-. cbn. lia.
  - cbn [lookup list_lookup] in Hc. apply IH in Hc; [|lia..]. destruct Hc as (H1 & H2 & H3).
    split; [lia|]. split; [|done]. rewrite H2, Nat2Z.inj_succ, Z.mul_succ_l. lia.
Qed.

Lemma table_length cfg n buffer : length (layout cfg n buffer) = n.
Proof. revert buffer. induction n; intros; cbn; auto. Qed.

(** C32: The buffers of the connections: behind the table, inside the memory that
    [wby_init] asked for, and disjoint. *)
Theorem start_table_disjoint cfg base :
  sizes_ok cfg -> 0 <= base ->
  let table_end := align_ptr base WBY_CONN_ALIGN - base + Z.of_nat (connection_max cfg) * SIZEOF_CONNECTION in
  length (start_table cfg base) = connection_max cfg /\
  (forall i c, start_table cfg base !! i = Some c ->
     table_end <= Z.of_nat (data (header_buf c)) /\
     Z.of_nat (data (header_buf c)) + cf_request_buffer_size cfg <= Z.of_nat (data (io_buf c)) /\
     Z.of_nat (data (io_buf c)) + cf_io_buffer_size cfg <= (wby_init cfg).2) /\
  (forall i j c d, (i < j)%nat -> start_table cfg base !! i = Some c -> start_table cfg base !! j = Some d ->
     Z.of_nat (data (io_buf c)) + cf_io_buffer_size cfg <= Z.of_nat (data (header_buf d))).
Proof.
  intros Hok Hb table_end. pose proof Hok as (Hr & Hi & Hs). destruct (align_ptr_spec base Hb) as [Ha _].
  unfold start_table. fold table_end.
  assert (Hte : 0 <= table_end) by (unfold table_end, SIZEOF_CONNECTION; lia).
  split; [apply table_length|]. cbn [wby_init snd]. rewrite needed_memory_value by done.
  unfold WBY_CONN_ALIGN in *. split.
  - intros i c Hc. destruct (layout_lookup _ _ _ _ _ Hr Hi Hte Hc) as (Hin & H1 & H2).
    split; [nia|]. split; [lia|]. unfold table_end in H1. nia.
  - intros i j c d Hij Hc Hd. destruct (layout_lookup _ _ _ _ _ Hr Hi Hte Hc) as (_ & H1 & H2).
    destruct (layout_lookup _ _ _ _ _ Hr Hi Hte Hd) as (_ & H3 & _). nia.
Qed.

Definition demo_config : wby_config := mk_config 4 2048 8192.

Lemma start_table_disjoint_witness :
  (wby_init demo_config).2 = 45768 /\ length (start_table demo_config 1001) = 4%nat.
Proof.
  split; [reflexivity|]. refine (proj1 (start_table_disjoint demo_config 1001 _ _)); [|lia].
  vm_compute. repeat split; discriminate.
Defined.

(** ** The table *)
Definition table_ok (s : wby_server) : Prop :=
  length (con s) = connection_max (config s) /\ (con_count s <= connection_max (config s))%nat.

(** [m] keeps the table's shape and the configuration. *)
Definition keeps {A} (m : SV A) : Prop :=
  forall s w x s' w', m (s, w) = Some (x, (s', w')) -> table_ok s ->
    table_ok s' /\ config s' = config s.

Lemma keeps_bind {A B} (m : SV A) (f : A -> SV B) : keeps m -> (forall x, keeps (f x)) -> keeps (m ≫= f).
Proof.
  intros Hm Hf s w y s' w' H Hs. unfold mbind, SV_bind in H.
  destruct (m (s, w)) as [[x [s1 w1]]|] eqn:E; [|done].
  destruct (Hm _ _ _ _ _ E Hs) as [H1 C1]. destruct (Hf _ _ _ _ _ _ H H1) as [H2 C2].
  split; [done|]. congruence.
Qed.

Lemma keeps_ret {A} (x : A) : keeps (mret x).
Proof. intros s w y s' w' H Hs. injection H as <- <- <-. done. Qed.
Lemma keeps_fail {A} : keeps (fun _ => None : option (A * (wby_server * world))).
Proof. intros s w y s' w' H. done. Qed.
Lemma keeps_sget {A} (f : wby_server -> A) : keeps (sget f).
Proof. intros s w y s' w' H Hs. injection H as <- <- <-. done. Qed.
Lemma keeps_world_get {A} (f : world -> A) : keeps (world_get f).
Proof. intros s w y s' w' H Hs. injection H as <- <- <-. done. Qed.
Lemma keeps_world_upd f : keeps (world_upd f).
Proof. intros s w y s' w' H Hs. injection H as <- <- <-. done. Qed.
Lemma keeps_no_con {A} (m : M A) : keeps (no_con m).
Proof.
  intros s w y s' w' H Hs. unfold no_con in H. destruct (m _) as [[x [c1 w1]]|]; [|done].
  injection H as <- <- <-. done.
Qed.
Lemma keeps_on_con {A} i (m : M A) : keeps (on_con i m).
Proof.
  intros s w y s' w' H [Hl Hc]. unfold on_con in H. cbn [fst snd] in H.
  destruct (con s !! i); [|done]. cbn [mbind option_bind] in H.
  destruct (m _) as [[x [c1 w1]]|]; [|done]. injection H as <- <- <-.
  split; [|done]. split; [|done]. cbn. by rewrite length_insert.
Qed.

Create HintDb keeps.
#[local] Hint Resolve keeps_bind keeps_ret keeps_fail keeps_sget keeps_world_get keeps_world_upd
  keeps_no_con keeps_on_con : keeps.

Lemma keeps_accept : keeps accept.
Proof. apply keeps_bind; [auto with keeps|]. intros [|a r]; auto with keeps. Qed.

Lemma bind_inv {A B} (m : SV A) (f : A -> SV B) s y s' :
  (m ≫= f) s = Some (y, s') -> exists x s1, m s = Some (x, s1) /\ f x s1 = Some (y, s').
Proof. unfold mbind, SV_bind. destruct (m s) as [[x s1]|]; [eauto|done]. Qed.

Lemma on_con_inv {A} i (m : M A) s w x s' w' :
  on_con i m (s, w) = Some (x, (s', w')) ->
  exists c c', con s !! i = Some c /\ m (c, w) = Some (x, (c', w')) /\ s' = set_con (<[i := c']> (con s)) s.
Proof.
  unfold on_con. cbn [fst snd]. destruct (con s !! i) as [c|]; [|done]. cbn [mbind option_bind].
  destruct (m (c, w)) as [[y [c1 w1]]|] eqn:E; [|done]. intros [= <- <- <-]. eauto 10.
Qed.

Lemma no_con_inv {A} (m : M A) s w x s' w' :
  no_con m (s, w) = Some (x, (s', w')) -> s' = s /\ exists c', m (zero_connection, w) = Some (x, (c', w')).
Proof.
  unfold no_con. cbn [snd fst]. destruct (m _) as [[y [c1 w1]]|] eqn:E; [|done]. intros [= <- <- <-]. eauto.
Qed.

Lemma accept_inv s w fd s' w' :
  accept (s, w) = Some (fd, (s', w')) -> s' = s /\ fd = default (-1) (head (accepts w)) /\
    w' = set_accepts (tail (accepts w)) w.
Proof.
  unfold accept. intros H. apply bind_inv in H as (l & s1 & H1 & H). injection H1 as <- <-.
  destruct w as [m r sd f ac tr]; cbn in *. destruct ac as [|a ac]; injection H as <- <- <-; done.
Qed.

Lemma keeps_incoming : keeps wby_on_incoming.
Proof.
  intros s w y s' w' H [Hl Hc]. unfold wby_on_incoming in H.
  apply bind_inv in H as (n & s0 & H0 & H). injection H0 as <- <-.
  apply bind_inv in H as (cfg & s0 & H0 & H). injection H0 as <- <-. cbn [fst] in H.
  destruct (Nat.eqb_spec (con_count s) (connection_max (config s))) as [Heq|Hne]; [by injection H as <- <- <-|].
  apply bind_inv in H as (fd & [s1 w1] & H1 & H). apply accept_inv in H1 as (-> & _ & _).
  destruct (negb _); [by injection H as <- <- <-|].
  apply bind_inv in H as (u & [s2 w2] & H2 & H). apply on_con_inv in H2 as (c & c' & _ & _ & ->).
  apply bind_inv in H as (u2 & [s3 w3] & H3 & H). injection H3 as <- <- <-.
  revert H. match goal with |- ?m (?s, ?w) = _ -> _ => set (s4 := s); assert (Hk : keeps m) end.
  { apply keeps_bind; [auto with keeps|]. intros r. destruct (negb _); auto with keeps. }
  intros H. destruct (Hk _ _ _ _ _ H) as [Hok Hcfg]; [|by rewrite Hcfg].
  split; cbn; [by rewrite length_insert|lia].
Qed.

Lemma keeps_incoming_loop fuel : keeps (incoming_loop fuel).
Proof.
  induction fuel as [|f IH]; [apply keeps_ret|]. apply keeps_bind; [apply keeps_incoming|].
  intros r. destruct (r =? 0); auto with keeps.
Qed.

(** *** Compaction *)
Lemma compact_length i n l : (i < n)%nat -> (n <= length l)%nat -> length (compact i (n - i - 1) l) = length l.
Proof. intros. unfold compact. rewrite !length_app, !length_take, !length_drop. lia. Qed.

Lemma compact_lookup i n l j :
  (i < n)%nat -> (n <= length l)%nat ->
  compact i (n - i - 1) l !! j =
    if decide (i <= j < n - 1)%nat then l !! (j + 1)%nat else l !! j.
Proof.
  intros Hi Hn. unfold compact. case_decide as Hj.
  - rewrite lookup_app_r by (rewrite length_take; lia). rewrite length_take, Nat.min_l by lia.
    rewrite lookup_app_l by (rewrite length_take, length_drop; lia).
    rewrite lookup_take_lt, lookup_drop by lia. f_equal. lia.
  - destruct (decide (j < i)%nat).
    + rewrite lookup_app_l by (rewrite length_take; lia). by apply lookup_take_lt.
    + rewrite lookup_app_r by (rewrite length_take; lia). rewrite length_take, Nat.min_l by lia.
      rewrite lookup_app_r by (rewrite length_take, length_drop; lia).
      rewrite length_take, length_drop, lookup_drop. f_equal. lia.
Qed.

(** Closing a connection that is not the last one leaves its successor's
    structure twice in the table, and the next connection accepted gets the
    copy: two live connections then share their buffers. *)
Theorem compaction_shares_buffers s w i n y s2 w2 :
  con_count s = n -> (i + 1 < n)%nat -> (n <= length (con s))%nat ->
  wby_on_incoming (set_con_count (n - 1) (set_con (compact i (n - i - 1) (con s)) s), w) = Some (y, (s2, w2)) ->
  y = 0 ->
  exists c d, con_count s2 = n /\ con s2 !! (n - 2)%nat = Some c /\ con s2 !! (n - 1)%nat = Some d /\
    data (header_buf c) = data (header_buf d) /\ data (io_buf c) = data (io_buf d).
Proof.
  intros Hn Hi Hlen H ->. unfold wby_on_incoming in H.
  set (l := compact i (n - i - 1) (con s)) in *.
  apply bind_inv in H as (k & s0 & H0 & H). injection H0 as <- <-.
  apply bind_inv in H as (cfg & s0 & H0 & H). injection H0 as <- <-. cbn [fst con_count set_con_count] in H.
  destruct (_ =? _)%nat; [injection H as H _; discriminate H|].
  apply bind_inv in H as (fd & [s1 w1] & H1 & H). apply accept_inv in H1 as (-> & _ & _).
  destruct (negb _); [injection H as H _; discriminate H|].
  apply bind_inv in H as (u & [s3 w3] & H3 & H). apply on_con_inv in H3 as (c & c' & Hc & Hc' & ->).
  injection Hc' as _ <- <-. cbn [con set_con set_con_count] in *.
  apply bind_inv in H as (u2 & [s4 w4] & H4 & H). injection H4 as <- <- <-.
  apply bind_inv in H as (r & [s5 w5] & H5 & H). apply no_con_inv in H5 as [-> _].
  destruct (negb _).
  { apply bind_inv in H as (u3 & [s6 w6] & H6 & H). injection H as H _. discriminate H. }
  apply bind_inv in H as (u3 & [s6 w6] & H6 & H). apply on_con_inv in H6 as (d & d' & Hd & Hd' & ->).
  injection H as <- <-. injection Hd' as _ <- <-. cbn [con set_con set_con_count con_count fst snd] in *.
  assert (Hlast : con s !! (n - 1)%nat = Some c).
  { rewrite <- Hc. unfold l. rewrite compact_lookup by lia. by rewrite decide_False by lia. }
  assert (Hl : (n - 1 < length l)%nat) by (unfold l; rewrite compact_length by lia; lia).
  rewrite list_lookup_insert_eq in Hd by done. injection Hd as <-.
  eexists c, _. split; [lia|]. split.
  - rewrite !list_lookup_insert_ne by lia. unfold l. rewrite compact_lookup, decide_True by lia.
    rewrite <- Hlast. f_equal. lia.
  - split; [apply list_lookup_insert_eq; by rewrite length_insert|]. done.
Qed.

(** *** A round of the server *)
Definition alive (c : wby_connection) : Prop := has (flags c) WBY_CON_FLAG_ALIVE = true.
Definition alive_below (n : nat) (s : wby_server) : Prop :=
  forall j c, (j < n)%nat -> con s !! j = Some c -> alive c.

Section Rounds.
Context (dispatch : M Z) (ws_connect : option (M Z)) (ws_connected ws_closed : M unit)
        (ws_frame_handler : wby_frame -> M Z) (cfg : wby_config).

Lemma keeps_data_loop fuel rd wr n : forall i,
  keeps (data_loop dispatch ws_connect ws_connected ws_frame_handler cfg fuel rd wr i n).
Proof.
  induction n as [|n IH]; intros i; [apply keeps_ret|].
  apply keeps_bind; [apply keeps_sget|]. intros l. apply keeps_bind; [|intros []; [apply IH|apply keeps_ret]].
  destruct (l !! i); [destruct (_ || _)|]; auto with keeps.
Qed.

(** Freeing slot [i]: the table with one connection less. *)
Lemma free_slot s w i n (u : unit) s1 w1 :
  table_ok s -> con_count s = n -> (i < n)%nat -> alive_below i s ->
  on_con i wby_connection_close (s, w) = Some (u, (s1, w1)) ->
  let s2 := set_con_count (n - 1) (set_con (compact i (n - i - 1) (con s1)) s1) in
  table_ok s2 /\ config s2 = config s /\ alive_below i s2.
Proof.
  intros [Hl Hc] Hn Hi Ha H s2. apply on_con_inv in H as (c & c' & Hci & _ & ->).
  unfold s2. split; [split|split; [done|]]; cbn [con con_count config set_con set_con_count].
  - rewrite compact_length by (rewrite ?length_insert; lia). by rewrite length_insert.
  - lia.
  - intros j d Hj. cbn [con set_con_count set_con].
    rewrite compact_lookup by (rewrite ?length_insert; lia).
    rewrite decide_False by lia. rewrite list_lookup_insert_ne by lia. by apply Ha.
Qed.

Lemma close_loop_spec rounds : forall i s w u s' w',
  close_loop ws_closed rounds i (s, w) = Some (u, (s', w')) ->
  table_ok s -> alive_below i s -> (con_count s - i <= rounds)%nat -> (i <= con_count s)%nat ->
  table_ok s' /\ config s' = config s /\ alive_below (con_count s') s'.
Proof.
  induction rounds as [|k IH]; intros i s w u s' w' H Hok Ha Hr Hic.
  { injection H as <- <- <-. replace i with (con_count s) in Ha by lia. done. }
  cbn [close_loop] in H. apply bind_inv in H as (n & s0 & H0 & H). injection H0 as <- <-. cbn [fst] in H.
  destruct (Nat.ltb_spec i (con_count s)) as [Hi|Hi].
  2:{ injection H as <- <- <-. replace i with (con_count s) in Ha by lia. done. }
  apply bind_inv in H as (l & s0 & H0 & H). injection H0 as <- <-. cbn [fst] in H.
  destruct (con s !! i) as [c|] eqn:Hci; [|done].
  destruct (has (flags c) WBY_CON_FLAG_ALIVE) eqn:Hal; cbn [negb] in H.
  - apply (IH _ _ _ _ _ _ H Hok); [|lia|lia].
    intros j d Hj Hd. destruct (decide (j = i)) as [->|Hne]; [congruence|apply (Ha j d); [lia|done]].
  - apply bind_inv in H as (u1 & [s1 w1] & H1 & H).
    assert (Hs1 : table_ok s1 /\ config s1 = config s /\ con_count s1 = con_count s /\ alive_below i s1).
    { destruct (has (flags c) WBY_CON_FLAG_WEBSOCKET).
      - apply on_con_inv in H1 as (d & d' & _ & _ & ->). split.
        + destruct Hok as [? ?]. split; cbn; [by rewrite length_insert|done].
        + split; [done|]. split; [done|]. intros j x Hj. cbn [con set_con].
          rewrite list_lookup_insert_ne by lia. by apply Ha.
      - injection H1 as <- <- <-. done. }
    destruct Hs1 as (Hok1 & Hcfg1 & Hn1 & Ha1).
    apply bind_inv in H as (u2 & [s2 w2] & H2 & H).
    destruct (free_slot s1 w1 i (con_count s) u2 s2 w2 Hok1 Hn1 Hi Ha1 H2) as (Hok2 & Hcfg2 & Ha2).
    apply bind_inv in H as (u3 & [s3 w3] & H3 & H). injection H3 as <- <- <-.
    apply bind_inv in H as (u4 & [s4 w4] & H4 & H). injection H4 as <- <- <-. cbn [fst] in H.
    destruct (IH _ _ _ _ _ _ H Hok2 Ha2) as (H5 & H6 & H7); [cbn; lia|cbn; lia|].
    split; [done|]. split; [|done]. congruence.
Qed.

(** C31: A round of the server, whatever the kernel and the handlers do, keeps the
    table within its capacity - also while it is still in the loop of one of
    the connections - and when it has returned, and [select] worked, it has
    left only live connections in the table. *)
Theorem wby_update_table fuel sel s w returned s' w' :
  wby_update dispatch ws_connect ws_connected ws_closed ws_frame_handler cfg fuel sel (s, w) =
    Some (returned, (s', w')) ->
  table_ok s ->
  table_ok s' /\ config s' = config s /\
  (returned = true -> 0 <= sel_err sel -> alive_below (con_count s') s').
Proof.
  intros H Hok. unfold wby_update in H.
  apply bind_inv in H as (rs & s0 & H0 & H). injection H0 as <- <-.
  apply bind_inv in H as (ws & s0 & H0 & H). injection H0 as <- <-. cbv zeta in H.
  destruct (Z.ltb_spec (sel_err sel) 0) as [He|He].
  { injection H as <- <- <-. split; [done|]. split; [done|]. lia. }
  apply bind_inv in H as (sock & s0 & H0 & H). injection H0 as <- <-.
  apply bind_inv in H as (cf & s0 & H0 & H). injection H0 as <- <-.
  apply bind_inv in H as (u1 & [s1 w1] & H1 & H).
  assert (Hk1 : table_ok s1 /\ config s1 = config s).
  { destruct (_ && _); [by apply (keeps_incoming_loop _ _ _ _ _ _ H1)|by injection H1 as <- <- <-]. }
  destruct Hk1 as [Hok1 Hc1].
  apply bind_inv in H as (n & s0 & H0 & H). injection H0 as <- <-.
  apply bind_inv in H as (u2 & [s2 w2] & H2 & H).
  destruct (keeps_data_loop _ _ _ _ _ _ _ _ _ _ H2 Hok1) as [Hok2 Hc2].
  destruct u2; cbn [negb] in H; [|injection H as <- <- <-; split; [done|]; split; [congruence|done]].
  apply bind_inv in H as (n2 & s0 & H0 & H). injection H0 as <- <-. cbn [fst] in H.
  apply bind_inv in H as (u3 & [s3 w3] & H3 & H). injection H as <- <- <-.
  destruct (close_loop_spec _ _ _ _ _ _ _ H3 Hok2) as (Hok3 & Hc3 & Ha3); [intros j c Hj; lia|lia|lia|].
  split; [done|]. split; [congruence|]. by intros _ _.
Qed.
End Rounds.

(** *** A connection whose socket cannot be configured *)

(** When the new socket cannot be made non-blocking, it is closed, but the
    slot stays in use, with whatever descriptor it held before. *)
Theorem incoming_failure_keeps_slot s w fd rest e r c :
  (con_count s < connection_max (config s))%nat -> con s !! con_count s = Some c ->
  accepts w = fd :: rest -> 0 < fd -> fcntls w = e :: r -> e < 0 ->
  exists s' w' c', wby_on_incoming (s, w) = Some (1, (s', w')) /\
    con_count s' = (con_count s + 1)%nat /\ con s' !! con_count s = Some c' /\
    socket c' = socket c /\ has (flags c') WBY_CON_FLAG_ALIVE = false /\
    trace w' = trace w ++ [Closed fd].
Proof.
  intros Hn Hc Ha Hfd Hf He. unfold wby_on_incoming.
  set (c' := set_flags WBY_CON_FLAG_FRESH_CONNECTION
    (wby_connection_reset (cf_request_buffer_size (config s)) (cf_io_buffer_size (config s)) c)).
  eexists _, _, c'. split.
  - unfold mbind, SV_bind, sget, supd. cbn [fst snd]. rewrite (proj2 (Nat.eqb_neq _ _)) by lia.
    assert (Eacc : accept (s, w) = Some (fd, (s, set_accepts rest w))).
    { unfold accept, mbind, SV_bind, world_get. cbn [fst snd]. by rewrite Ha. }
    rewrite Eacc. unfold wby_socket_is_valid. rewrite Z.gtb_ltb, (proj2 (Z.ltb_lt _ _)) by lia. cbn [negb].
    unfold on_con. cbn [fst snd]. rewrite Hc. cbn [mbind option_bind upd fst snd].
    unfold no_con at 1. cbn [fst snd].
    assert (Ecfg : wby_socket_config_incoming fd (zero_connection, set_accepts rest w) =
      Some (e, (zero_connection, set_fcntls r (set_accepts rest w)))).
    { unfold wby_socket_config_incoming, wby_socket_set_blocking.
      assert (Efc : fcntl fd (zero_connection, set_accepts rest w) =
        Some (e, (zero_connection, set_fcntls r (set_accepts rest w)))).
      { unfold fcntl. rewrite (proj2 (Z.ltb_ge _ _)) by lia. unfold mbind, M_bind, getw. cbn [snd recvs fcntls set_accepts].
        by rewrite Hf. }
      unfold mbind, M_bind. rewrite Efc. rewrite (proj2 (Z.ltb_lt _ _)) by done. cbn.
      unfold WBY_OK. by rewrite (proj2 (Z.eqb_neq e 0)) by lia. }
    rewrite Ecfg. cbn [mbind option_bind]. unfold WBY_OK. rewrite (proj2 (Z.eqb_neq e 0)) by lia.
    cbn [negb]. reflexivity.
  - cbn [con_count set_con_count set_con con fst snd]. split; [done|].
    split; [apply list_lookup_insert_eq; by eapply lookup_lt_Some|]. done.
Qed.

(** ** Examples *)
Definition two_connections : wby_server :=
  Eval vm_compute in
  mk_server (mk_config 2 64 16) 0 3 2
    (match layout (mk_config 2 64 16) 2 2400 with
     | [c; d] => [set_socket 4 c; set_socket 5 (set_flags WBY_CON_FLAG_ALIVE d)]
     | _ => []
     end).
Definition world_accepting : world := Eval vm_compute in mk_world (replicate 4 0) [] [] [] [7] [].

Lemma compaction_shares_buffers_witness :
  exists s2 w2 c d,
    wby_on_incoming (set_con_count 1 (set_con (compact 0 1 (con two_connections)) two_connections),
      world_accepting) = Some (0, (s2, w2)) /\
    con_count s2 = 2%nat /\ con s2 !! 0%nat = Some c /\ con s2 !! 1%nat = Some d /\
    data (header_buf c) = data (header_buf d) /\ data (io_buf c) = data (io_buf d).
Proof.
  eexists _, _. assert (E : wby_on_incoming (set_con_count 1 (set_con (compact 0 1 (con two_connections)) two_connections),
      world_accepting) = Some (0, _)) by (vm_compute; reflexivity).
  destruct (compaction_shares_buffers two_connections world_accepting 0 2 0 _ _ eq_refl ltac:(lia)
    ltac:(vm_compute; lia) E eq_refl) as (c & d & H).
  exists c, d. split; [exact E|exact H].
Defined.

Lemma wby_update_table_witness :
  exists s' w', wby_update (mret 0) None (mret tt) (mret tt) (fun _ => mret 0) (config two_connections) 3
      (mk_select 0 (fun _ => false) (fun _ => false)) (two_connections, world_accepting) = Some (true, (s', w')) /\
    con_count s' = 1%nat /\ alive_below 1 s'.
Proof.
  eexists _, _. assert (E : wby_update (mret 0) None (mret tt) (mret tt) (fun _ => mret 0) (config two_connections) 3
      (mk_select 0 (fun _ => false) (fun _ => false)) (two_connections, world_accepting) = Some (true, _))
    by (vm_compute; reflexivity).
  split; [exact E|]. split; [reflexivity|].
  destruct (wby_update_table _ _ _ _ _ _ _ _ _ _ _ _ _ E) as (_ & _ & H); [vm_compute; split; lia|].
  apply H; [reflexivity|]. vm_compute. discriminate.
Defined.

Lemma incoming_failure_keeps_slot_witness :
  exists s' w' c', wby_on_incoming (set_con_count 0 two_connections, set_fcntls [-1] world_accepting) =
      Some (1, (s', w')) /\ con_count s' = 1%nat /\ con s' !! 0%nat = Some c' /\ socket c' = 4.
Proof.
  edestruct (incoming_failure_keeps_slot (set_con_count 0 two_connections) (set_fcntls [-1] world_accepting)
    7 [] (-1) []) as (s' & w' & c' & E & H1 & H2 & H3 & _);
    [vm_compute; lia|vm_compute; reflexivity|reflexivity|lia|reflexivity|lia|].
  exists s', w', c'. split; [exact E|]. split; [exact H1|]. split; [exact H2|exact H3].
Defined.

End Server.
