(* ===== verification/Session.v ===== *)
(** * mumux: from the bytes of a request to the bytes of its response

    The state machine of [wby_update_connection] run on a whole request: the
    bytes arrive, are parsed, the handler answers, the connection is closed. *)
From S2P Require Import Prelude CLib HttpUtil Url Conn Request Stream Server.

Module Session.
Import Conn Request Stream Server.

(** ** The request is complete *)
Lemma find_end_step t rest :
  t <> [] -> without CR t -> head rest <> Some CR ->
  find_sub (CRLF ++ CRLF) (t ++ CRLF ++ rest) =
    (fun k => length t + 2 + k)%nat <$> find_sub (CRLF ++ CRLF) rest.
Proof.
  intros _ Ht Hr. induction Ht as [|x t Hx Ht IH].
  - change ([] ++ CRLF ++ rest) with (CR :: LF :: rest). cbn [length Nat.add].
    cbn [find_sub]. rewrite bool_decide_false.
    2:{ cbn. destruct rest as [|c rest]; [done|]. intros [=]. by subst. }
    cbn [find_sub]. rewrite bool_decide_false by (intros [=]).
    destruct (find_sub _ rest); done.
  - cbn [app find_sub]. rewrite bool_decide_false.
    2:{ cbn. intros [= ? _]. by subst. }
    rewrite IH. cbn [length]. by destruct (find_sub _ rest).
Qed.

Lemma find_end_last t : without CR t -> find_sub (CRLF ++ CRLF) (t ++ CRLF ++ CRLF) = Some (length t).
Proof.
  induction 1 as [|x t Hx Ht IH]; [reflexivity|].
  cbn [app find_sub]. rewrite bool_decide_false by (cbn; intros [= ? _]; by subst).
  by rewrite IH.
Qed.

Lemma find_end ts t :
  Forall (fun t => t <> [] /\ without CR t) (ts ++ [t]) ->
  find_sub (CRLF ++ CRLF) (join CRLF (ts ++ [t]) CRLF) = Some (length (join CRLF (ts ++ [t]) CRLF) - 4)%nat.
Proof.
  intros H. induction ts as [|u ts IH].
  - apply Forall_singleton in H as [_ Ht]. unfold join. cbn [app mbind list_bind].
    rewrite app_nil_r, <- app_assoc, find_end_last by done. f_equal.
    rewrite !length_app. change (length CRLF) with 2%nat. lia.
  - cbn [app] in H. apply Forall_cons in H as [[Hu Hc] H]. specialize (IH H).
    assert (E : join CRLF ((u :: ts) ++ [t]) CRLF = u ++ CRLF ++ join CRLF (ts ++ [t]) CRLF).
    { unfold join. cbn [app]. by rewrite bind_cons, <- !app_assoc. }
    rewrite E, find_end_step, IH; [|done..|].
    + cbn [fmap option_fmap option_map]. f_equal. rewrite !length_app. change (length CRLF) with 2%nat.
      apply find_sub_bound in IH. cbn [length app CRLF] in IH. lia.
    + apply Forall_app in H as [Hts Ht]. apply Forall_singleton in Ht as [Ht0 Htc].
      unfold join. rewrite bind_app. destruct ts as [|v ts].
      * cbn. destruct t as [|x t]; [done|]. apply Forall_cons in Htc as [Hx _]. cbn. congruence.
      * apply Forall_cons in Hts as [[Hv Hvc] _]. rewrite bind_cons.
        destruct v as [|x v]; [done|]. apply Forall_cons in Hvc as [Hx _]. cbn. congruence.
Qed.

Lemma render_complete h :
  http_ok h -> find_sub (CRLF ++ CRLF) (render h) = Some (length (render h) - 4)%nat /\ (4 <= length (render h))%nat.
Proof.
  intros Hok. pose proof (render_lines_ok h Hok) as [Hts _].
  assert (Hne : exists ts t, render_lines h = ts ++ [t]).
  { destruct (exists_last (l := render_lines h)) as (ts & t & E); [discriminate|]. eauto. }
  destruct Hne as (ts & t & E).
  assert (H : find_sub (CRLF ++ CRLF) (render h) = Some (length (render h) - 4)%nat).
  { unfold render. rewrite E. apply find_end. rewrite <- E.
    pose proof (render_line_ok h Hok) as (Hl1 & _ & Hl3).
    destruct Hok as (_ & _ & _ & _ & _ & _ & _ & Hh). constructor; [done|].
    apply Forall_fmap. eapply Forall_impl; [exact Hh|].
    intros x (Hn & _ & _ & _ & _ & _ & _ & Hc & _). split; [|exact Hc].
    unfold compose, render_header. by destruct (h_name x). }
  split; [done|]. apply find_sub_bound in H. cbn [length app CRLF] in H. lia.
Qed.

(** ** Receiving it *)
Lemma recv_chunk sock b l c w :
  0 <= sock -> l <> [] -> recvs w = [RData l] -> buffer_ok b (memory w) ->
  used b + Z.of_nat (length l) < bmax b ->
  exists m, mstore (memory w) (data b + Z.to_nat (used b)) l = Some m /\
    wby_socket_recv sock b (c, w) =
      Some ((WBY_FILL_OK, set_used (used b + Z.of_nat (length l)) b), (c, set_memory m (set_recvs [] w))).
Proof.
  intros Hs Hl Hr (Hu & Hmax & Hb) Hfit.
  destruct (mstore_is_Some (memory w) (data b + Z.to_nat (used b)) l) as [m Hm]; [lia|].
  exists m. split; [done|]. unfold wby_socket_recv.
  rewrite !i32_small by lia. set (space := bmax b - used b).
  assert (Hf : exists f, Z.to_nat space = S f) by (exists (Z.to_nat space - 1)%nat; unfold space; lia).
  destruct Hf as [f Hf]. rewrite Hf.
  assert (Hn : (length l <= Z.to_nat space)%nat) by (unfold space; lia).
  pose proof (recv_data sock (Z.to_nat space) l [] c w Hs ltac:(lia) Hl Hr) as E.
  rewrite take_ge, drop_ge in E by lia.
  cbn [recv_loop]. rewrite !i32_small by lia. fold space. cbv zeta.
  rewrite (proj2 (Z.eqb_neq _ _)), (proj2 (Z.ltb_ge _ _)) by (unfold space; lia).
  run E. run (store_run _ _ c (set_recvs [] w) _ Hm).
  cbn [used bmax set_used]. rewrite !i32_small by lia.
  rewrite (proj2 (Z.eqb_neq _ _)), (proj2 (Z.ltb_ge _ _)) by lia.
  etransitivity; [eapply (bind_run _ _ _ (Error EAGAIN))|reflexivity].
  unfold recv. rewrite (proj2 (Z.ltb_ge _ _)) by done. reflexivity.
Qed.

(** ** Looking up headers of a parsed request *)
Lemma find_header_none m offs hs name :
  Forall2 (header_is m) offs hs -> Forall (fun x => nonzero (h_name x) /\ strcasecmp_eq (h_name x) name = false) hs ->
  find_header_loop m offs name = Some None.
Proof.
  induction 1 as [|[a b] x offs hs [Hn Hv] H IH]; intros Hx; [done|].
  apply Forall_cons in Hx as [[Hz Hne] Hx]. cbn [find_header_loop fst snd] in *.
  rewrite (str_at_cstr _ _ _ Hn Hz). cbn [mbind option_bind]. rewrite Hne. by apply IH.
Qed.

Lemma header_is_same m m' lo hi offs hs :
  same_outside lo hi m m' -> Forall2 (header_is m) offs hs ->
  Forall2 (fun p x => (p.1 + length (h_name x) < lo \/ hi <= p.1) /\
                      (p.2 + length (before_colon (h_value x)) < lo \/ hi <= p.2))%nat offs hs ->
  Forall2 (header_is m') offs hs.
Proof.
  intros Hs. induction 1 as [|p x offs hs [Hn Hv] H IH]; intros Hd; [constructor|].
  inversion Hd as [|? ? ? ? [H1 H2] Hd']; subst. constructor; [|auto].
  split; eapply str_at_same; eauto.
Qed.


(** ** A connection about to read a request *)

(** A request without a body, from a client that asks for nothing special. *)
Definition plain_header (x : header) : Prop :=
  strcasecmp_eq (h_name x) (bs "Expect") = false /\
  strcasecmp_eq (h_name x) (bs "Connection") = false /\
  strcasecmp_eq (bs "content-length") (h_name x) = false.

Record ready (c : wby_connection) (w : world) (h : http) : Prop := {
  rd_http : http_ok h;
  rd_plain : Forall plain_header (h_headers h);
  rd_state : state c = REQUEST;
  rd_socket : 0 <= socket c;
  rd_flags : flags c = WBY_CON_FLAG_ALIVE;
  rd_blocking : blocking_count c = 0;
  rd_read : body_bytes_read c = 0;
  rd_headers : length (headers (request c)) = WBY_MAX_HEADERS;
  rd_header_buf : buffer_ok (header_buf c) (memory w);
  rd_empty : used (header_buf c) = 0;
  rd_fits : Z.of_nat (length (render h)) < bmax (header_buf c);
  rd_io_buf : buffer_ok (io_buf c) (memory w);
  rd_disjoint : (data (header_buf c) + Z.to_nat (bmax (header_buf c)) <= data (io_buf c))%nat;
  rd_recvs : recvs w = [RData (render h)];
  rd_sends : sends w = [];
  rd_fcntls : fcntls w = [];
  rd_trace : trace w = [] }.

Lemma clen_plain hs n : Forall plain_header hs -> clen n hs = n.
Proof.
  intros H. revert n. induction H as [|x hs (_ & _ & Hc) Hs IH]; intros n; [done|].
  unfold clen. cbn [foldl]. rewrite Hc. apply IH.
Qed.

Lemma plain_lookup h (name : list Z) m offs :
  http_ok h -> Forall plain_header (h_headers h) -> Forall2 (header_is m) offs (h_headers h) ->
  name = bs "Expect" \/ name = bs "Connection" -> find_header_loop m offs name = Some None.
Proof.
  intros (_ & _ & _ & _ & _ & _ & _ & Hh) Hp Hm Hn. eapply find_header_none; [exact Hm|].
  rewrite Forall_forall in Hh, Hp |- *. intros x Hx.
  destruct (Hh x Hx) as (_ & _ & _ & _ & _ & _ & _ & _ & Hz). split.
  - unfold render_header in Hz. by apply Forall_app in Hz as [Hz _].
  - destruct (Hp x Hx) as (H1 & H2 & _). by destruct Hn as [-> | ->].
Qed.

(** What the request has become in the state that serves it. *)
Record parsed_request (c : wby_connection) (w : world) (h : http) (c1 : wby_connection) (w1 : world) : Prop := {
  pr_con : exists r, request_is (memory w1) r h /\
    Forall2 (header_in (data (header_buf c)) (data (header_buf c) + length (render h)))
      (take (length (h_headers h)) (headers r)) (h_headers h) /\
    c1 = set_state SERVE (set_header_body_left 0 (set_request r
      (set_header_buf (set_used (Z.of_nat (length (render h))) (header_buf c)) c)));
  pr_world : exists m, w1 = set_memory m (set_recvs [] w) /\ length m = length (memory w) }.

Section Serving.
Context (cfg : wby_config).

Lemma state_request_ok c w h :
  ready c w h -> exists c1 w1, state_request (c, w) = Some (true, (c1, w1)) /\ parsed_request c w h c1 w1.
Proof.
  intros R. pose proof (rd_http _ _ _ R) as Hok. destruct (render_complete h Hok) as [Hend Hlen].
  set (b := header_buf c). set (n := length (render h)).
  assert (Hn : Z.of_nat n < 2 ^ 31) by (pose proof (rd_fits _ _ _ R); destruct (rd_header_buf _ _ _ R) as (_ & ? & _); unfold n; lia).
  destruct (recv_chunk (socket c) b (render h) c w) as (m & Em & Er).
  { apply (rd_socket _ _ _ R). } { intros E. rewrite E in Hlen. cbn in Hlen. lia. } { apply (rd_recvs _ _ _ R). }
  { apply (rd_header_buf _ _ _ R). } { unfold b. rewrite (rd_empty _ _ _ R). apply (rd_fits _ _ _ R). }
  unfold b in Em, Er. rewrite (rd_empty _ _ _ R) in Em, Er. fold b in Em, Er. rewrite Z.add_0_l in Er. fold n in Er.
  change (Z.to_nat 0) with 0%nat in Em. rewrite Nat.add_0_r in Em.
  set (b1 := set_used (Z.of_nat n) b) in *. set (c0 := set_header_buf b1 c). set (w0 := set_memory m (set_recvs [] w)) in *.
  assert (Hload : mload m (data b) n = Some (render h)).
  { unfold mstore in Em. case_decide as Hd; [|done]. injection Em as <-. unfold mload.
    rewrite decide_True by (rewrite !length_app, length_take, length_drop; lia).
    rewrite drop_app_length' by (rewrite length_take; lia). by rewrite take_app_length'. }
  assert (Ep : wb_peek_request_size m (data b) (Z.of_nat n) = Some (Z.of_nat n)).
  { unfold n. rewrite (peek_request_size m (data b) (render h) Hload), Hend. f_equal. lia. }
  destruct (setup_request_ok c0 w0 h Hok Hload (rd_headers _ _ _ R)) as (m1 & r & Es & Hs & Hr & Hin).
  exists (set_state SERVE (set_header_body_left 0 (set_request r c0))), (set_memory m1 w0). split.
  - unfold state_request. run (eq_refl (Some (socket c, (c, w)))). run (eq_refl (Some (b, (c, w)))). run Er.
    run (eq_refl (Some (tt, (c0, w0)))). run (eq_refl (Some (m, (c0, w0)))).
    assert (Ei : i32 (used b1) = Z.of_nat n) by (cbn [used b1 set_used]; apply i32_small; lia).
    rewrite Ei. change (data b1) with (data b).
    assert (El : lift (wb_peek_request_size m (data b) (Z.of_nat n)) (c0, w0) = Some (Z.of_nat n, (c0, w0)))
      by (unfold lift; rewrite Ep; done).
    run El. rewrite (proj2 (Z.ltb_ge _ _)) by lia. run Es. cbn [Z.eqb WBY_OK negb].
    rewrite Z.sub_diag. run (eq_refl (Some (tt, (set_header_body_left 0 (set_request r c0), set_memory m1 w0)))).
    assert (Ef : wby_find_header (bs "Expect") (set_header_body_left 0 (set_request r c0), set_memory m1 w0) =
      Some (None, (set_header_body_left 0 (set_request r c0), set_memory m1 w0))).
    { destruct Hr as (_ & _ & _ & _ & _ & Hc & Hh). unfold wby_find_header.
      run (eq_refl (Some (m1, (set_header_body_left 0 (set_request r c0), set_memory m1 w0)))).
      run (eq_refl (Some (r, (set_header_body_left 0 (set_request r c0), set_memory m1 w0)))).
      unfold lift. rewrite Hc, Nat2Z.id.
      rewrite (plain_lookup h _ _ _ Hok (rd_plain _ _ _ R) Hh (or_introl eq_refl)). done. }
    run Ef. done.
  - split; [exists r; split; [exact Hr|split; [exact Hin|done]]|].
    exists m1. split; [done|]. destruct Hs as [-> _]. by eapply mstore_length.
Qed.

(** ** Serving it *)
Context (ws_connect : option (M Z)) (ws_connected : M unit).

(** The handler of a page: a status, headers and a body. *)
Definition answer (st : Z) (hs : list (list Z * list Z)) (body : list Z) : M Z :=
  (wby_response_begin st (Z.of_nat (length body)) hs;; wby_write body;; wby_response_end);; mret 0.

(** The connection in the handler: its I/O buffer emptied, its socket
    blocking. *)
Definition in_handler (c : wby_connection) : wby_connection :=
  set_blocking_count 1 (set_io_buf (set_used 0 (io_buf c)) c).

Lemma handler_ready c w h c1 w1 :
  ready c w h -> parsed_request c w h c1 w1 ->
  let c2 := in_handler c1 in let w2 := log_event (Blocking (socket c) true) w1 in
  serving c2 w2 /\ plain c2 /\ drained c2 /\ no_close_header c2 (memory w2) /\ written c2 w2 = [] /\
  flags c2 = WBY_CON_FLAG_ALIVE /\ socket c2 = socket c /\ content_length (request c2) = 0 /\ fcntls w2 = [] /\
  blocking_count c1 = 0 /\ socket c1 = socket c /\ fcntls w1 = [] /\
  find_header_loop (memory w2) (take (Z.to_nat (header_count (request c2))) (headers (request c2))) (bs "Connection") = Some None.
Proof.
  intros R [(r & Hr & Hin & ->) (m & Ew & Lm)] c2 w2.
  pose proof (rd_http _ _ _ R) as Hok. destruct Hr as (_ & _ & _ & _ & Hcl & Hc & Hh).
  rewrite (clen_plain _ 0 (rd_plain _ _ _ R)) in Hcl.
  assert (Hb : buffer_ok (set_used 0 (io_buf c)) (memory w2)).
  { destruct (rd_io_buf _ _ _ R) as (Hu & Hm & Hf). unfold w2. rewrite Ew. cbn. unfold buffer_ok. cbn. rewrite Lm. lia. }
  assert (Hf : forall m', same_outside (data (io_buf c)) (data (io_buf c) + Z.to_nat (bmax (io_buf c))) (memory w1) m' ->
    find_header_loop m' (take (Z.to_nat (header_count r)) (headers r)) (bs "Connection") = Some None).
  { intros m' Hm'. rewrite Hc, Nat2Z.id. eapply plain_lookup; [exact Hok|apply (rd_plain _ _ _ R)| |by right].
    eapply header_is_same; [exact Hm'|exact Hh|]. eapply Forall2_impl; [exact Hin|].
    intros p x (H1 & H2 & H3 & H4). pose proof (rd_disjoint _ _ _ R). pose proof (rd_fits _ _ _ R). lia. }
  split; [|split; [|split; [|split; [|split]]]].
  - split; [done|exact Hb| |apply (rd_socket _ _ _ R)]. unfold w2. rewrite Ew. apply (rd_sends _ _ _ R).
  - unfold plain, c2. cbn. by rewrite (rd_flags _ _ _ R).
  - unfold drained, c2. cbn. by rewrite Hcl, (rd_read _ _ _ R).
  - intros m' Hm'. exists None. split; [|done]. by apply Hf.
  - unfold written, buffered, c2, w2. rewrite Ew. cbn. rewrite (rd_trace _ _ _ R). done.
  - unfold c2, w2. rewrite Ew. cbn. rewrite (rd_flags _ _ _ R), (rd_blocking _ _ _ R), (rd_fcntls _ _ _ R), Hcl.
    repeat (split; [done|]). apply Hf. rewrite Ew. apply same_outside_refl.
Qed.

Lemma set_blocking_run c w sock : socket c = sock -> 0 <= sock -> fcntls w = [] -> blocking_count c = 0 ->
  wby_connection_set_blocking (c, w) = Some (0, (set_blocking_count 1 c, log_event (Blocking sock true) w)).
Proof.
  intros Hs H0 Hf Hb. assert (Ef : fcntl sock (c, w) = Some (0, (c, w))).
  { unfold fcntl. rewrite (proj2 (Z.ltb_ge _ _)) by done. run (eq_refl (Some (fcntls w, (c, w)))). by rewrite Hf. }
  assert (Eb : wby_socket_set_blocking sock true (c, w) = Some (0, (c, log_event (Blocking sock true) w))).
  { unfold wby_socket_set_blocking. run Ef. run Ef. done. }
  unfold wby_connection_set_blocking. run (eq_refl (Some (blocking_count c, (c, w)))). rewrite Hb. cbn [Z.eqb].
  etransitivity; [eapply (bind_run _ _ _ 0)|].
  { run (eq_refl (Some (socket c, (c, w)))). rewrite Hs. exact Eb. }
  reflexivity.
Qed.

(** The socket of a closed connection is refused. *)
Lemma set_blocking_closed c w : socket c = WBY_INVALID_SOCKET -> blocking_count c = 0 ->
  wby_connection_set_blocking (c, w) = Some (-1, (set_flags (clear (flags c) WBY_CON_FLAG_ALIVE) c, w)).
Proof.
  intros Hs Hb. unfold wby_connection_set_blocking. run (eq_refl (Some (blocking_count c, (c, w)))). rewrite Hb.
  cbn [Z.eqb]. etransitivity; [eapply (bind_run _ _ _ (-1))|].
  { run (eq_refl (Some (socket c, (c, w)))). rewrite Hs. reflexivity. }
  reflexivity.
Qed.

(** The round that serves the request leaves a closed connection. *)
Lemma state_serve_ok c w h c1 w1 st hs body :
  ready c w h -> parsed_request c w h c1 w1 -> state c1 = SERVE -> headers_ok hs ->
  exists c' w', state_serve (answer st hs body) ws_connect ws_connected cfg (c1, w1) = Some (true, (c', w')) /\
    sent_on (socket c) (trace w') = head_text st (Z.of_nat (length body)) hs ++ body /\
    state c' = SERVE /\ socket c' = WBY_INVALID_SOCKET /\ flags c' = 0 /\ blocking_count c' = 0 /\
    last (trace w') = Some (Closed (socket c)).
Proof.
  intros R Hp Hst Hhs. destruct (handler_ready c w h c1 w1 R Hp) as
    (Hs & Hpl & Hd & Hn & Hw & Hfl & Hsk & Hcl & _ & Hb1 & Hs1 & Hf1 & Hcon).
  set (c2 := in_handler c1) in *. set (w2 := log_event (Blocking (socket c) true) w1) in *.
  destruct (response_ok st body hs c2 w2 Hs Hpl) as (c3 & w3 & Er & Hsent & Hend & Hrest);
    [by rewrite Hfl|done..|].
  unfold ended in Hend. rewrite Hcl in Hend. destruct Hend as (Hsk3 & Hfl3 & Hlast).
  destruct Hrest as (Hst3 & Hb3 & _ & _).
  exists (set_blocking_count 0 c3), w3. split.
  - unfold state_serve. run (eq_refl (Some (io_buf c1, (c1, w1)))).
    run (eq_refl (Some (tt, (set_io_buf (set_used 0 (io_buf c1)) c1, w1)))).
    run (set_blocking_run (set_io_buf (set_used 0 (io_buf c1)) c1) w1 (socket c) Hs1 (rd_socket _ _ _ R) Hf1 Hb1).
    cbn [Z.eqb WBY_OK negb]. fold w2. change (set_blocking_count 1 (set_io_buf (set_used 0 (io_buf c1)) c1)) with c2.
    assert (Ew : wby_con_is_websocket_request (c2, w2) = Some (0, (c2, w2))).
    { unfold wby_con_is_websocket_request. etransitivity; [eapply (bind_run _ _ _ None)|reflexivity].
      unfold wby_find_header. run (eq_refl (Some (memory w2, (c2, w2)))). run (eq_refl (Some (request c2, (c2, w2)))).
      unfold lift. by rewrite Hcon. }
    run Ew. cbn [Z.eqb negb]. etransitivity; [eapply (bind_run _ _ _ tt)|].
    { etransitivity; [eapply (bind_run _ _ _ 0)|reflexivity]. unfold answer. run Er. reflexivity. }
    etransitivity; [eapply (bind_run _ _ _ 0 (set_blocking_count 0 c3, w3))|].
    { unfold wby_connection_set_nonblocking. run (eq_refl (Some (blocking_count c3, (c3, w3)))).
      run (eq_refl (Some (flags c3, (c3, w3)))). rewrite Hb3, Hfl3.
      change (blocking_count c2) with 1. run (eq_refl (Some (0, (c3, w3)))). reflexivity. }
    run (eq_refl (Some (flags c3, (set_blocking_count 0 c3, w3)))). rewrite Hfl3. reflexivity.
  - rewrite Hsk in *. rewrite Hw in Hsent. split; [exact Hsent|]. cbn. rewrite Hst3. cbn.
    rewrite Hst. repeat (split; [done|]). exact Hlast.
Qed.

(** C1: From the bytes of a request to the bytes of its response: the client
    receives exactly the page's head and body, and the connection is closed. *)
Theorem get_request_served frame_handler fuel c w h st hs body :
  clear (flags c) WBY_CON_FLAG_FRESH_CONNECTION = WBY_CON_FLAG_ALIVE ->
  ready (set_flags WBY_CON_FLAG_ALIVE c) w h -> headers_ok hs ->
  exists c' w', wby_update_connection (answer st hs body) ws_connect ws_connected frame_handler cfg (S (S (S fuel))) (c, w) =
      Some (true, (c', w')) /\
    sent_on (socket c) (trace w') = head_text st (Z.of_nat (length body)) hs ++ body /\
    socket c' = WBY_INVALID_SOCKET /\ flags c' = 0 /\ last (trace w') = Some (Closed (socket c)).
Proof.
  intros Hfl R Hhs. set (c0 := set_flags WBY_CON_FLAG_ALIVE c) in *.
  destruct (state_request_ok c0 w h R) as (c1 & w1 & E1 & Hp).
  assert (Hst1 : state c1 = SERVE) by (destruct Hp as [(r & _ & _ & ->) _]; done).
  destruct (state_serve_ok c0 w h c1 w1 st hs body R Hp Hst1 Hhs) as
    (c2 & w2 & E2 & Hsent & Hst2 & Hsk & Hf2 & Hb2 & Hlast).
  exists (set_flags 0 (set_io_buf (set_used 0 (io_buf c2)) c2)), w2.
  split; [|split; [exact Hsent|split; [exact Hsk|split; [done|exact Hlast]]]].
  assert (Ec : clear_flag WBY_CON_FLAG_FRESH_CONNECTION (c, w) = Some (tt, (c0, w)))
    by (unfold clear_flag, upd; cbn [fst snd]; by rewrite Hfl).
  unfold wby_update_connection. run Ec.
  assert (Hstep : forall n c w b c' w', state_step (answer st hs body) ws_connect ws_connected frame_handler cfg (c, w) =
      Some (b, (c', w')) ->
    update_loop (answer st hs body) ws_connect ws_connected frame_handler cfg (S n) (c, w) =
      (if b then update_loop (answer st hs body) ws_connect ws_connected frame_handler cfg n else mret true) (c', w')).
  { intros n cc ww b c' w' E. cbn [update_loop]. run E. done. }
  rewrite (Hstep _ _ _ true c1 w1).
  2:{ unfold state_step. run (eq_refl (Some (state c0, (c0, w)))). by rewrite (rd_state _ _ _ R). }
  rewrite (Hstep _ _ _ true c2 w2).
  2:{ unfold state_step. run (eq_refl (Some (state c1, (c1, w1)))). by rewrite Hst1. }
  rewrite (Hstep _ _ _ false (set_flags 0 (set_io_buf (set_used 0 (io_buf c2)) c2)) w2).
  - reflexivity.
  - unfold state_step. run (eq_refl (Some (state c2, (c2, w2)))). rewrite Hst2.
    unfold state_serve. run (eq_refl (Some (io_buf c2, (c2, w2)))).
    run (eq_refl (Some (tt, (set_io_buf (set_used 0 (io_buf c2)) c2, w2)))).
    run (set_blocking_closed (set_io_buf (set_used 0 (io_buf c2)) c2) w2 Hsk Hb2).
    change (flags (set_io_buf (set_used 0 (io_buf c2)) c2)) with (flags c2). rewrite Hf2. reflexivity.
Qed.
End Serving.

(** ** A page *)
Definition demo_request : http :=
  mk_http (bs "GET") (bs "/index.html") None (bs "HTTP/1.1") [mk_header (bs "Host") (bs " ") (bs "example.org")].
Definition demo_con : wby_connection :=
  Eval vm_compute in set_flags (Z.lor WBY_CON_FLAG_ALIVE WBY_CON_FLAG_FRESH_CONNECTION)
    (set_state REQUEST (set_header_buf (mk_buffer 0 128 0) (set_io_buf (mk_buffer 0 16 130) example_con))).
Definition demo_world : world :=
  Eval vm_compute in mk_world (replicate 160 0) [RData (render demo_request)] [] [] [] [].

Lemma demo_ready : ready (set_flags WBY_CON_FLAG_ALIVE demo_con) demo_world demo_request.
Proof.
  constructor; try reflexivity.
  - apply (bool_decide_unpack _). vm_compute. exact I.
  - apply (bool_decide_unpack _). vm_compute. exact I.
  - vm_compute. discriminate.
  - vm_compute. repeat split; discriminate.
  - vm_compute. repeat split; discriminate.
  - vm_compute. lia.
Qed.

Lemma get_request_served_witness :
  exists c' w', wby_update_connection (answer 200 [] (bs "hello")) None (mret tt) (fun _ => mret 0)
      (mk_config 4 128 16) 3 (demo_con, demo_world) = Some (true, (c', w')) /\
    sent_on 4 (trace w') = bs "HTTP/1.1 200 OK" ++ CRLF ++ bs "Content-Length: 5" ++ CRLF ++
      bs "Server: wby" ++ CRLF ++ CRLF ++ bs "hello" /\ flags c' = 0.
Proof.
  destruct (get_request_served (mk_config 4 128 16) None (mret tt) (fun _ => mret 0) 0 demo_con demo_world
    demo_request 200 [] (bs "hello")) as (c' & w' & E & H & _ & Hf & _); [reflexivity|exact demo_ready|constructor|].
  exists c', w'. split; [exact E|]. split; [exact H|exact Hf].
Defined.
End Session.
