(* ===== verification/Rounds.v ===== *)
(** * mumux/server.c: the loop of a connection returns

    [wby_update_connection] goes round in its states until it has nothing more
    to read.  Every round uses up input the kernel had, or comes closer to a
    state that does - but for one: a connection that is found dead behind its
    handler is served again, and again. *)
From S2P Require Import Prelude CLib HttpUtil Conn Server.

Module Rounds.
Import Conn Server.

(** ** What is left of the kernel's answers *)
Definition answer_size (a : recv_answer) : nat := match a with RData l => S (length l) | _ => 1%nat end.
Definition weight (w : world) : nat := (sum_list_with answer_size (recvs w) + length (sends w))%nat.

(** Code that leaves the state of the connection's loop alone and brings no
    new answers: all of connection.c, request.c and response.c, and what a
    handler can do with them. *)
Definition tame {A} (m : M A) : Prop :=
  forall c w x c' w', m (c, w) = Some (x, (c', w')) -> state c' = state c /\ (weight w' <= weight w)%nat.

Lemma m_bind_inv {A B} (m : M A) (f : A -> M B) s y s' :
  (m ≫= f) s = Some (y, s') -> exists x s1, m s = Some (x, s1) /\ f x s1 = Some (y, s').
Proof. unfold mbind, M_bind. destruct (m s) as [[x s1]|]; [eauto|done]. Qed.

Lemma tame_bind {A B} (m : M A) (f : A -> M B) : tame m -> (forall x, tame (f x)) -> tame (m ≫= f).
Proof.
  intros Hm Hf c w y c' w' H. apply m_bind_inv in H as (x & [c1 w1] & H1 & H2).
  apply Hm in H1 as [E1 L1]. apply Hf in H2 as [E2 L2]. split; [congruence|lia].
Qed.
Lemma tame_ret {A} (x : A) : tame (mret x).
Proof. by intros c w y c' w' [= <- <- <-]. Qed.
Lemma tame_ub {A} : tame (@ub A).
Proof. by intros c w y c' w' H. Qed.
Lemma tame_get {A} (f : wby_connection -> A) : tame (get f).
Proof. by intros c w y c' w' [= <- <- <-]. Qed.
Lemma tame_getw {A} (f : world -> A) : tame (getw f).
Proof. by intros c w y c' w' [= <- <- <-]. Qed.
Lemma tame_upd f : (forall c, state (f c) = state c) -> tame (upd f).
Proof. intros Hf c w y c' w' [= <- <- <-]. by rewrite Hf. Qed.
Lemma tame_updw f : (forall w, (weight (f w) <= weight w)%nat) -> tame (updw f).
Proof. intros Hf c w y c' w' [= <- <- <-]. by split. Qed.
Lemma tame_lift {A} (o : option A) : tame (lift o).
Proof. intros c w y c' w' H. unfold lift in H. destruct o; [|done]. by injection H as <- <- <-. Qed.
Lemma tame_on_mem {A} (f : mem -> option (mem * A)) : tame (on_mem f).
Proof.
  intros c w y c' w' H. unfold on_mem in H. cbn [fst snd] in H. destruct (f (memory w)) as [[m x]|]; [|done].
  by injection H as <- <- <-.
Qed.
Lemma tame_str p : tame (str p).
Proof. intros c w y c' w' H. unfold str in H. cbn [snd] in H. destruct (cstr _); [|done]. by injection H as <- <- <-. Qed.

Create HintDb tame.
#[local] Hint Resolve tame_ret tame_ub tame_get tame_getw tame_lift tame_on_mem tame_str : tame.
#[local] Hint Extern 1 (tame (upd _)) => (apply tame_upd; done) : tame.
#[local] Hint Extern 1 (tame (updw _)) => (apply tame_updw; done) : tame.

(** One step into a program. *)
Ltac tame_step :=
  cbv beta zeta;
  lazymatch goal with
  | |- tame (mbind _ _) => apply tame_bind; [|intros ?]
  | |- tame (match ?x with _ => _ end) => destruct x
  | |- tame _ => solve [auto with tame]
  | |- forall _, _ => intros ?
  end.
Ltac tame := repeat tame_step.

Lemma weight_recvs w a r l : recvs w = a :: r -> (sum_list_with answer_size l <= sum_list_with answer_size r)%nat -> (weight (set_recvs l w) < weight w)%nat.
Proof. intros E H. unfold weight. cbn [recvs sends set_recvs]. rewrite E. cbn [sum_list_with]. destruct a; cbn [answer_size]; lia. Qed.

(** A byte that is got is not left. *)
Lemma recv_run sock n c w r c' w' :
  recv sock n (c, w) = Some (r, (c', w')) ->
  c' = c /\ (weight w' <= weight w)%nat /\ (forall l, r = Got l -> (weight w' < weight w)%nat).
Proof.
  unfold recv. destruct (sock <? 0); [by intros [= <- <- <-]|]. intros H. apply m_bind_inv in H as (script & s1 & H1 & H).
  injection H1 as <- <-. cbn [snd] in H. destruct (recvs w) as [|a script] eqn:Er; [by injection H as <- <- <-|].
  pose proof (weight_recvs w a script script Er (le_n _)) as Hlt.
  destruct a as [l| |e]; [|by injection H as <- <- <-; split_and!; [done|lia|done]..].
  destruct (take n l) as [|x got] eqn:Et; [by injection H as <- <- <-; split_and!; [done|lia|done]|].
  injection H as <- <- <-. split; [done|]. assert (Hw : (weight (set_recvs (match drop n l with [] => script | more => RData more :: script end) w) < weight w)%nat).
  { destruct (drop n l) as [|y d] eqn:Ed; [exact Hlt|]. unfold weight. cbn [recvs sends set_recvs]. rewrite Er. cbn [sum_list_with answer_size].
    pose proof (length_take l n) as H1. pose proof (length_drop l n) as H2. rewrite Et in H1. rewrite Ed in H2. cbn [length] in *. lia. }
  split; [by apply Nat.lt_le_incl|]. intros _ _. exact Hw.
Qed.

Lemma tame_recv sock n : tame (recv sock n).
Proof. intros c w x c' w' H. apply recv_run in H as (-> & H & _). by split. Qed.

Lemma tame_send sock l : tame (send sock l).
Proof.
  intros c w x c' w' H. unfold send in H. destruct (sock <? 0); [by injection H as <- <- <-|].
  apply m_bind_inv in H as (script & s1 & H1 & H). injection H1 as <- <-. cbn [snd] in H.
  destruct (sends w) as [|a r] eqn:Es; [by injection H as <- <- <-|]. apply m_bind_inv in H as (u & s1 & H1 & H). injection H1 as <- <-.
  cbn [fst snd] in H. destruct (a <? 0); injection H as <- <- <-; (split; [done|]); unfold weight; cbn [recvs sends set_sends log_event]; rewrite Es; cbn [length]; lia.
Qed.

Lemma tame_fcntl sock : tame (fcntl sock).
Proof.
  intros c w x c' w' H. unfold fcntl in H. destruct (sock <? 0); [by injection H as <- <- <-|].
  apply m_bind_inv in H as (script & s1 & H1 & H). injection H1 as <- <-. cbn [snd] in H.
  destruct (fcntls w); by injection H as <- <- <-.
Qed.
#[local] Hint Resolve tame_recv tame_send tame_fcntl : tame.

(** ** The code of a connection *)
Lemma tame_set_flag x : tame (set_flag x).
Proof. unfold set_flag. tame. Qed.
Lemma tame_clear_flag x : tame (clear_flag x).
Proof. unfold clear_flag. tame. Qed.
#[local] Hint Resolve tame_set_flag tame_clear_flag : tame.

Lemma tame_send_loop fuel sock l : tame (send_loop fuel sock l).
Proof. revert l. induction fuel as [|f IH]; intros [|x l]; cbn [send_loop]; tame. Qed.
Lemma tame_wby_socket_send sock l : tame (wby_socket_send sock l).
Proof. apply tame_send_loop. Qed.
Lemma tame_set_blocking sock b : tame (wby_socket_set_blocking sock b).
Proof. unfold wby_socket_set_blocking. tame. Qed.
#[local] Hint Resolve tame_wby_socket_send tame_set_blocking : tame.
Lemma tame_flush sock b : tame (wby_socket_flush sock b).
Proof. unfold wby_socket_flush. tame. Qed.
Lemma tame_con_blocking : tame wby_connection_set_blocking.
Proof. unfold wby_connection_set_blocking. tame. Qed.
Lemma tame_con_nonblocking : tame wby_connection_set_nonblocking.
Proof. unfold wby_connection_set_nonblocking. tame. Qed.
Lemma tame_close : tame wby_connection_close.
Proof. unfold wby_connection_close, wby_socket_close. tame. Qed.
Lemma tame_store i l : tame (store i l).
Proof. unfold store. tame. Qed.
#[local] Hint Resolve tame_flush tame_con_blocking tame_con_nonblocking tame_close tame_store : tame.
Lemma tame_push_loop fuel l : tame (push_loop fuel l).
Proof. revert l. induction fuel as [|f IH]; intros [|x l]; cbn [push_loop]; tame. Qed.
#[local] Hint Resolve tame_push_loop : tame.
Lemma tame_push l : tame (wby_connection_push l).
Proof. unfold wby_connection_push. tame. Qed.
Lemma tame_find_header name : tame (wby_find_header name).
Proof. unfold wby_find_header. tame. Qed.
#[local] Hint Resolve tame_push tame_find_header : tame.
Lemma tame_read_loop fuel len got : tame (read_loop fuel len got).
Proof. revert len got. induction fuel as [|f IH]; intros len got; cbn [read_loop]; tame. Qed.
#[local] Hint Resolve tame_read_loop : tame.
Lemma tame_read len : tame (wby_read len).
Proof. unfold wby_read, read_header_body, read_io_data. tame. Qed.
#[local] Hint Resolve tame_read : tame.
Lemma tame_discard_loop fuel n : tame (discard_loop fuel n).
Proof. revert n. induction fuel as [|f IH]; intros n; cbn [discard_loop]; tame. Qed.
Lemma tame_discard n : tame (wby_con_discard_incoming_data n).
Proof. apply tame_discard_loop. Qed.
Lemma tame_send_or_die l : tame (send_or_die l).
Proof. unfold send_or_die. tame. Qed.
#[local] Hint Resolve tame_discard tame_send_or_die : tame.
Lemma tame_write l : tame (wby_write l).
Proof. unfold wby_write. tame. Qed.
#[local] Hint Resolve tame_write : tame.
Lemma tame_printf l : tame (wby_printf l).
Proof. unfold wby_printf. tame. Qed.
#[local] Hint Resolve tame_printf : tame.
Lemma tame_print_headers hs : tame (print_headers hs).
Proof. induction hs as [|h hs IH]; cbn [print_headers]; unfold print_header; tame. Qed.
#[local] Hint Resolve tame_print_headers : tame.
Lemma tame_response_begin st n hs : tame (wby_response_begin st n hs).
Proof. unfold wby_response_begin, drain_body. tame. Qed.
Lemma tame_response_end : tame wby_response_end.
Proof. unfold wby_response_end. tame. Qed.
#[local] Hint Resolve tame_response_begin tame_response_end : tame.
Lemma tame_upgrade : tame wby_connection_send_websocket_upgrade.
Proof. unfold wby_connection_send_websocket_upgrade. tame. Qed.
Lemma tame_is_websocket : tame wby_con_is_websocket_request.
Proof. unfold wby_con_is_websocket_request. tame. Qed.
Lemma tame_parse_headers lines i : tame (parse_headers lines i).
Proof. revert i. induction lines as [|l lines IH]; intros i; cbn [parse_headers]; unfold upd_req; tame. Qed.
Lemma tame_request_line line : tame (parse_request_line line).
Proof. unfold parse_request_line, upd_req. tame. Qed.
#[local] Hint Resolve tame_upgrade tame_is_websocket tame_parse_headers tame_request_line : tame.
Lemma tame_setup_request n : tame (wby_connection_setup_request n).
Proof. unfold wby_connection_setup_request, upd_req. tame. Qed.
#[local] Hint Resolve tame_setup_request : tame.

(** [wby_socket_recv] fills the buffer or leaves it. *)
Lemma recv_loop_run fuel sock b c w r b' c' w' :
  recv_loop fuel sock b (c, w) = Some ((r, b'), (c', w')) ->
  c' = c /\ (weight w' <= weight w)%nat /\ (used b' = used b \/ (weight w' < weight w)%nat).
Proof.
  revert b c w. induction fuel as [|f IH]; intros b c w H; [done|]. cbn [recv_loop] in H.
  destruct (_ =? 0); [injection H as _ <- <- <-; split_and!; [done|done|by left]|]. destruct (_ <? 0); [done|].
  apply m_bind_inv in H as (a & [c1 w1] & H1 & H). apply recv_run in H1 as (-> & Hle & Hgot).
  destruct a as [l| |e].
  - apply m_bind_inv in H as (u & [c2 w2] & H2 & H). specialize (Hgot l eq_refl).
    assert (E2 : c2 = c /\ weight w2 = weight w1).
    { unfold store, on_mem in H2. cbn [fst snd] in H2. destruct (mstore _ _ _); [|done]. by injection H2 as _ <- <-. }
    destruct E2 as [-> E2]. apply IH in H as (-> & H3 & _). split_and!; [done|lia|right; lia].
  - injection H as _ <- <- <-. split_and!; [done|done|by left].
  - destruct (wby_socket_is_blocking_error e); injection H as _ <- <- <-; (split_and!; [done|done|by left]).
Qed.

Section Loop.
Context (dispatch : M Z) (ws_connect : option (M Z)) (ws_connected : M unit) (ws_frame_handler : wby_frame -> M Z).
Context (cfg : wby_config).
Context (Hdispatch : tame dispatch) (Hconnect : forall m, ws_connect = Some m -> tame m) (Hconnected : tame ws_connected).
Context (Hframe : forall fr, tame (ws_frame_handler fr)).
Notation state_serve := (state_serve dispatch ws_connect ws_connected cfg).
Notation state_websocket := (state_websocket ws_frame_handler cfg).
Notation state_step := (state_step dispatch ws_connect ws_connected ws_frame_handler cfg).
Notation update_loop := (update_loop dispatch ws_connect ws_connected ws_frame_handler cfg).

Definition continue_length : Z := Z.of_nat (length wby_continue_header).

(** What is left to send of the 100 Continue. *)
Definition loop_ok (c : wby_connection) : Prop := state c = SEND_CONTINUE -> 0 <= continue_data_left c <= continue_length.

(** How far the loop is from a state that reads. *)
Definition rank (c : wby_connection) : nat :=
  match state c with
  | REQUEST => if used (header_buf c) =? 0 then 0 else 3
  | SEND_CONTINUE => 2
  | SERVE => 1
  | WEBSOCKET => if used (io_buf c) =? 0 then 0 else 3
  end.
Definition measure (c : wby_connection) (w : world) : nat := (4 * weight w + rank c)%nat.

Definition dead_serving (c : wby_connection) : Prop := state c = SERVE /\ has (flags c) WBY_CON_FLAG_ALIVE = false.

(** Into the next binding of a computation that returned. *)
Ltac enter H x c w H1 := apply m_bind_inv in H as (x & [c w] & H1 & H).
Ltac run0 H := let s := fresh "s" in let H1 := fresh "H" in apply m_bind_inv in H as (? & s & H1 & H); injection H1 as <- <-; cbn [fst snd] in H.

Lemma die_false c w c' w' : die (c, w) <> Some (true, (c', w')).
Proof. done. Qed.

Lemma request_step c w c' w' :
  state_request (c, w) = Some (true, (c', w')) ->
  loop_ok c' /\ (rank c' = 1%nat \/ rank c' = 2%nat) /\ (weight w' <= weight w)%nat /\ (used (header_buf c) <> 0 \/ (weight w' < weight w)%nat).
Proof.
  unfold state_request. intros H. run0 H. run0 H. enter H rb c1 w1 H1. destruct rb as [r b].
  apply recv_loop_run in H1 as (-> & Hw & Hu). run0 H. set (c1 := set_header_buf b c) in *.
  destruct r; [|by apply die_false in H|]; run0 H; enter H sz c2 w2 H2; unfold lift in H2.
  all: destruct (wb_peek_request_size (memory w1) (data b) (i32 (used b))) as [n|] eqn:Ep; [|done]; injection H2 as <- <- <-.
  all: destruct (Z.ltb_spec n 0); [destruct (_ =? _); by injection H|].
  all: assert (Hb : used b <> 0) by (intros E; rewrite E in Ep; injection Ep as <-; lia).
  all: enter H r c3 w3 H3; apply tame_setup_request in H3 as [Es3 Hw3].
  all: destruct (negb _); [by apply die_false in H|]; run0 H.
  all: enter H e c4 w4 H4; apply tame_find_header in H4 as [Es4 Hw4].
  all: assert (Hres : loop_ok c' /\ (rank c' = 1%nat \/ rank c' = 2%nat) /\ (weight w' <= weight w4)%nat);
    [|destruct Hres as (G1 & G2 & G3); split_and!; [done|done|lia|destruct Hu as [Hu|Hu]; [left; congruence|right; lia]]].
  all: destruct e as [p|]; [enter H t c5 w5 H5; apply tame_str in H5 as [_ Hw5]; destruct (strcasecmp_eq _ _)|].
  all: repeat run0 H; injection H as <- <-.
  all: split_and!; [|by (left + right)|done || lia].
  all: intros E; try done; cbn; unfold continue_length; vm_compute; split; discriminate.
Qed.

Lemma tame_error_page st hs text : tame text -> tame (error_page st hs text).
Proof. intros H. unfold error_page. tame. Qed.
Lemma tame_uri_text a b : tame (uri_text a b).
Proof. unfold uri_text. tame. Qed.
#[local] Hint Resolve tame_error_page tame_uri_text : tame.
Lemma tame_serve_websocket : tame (serve_websocket_request ws_connect ws_connected).
Proof.
  unfold serve_websocket_request. apply tame_bind; [|tame].
  destruct ws_connect as [m|]; [by apply Hconnect|apply tame_ret].
Qed.
#[local] Hint Resolve tame_serve_websocket : tame.

Lemma serve_step c w c' w' :
  state c = SERVE -> state_serve (c, w) = Some (true, (c', w')) ->
  (weight w' <= weight w)%nat /\ (loop_ok c' /\ rank c' = 0%nat \/ dead_serving c').
Proof.
  unfold Server.state_serve. intros Es H. run0 H. run0 H. set (c0 := set_io_buf _ c) in *.
  enter H r c1 w1 H1. apply tame_con_blocking in H1 as [E1 L1]. destruct (negb (r =? WBY_OK)); [done|].
  enter H ws c2 w2 H2. apply tame_is_websocket in H2 as [E2 L2].
  enter H u c3 w3 H3. assert (H3' : state c3 = state c2 /\ (weight w3 <= weight w2)%nat).
  { revert H3. destruct (negb (ws =? 0)); [apply tame_serve_websocket|]. match goal with |- ?m _ = _ -> _ => assert (Ht : tame m) by tame end. apply Ht. }
  clear H3. destruct H3' as [E3 L3]. enter H n c4 w4 H4. apply tame_con_nonblocking in H4 as [E4 L4]. run0 H.
  destruct (has (flags c4) WBY_CON_FLAG_ALIVE) eqn:Ea.
  - destruct (has (flags c4) WBY_CON_FLAG_CLOSE_AFTER_RESPONSE); [by apply die_false in H|]. unfold reset in H. run0 H.
    set (c5 := wby_connection_reset _ _ c4) in *. enter H v c6 w6 H6. injection H as <- <-.
    assert (G : c6 = set_state REQUEST c5 \/ c6 = set_state WEBSOCKET (set_io_buf (set_used 0 (io_buf c5)) c5)).
    { destruct (negb _); [injection H6 as _ <- _; by left|]. run0 H6. run0 H6. injection H6 as _ <- _. by right. }
    assert (Hw6 : w6 = w4) by (destruct (negb _); [by injection H6|run0 H6; run0 H6; by injection H6]). subst w6.
    split; [lia|left]. by destruct G as [->| ->].
  - injection H as <- <-. split; [lia|right]. split; [|done]. rewrite E4, E3, E2, E1. exact Es.
Qed.

Lemma continue_step c w c' w' :
  state c = SEND_CONTINUE -> loop_ok c -> state_send_continue (c, w) = Some (true, (c', w')) ->
  loop_ok c' /\ (measure c' w' < measure c w)%nat.
Proof.
  unfold state_send_continue. intros Es Hok H. specialize (Hok Es). run0 H. run0 H. set (left := continue_data_left c) in *.
  set (l := drop _ wby_continue_header) in *.
  assert (Hl : Z.of_nat (length l) = left) by (subst l; rewrite length_drop; fold continue_length; unfold continue_length in *; lia).
  enter H n c1 w1 H1.
  assert (G : c1 = c /\ (n < 0 \/ n = left /\ weight w1 = weight w \/ 0 <= n <= left /\ (weight w1 < weight w)%nat)).
  { unfold send in H1. destruct (socket c <? 0); [injection H1 as <- <- _; split; [done|left; lia]|]. run0 H1.
    destruct (sends w) as [|a r] eqn:Esn; [run0 H1; injection H1 as <- <- <-; split; [done|right; left; by rewrite Hl]|].
    assert (Hlt : (weight (set_sends r w) < weight w)%nat) by (unfold weight; cbn [recvs sends set_sends]; rewrite Esn; cbn [length]; lia).
    run0 H1. destruct (Z.ltb_spec a 0); [injection H1 as <- <- _; split; [done|left; lia]|]. cbv zeta in H1. run0 H1. injection H1 as <- <- <-.
    split; [done|right; right]. split; [lia|exact Hlt]. }
  destruct G as [-> G]. destruct (Z.ltb_spec n 0); [by apply die_false in H|]. run0 H. set (c1 := set_continue_data_left (left - n) c) in *.
  enter H u c2 w2 H2. injection H as <- <-. assert (E2 : c2 = (if left - n =? 0 then set_state SERVE c1 else c1) /\ w2 = w1).
  { destruct (left - n =? 0); by injection H2 as _ <- <-. }
  destruct E2 as [-> ->]. unfold measure. assert (Er : rank c = 2%nat) by (unfold rank; by rewrite Es). rewrite Er.
  destruct (Z.eqb_spec (left - n) 0) as [E0|E0].
  - split; [done|]. change (rank (set_state SERVE c1)) with 1%nat. lia.
  - assert (Er1 : rank c1 = 2%nat) by exact Er. rewrite Er1. split; [|lia]. intros _. cbn [c1 set_continue_data_left continue_data_left]. lia.
Qed.

Lemma websocket_step c w c' w' :
  state_websocket (c, w) = Some (true, (c', w')) ->
  loop_ok c' /\ rank c' = 0%nat /\ (weight w' <= weight w)%nat /\ (used (io_buf c) <> 0 \/ (weight w' < weight w)%nat).
Proof.
  unfold Server.state_websocket. intros H. run0 H. run0 H. enter H rb c1 w1 H1. destruct rb as [r b].
  apply recv_loop_run in H1 as (-> & Hw & Hu). run0 H. set (c1 := set_io_buf b c) in *.
  destruct r; [|by apply die_false in H|]; run0 H; enter H bytes c2 w2 H2; unfold lift in H2.
  all: destruct (mload (memory w1) (data b) (Z.to_nat (used b))) as [l|] eqn:El; [|done]; injection H2 as <- <- <-.
  all: run0 H; destruct (wby_scan_websocket_frame _ l) as [n fr] eqn:Ef; run0 H.
  all: destruct (Z.eqb_spec n WBY_OK) as [En|]; [|done]; cbn [negb] in H.
  all: assert (Hb : used b <> 0)
    by (intros E; rewrite E in El; unfold mload in El; destruct (decide _) in El; [|done]; injection El as <-; injection Ef as <- _; done).
  all: run0 H; run0 H; enter H q c3 w3 H3; apply tame_con_blocking in H3 as [_ L3]; destruct (negb (q =? WBY_OK)); [done|].
  all: destruct (fr_opcode fr =? 8); [by apply die_false in H|].
  all: enter H ok c4 w4 H4; assert (L4 : (weight w4 <= weight w3)%nat)
    by (destruct (fr_opcode fr =? 9); [by apply tame_wby_socket_send in H4 as [_ ?]|by apply Hframe in H4 as [_ ?]]).
  all: destruct (negb (ok =? WBY_OK)); [by apply die_false in H|].
  all: enter H d c5 w5 H5; assert (L5 : (weight w5 <= weight w4)%nat)
    by (assert (Ht : tame (discard_rest fr)) by (unfold discard_rest; tame); by apply Ht in H5 as [_ ?]).
  all: destruct (negb (d =? WBY_OK)); [by apply die_false in H|].
  all: enter H nb c6 w6 H6; apply tame_con_nonblocking in H6 as [_ L6]; destruct (negb (nb =? WBY_OK)); [done|].
  all: unfold reset in H; run0 H; run0 H; injection H as <- <-.
  all: assert (weight w1 = weight w1) by done.
  all: split_and!; [done|done|cbn in *; lia|destruct Hu as [Hu|Hu]; [left; congruence|right; cbn in *; lia]].
Qed.

(** A round that goes on has come nearer to the end, or serves a connection
    that is dead. *)
Lemma state_step_measure c w c' w' :
  loop_ok c -> state_step (c, w) = Some (true, (c', w')) ->
  loop_ok c' /\ (measure c' w' < measure c w)%nat \/ dead_serving c'.
Proof.
  intros Hok H. unfold Server.state_step in H. run0 H. unfold measure. destruct (state c) eqn:Es.
  - left. apply request_step in H as (H1 & H2 & H3 & H4). split; [done|].
    unfold rank at 2. rewrite Es. destruct (Z.eqb_spec (used (header_buf c)) 0); destruct H4; lia.
  - left. destruct (continue_step c w c' w' Es Hok H) as [H1 H2]. by split.
  - destruct (serve_step c w c' w' Es H) as [H1 [[H2 H3]|H2]]; [left|by right]. split; [done|].
    unfold rank at 2. rewrite Es. lia.
  - left. apply websocket_step in H as (H1 & H2 & H3 & H4). split; [done|].
    unfold rank at 2. rewrite Es. destruct (Z.eqb_spec (used (io_buf c)) 0); destruct H4; lia.
Qed.

(** More rounds change nothing once it has returned. *)
Lemma update_loop_more n k s s' : update_loop n s = Some (true, s') -> update_loop (n + k) s = Some (true, s').
Proof.
  revert s. induction n as [|n IH]; intros s; [done|]. cbn [Nat.add Server.update_loop]. unfold mbind, M_bind.
  destruct (state_step s) as [[[|] s1]|]; [apply IH|done|done].
Qed.
End Loop.

(** ** A connection that is served again and again *)

(** A handler that has found its peer gone. *)
Definition losing : M Z := clear_flag WBY_CON_FLAG_ALIVE;; mret 0.
Definition lost_connection : wby_connection :=
  Eval vm_compute in set_state SERVE (set_socket 4 (hd zero_connection (layout (mk_config 1 64 16) 1 1200))).
Notation lost_loop := (update_loop losing None (mret tt) (fun _ => mret 0) (mk_config 1 64 16)).

Lemma losing_step w :
  fcntls w = [] -> exists w', fcntls w' = [] /\
    Server.state_step losing None (mret tt) (fun _ => mret 0) (mk_config 1 64 16) (lost_connection, w) = Some (true, (lost_connection, w')).
Proof.
  destruct w as [m r sd f ac tr]. cbn [fcntls]. intros ->. eexists. split; [|reflexivity]. reflexivity.
Qed.

(** The loop looks at the flag only where it would read the next request: with
    the socket still open it never returns. *)
Theorem lost_connection_spins n w :
  fcntls w = [] -> exists w', lost_loop n (lost_connection, w) = Some (false, (lost_connection, w')).
Proof.
  revert w. induction n as [|n IH]; intros w Hf; [by exists w|]. destruct (losing_step w Hf) as (w1 & Hf1 & E).
  cbn [Server.update_loop]. unfold mbind, M_bind. rewrite E. by apply IH.
Qed.

(** ** Two connections *)
Definition demo_connection : wby_connection := Eval vm_compute in hd zero_connection (con two_connections).


Lemma lost_connection_spins_witness : exists w', lost_loop 1000 (lost_connection, world_accepting) = Some (false, (lost_connection, w')).
Proof. apply (lost_connection_spins 1000 world_accepting). reflexivity. Defined.
End Rounds.
