(* ===== verification/Compat.v ===== *)
(** * compat: string and path functions (strlcpy.c, strlcat.c, strsep.c,
    strrstr.c, basename.c, cdirname.c, mkdirhier.c, strmode.c)

    Pointers are offsets into one memory of bytes; an access outside it is
    [None].  Functions with a static result buffer return its contents. *)
From S2P Require Import Prelude CLib.

Module Compat.

Definition MAXPATHLEN : nat := 4096.

(** ** strlcpy *)

(** The copying loop, for [n] > 0;
    the new [d], [s] and [n]. *)
Fixpoint strlcpy_loop (n : nat) (m : mem) (d s : nat) : option (mem * nat * nat * nat) :=
  match n with
  | O => Some (m, d, s, O)
  | S n' =>
      c ← m !! s;
      m ← mstore m d [c];
      if c =? 0 then Some (m, S d, S s, n) else strlcpy_loop n' m (S d) (S s)
  end.

(** To the offset behind the NUL. *)
Fixpoint behind_nul (l : list Z) (s : nat) : option nat :=
  match l with
  | [] => None
  | c :: l' => if c =? 0 then Some (S s) else behind_nul l' (S s)
  end.

Definition strlcpy (m : mem) (dst src siz : nat) : option (mem * nat) :=
  '(m, d, s, n) ←
    (match siz with
     | O => Some (m, dst, src, O)
     | S n => strlcpy_loop n m dst src
     end);
  if (n =? 0)%nat then
    m ← (if (siz =? 0)%nat then Some m else mstore m d [0]);
    s ← behind_nul (drop s m) s;
    Some (m, (s - src - 1)%nat)
  else Some (m, (s - src - 1)%nat).

(** ** strlcat *)

(** [while (n-- != 0 && *d != '\0') d++;] *)
Fixpoint find_end (n : nat) (m : mem) (d : nat) : option nat :=
  match n with
  | O => Some d
  | S n' => c ← m !! d; if c =? 0 then Some d else find_end n' m (S d)
  end.

Fixpoint strlcat_loop (fuel : nat) (m : mem) (d s n : nat) : option (mem * nat * nat) :=
  match fuel with
  | O => None
  | S f =>
      c ← m !! s;
      if c =? 0 then Some (m, d, s)
      else if (n =? 1)%nat then strlcat_loop f m d (S s) n
      else m ← mstore m d [c]; strlcat_loop f m (S d) (S s) (n - 1)
  end.

Definition strlcat (m : mem) (dst src siz : nat) : option (mem * nat) :=
  d ← find_end siz m dst;
  let dlen := (d - dst)%nat in
  let n := (siz - dlen)%nat in
  if (n =? 0)%nat then t ← cstr (drop src m); Some (m, (dlen + length t)%nat)
  else
    '(m, d, s) ← strlcat_loop (length m) m d src n;
    m ← mstore m d [0];
    Some (m, (dlen + (s - src))%nat).

(** ** strsep *)

(** The inner loop over the
    delimiters and their NUL. *)
Fixpoint is_delim (delim : list Z) (c : Z) : bool :=
  match delim with [] => c =? 0 | sc :: r => (sc =? c) || is_delim r c end.

Fixpoint strsep_loop (fuel : nat) (m : mem) (s : nat) (delim : list Z) : option (mem * option nat) :=
  match fuel with
  | O => None
  | S f =>
      c ← m !! s;
      if is_delim delim c then
        if c =? 0 then Some (m, None) else m ← mstore m s [0]; Some (m, Some (S s))
      else strsep_loop f m (S s) delim
  end.

(** The token, and the new value of [*stringp]. *)
Definition compat_strsep (m : mem) (stringp : option nat) (delim : list Z) :
    option (mem * option nat * option nat) :=
  match stringp with
  | None => Some (m, None, None)
  | Some tok => '(m, s) ← strsep_loop (length m) m tok delim; Some (m, Some tok, s)
  end.

(** ** strrstr *)

(** [strncmp(cp, find, n) == 0] for [n = strlen(find)] *)
Definition starts_with (find s : list Z) : bool := bool_decide (take (length find) s = find).

(** [for (cp = string + k; cp >= string; cp--)] *)
Fixpoint strrstr_loop (k : nat) (string find : list Z) : option nat :=
  if starts_with find (drop k string) then Some k
  else match k with O => None | S k' => strrstr_loop k' string find end.

Definition strrstr (string find : list Z) : option nat :=
  if (length string <? length find)%nat then None
  else strrstr_loop (length string - length find) string find.

(** ** basename, dirname *)
Definition slash : Z := 47.
Definition dot : Z := 46.
Definition at_ (path : list Z) (i : nat) : Z := path !!! i.

(** [while (endp > path && *endp == '/') endp--;] *)
Fixpoint strip_slashes (path : list Z) (endp : nat) : nat :=
  match endp with
  | O => O
  | S e => if at_ path endp =? slash then strip_slashes path e else endp
  end.

(** [while (startp > path && *(startp - 1) != '/') startp--;] *)
Fixpoint find_start (path : list Z) (startp : nat) : nat :=
  match startp with
  | O => O
  | S s => if at_ path s =? slash then startp else find_start path s
  end.

(** [while (endp > path && *endp != '/') endp--;] *)
Fixpoint find_slash (path : list Z) (endp : nat) : nat :=
  match endp with
  | O => O
  | S e => if at_ path endp =? slash then endp else find_slash path e
  end.

(** What a function returns that copies [l] into its static buffer of
    [MAXPATHLEN] bytes: NULL when it is found too long, and undefined when
    the NUL goes behind the buffer. *)
Inductive path_result := Path (l : list Z) | TooLong | Overflow.

Definition into_bname (l : list Z) : path_result :=
  if (MAXPATHLEN <? length l)%nat then TooLong
  else if (length l =? MAXPATHLEN)%nat then Overflow else Path l.

Definition compat_basename (path : option (list Z)) : path_result :=
  match path with
  | None | Some [] => Path [dot]
  | Some p =>
      let endp := strip_slashes p (length p - 1) in
      if (endp =? 0)%nat && (at_ p endp =? slash) then Path [slash]
      else
        let startp := find_start p endp in
        into_bname (take (endp - startp + 1) (drop startp p))
  end.

Definition compat_cdirname (path : option (list Z)) : path_result :=
  match path with
  | None | Some [] => Path [dot]
  | Some p =>
      let endp := strip_slashes p (length p - 1) in
      let endp := find_slash p endp in
      if (endp =? 0)%nat then Path [if at_ p endp =? slash then slash else dot]
      else
        (* do endp--; while (endp > path && *endp == '/'); *)
        let endp := strip_slashes p (endp - 1) in
        into_bname (take (endp + 1) p)
  end.

(** ** mkdirhier *)
Definition EEXIST : Z := 17.

(** What [mkdir] answers to the directories it is asked for: 0, or the error
    number. *)
Definition mkdir_answers := list Z -> Z.

(** [strcat] into the buffer [dst[MAXPATHLEN]]. *)
Definition strcat_path (dst l : list Z) : option (list Z) :=
  if (length dst + length l <? MAXPATHLEN)%nat then Some (dst ++ l) else None.

(** The loop over the components: the directories asked for so far, and the
    result. *)
Fixpoint mkdirhier_loop (fuel : nat) (mkdir : mkdir_answers) (m : mem) (nextp : option nat)
    (dst : list Z) (retval : Z) (asked : list (list Z)) : option (Z * list (list Z)) :=
  '(m, dirp, nextp) ← compat_strsep m nextp [slash];
  match dirp, fuel with
  | None, _ => Some (retval, asked)
  | Some _, O => None
  | Some p, S f =>
      d ← cstr (drop p m);
      match d with
      | [] => mkdirhier_loop f mkdir m nextp dst retval asked
      | _ =>
          dst ← (match dst with [] => Some [] | _ => strcat_path dst [slash] end);
          dst ← strcat_path dst d;
          let e := mkdir dst in
          if e =? 0 then mkdirhier_loop f mkdir m nextp dst 0 (asked ++ [dst])
          else if e =? EEXIST then mkdirhier_loop f mkdir m nextp dst retval (asked ++ [dst])
          else Some (-1, asked ++ [dst])
      end
  end.

(** The path is a string in memory, behind which [src] lies. *)
Definition mkdirhier (mkdir : mkdir_answers) (path : list Z) : option (Z * list (list Z)) :=
  let src := (length path + 1)%nat in
  '(m, n) ← strlcpy (path ++ 0 :: replicate MAXPATHLEN 0) src 0 MAXPATHLEN;
  if (MAXPATHLEN <? n)%nat then Some (-1, [])
  else
    let dst := if at_ (path ++ [0]) 0 =? slash then [slash] else [] in
    mkdirhier_loop (S MAXPATHLEN) mkdir m (Some src) dst 1 [].

(** ** strmode *)
Definition S_IFMT : Z := 0xf000.
Definition S_IFDIR : Z := 0x4000.
Definition S_IFCHR : Z := 0x2000.
Definition S_IFBLK : Z := 0x6000.
Definition S_IFREG : Z := 0x8000.
Definition S_IFLNK : Z := 0xa000.
Definition S_IFSOCK : Z := 0xc000.
Definition S_IFIFO : Z := 0x1000.
Definition S_ISUID : Z := 0x800.
Definition S_ISGID : Z := 0x400.
Definition S_ISVTX : Z := 0x200.

Definition type_char (mode : Z) : Z :=
  let t := Z.land mode S_IFMT in
  if t =? S_IFDIR then ch "d" else if t =? S_IFCHR then ch "c" else if t =? S_IFBLK then ch "b"
  else if t =? S_IFREG then ch "-" else if t =? S_IFLNK then ch "l"
  else if t =? S_IFSOCK then ch "s" else if t =? S_IFIFO then ch "p" else ch "?".

Definition bit_char (mode bit c : Z) : Z := if negb (Z.land mode bit =? 0) then c else ch "-".

(** The execute position: its bit [x] and the special bit [sp] that shares it. *)
Definition exec_char (mode x sp up low : Z) : Z :=
  let b := Z.land mode (Z.lor x sp) in
  if b =? 0 then ch "-" else if b =? x then ch "x" else if b =? sp then up else low.

Definition strmode (mode : Z) : list Z :=
  [type_char mode;
   bit_char mode 0x100 (ch "r"); bit_char mode 0x80 (ch "w"); exec_char mode 0x40 S_ISUID (ch "S") (ch "s");
   bit_char mode 0x20 (ch "r"); bit_char mode 0x10 (ch "w"); exec_char mode 0x8 S_ISGID (ch "S") (ch "s");
   bit_char mode 0x4 (ch "r"); bit_char mode 0x2 (ch "w"); exec_char mode 0x1 S_ISVTX (ch "T") (ch "t");
   ch " "; 0].


(** ** Bounded copies *)
Lemma str_at_cons m p c s : str_at m p (c :: s) -> m !! p = Some c /\ str_at m (S p) s.
Proof.
  intros H. split; [by rewrite <- (Nat.add_0_r p); apply H|].
  intros i x Hi. rewrite Nat.add_succ_comm. by apply H.
Qed.

Lemma str_at_nil m p : str_at m p [] -> m !! p = Some 0.
Proof. intros H. rewrite <- (Nat.add_0_r p). by apply H. Qed.

Lemma str_at_store m m' d l p s :
  str_at m p s -> mstore m d l = Some m' -> (p + length s < d \/ d + length l <= p)%nat ->
  str_at m' p s.
Proof. intros Hs Hm Hd. eapply str_at_same; [by eapply mstore_same_outside|done|lia]. Qed.

Lemma behind_nul_spec m p s :
  str_at m p s -> Forall (fun c => c <> 0) s -> behind_nul (drop p m) p = Some (p + length s + 1)%nat.
Proof.
  intros Hs Hz. rewrite (str_at_drop _ _ _ Hs). generalize (drop (p + length s + 1) m). intros r.
  clear Hs. revert p. induction Hz as [|c s Hc Hz IH]; intros p; cbn [app behind_nul].
  - rewrite Z.eqb_refl. f_equal. cbn. lia.
  - rewrite (proj2 (Z.eqb_neq _ _) Hc), IH. f_equal. cbn. lia.
Qed.

(** What the copying loop leaves: the characters that fit, or the whole string
    with its NUL. *)
Lemma strlcpy_loop_spec n m d s src :
  str_at m src s -> Forall (fun c => c <> 0) s -> (d + n <= length m)%nat ->
  (d + n <= src \/ src + length s < d)%nat ->
  strlcpy_loop n m d src =
    if (n <=? length s)%nat
    then m' ← mstore m d (take n s); Some (m', d + n, src + n, 0)%nat
    else m' ← mstore m d (s ++ [0]); Some (m', d + length s + 1, src + length s + 1, n - length s)%nat.
Proof.
  revert m d s src. induction n as [|n IH]; intros m d s src Hs Hz Hl Hd; cbn [strlcpy_loop].
  - change (take 0 s) with (@nil Z). rewrite mstore_Some by (cbn; lia). cbn [app length mbind option_bind Nat.leb].
    rewrite !Nat.add_0_r, take_drop. done.
  - destruct Hz as [|c s Hc Hz].
    + rewrite (str_at_nil _ _ Hs). cbn [mbind option_bind length Nat.leb app].
      destruct (mstore m d [0]) as [m'|]; cbn [mbind option_bind]; [|done].
      do 3 f_equal; [f_equal|]; lia.
    + apply str_at_cons in Hs as [Hp Hs]. rewrite Hp. cbn [mbind option_bind length Nat.leb] in *.
      destruct (mstore m d [c]) as [m1|] eqn:E1; cbn [mbind option_bind].
      2:{ rewrite mstore_Some in E1 by (cbn; lia). done. }
      rewrite (proj2 (Z.eqb_neq _ _) Hc). pose proof (mstore_length _ _ _ _ E1) as Hl1.
      rewrite (IH m1 (S d) s (S src)); [|by eapply str_at_store; [|exact E1|cbn; lia]|done|lia|lia].
      change (take (S n) (c :: s)) with ([c] ++ take n s). change ((c :: s) ++ [0]) with ([c] ++ (s ++ [0])).
      rewrite !(mstore_app m d [c]), E1. cbn [mbind option_bind length].
      replace (d + 1)%nat with (S d) by lia. replace (d + S n)%nat with (S d + n)%nat by lia.
      case_match; destruct (mstore m1 (S d) _); cbn [mbind option_bind]; try done;
        apply f_equal; repeat first [reflexivity | lia | apply f_equal2].
Qed.

(** [strlcpy] stores as much of the string as fits in [siz] bytes and a NUL,
    and returns the length of the string: a result of at least [siz] tells
    that it was cut. *)
Lemma strlcpy_spec m dst src siz s :
  str_at m src s -> Forall (fun c => c <> 0) s -> (0 < siz)%nat -> (dst + siz <= length m)%nat ->
  (dst + siz <= src \/ src + length s < dst)%nat ->
  strlcpy m dst src siz =
    (m' ← mstore m dst (take (siz - 1) s ++ [0]); Some (m', length s)).
Proof.
  intros Hs Hz Hsiz Hl Hd. destruct siz as [|n]; [lia|]. unfold strlcpy. cbn [Nat.eqb].
  rewrite (strlcpy_loop_spec n m dst s src) by (done || lia).
  replace (S n - 1)%nat with n by lia. destruct (Nat.leb_spec n (length s)) as [Hn|Hn].
  - assert (Hlt : length (take n s) = n) by (len).
    rewrite mstore_app, Hlt. destruct (mstore m dst (take n s)) as [m1|] eqn:E1; cbn [mbind option_bind]; [|done].
    rewrite Nat.eqb_refl. destruct (mstore m1 (dst + n) [0]) as [m2|] eqn:E2; cbn [mbind option_bind]; [|done].
    assert (Hs2 : str_at m2 src s).
    { eapply str_at_store; [eapply str_at_store; [done|exact E1|lia]|exact E2|cbn; lia]. }
    assert (Hr : str_at m2 (src + n) (drop n s)).
    { intros i c Hi. rewrite <- Nat.add_assoc. apply Hs2. rewrite <- Hi.
      rewrite <- (take_drop n s) at 1. rewrite <- app_assoc, lookup_app_r; [f_equal; lia|lia]. }
    rewrite (behind_nul_spec _ _ _ Hr) by (by apply Forall_drop). cbn [mbind option_bind].
    do 2 f_equal. len.
  - rewrite take_ge by lia. destruct (mstore m dst (s ++ [0])) as [m1|]; cbn [mbind option_bind]; [|done].
    rewrite (proj2 (Nat.eqb_neq _ _)) by lia. do 2 f_equal. lia.
Qed.

Lemma find_end_spec n m d t :
  str_at m d t -> Forall (fun c => c <> 0) t -> (length t < n)%nat ->
  find_end n m d = Some (d + length t)%nat.
Proof.
  revert m d t. induction n as [|n IH]; intros m d t Ht Hz Hl; [lia|]. cbn [find_end].
  destruct Hz as [|c t Hc Hz].
  - rewrite (str_at_nil _ _ Ht). cbn [mbind option_bind length]. rewrite Z.eqb_refl. f_equal. lia.
  - apply str_at_cons in Ht as [Hp Ht]. rewrite Hp. cbn [mbind option_bind length] in *.
    rewrite (proj2 (Z.eqb_neq _ _) Hc), (IH _ _ _ Ht Hz) by lia. f_equal. lia.
Qed.

Lemma strlcat_loop_spec fuel m d src n s :
  str_at m src s -> Forall (fun c => c <> 0) s -> (length s < fuel)%nat -> (0 < n)%nat ->
  (d + n <= length m)%nat -> (d + n <= src \/ src + length s < d)%nat ->
  strlcat_loop fuel m d src n =
    (m' ← mstore m d (take (n - 1) s); Some (m', d + length (take (n - 1) s), src + length s)%nat).
Proof.
  revert m d src n s. induction fuel as [|fuel IH]; intros m d src n s Hs Hz Hf Hn Hl Hd; [lia|].
  cbn [strlcat_loop]. destruct Hz as [|c s Hc Hz].
  - rewrite (str_at_nil _ _ Hs). cbn [mbind option_bind]. rewrite Z.eqb_refl, take_nil.
    rewrite mstore_Some by (cbn; lia). cbn [app length mbind option_bind].
    rewrite !Nat.add_0_r, take_drop. done.
  - apply str_at_cons in Hs as [Hp Hs]. rewrite Hp. cbn [mbind option_bind length] in *.
    rewrite (proj2 (Z.eqb_neq _ _) Hc). destruct (Nat.eqb_spec n 1) as [->|Hn1].
    + rewrite (IH m d (S src) 1%nat s) by (done || lia). change (1 - 1)%nat with 0%nat.
      change (take 0 s) with (@nil Z). change (take 0 (c :: s)) with (@nil Z).
      destruct (mstore m d []); cbn [mbind option_bind]; [|done].
      apply f_equal; repeat first [reflexivity | lia | apply f_equal2].
    + destruct (mstore m d [c]) as [m1|] eqn:E1; cbn [mbind option_bind].
      2:{ rewrite mstore_Some in E1 by (cbn; lia). done. }
      pose proof (mstore_length _ _ _ _ E1) as Hl1.
      rewrite (IH m1 (S d) (S src) (n - 1)%nat s); [|by eapply str_at_store; [|exact E1|cbn; lia]|done|lia..].
      destruct n as [|[|n]]; [lia|lia|]. replace (S (S n) - 1 - 1)%nat with n by lia.
      replace (S (S n) - 1)%nat with (S n) by lia. change (take (S n) (c :: s)) with ([c] ++ take n s).
      rewrite (mstore_app m d [c]), E1. cbn [mbind option_bind length app].
      replace (d + 1)%nat with (S d) by lia.
      destruct (mstore m1 (S d) (take n s)); cbn [mbind option_bind]; [|done].
      apply f_equal; repeat first [reflexivity | lia | apply f_equal2].
Qed.

(** [strlcat] appends as much of the string as fits in [siz] bytes and a NUL,
    and returns the length the whole would have had. *)
Theorem strlcat_correct m dst src siz t s :
  str_at m dst t -> Forall (fun c => c <> 0) t -> (length t < siz)%nat ->
  str_at m src s -> Forall (fun c => c <> 0) s -> (dst + siz <= length m)%nat ->
  (dst + siz <= src \/ src + length s < dst)%nat ->
  strlcat m dst src siz =
    (m' ← mstore m (dst + length t) (take (siz - 1 - length t) s ++ [0]);
     Some (m', length t + length s)%nat).
Proof.
  intros Ht Hzt Hsiz Hs Hz Hl Hd. unfold strlcat.
  rewrite (find_end_spec siz m dst t) by done. cbn [mbind option_bind].
  replace (dst + length t - dst)%nat with (length t) by lia.
  rewrite (proj2 (Nat.eqb_neq _ _)) by lia. pose proof (str_at_bound _ _ _ Hs).
  rewrite (strlcat_loop_spec (length m) m (dst + length t) src (siz - length t) s) by (done || lia).
  replace (siz - length t - 1)%nat with (siz - 1 - length t)%nat by lia.
  rewrite mstore_app. destruct (mstore m _ (take _ s)) as [m1|]; cbn [mbind option_bind]; [|done].
  destruct (mstore m1 _ [0]); cbn [mbind option_bind]; [|done].
  apply f_equal; repeat first [reflexivity | lia | apply f_equal2].
Qed.

Lemma strlcat_correct_witness :
  let m := bs "/tmp" ++ replicate 4 0 ++ bs "/a.txt" ++ [0] in
  strlcat m 0 8 8 = Some (bs "/tmp/a." ++ [0] ++ bs "/a.txt" ++ [0], 10%nat).
Proof.
  intros m. etransitivity; [apply (strlcat_correct m 0 8 8 (bs "/tmp") (bs "/a.txt"))|reflexivity];
    first [by apply (drop_str_at _ _ _ (replicate 3 0 ++ bs "/a.txt" ++ [0]))
          | by apply (drop_str_at _ _ _ [])
          | apply (bool_decide_unpack _); reflexivity | cbn; lia].
Defined.

(** Without room for the NUL of [dst] nothing is stored. *)
Lemma strlcat_full m dst src siz t s :
  mload m dst siz = Some t -> Forall (fun c => c <> 0) t ->
  str_at m src s -> Forall (fun c => c <> 0) s ->
  strlcat m dst src siz = Some (m, siz + length s)%nat.
Proof.
  intros Ht Hz Hs Hzs. unfold strlcat.
  assert (E : find_end siz m dst = Some (dst + siz)%nat).
  { assert (Hlt : length t = siz).
    { unfold mload in Ht. case_decide; [|done]. injection Ht as <-. len. }
    assert (Hm : forall i c, t !! i = Some c -> m !! (dst + i)%nat = Some c).
    { intros i c. apply mload_lookup. by rewrite Hlt. }
    clear Ht. revert dst siz Hm Hlt. induction Hz as [|c t Hc Hz IH]; intros dst [|n] Hm Hlt;
      cbn [length find_end] in *; try lia; [f_equal; lia|].
    pose proof (Hm 0%nat c eq_refl) as H0. rewrite Nat.add_0_r in H0. rewrite H0. cbn [mbind option_bind].
    rewrite (proj2 (Z.eqb_neq _ _) Hc), (IH (S dst) n); [f_equal; lia| |lia].
    intros i x Hi. rewrite Nat.add_succ_comm. by apply Hm. }
  rewrite E. cbn [mbind option_bind]. replace (dst + siz - dst)%nat with siz by lia.
  rewrite Nat.sub_diag, Nat.eqb_refl, (str_at_cstr _ _ _ Hs Hzs). done.
Qed.

(** ** Tokens *)

(** The fields of a string between delimiters, empty ones included. *)
Fixpoint fields (delim : list Z) (s : list Z) : list (list Z) :=
  match s with
  | [] => [[]]
  | c :: r =>
      if is_delim delim c then [] :: fields delim r
      else match fields delim r with f :: fs => (c :: f) :: fs | [] => [[c]] end
  end.

Lemma is_delim_nul delim : is_delim delim 0 = true.
Proof. induction delim as [|d delim IH]; cbn; [done|]. by rewrite IH, orb_true_r. Qed.

Lemma fields_cons delim s : exists f fs, fields delim s = f :: fs.
Proof.
  induction s as [|c s (f & fs & E)]; cbn [fields]; [eauto|].
  destruct (is_delim delim c); [eauto|]. rewrite E. eauto.
Qed.

(** One call cuts the first field off in place: the token is that field, and
    what is left to do is the string behind the delimiter, if there was one. *)
Lemma strsep_loop_spec delim fuel m p s f fs :
  str_at m p s -> Forall (fun c => c <> 0) s -> (length s < fuel)%nat -> fields delim s = f :: fs ->
  exists m' next, strsep_loop fuel m p delim = Some (m', next) /\
    same_outside p (p + length f + 1) m m' /\ str_at m' p f /\ Forall (fun c => c <> 0) f /\
    match fs with
    | [] => next = None /\ s = f
    | _ :: _ => exists r, next = Some (p + length f + 1)%nat /\ str_at m' (p + length f + 1) r /\
        Forall (fun c => c <> 0) r /\ (length f + length r < length s)%nat /\ fields delim r = fs
    end.
Proof.
  revert m p s f fs. induction fuel as [|fuel IH]; intros m p s f fs Hs Hz Hf E; [lia|].
  cbn [strsep_loop]. destruct Hz as [|c s Hc Hz]; cbn [fields] in E.
  - rewrite (str_at_nil _ _ Hs). cbn [mbind option_bind]. rewrite is_delim_nul, Z.eqb_refl.
    injection E as <- <-. exists m, None. split; [done|]. split; [apply same_outside_refl|]. by split.
  - pose proof Hs as Hs0. apply str_at_cons in Hs as [Hp Hs]. rewrite Hp. cbn [mbind option_bind length] in *.
    destruct (is_delim delim c).
    + rewrite (proj2 (Z.eqb_neq _ _) Hc). injection E as <- <-.
      destruct (mstore m p [0]) as [m1|] eqn:E1; cbn [mbind option_bind].
      2:{ pose proof (str_at_bound _ _ _ Hs0). cbn [length] in *. rewrite mstore_Some in E1 by (cbn; lia). done. }
      exists m1, (Some (S p)). split; [done|]. pose proof (mstore_same_outside _ _ _ _ E1) as Ho.
      split; [eapply same_outside_weaken; [exact Ho|lia|cbn; lia]|]. split; [|split; [constructor|]].
      * intros i x Hi. rewrite (mstore_lookup _ _ _ _ _ E1). pose proof (lookup_lt_Some _ _ _ Hi).
        cbn [app length] in *. rewrite decide_True by (cbn; lia). rewrite <- Hi. f_equal. lia.
      * destruct (fields_cons delim s) as (g & gs & Eg). rewrite Eg. exists s.
        cbn [length]. rewrite Nat.add_0_r, Nat.add_1_r. split; [done|].
        split; [eapply str_at_store; [exact Hs|exact E1|cbn; lia]|]. split; [done|]. split; [lia|done].
    + destruct (fields_cons delim s) as (g & gs & Eg). rewrite Eg in E. injection E as <- <-.
      destruct (IH m (S p) s g gs Hs Hz ltac:(lia) Eg) as (m' & next & E1 & Ho & Hg & Hzg & Hn).
      exists m', next. split; [exact E1|]. split; [eapply same_outside_weaken; [exact Ho|lia|cbn; lia]|].
      split; [|split; [by constructor|]].
      * intros i x Hi. destruct i as [|i]; cbn [app lookup list_lookup] in Hi.
        -- injection Hi as <-. destruct Ho as [_ Ho]. rewrite Ho by lia. by rewrite Nat.add_0_r.
        -- rewrite <- Nat.add_succ_comm. by apply Hg.
      * destruct gs as [|]; [destruct Hn as [-> ->]; done|]. destruct Hn as (r & -> & Hr & Hzr & Hlr & Er).
        exists r. cbn [length]. replace (p + S (length g) + 1)%nat with (S p + length g + 1)%nat by lia.
        repeat split; done || lia.
Qed.

(** ** The last occurrence *)
Definition occurs_at (find string : list Z) (k : nat) : Prop :=
  exists a b, string = a ++ find ++ b /\ length a = k.

Lemma starts_with_occurs find string k :
  (k + length find <= length string)%nat ->
  starts_with find (drop k string) = true <-> occurs_at find string k.
Proof.
  intros Hk. unfold starts_with. rewrite bool_decide_eq_true. split.
  - intros E. exists (take k string), (drop (length find) (drop k string)).
    rewrite length_take. split; [|lia]. rewrite <- E at 1. by rewrite take_drop, take_drop.
  - intros (a & b & -> & <-). by rewrite drop_app_length, take_app_length.
Qed.

(** [strrstr] finds the last occurrence, and NULL only when there is none. *)
Theorem strrstr_last string find :
  match strrstr string find with
  | Some k => occurs_at find string k /\ forall j, (k < j)%nat -> ~ occurs_at find string j
  | None => forall j, ~ occurs_at find string j
  end.
Proof.
  assert (Hb : forall j, occurs_at find string j -> (j + length find <= length string)%nat).
  { intros j (a & b & -> & <-). len. }
  unfold strrstr. destruct (Nat.ltb_spec (length string) (length find)) as [Hl|Hl].
  { intros j Hj. apply Hb in Hj. lia. }
  set (k := (length string - length find)%nat).
  assert (Hk : (k + length find <= length string)%nat) by lia.
  assert (Hlast : forall j, (k < j)%nat -> ~ occurs_at find string j) by (intros j Hj Ho; apply Hb in Ho; lia).
  clearbody k. induction k as [|k IH]; cbn [strrstr_loop].
  - destruct (starts_with find (drop 0 string)) eqn:E.
    + apply starts_with_occurs in E; [by split|lia].
    + intros [|j]; [|apply Hlast; lia]. rewrite <- starts_with_occurs by lia. congruence.
  - destruct (starts_with find (drop (S k) string)) eqn:E.
    + apply starts_with_occurs in E; [by split|lia].
    + apply IH; [lia|]. intros j Hj Ho. destruct (decide (j = S k)) as [->|]; [|apply (Hlast j); [lia|done]].
      apply starts_with_occurs in Ho; [congruence|lia].
Qed.

(** ** Directory and base *)
Lemma strip_slashes_spec p k t :
  (k = 0%nat \/ at_ p k <> slash) -> (forall i, (k < i <= k + t)%nat -> at_ p i = slash) ->
  strip_slashes p (k + t) = k.
Proof.
  intros Hk Ht. induction t as [|t IH].
  - rewrite Nat.add_0_r. destruct k as [|k]; [done|]. cbn [strip_slashes].
    destruct Hk as [Hk|Hk]; [done|]. by rewrite (proj2 (Z.eqb_neq _ _) Hk).
  - rewrite Nat.add_succ_r. cbn [strip_slashes]. rewrite (Ht (S (k + t))) by lia. rewrite Z.eqb_refl.
    apply IH. intros i Hi. apply Ht. lia.
Qed.

Lemma find_start_spec p k j :
  (k = 0%nat \/ at_ p (k - 1) = slash) -> (forall i, (k <= i < k + j)%nat -> at_ p i <> slash) ->
  find_start p (k + j) = k.
Proof.
  intros Hk Hj. induction j as [|j IH].
  - rewrite Nat.add_0_r. destruct k as [|k]; [done|]. cbn [find_start].
    destruct Hk as [Hk|Hk]; [done|]. replace (S k - 1)%nat with k in Hk by lia. by rewrite Hk.
  - rewrite Nat.add_succ_r. cbn [find_start]. rewrite (proj2 (Z.eqb_neq _ _)) by (apply Hj; lia).
    apply IH. intros i Hi. apply Hj. lia.
Qed.

Lemma find_slash_spec p k j :
  (k = 0%nat \/ at_ p k = slash) -> (forall i, (k < i <= k + j)%nat -> at_ p i <> slash) ->
  find_slash p (k + j) = k.
Proof.
  intros Hk Hj. induction j as [|j IH].
  - rewrite Nat.add_0_r. destruct k as [|k]; [done|]. cbn [find_slash].
    destruct Hk as [Hk|Hk]; [done|]. by rewrite Hk.
  - rewrite Nat.add_succ_r. cbn [find_slash]. rewrite (proj2 (Z.eqb_neq _ _)) by (apply Hj; lia).
    apply IH. intros i Hi. apply Hj. lia.
Qed.

(** Characters of a path put together from parts. *)
Lemma at_left a b i : (i < length a)%nat -> at_ (a ++ b) i = at_ a i.
Proof. apply lookup_total_app_l. Qed.
Lemma at_right a b i : (length a <= i)%nat -> at_ (a ++ b) i = at_ b (i - length a).
Proof. apply lookup_total_app_r. Qed.
Lemma at_slashes n i : (i < n)%nat -> at_ (replicate n slash) i = slash.
Proof. apply lookup_total_replicate_2. Qed.
Lemma at_plain base i : Forall (fun c => c <> slash) base -> (i < length base)%nat -> at_ base i <> slash.
Proof.
  intros Hb Hi. rewrite Forall_forall in Hb. apply Hb. by apply list_elem_of_lookup_total_2.
Qed.

Lemma cdirname_nonempty p :
  (0 < length p)%nat ->
  compat_cdirname (Some p) =
    let endp := find_slash p (strip_slashes p (length p - 1)) in
    if (endp =? 0)%nat then Path [if at_ p endp =? slash then slash else dot]
    else into_bname (take (strip_slashes p (endp - 1) + 1) p).
Proof. destruct p; cbn [length]; [lia|done]. Qed.

Lemma basename_nonempty p :
  (0 < length p)%nat ->
  compat_basename (Some p) =
    let endp := strip_slashes p (length p - 1) in
    if (endp =? 0)%nat && (at_ p endp =? slash) then Path [slash]
    else into_bname (take (endp - find_start p endp + 1) (drop (find_start p endp) p)).
Proof. destruct p; cbn [length]; [lia|done]. Qed.

(** A path: directory, slashes, base, trailing slashes. *)
Definition join_path (dir : list Z) (n : nat) (base : list Z) (t : nat) : list Z :=
  dir ++ replicate n slash ++ base ++ replicate t slash.
Definition base_ok (base : list Z) : Prop := base <> [] /\ Forall (fun c => c <> slash) base.
Definition dir_ok (dir : list Z) : Prop := exists d c, dir = d ++ [c] /\ c <> slash.

Section Join.
Context (dir base : list Z) (n t : nat).
Context (Hbase : base_ok base) (Hdir : dir = [] \/ dir_ok dir /\ (0 < n)%nat).
Let p := join_path dir n base t.

Lemma join_path_length : length p = (length dir + n + length base + t)%nat.
Proof. unfold p, join_path. len. Qed.

Lemma join_at_dir i : (i < length dir)%nat -> at_ p i = at_ dir i.
Proof. intros. unfold p, join_path. by rewrite at_left. Qed.
Lemma join_at_sep i : (length dir <= i < length dir + n)%nat -> at_ p i = slash.
Proof.
  intros. unfold p, join_path. rewrite at_right, at_left, at_slashes; len || done.
Qed.
Lemma join_at_base i : (length dir + n <= i < length dir + n + length base)%nat -> at_ p i <> slash.
Proof.
  intros. unfold p, join_path. rewrite at_right, at_right, at_left; rewrite ?length_replicate; try lia.
  apply at_plain; [apply Hbase|lia].
Qed.
Lemma join_at_end i : (length dir + n + length base <= i < length p)%nat -> at_ p i = slash.
Proof.
  rewrite join_path_length. intros. unfold p, join_path. rewrite !at_right, at_slashes; len || done.
Qed.

Lemma base_length : (0 < length base)%nat.
Proof. destruct Hbase as [H _]. destruct base; [done|cbn; lia]. Qed.

(** Both functions begin by going back to the last character of the base. *)
Lemma join_strip : strip_slashes p (length p - 1) = (length dir + n + length base - 1)%nat.
Proof.
  pose proof base_length. rewrite join_path_length.
  replace (length dir + n + length base + t - 1)%nat with (length dir + n + length base - 1 + t)%nat by lia.
  apply strip_slashes_spec; [right; apply join_at_base; lia|].
  intros i Hi. apply join_at_end. rewrite join_path_length. lia.
Qed.

Lemma join_slash_or_0 : (length dir + n - 1 = 0 \/ at_ p (length dir + n - 1) = slash)%nat.
Proof.
  destruct Hdir as [Ed|[_ Hn]]; [|right; apply join_at_sep; lia].
  assert (Hd0 : length dir = 0%nat) by (by rewrite Ed).
  destruct (decide (n = 0%nat)); [left; lia|]. right. apply join_at_sep. lia.
Qed.

Lemma basename_join : (length base < MAXPATHLEN)%nat -> compat_basename (Some p) = Path base.
Proof.
  intros Hl. pose proof base_length as Hb. pose proof join_path_length as Hp.
  rewrite basename_nonempty by lia. cbv zeta. rewrite join_strip.
  rewrite (proj2 (Z.eqb_neq _ _)), andb_false_r by (apply join_at_base; lia).
  replace (find_start p _) with (length dir + n)%nat.
  2:{ symmetry. replace (length dir + n + length base - 1)%nat with (length dir + n + (length base - 1))%nat by lia.
      apply find_start_spec; [|intros i Hi; apply join_at_base; lia].
      destruct join_slash_or_0 as [H0|H0]; [|by right].
      destruct (decide (length dir + n = 0)%nat) as [|Hn]; [by left|]. right. apply join_at_sep.
      destruct Hdir as [Ed|[[d [x [Ed _]]] Hn0]]; [rewrite Ed in *; cbn in *; lia|].
      assert (length dir = S (length d)) by (rewrite Ed, length_app; cbn; lia). lia. }
  replace (take _ _) with base.
  2:{ unfold p, join_path. rewrite app_assoc, drop_app_length'.
      2:{ len. }
      rewrite take_app_length'; [done|lia]. }
  unfold into_bname. by rewrite (proj2 (Nat.ltb_ge _ _)), (proj2 (Nat.eqb_neq _ _)) by lia.
Qed.

Lemma dirname_join :
  (length dir < MAXPATHLEN)%nat ->
  compat_cdirname (Some p) =
    Path (match dir with [] => if (n =? 0)%nat then [dot] else [slash] | _ => dir end).
Proof.
  intros Hl. pose proof base_length as Hb. pose proof join_path_length as Hp.
  rewrite cdirname_nonempty by lia. cbv zeta. rewrite join_strip.
  assert (Hslash : find_slash p (length dir + n + length base - 1) = (length dir + n - 1)%nat).
  { replace (length dir + n + length base - 1)%nat
      with (length dir + n - 1 + (length dir + n + length base - 1 - (length dir + n - 1)))%nat by lia.
    apply find_slash_spec; [apply join_slash_or_0|]. intros i Hi. apply join_at_base. lia. }
  rewrite Hslash. destruct Hdir as [Ed|[[d [x [Ed Hx]]] Hn]].
  - assert (Hd0 : length dir = 0%nat) by (by rewrite Ed). rewrite Hd0.
    replace (match dir with [] => if (n =? 0)%nat then [dot] else [slash] | _ => dir end)
      with (if (n =? 0)%nat then [dot] else [slash]) by (by rewrite Ed).
    destruct (decide (n <= 1)%nat) as [Hn|Hn].
    + replace (0 + n - 1)%nat with 0%nat by lia. cbn [Nat.eqb]. destruct (Nat.eqb_spec n 0) as [H0|H0].
      * rewrite (proj2 (Z.eqb_neq _ _)); [done|]. apply join_at_base. lia.
      * rewrite (proj2 (Z.eqb_eq _ _)); [done|]. apply join_at_sep. lia.
    + rewrite (proj2 (Nat.eqb_neq (0 + n - 1) 0)), (proj2 (Nat.eqb_neq n 0)) by lia.
      replace (strip_slashes p _) with 0%nat.
      2:{ symmetry. replace (0 + n - 1 - 1)%nat with (0 + (n - 2))%nat by lia.
          apply strip_slashes_spec; [by left|]. intros i Hi. apply join_at_sep. lia. }
      replace (take (0 + 1) p) with [slash]; [done|]. unfold p, join_path. rewrite Ed.
      destruct n as [|k]; [lia|]. done.
  - assert (Hld : length dir = S (length d)) by (rewrite Ed, length_app; cbn; lia).
    rewrite (proj2 (Nat.eqb_neq _ _)) by lia.
    replace (length dir + n - 1 - 1)%nat with (length d + (n - 1))%nat by lia.
    rewrite (strip_slashes_spec p (length d) (n - 1)).
    2:{ right. rewrite join_at_dir by lia. rewrite Ed, at_right by lia. by rewrite Nat.sub_diag. }
    2:{ intros i Hi. apply join_at_sep. lia. }
    replace (take (length d + 1) p) with dir by (unfold p, join_path; rewrite take_app_length'; [done|lia]).
    unfold into_bname. rewrite (proj2 (Nat.ltb_ge _ _)), (proj2 (Nat.eqb_neq _ _)) by lia.
    by destruct dir.
Qed.
End Join.

(** A path split into its directory and its base, whatever slashes separate
    and follow them: [basename] returns the base and [cdirname] the
    directory, "." when there is none and "/" when only slashes precede the
    base. *)
Theorem basename_dirname dir base n t :
  base_ok base -> (dir = [] \/ dir_ok dir /\ (0 < n)%nat) ->
  (length dir < MAXPATHLEN)%nat -> (length base < MAXPATHLEN)%nat ->
  compat_basename (Some (join_path dir n base t)) = Path base /\
  compat_cdirname (Some (join_path dir n base t)) =
    Path (match dir with [] => if (n =? 0)%nat then [dot] else [slash] | _ => dir end).
Proof. intros. split; [by apply basename_join|by apply dirname_join]. Qed.

Lemma basename_dirname_witness :
  compat_basename (Some (bs "/usr//lib/")) = Path (bs "lib") /\
  compat_cdirname (Some (bs "/usr//lib/")) = Path (bs "/usr").
Proof.
  apply (basename_dirname (bs "/usr") (bs "lib") 2 1).
  - split; [discriminate|]. apply (bool_decide_unpack _). reflexivity.
  - right. split; [|lia]. exists (bs "/us"), (ch "r"). split; [reflexivity|discriminate].
  - apply Nat.ltb_lt. reflexivity.
  - apply Nat.ltb_lt. reflexivity.
Defined.

(** ** The directories [mkdirhier] makes *)
Definition components (path : list Z) : list (list Z) :=
  List.filter (fun f => negb (bool_decide (f = []))) (fields [slash] path).
Definition child (dst c : list Z) : list Z := match dst with [] => c | _ => dst ++ [slash] ++ c end.

Fixpoint make_all (mkdir : mkdir_answers) (dst : list Z) (comps : list (list Z)) (retval : Z)
    (asked : list (list Z)) : Z * list (list Z) :=
  match comps with
  | [] => (retval, asked)
  | c :: cs =>
      let dst := child dst c in
      let e := mkdir dst in
      if e =? 0 then make_all mkdir dst cs 0 (asked ++ [dst])
      else if e =? EEXIST then make_all mkdir dst cs retval (asked ++ [dst])
      else (-1, asked ++ [dst])
  end.

Lemma make_all_ok mkdir dst comps rv asked :
  (forall d, mkdir d = 0) -> rv <> -1 ->
  exists r ds, make_all mkdir dst comps rv asked = (r, ds) /\ r <> -1.
Proof.
  intros Hm. revert dst rv asked. induction comps as [|c comps IH]; intros dst rv asked Hr; cbn [make_all].
  - by exists rv, asked.
  - rewrite Hm. cbn [Z.eqb]. by apply IH.
Qed.

Lemma child_fits dst c :
  (length dst + length c + 1 < MAXPATHLEN)%nat ->
  (d ← (match dst with [] => Some [] | _ => strcat_path dst [slash] end); strcat_path d c) =
    Some (child dst c) /\ (length (child dst c) <= length dst + length c + 1)%nat.
Proof.
  intros Hl. unfold strcat_path, child. destruct dst as [|x dst]; cbn [mbind option_bind].
  - cbn [length] in *. rewrite (proj2 (Nat.ltb_lt _ _)) by lia. split; [done|lia].
  - rewrite (proj2 (Nat.ltb_lt _ _)) by (cbn [length] in *; lia). cbn [mbind option_bind].
    rewrite (proj2 (Nat.ltb_lt _ _)) by (rewrite length_app; cbn [length] in *; lia).
    rewrite <- app_assoc. split; [done|]. len.
Qed.

Lemma mkdirhier_loop_spec fuel mkdir m p s dst rv asked :
  str_at m p s -> Forall (fun c => c <> 0) s -> (length s < fuel)%nat ->
  (length dst + length s + 1 < MAXPATHLEN)%nat ->
  mkdirhier_loop fuel mkdir m (Some p) dst rv asked =
    Some (make_all mkdir dst (components s) rv asked).
Proof.
  revert m p s dst rv asked. induction fuel as [|fuel IH]; intros m p s dst rv asked Hs Hz Hf Hl; [lia|].
  destruct (fields_cons [slash] s) as (f & fs & Ef). pose proof (str_at_bound _ _ _ Hs) as Hb.
  destruct (strsep_loop_spec [slash] (length m) m p s f fs Hs Hz ltac:(lia) Ef)
    as (m' & next & E & _ & Hg & Hzg & Hn).
  unfold components. rewrite Ef. cbn [mkdirhier_loop compat_strsep]. rewrite E. cbn [mbind option_bind].
  rewrite (str_at_cstr _ _ _ Hg Hzg). cbn [mbind option_bind].
  assert (Hrest : forall dst rv asked, (length dst + (length s - length f) + 1 <= MAXPATHLEN)%nat ->
    (f = [] -> length dst + length s + 1 < MAXPATHLEN)%nat ->
    mkdirhier_loop fuel mkdir m' next dst rv asked =
      Some (make_all mkdir dst (List.filter (fun f => negb (bool_decide (f = []))) fs) rv asked)).
  { intros dst' rv' asked' Hl1 Hl2. destruct fs as [|g gs].
    - destruct Hn as [-> _]. by destruct fuel.
    - destruct Hn as (r & -> & Hr & Hzr & Hlr & Er). rewrite (IH m' _ r) by (done || lia).
      unfold components. by rewrite Er. }
  destruct f as [|c f].
  - cbn [List.filter]. rewrite bool_decide_eq_true_2 by done. cbn [negb]. apply Hrest; [cbn; lia|lia].
  - cbn [List.filter]. rewrite bool_decide_eq_false_2 by done. cbn [negb make_all].
    assert (Hlf : (length (c :: f) <= length s)%nat).
    { destruct fs; [by destruct Hn as [_ ->]|]. destruct Hn as (r & _ & _ & _ & Hlr & _). lia. }
    destruct (child_fits dst (c :: f) ltac:(lia)) as [Ec Hc].
    destruct (match dst with [] => Some [] | _ => strcat_path dst [slash] end) as [d|]; cbn [mbind option_bind] in *; [|done].
    rewrite Ec. cbn [mbind option_bind].
    repeat case_match; try done; apply Hrest; done || lia.
Qed.

Lemma mkdirhier_spec mkdir path :
  Forall (fun c => c <> 0) path -> (length path + 2 < MAXPATHLEN)%nat ->
  mkdirhier mkdir path =
    Some (make_all mkdir (match path with c :: _ => if c =? slash then [slash] else [] | [] => [] end)
            (components path) 1 []).
Proof.
  intros Hz Hl. unfold mkdirhier.
  set (m := path ++ 0 :: replicate MAXPATHLEN 0). set (src := (length path + 1)%nat).
  assert (Hlm : length m = (length path + 1 + MAXPATHLEN)%nat).
  { unfold m. rewrite length_app. cbn [length]. len. }
  assert (Hp : str_at m 0 path) by (eapply drop_str_at; rewrite drop_0; reflexivity).
  rewrite (strlcpy_spec m src 0 MAXPATHLEN path) by (done || lia).
  rewrite take_ge by lia. destruct (mstore m src (path ++ [0])) as [m'|] eqn:E; cbn [mbind option_bind].
  2:{ rewrite mstore_Some in E; [done|]. len. }
  rewrite (proj2 (Nat.ltb_ge _ _)) by lia.
  assert (Hs : str_at m' src path).
  { intros i c Hi. rewrite (mstore_lookup _ _ _ _ _ E). apply lookup_lt_Some in Hi as Hil.
    rewrite decide_True by lia. rewrite <- Hi. f_equal. lia. }
  rewrite (mkdirhier_loop_spec _ mkdir m' src path); [|done|done|lia|].
  - do 2 f_equal. destruct path as [|c path]; [done|]. reflexivity.
  - destruct (at_ (path ++ [0]) 0 =? slash); cbn [length]; lia.
Qed.

(** [mkdirhier] asks for the directories along the path in turn, from the
    first, past the ones that exist, up to the first it cannot make; it
    returns 0 when it made one. *)
Theorem mkdirhier_correct mkdir path :
  Forall (fun c => c <> 0) path -> (length path + 2 < MAXPATHLEN)%nat ->
  mkdirhier mkdir path =
    Some (make_all mkdir (match path with c :: _ => if c =? slash then [slash] else [] | [] => [] end)
            (components path) 1 []).
Proof. apply mkdirhier_spec. Qed.

Lemma mkdirhier_correct_witness :
  mkdirhier (fun d => if bool_decide (d = bs "/") then EEXIST else 0) (bs "a//b/") =
    Some (0, [bs "a"; bs "a/b"]).
Proof.
  etransitivity; [apply (mkdirhier_correct _ (bs "a//b/"))|vm_compute; reflexivity].
  - apply (bool_decide_unpack _). reflexivity.
  - apply Nat.ltb_lt. vm_compute. reflexivity.
Defined.

Lemma fields_single delim s :
  Forall (fun c => is_delim delim c = false) s -> fields delim s = [s].
Proof. induction 1 as [|c s Hc Hs IH]; [done|]. cbn [fields]. by rewrite Hc, IH. Qed.

(** An absolute path of [MAXPATHLEN - 1] characters is not refused, and the
    doubled slash in front takes its copy one byte past the buffer. *)
Lemma mkdirhier_overflow mkdir c :
  Forall (fun x => x <> 0 /\ x <> slash) c -> length c = (MAXPATHLEN - 2)%nat ->
  mkdirhier mkdir (slash :: c) = None.
Proof.
  intros Hc Hl. set (path := slash :: c).
  assert (Hz : Forall (fun x => x <> 0) path).
  { constructor; [done|]. eapply Forall_impl; [exact Hc|]. by intros x []. }
  assert (HM : (2 < MAXPATHLEN)%nat) by (apply Nat.ltb_lt; reflexivity).
  assert (Hlp : length path = (MAXPATHLEN - 1)%nat) by (unfold path; cbn [length]; lia).
  assert (Hf : fields [slash] path = [[]; c]).
  { change (fields [slash] path) with ([] :: fields [slash] c). f_equal. apply fields_single.
    eapply Forall_impl; [exact Hc|]. intros x [H0 H1]. cbn [is_delim].
    by rewrite (Z.eqb_sym slash), (proj2 (Z.eqb_neq x slash) H1), (proj2 (Z.eqb_neq x 0) H0). }
  unfold mkdirhier. fold path.
  set (m := path ++ 0 :: replicate MAXPATHLEN 0). set (src := (length path + 1)%nat).
  assert (Hlm : length m = (length path + 1 + MAXPATHLEN)%nat).
  { unfold m. rewrite length_app. cbn [length]. len. }
  assert (Hp : str_at m 0 path) by (eapply drop_str_at; rewrite drop_0; reflexivity).
  rewrite (strlcpy_spec m src 0 MAXPATHLEN path) by (done || lia).
  rewrite take_ge by lia. destruct (mstore m src (path ++ [0])) as [m'|] eqn:E; cbn [mbind option_bind]; [|done].
  rewrite (proj2 (Nat.ltb_ge _ _)) by lia.
  assert (Hs : str_at m' src path).
  { intros i x Hi. rewrite (mstore_lookup _ _ _ _ _ E). apply lookup_lt_Some in Hi as Hil.
    rewrite decide_True by lia. rewrite <- Hi. f_equal. lia. }
  pose proof (str_at_bound _ _ _ Hs).
  destruct (strsep_loop_spec [slash] (length m') m' src path [] [c] Hs Hz ltac:(lia) Hf)
    as (m1 & n1 & E1 & _ & Hg & _ & (r & -> & Hr & Hzr & Hlr & Er)).
  assert (exists k, S MAXPATHLEN = S (S k)) as [k Hk] by (exists (MAXPATHLEN - 1)%nat; lia).
  rewrite Hk. clear Hk. cbn [mkdirhier_loop compat_strsep]. rewrite E1. cbn [mbind option_bind].
  rewrite (str_at_cstr _ _ _ Hg) by constructor. cbn [mbind option_bind].
  pose proof (str_at_bound _ _ _ Hr).
  destruct (strsep_loop_spec [slash] (length m1) m1 _ r c [] Hr Hzr ltac:(lia) Er)
    as (m2 & n2 & E2 & _ & Hg2 & Hzg2 & -> & ->).
  cbn [mkdirhier_loop compat_strsep]. rewrite E2. cbn [mbind option_bind].
  rewrite (str_at_cstr _ _ _ Hg2 Hzg2). cbn [mbind option_bind].
  destruct c as [|x c']; [cbn [length] in Hl; lia|].
  change (at_ (path ++ [0]) 0) with slash. rewrite Z.eqb_refl.
  assert (E3 : strcat_path [slash] [slash] = Some [slash; slash])
    by (unfold strcat_path; by rewrite (proj2 (Nat.ltb_lt (length [slash] + length [slash]) MAXPATHLEN) HM)).
  rewrite E3. cbn [mbind option_bind app]. unfold strcat_path.
  rewrite (proj2 (Nat.ltb_ge _ _)); [done|]. rewrite Hl. change (length [slash; slash]) with 2%nat. lia.
Qed.

(** ** What the mode string says *)

(** The permission bits a mode string shows. *)
Definition shown (s : list Z) (i : nat) (c bit : Z) : Z := if s !!! i =? c then bit else 0.
Definition mode_of (s : list Z) : Z :=
  shown s 1 (ch "r") 0x100 + shown s 2 (ch "w") 0x80 +
  shown s 3 (ch "x") 0x40 + shown s 3 (ch "s") 0x840 + shown s 3 (ch "S") 0x800 +
  shown s 4 (ch "r") 0x20 + shown s 5 (ch "w") 0x10 +
  shown s 6 (ch "x") 0x8 + shown s 6 (ch "s") 0x408 + shown s 6 (ch "S") 0x400 +
  shown s 7 (ch "r") 0x4 + shown s 8 (ch "w") 0x2 +
  shown s 9 (ch "x") 0x1 + shown s 9 (ch "t") 0x201 + shown s 9 (ch "T") 0x200.

Lemma land_low mode k : 0 <= k < 4096 -> Z.land mode k = Z.land (mode `mod` 4096) k.
Proof.
  intros Hk. change 4096 with (2 ^ 12). rewrite <- Z.land_ones by lia.
  rewrite <- Z.land_assoc. f_equal. rewrite Z.land_comm, Z.land_ones by lia.
  symmetry. apply Z.mod_small. exact Hk.
Qed.

Lemma strmode_low mode : tail (strmode mode) = tail (strmode (mode `mod` 4096)).
Proof.
  unfold strmode, bit_char, exec_char, S_ISUID, S_ISGID, S_ISVTX. cbn [tail].
  cbv zeta. rewrite !(land_low mode) by (vm_compute; split; congruence). reflexivity.
Qed.

Lemma shown_head a l i c bit : shown (a :: l) (S i) c bit = if l !!! i =? c then bit else 0.
Proof. reflexivity. Qed.

Lemma mode_of_head a b l : mode_of (a :: l) = mode_of (b :: l).
Proof. unfold mode_of. rewrite !shown_head. reflexivity. Qed.

Lemma strmode_head mode : strmode mode = type_char mode :: tail (strmode mode).
Proof. reflexivity. Qed.

(** The string shows all twelve permission bits of the mode, and fills the
    twelve bytes callers provide exactly. *)
Theorem strmode_shows mode :
  mode_of (strmode mode) = Z.land mode 0xfff /\ length (strmode mode) = 12%nat /\
  strmode mode !! 11%nat = Some 0 /\ ~ In 0 (take 11 (strmode mode)).
Proof.
  assert (E : forallb (fun m => (mode_of (strmode m) =? Z.land m 0xfff) &&
    negb (existsb (Z.eqb 0) (take 10 (tail (strmode m))))) (Z.of_nat <$> seq 0 4096) = true)
    by (vm_compute; reflexivity).
  pose proof (range_forallb _ _ E (mode `mod` 4096) ltac:(apply Z.mod_pos_bound; lia)) as H.
  cbv beta in H. apply andb_true_iff in H as [H1 H2]. apply Z.eqb_eq in H1.
  rewrite <- land_low in H1 by lia. split; [|split; [done|split; [done|]]].
  - rewrite <- H1, (strmode_head mode), (strmode_head (mode `mod` 4096)), strmode_low. apply mode_of_head.
  - rewrite strmode_head, strmode_low. cbn [take]. apply negb_true_iff in H2. intros [Ht|Hin].
    + revert Ht. unfold type_char. by repeat case_match.
    + assert (existsb (Z.eqb 0) (take 10 (tail (strmode (mode `mod` 4096)))) = true) as Ht; [|congruence].
      apply existsb_exists. exists 0. split; [exact Hin|reflexivity].
Qed.
End Compat.
