(* ===== verification/LibtarList.v ===== *)
(** * par: the linked list (libtar_list.c)

    A doubly linked list on an explicit heap: the nodes and the list headers
    are records at locations, NULL is [None], and an access through NULL or a
    freed location is [None] (undefined behaviour).  The library is generic in
    what its [void *data] points at. *)
From stdpp Require Import sorting.
From S2P Require Import Prelude CLib Compat.

Module LibtarList.

Notation loc := positive (only parsing).

Definition LIST_USERFUNC : Z := 0.
Definition LIST_STACK : Z := 1.
Definition LIST_QUEUE : Z := 2.
Definition EINVAL : Z := 22.

Record node (D : Type) := mk_node { n_data : D; n_next : option loc; n_prev : option loc }.
Arguments mk_node {D}. Arguments n_data {D}. Arguments n_next {D}. Arguments n_prev {D}.

Record libtar_list (D : Type) := mk_list {
  l_first : option loc; l_last : option loc; l_cmpfunc : D -> D -> Z; l_flags : Z; l_nents : Z }.
Arguments mk_list {D}. Arguments l_first {D}. Arguments l_last {D}. Arguments l_cmpfunc {D}.
Arguments l_flags {D}. Arguments l_nents {D}.

(** The heap; [oom] scripts the allocations that fail ([true]). *)
Record heap (D : Type) := mk_heap {
  nodes : gmap loc (node D); lists : gmap loc (libtar_list D); oom : list bool; errno : Z }.
Arguments mk_heap {D}. Arguments nodes {D}. Arguments lists {D}. Arguments oom {D}. Arguments errno {D}.

Definition H (D A : Type) : Type := heap D -> option (A * heap D).
#[export] Instance H_ret D : MRet (H D) := fun A x h => Some (x, h).
#[export] Instance H_bind D : MBind (H D) := fun A B f m h =>
  match m h with Some (x, h') => f x h' | None => None end.

Section Ops.
Context {D : Type}.
Implicit Types (x : node D) (l : libtar_list D) (h : heap D).

Definition undef {A} : H D A := fun _ => None.
Definition set_errno (e : Z) : H D unit := fun h =>
  Some (tt, mk_heap (nodes h) (lists h) (oom h) e).
Definition get_node (p : loc) : H D (node D) := fun h => x ← nodes h !! p; Some (x, h).
Definition get_list (lp : loc) : H D (libtar_list D) := fun h => l ← lists h !! lp; Some (l, h).
Definition upd_node (p : loc) (f : node D -> node D) : H D unit := fun h =>
  x ← nodes h !! p; Some (tt, mk_heap (<[p := f x]> (nodes h)) (lists h) (oom h) (errno h)).
Definition upd_list (lp : loc) (f : libtar_list D -> libtar_list D) : H D unit := fun h =>
  l ← lists h !! lp; Some (tt, mk_heap (nodes h) (<[lp := f l]> (lists h)) (oom h) (errno h)).
Definition free_node (p : loc) : H D unit := fun h =>
  x ← nodes h !! p; Some (tt, mk_heap (delete p (nodes h)) (lists h) (oom h) (errno h)).
Definition free_list (lp : loc) : H D unit := fun h =>
  l ← lists h !! lp; Some (tt, mk_heap (nodes h) (delete lp (lists h)) (oom h) (errno h)).
(** Does the next allocation succeed? *)
Definition alloc : H D bool := fun h =>
  match oom h with
  | [] => Some (true, h)
  | b :: r => Some (negb b, mk_heap (nodes h) (lists h) r (errno h))
  end.
Definition new_node (x : node D) : H D loc := fun h =>
  let p := fresh (dom (nodes h)) in
  Some (p, mk_heap (<[p := x]> (nodes h)) (lists h) (oom h) (errno h)).
Definition new_list (l : libtar_list D) : H D loc := fun h =>
  let p := fresh (dom (lists h)) in
  Some (p, mk_heap (nodes h) (<[p := l]> (lists h)) (oom h) (errno h)).

Definition set_next (q : option loc) x : node D := mk_node (n_data x) q (n_prev x).
Definition set_prev (q : option loc) x : node D := mk_node (n_data x) (n_next x) q.
Definition set_first (q : option loc) l : libtar_list D :=
  mk_list q (l_last l) (l_cmpfunc l) (l_flags l) (l_nents l).
Definition set_last (q : option loc) l : libtar_list D :=
  mk_list (l_first l) q (l_cmpfunc l) (l_flags l) (l_nents l).
Definition set_nents (n : Z) l : libtar_list D :=
  mk_list (l_first l) (l_last l) (l_cmpfunc l) (l_flags l) n.

(** A walk over the nodes of a list takes no more rounds than there are
    nodes. *)
Definition rounds : H D nat := fun h => Some (S (size (nodes h)), h).

(** ** The operations *)
Definition libtar_listptr_reset : option loc := None.

Definition libtar_listptr_data (lp : option loc) : H D D :=
  match lp with None => undef | Some p => x ← get_node p; mret (n_data x) end.

(** [strcmp] stands for the comparison of the strings two data pointers point
    at; [calloc]'s result is not checked. *)
Context (strcmp : D -> D -> Z).

Definition libtar_list_new (flags : Z) (cmpfunc : option (D -> D -> Z)) : H D (option loc) :=
  if negb (flags =? LIST_USERFUNC) && negb (flags =? LIST_STACK) && negb (flags =? LIST_QUEUE)
  then set_errno EINVAL;; mret None
  else
    ok ← alloc;
    if ok : bool then
      p ← new_list (mk_list None None (default strcmp cmpfunc) flags 0);
      mret (Some p)
    else undef.

Fixpoint iterate_loop (fuel : nat) (plugin : D -> H D Z) (n : option loc) : H D Z :=
  match n, fuel with
  | None, _ => mret 0
  | Some _, O => undef
  | Some p, S f =>
      x ← get_node p;
      r ← plugin (n_data x);
      if r =? -1 then mret (-1)
      else x ← get_node p; iterate_loop f plugin (n_next x)
  end.
Definition libtar_list_iterate (l : option loc) (plugin : D -> H D Z) : H D Z :=
  match l with
  | None => mret (-1)
  | Some lp => ls ← get_list lp; k ← rounds; iterate_loop k plugin (l_first ls)
  end.

Fixpoint empty_loop (fuel : nat) (lp : loc) (freefunc : option (D -> H D unit)) (n : option loc) :
    H D unit :=
  match n, fuel with
  | None, _ => mret tt
  | Some _, O => undef
  | Some p, S f =>
      x ← get_node p;
      upd_list lp (set_first (n_next x));;
      (match freefunc with Some g => g (n_data x) | None => mret tt end);;
      free_node p;;
      ls ← get_list lp;
      empty_loop f lp freefunc (l_first ls)
  end.
Definition libtar_list_empty (lp : loc) (freefunc : option (D -> H D unit)) : H D unit :=
  ls ← get_list lp;
  k ← rounds;
  empty_loop k lp freefunc (l_first ls);;
  upd_list lp (set_nents 0).

Definition libtar_list_free (lp : loc) (freefunc : option (D -> H D unit)) : H D unit :=
  libtar_list_empty lp freefunc;; free_list lp.

Definition libtar_list_nents (lp : loc) : H D Z := ls ← get_list lp; mret (l_nents ls).

(** The search for the place of a new element in an ordered list. *)
Fixpoint insert_loop (fuel : nat) (lp n : loc) (data : D) (m : option loc) : H D Z :=
  match m, fuel with
  | None, _ =>
      ls ← get_list lp;
      match l_last ls with
      | None => undef
      | Some z =>
          upd_node z (set_next (Some n));;
          upd_node n (set_prev (l_last ls));;
          upd_list lp (set_last (Some n));;
          upd_node n (set_next None);;
          mret 0
      end
  | Some _, O => undef
  | Some m, S f =>
      ls ← get_list lp;
      x ← get_node m;
      if l_cmpfunc ls data (n_data x) <? 0 then
        if bool_decide (Some m = l_first ls) then
          upd_list lp (set_first (Some n));;
          upd_node n (set_prev None);;
          upd_node m (set_prev (Some n));;
          upd_node n (set_next (Some m));;
          mret 0
        else
          match n_prev x with
          | None => undef
          | Some p =>
              upd_node p (set_next (Some n));;
              upd_node n (set_prev (n_prev x));;
              upd_node m (set_prev (Some n));;
              upd_node n (set_next (Some m));;
              mret 0
          end
      else insert_loop f lp n data (n_next x)
  end.

(** The links of the new node are indeterminate until every branch writes
    them; [l] is looked at only when the allocation succeeded. *)
Definition libtar_list_add (l : option loc) (data : D) : H D Z :=
  ok ← alloc;
  if negb ok then mret (-1)
  else
    n ← new_node (mk_node data None None);
    lp ← (match l with Some lp => mret lp | None => undef end);
    upd_list lp (fun l => set_nents (u32 (l_nents l + 1)) l);;
    ls ← get_list lp;
    match l_first ls with
    | None =>
        upd_list lp (fun l => set_last (Some n) (set_first (Some n) l));;
        upd_node n (fun x => set_next None (set_prev None x));;
        mret 0
    | Some f =>
        if l_flags ls =? LIST_STACK then
          upd_node n (set_prev None);;
          upd_node n (set_next (Some f));;
          upd_node f (set_prev (Some n));;
          upd_list lp (set_first (Some n));;
          mret 0
        else if l_flags ls =? LIST_QUEUE then
          upd_node n (set_prev (l_last ls));;
          upd_node n (set_next None);;
          (match l_last ls with Some z => upd_node z (set_next (Some n)) | None => mret tt end);;
          upd_list lp (set_last (Some n));;
          mret 0
        else k ← rounds; insert_loop k lp n data (Some f)
    end.

(** The new value of the pointer [*n]. *)
Definition libtar_list_del (lp : loc) (n : option loc) : H D (option loc) :=
  upd_list lp (fun l => set_nents (u32 (l_nents l - 1)) l);;
  match n with
  | None => undef
  | Some p =>
      x ← get_node p;
      let m := n_next x in
      (match n_prev x with
       | Some q => upd_node q (set_next (n_next x))
       | None => upd_list lp (set_first (n_next x))
       end);;
      x ← get_node p;
      (match n_next x with
       | Some q => upd_node q (set_prev (n_prev x))
       | None => upd_list lp (set_last (n_prev x))
       end);;
      free_node p;;
      mret m
  end.

(** The result and the new value of the pointer. *)
Definition found (n : option loc) : Z * option loc :=
  (match n with Some _ => 1 | None => 0 end, n).

Definition libtar_list_next (lp : loc) (n : option loc) : H D (Z * option loc) :=
  match n with
  | None => ls ← get_list lp; mret (found (l_first ls))
  | Some p => x ← get_node p; mret (found (n_next x))
  end.

Definition libtar_list_prev (lp : loc) (n : option loc) : H D (Z * option loc) :=
  match n with
  | None => ls ← get_list lp; mret (found (l_last ls))
  | Some p => x ← get_node p; mret (found (n_prev x))
  end.

Definition libtar_str_match (check data : D) : bool := strcmp check data =? 0.

(** [strdup] makes a data pointer to a copy of a string; its failure is not
    looked at, so the null pointer becomes an element. *)
Context (str_data : list Z -> D) (null_data : D).
Definition strdup (s : list Z) : H D D :=
  ok ← alloc; mret (if ok : bool then str_data s else null_data).
Definition lift {A} (o : option A) : H D A := fun h => x ← o; Some (x, h).

Fixpoint add_str_loop (fuel : nat) (l : option loc) (m : mem) (nextp : option nat) (delim : list Z) :
    H D Z :=
  '(m, tokp, nextp) ← lift (Compat.compat_strsep m nextp delim);
  match tokp, fuel with
  | None, _ => mret 0
  | Some _, O => undef
  | Some p, S f =>
      s ← lift (cstr (drop p m));
      match s with
      | [] => add_str_loop f l m nextp delim
      | _ =>
          d ← strdup s;
          r ← libtar_list_add l d;
          if negb (r =? 0) then mret (-1) else add_str_loop f l m nextp delim
      end
  end.

(** [tmp] lies behind the string. *)
Definition TMP_SIZE : nat := 10240.
Definition libtar_list_add_str (l : option loc) (s : list Z) (delim : list Z) : H D Z :=
  let tmp := (length s + 1)%nat in
  '(m, _) ← lift (Compat.strlcpy (s ++ 0 :: replicate TMP_SIZE 0) tmp 0 TMP_SIZE);
  add_str_loop (S TMP_SIZE) l m (Some tmp) delim.

Fixpoint search_loop (fuel : nat) (data : D) (matchfunc : D -> D -> bool) (n : option loc) :
    H D (Z * option loc) :=
  match n, fuel with
  | None, _ => mret (0, None)
  | Some _, O => undef
  | Some p, S f =>
      x ← get_node p;
      if matchfunc data (n_data x) then mret (1, Some p)
      else search_loop f data matchfunc (n_next x)
  end.
Definition libtar_list_search (lp : loc) (n : option loc) (data : D)
    (matchfunc : option (D -> D -> bool)) : H D (Z * option loc) :=
  let matchfunc := default libtar_str_match matchfunc in
  n ← (match n with
       | None => ls ← get_list lp; mret (l_first ls)
       | Some p => x ← get_node p; mret (n_next x)
       end);
  k ← rounds;
  search_loop k data matchfunc n.

(** What [libtar_list_add] returns is not looked at. *)
Fixpoint dup_loop (fuel : nat) (newlist : option loc) (n : option loc) : H D unit :=
  match n, fuel with
  | None, _ => mret tt
  | Some _, O => undef
  | Some p, S f =>
      x ← get_node p;
      libtar_list_add newlist (n_data x);;
      x ← get_node p;
      dup_loop f newlist (n_next x)
  end.
Definition libtar_list_dup (lp : loc) : H D (option loc) :=
  ls ← get_list lp;
  newlist ← libtar_list_new (l_flags ls) (Some (l_cmpfunc ls));
  k ← rounds;
  dup_loop k newlist (l_first ls);;
  mret newlist.

Fixpoint merge_loop (fuel : nat) (newlist : option loc) (list : loc) (n : option loc) : H D unit :=
  '(r, n) ← libtar_list_next list n;
  match n, fuel with
  | None, _ => mret tt
  | Some _, O => undef
  | Some p, S f =>
      x ← get_node p;
      libtar_list_add newlist (n_data x);;
      merge_loop f newlist list n
  end.
Definition libtar_list_merge (cmpfunc : option (D -> D -> Z)) (flags : Z) (list1 list2 : loc) :
    H D (option loc) :=
  newlist ← libtar_list_new flags cmpfunc;
  k ← rounds;
  merge_loop k newlist list1 None;;
  k ← rounds;
  merge_loop k newlist list2 None;;
  mret newlist.
End Ops.

(** ** What a list represents *)
Section Repr.
Context {D : Type}.
Implicit Types (ns : gmap loc (node D)) (l : list (loc * D)).

(** The locations of the nodes of a list, with their data, in order. *)
Definition locs (l : list (loc * D)) : list loc := l.*1.
Definition hd_loc (l : list (loc * D)) (next : option loc) : option loc :=
  match l with [] => next | (a, _) :: _ => Some a end.
Fixpoint last_loc (prev : option loc) (l : list (loc * D)) : option loc :=
  match l with [] => prev | (a, _) :: l' => last_loc (Some a) l' end.

(** The part of a list whose neighbours are [prev] and [next]. *)
Fixpoint seg ns (prev : option loc) (l : list (loc * D)) (next : option loc) : Prop :=
  match l with
  | [] => True
  | (a, d) :: l' => ns !! a = Some (mk_node d (hd_loc l' next) prev) /\ seg ns (Some a) l' next
  end.

Lemma hd_loc_app l1 l2 next : hd_loc (l1 ++ l2) next = hd_loc l1 (hd_loc l2 next).
Proof. by destruct l1 as [|[]]. Qed.

Lemma last_loc_app prev l1 l2 : last_loc prev (l1 ++ l2) = last_loc (last_loc prev l1) l2.
Proof. revert prev. induction l1 as [|[a d] l1 IH]; intros prev; [done|]. apply IH. Qed.

Lemma seg_app ns prev l1 l2 next :
  seg ns prev (l1 ++ l2) next <->
  seg ns prev l1 (hd_loc l2 next) /\ seg ns (last_loc prev l1) l2 next.
Proof.
  revert prev. induction l1 as [|[a d] l1 IH]; intros prev; cbn [app seg last_loc]; [tauto|].
  rewrite hd_loc_app, IH. tauto.
Qed.

Lemma hd_loc_in l a : hd_loc l None = Some a -> a ∈ locs l.
Proof. destruct l as [|[b d] l]; [done|]. intros [= ->]. left. Qed.

Lemma last_loc_in prev l a : last_loc prev l = Some a -> prev = Some a \/ a ∈ locs l.
Proof.
  revert prev. induction l as [|[b d] l IH]; intros prev E; [by left|].
  destruct (IH _ E) as [ [= ->] | Hin]; right; [left|by right].
Qed.

(** Nodes outside a segment do not matter to it. *)
Lemma seg_same ns ns' prev l next :
  (forall a, a ∈ locs l -> ns' !! a = ns !! a) -> seg ns prev l next -> seg ns' prev l next.
Proof.
  revert prev. induction l as [|[a d] l IH]; [done|]. intros prev Hs [Ha Hl]. split.
  - rewrite Hs; [done|left].
  - apply IH; [|done]. intros b Hb. apply Hs. by right.
Qed.

(** A change of the link of the last node. *)
Lemma seg_next ns ns' prev l next next' :
  NoDup (locs l) ->
  (forall a, a ∈ locs l -> ns' !! a =
     (fun x => if bool_decide (Some a = last_loc None l) then set_next next' x else x) <$> ns !! a) ->
  seg ns prev l next -> seg ns' prev l next'.
Proof.
  revert prev. induction l as [|[a d] l IH]; [done|]. intros prev Hnd Hs [Ha Hl].
  apply NoDup_cons in Hnd as [Hn Hnd].
  assert (Ho : forall b, b ∈ locs l -> last_loc (Some a) l = last_loc None l).
  { intros b Hb. destruct l as [|[]]; [by apply elem_of_nil in Hb|done]. }
  split.
  - rewrite (Hs a) by left. rewrite Ha. cbn [last_loc fmap option_fmap option_map].
    destruct l as [|[b e] l]; cbn [last_loc hd_loc].
    + by rewrite bool_decide_eq_true_2.
    + rewrite bool_decide_eq_false_2; [done|]. intros E. symmetry in E.
      apply last_loc_in in E as [ [= ->] | E]; apply Hn; [left|by right].
  - apply IH; [done| |done]. intros b Hb. rewrite (Hs b) by (by right).
    cbn [last_loc]. by rewrite (Ho b Hb).
Qed.

(** A change of the link of the first one. *)
Lemma seg_prev ns ns' prev prev' l next :
  NoDup (locs l) ->
  (forall a, a ∈ locs l -> ns' !! a =
     (fun x => if bool_decide (Some a = hd_loc l None) then set_prev prev' x else x) <$> ns !! a) ->
  seg ns prev l next -> seg ns' prev' l next.
Proof.
  destruct l as [|[a d] l]; [done|]. intros Hnd Hs [Ha Hl].
  apply NoDup_cons in Hnd as [Hn Hnd]. split.
  - rewrite (Hs a) by left. rewrite Ha. cbn [hd_loc fmap option_fmap option_map].
    by rewrite bool_decide_eq_true_2.
  - apply (seg_same ns); [|done]. intros b Hb. rewrite (Hs b) by (by right). cbn [hd_loc].
    rewrite bool_decide_eq_false_2 by (intros [= ->]; done). by destruct (ns !! b).
Qed.

(** What the neighbours of a place look like when their links to each other
    become [p'] and [q']. *)
Definition relinked (p q p' q' : option loc) (ns ns' : gmap loc (node D)) (a : loc) : Prop :=
  ns' !! a = (fun x =>
    let x := if bool_decide (Some a = p) then set_next q' x else x in
    if bool_decide (Some a = q) then set_prev p' x else x) <$> ns !! a.

Lemma seg_relinked ns ns' p q p' q' l1 l2 :
  NoDup (locs (l1 ++ l2)) ->
  (forall a, a ∈ locs (l1 ++ l2) ->
     relinked (last_loc None l1) (hd_loc l2 None) p' q' ns ns' a) ->
  seg ns None l1 q -> seg ns p l2 None ->
  seg ns' None l1 q' /\ seg ns' p' l2 None.
Proof.
  intros Hnd Hs H1 H2.
  unfold locs in Hnd, Hs. rewrite fmap_app in Hnd, Hs.
  apply NoDup_app in Hnd as (N1 & Hd & N2). split.
  - eapply seg_next; [done| |exact H1]. intros a Ha.
    rewrite Hs by (apply elem_of_app; by left). apply option_fmap_ext. intros x.
    rewrite (bool_decide_eq_false_2 (Some a = hd_loc l2 None)); [done|].
    intros E. symmetry in E. apply hd_loc_in in E. by eapply Hd.
  - eapply seg_prev; [done| |exact H2]. intros a Ha.
    rewrite Hs by (apply elem_of_app; by right). apply option_fmap_ext. intros x.
    rewrite (bool_decide_eq_false_2 (Some a = last_loc None l1)); [done|].
    intros E. symmetry in E. apply last_loc_in in E as [E|E]; [done|]. by eapply Hd.
Qed.

(** List header [lp] and the nodes [l] make up a list with these flags and
    this comparison.  An empty list may have a stale last pointer, which no
    operation but [libtar_list_prev] looks at. *)
Record is_list (h : heap D) (lp : loc) (fl : Z) (cf : D -> D -> Z) (l : list (loc * D)) : Prop := {
  il_list : exists la, lists h !! lp =
      Some (mk_list (hd_loc l None) la cf fl (u32 (Z.of_nat (length l)))) /\
    (l <> [] -> la = last_loc None l);
  il_seg : seg (nodes h) None l None;
  il_nodup : NoDup (locs l) }.

(** Nothing but this list has changed. *)
Definition only_list (h h' : heap D) (lp : loc) (l : list (loc * D)) : Prop :=
  (forall lp2, lp2 <> lp -> lists h' !! lp2 = lists h !! lp2) /\
  (forall a, a ∈ dom (nodes h) -> a ∉ locs l -> nodes h' !! a = nodes h !! a).

Lemma seg_dom ns prev l next a : seg ns prev l next -> a ∈ locs l -> a ∈ dom ns.
Proof.
  revert prev. induction l as [|[b d] l IH]; intros prev H Ha; [by apply elem_of_nil in Ha|].
  destruct H as [Hb Hl]. apply elem_of_cons in Ha as [->|Ha]; [|by eapply IH].
  by eapply elem_of_dom_2.
Qed.

Lemma is_list_other h h' lp l lp2 fl cf l2 :
  only_list h h' lp l -> lp2 <> lp -> (forall a, a ∈ locs l2 -> a ∉ locs l) ->
  is_list h lp2 fl cf l2 -> is_list h' lp2 fl cf l2.
Proof.
  intros [Hl Hn] Hne Hd [H1 H2 H3]. split; [by rewrite Hl| |done].
  apply (seg_same (nodes h)); [|done]. intros a Ha.
  apply Hn; [by eapply seg_dom|by apply Hd].
Qed.

Lemma seg_length ns l : seg ns None l None -> NoDup (locs l) -> (length l <= size ns)%nat.
Proof.
  intros Hs Hn. transitivity (size (list_to_set (locs l) : gset loc)).
  - rewrite size_list_to_set by done. unfold locs. by rewrite length_fmap.
  - rewrite <- size_dom. apply subseteq_size. intros a Ha. apply elem_of_list_to_set in Ha.
    by eapply seg_dom.
Qed.

(** The heap after a new node was put between [l1] and [l2]. *)
Record placed (ns : gmap loc (node D)) (h' : heap D) (lp n : loc) (d : D) (fl : Z) (cf : D -> D -> Z)
    (l1 l2 : list (loc * D)) : Prop := {
  pl_list : lists h' !! lp = Some (mk_list (hd_loc (l1 ++ (n, d) :: l2) None)
    (last_loc None (l1 ++ (n, d) :: l2)) cf fl (u32 (Z.of_nat (length (l1 ++ l2)) + 1)));
  pl_node : nodes h' !! n = Some (mk_node d (hd_loc l2 None) (last_loc None l1));
  pl_rest : forall a, a <> n ->
    relinked (last_loc None l1) (hd_loc l2 None) (Some n) (Some n) ns (nodes h') a }.

Lemma placed_is_list ns h' lp n d fl cf l1 l2 :
  placed ns h' lp n d fl cf l1 l2 -> seg ns None (l1 ++ l2) None -> NoDup (locs (l1 ++ l2)) ->
  n ∉ locs (l1 ++ l2) -> is_list h' lp fl cf (l1 ++ (n, d) :: l2).
Proof.
  intros [Hl Hn Hr] Hseg Hnd Hni.
  apply seg_app in Hseg as [S1 S2].
  destruct (seg_relinked ns (nodes h') (last_loc None l1) (hd_loc l2 None) (Some n) (Some n) l1 l2 Hnd)
    as [H1 H2]; [|done..|].
  { intros a Ha. apply Hr. by intros ->. }
  split.
  - eexists. split; [|by intros _]. rewrite Hl, !length_app. cbn [length]. do 3 f_equal. lia.
  - apply seg_app. split; [done|]. by split.
  - unfold locs in *. rewrite fmap_app in *. cbn [fmap list_fmap fst].
    rewrite <- Permutation_middle. by constructor.
Qed.

Lemma placed_only ns h h' lp n d fl cf l1 l2 :
  placed ns h' lp n d fl cf l1 l2 -> (forall a, a <> n -> nodes h !! a = ns !! a) ->
  nodes h !! n = None -> (forall lp2, lp2 <> lp -> lists h' !! lp2 = lists h !! lp2) ->
  only_list h h' lp (l1 ++ l2).
Proof.
  intros [_ _ Hr] Hns Hn Hl. split; [done|]. intros a Ha Hni.
  assert (a <> n) by (intros ->; apply elem_of_dom in Ha; rewrite Hn in Ha; by destruct Ha).
  rewrite (Hr a), (Hns a) by done. unfold locs in Hni. rewrite fmap_app, not_elem_of_app in Hni.
  destruct Hni as [N1 N2].
  rewrite bool_decide_eq_false_2, bool_decide_eq_false_2; [by destruct (ns !! a)|..].
  - intros E. symmetry in E. by apply hd_loc_in in E.
  - intros E. symmetry in E. by apply last_loc_in in E as [E|E].
Qed.
End Repr.

(** ** Running the operations *)
Section Run.
Context {D : Type}.
Implicit Types (h : heap D) (l : list (loc * D)).

Lemma H_run {A B} (m : H D A) (f : A -> H D B) h x h' :
  m h = Some (x, h') -> (m ≫= f) h = f x h'.
Proof. intros E. unfold mbind, H_bind. by rewrite E. Qed.

Lemma get_node_run h p x : nodes h !! p = Some x -> get_node p h = Some (x, h).
Proof. intros E. unfold get_node. by rewrite E. Qed.

Lemma get_list_run h lp x : lists h !! lp = Some x -> get_list lp h = Some (x, h).
Proof. intros E. unfold get_list. by rewrite E. Qed.

Lemma upd_node_run h p f x :
  nodes h !! p = Some x ->
  upd_node p f h = Some (tt, mk_heap (<[p := f x]> (nodes h)) (lists h) (oom h) (errno h)).
Proof. intros E. unfold upd_node. by rewrite E. Qed.

Lemma upd_list_run h lp f x :
  lists h !! lp = Some x ->
  upd_list lp f h = Some (tt, mk_heap (nodes h) (<[lp := f x]> (lists h)) (oom h) (errno h)).
Proof. intros E. unfold upd_list. by rewrite E. Qed.

Lemma free_node_run h p x :
  nodes h !! p = Some x ->
  free_node p h = Some (tt, mk_heap (delete p (nodes h)) (lists h) (oom h) (errno h)).
Proof. intros E. unfold free_node. by rewrite E. Qed.
End Run.

Create Rewrite HintDb heap.
#[export] Hint Rewrite @lookup_insert_eq @lookup_delete_eq : heap.

(** Lookups in updated maps. *)
Ltac look := cbn [nodes lists oom errno];
  repeat first [rewrite lookup_insert_eq | rewrite lookup_insert_ne by congruence
    | rewrite lookup_delete_eq | rewrite lookup_delete_ne by congruence]; first [eassumption|reflexivity].

(** One access to the heap. *)
Ltac hstep :=
  first
    [ erewrite H_run by (apply get_node_run; look)
    | erewrite H_run by (apply get_list_run; look)
    | erewrite H_run by (apply upd_node_run; look)
    | erewrite H_run by (apply upd_list_run; look)
    | erewrite H_run by (eapply free_node_run; look)
    | erewrite H_run by reflexivity ];
  cbn [nodes lists oom errno n_data n_next n_prev set_next set_prev set_first set_last set_nents
       l_first l_last l_cmpfunc l_flags l_nents];
  cbv beta iota.

(** ** Adding *)
Section Add.
Context {D : Type}.
Implicit Types (h : heap D) (l : list (loc * D)) (cf : D -> D -> Z).

(** Where the three kinds of list put a new element. *)
Fixpoint place cf (d : D) (ds : list D) : list D :=
  match ds with
  | [] => [d]
  | x :: r => if cf d x <? 0 then d :: ds else x :: place cf d r
  end.
Definition added (fl : Z) cf (d : D) (ds : list D) : list D :=
  if fl =? LIST_STACK then d :: ds
  else if fl =? LIST_QUEUE then ds ++ [d] else place cf d ds.

Lemma place_split cf d ds1 ds2 :
  Forall (fun x => 0 <= cf d x) ds1 -> match ds2 with [] => True | x :: _ => cf d x < 0 end ->
  place cf d (ds1 ++ ds2) = ds1 ++ d :: ds2.
Proof.
  intros H1 H2. induction H1 as [|x ds1 Hx H1 IH]; cbn [app place].
  - destruct ds2 as [|x ds2]; [done|]. cbn [place]. by rewrite (proj2 (Z.ltb_lt _ _) H2).
  - rewrite (proj2 (Z.ltb_ge _ _) Hx). by rewrite IH.
Qed.

Lemma last_loc_cons prev l a d : last_loc prev (l ++ [(a, d)]) = Some a.
Proof. by rewrite last_loc_app. Qed.

Lemma last_loc_ne prev prev' l : l <> [] -> last_loc prev l = last_loc prev' l.
Proof. by destruct l as [|[]]. Qed.

(** The node at the end of the first part, and the one at the beginning of
    the second. *)
Lemma seg_last ns prev l a d next :
  seg ns prev (l ++ [(a, d)]) next -> ns !! a = Some (mk_node d next (last_loc prev l)).
Proof. intros H. apply seg_app in H as [_ [H _]]. exact H. Qed.

Lemma hd_loc_ne next next' l : l <> [] -> hd_loc l next = hd_loc l next'.
Proof. by destruct l as [|[]]. Qed.

Lemma hd_loc_first l r next next' : l <> [] -> hd_loc (l ++ r) next = hd_loc l next'.
Proof. by destruct l as [|[]]. Qed.

Lemma hd_loc_first' l a r r' next next' :
  hd_loc (l ++ a :: r) next = hd_loc (l ++ a :: r') next'.
Proof. by destruct l as [|[]], a. Qed.

Lemma seg_first ns prev a d l next :
  seg ns prev ((a, d) :: l) next -> ns !! a = Some (mk_node d (hd_loc l next) prev).
Proof. by intros [H _]. Qed.

(** Settles the links of every node other than the new one. *)
Ltac relink :=
  let a := fresh "a" in intros a ?; unfold relinked; cbn [nodes hd_loc last_loc app];
  repeat match goal with
  | |- context [<[?p := _]> _ !! a] =>
      destruct (decide (p = a)) as [<-|?];
      [rewrite lookup_insert_eq|rewrite lookup_insert_ne by done]
  end;
  repeat match goal with
  | E : ?ns !! ?p = Some _ |- context [?ns !! ?p] => rewrite E
  end; cbn [fmap option_fmap option_map];
  repeat case_bool_decide; simplify_eq; try done;
  try (match goal with |- context [?o !! a] => by destruct (o !! a) end).

(** The heap of a list of [l] with the counter already stepped, and a new node
    [n] that no link points at. *)
Record adding h (lp n : loc) (d : D) (fl : Z) cf l : Prop := {
  ad_list : lists h !! lp = Some (mk_list (hd_loc l None) (last_loc None l) cf fl
    (u32 (Z.of_nat (length l) + 1)));
  ad_seg : seg (nodes h) None l None;
  ad_nodup : NoDup (locs l);
  ad_node : exists x, nodes h !! n = Some x /\ n_data x = d;
  ad_apart : n ∉ locs l }.

(** The run put it between [l1] and [l2]. *)
Definition inserted h h' lp n d fl cf l1 l2 : Prop :=
  placed (nodes h) h' lp n d fl cf l1 l2 /\
  (forall lp2, lp2 <> lp -> lists h' !! lp2 = lists h !! lp2) /\ oom h' = oom h.

Lemma locs_mid l1 (a : loc) (d : D) l2 : a ∈ locs (l1 ++ (a, d) :: l2).
Proof. unfold locs. rewrite fmap_app. apply elem_of_app. right. left. Qed.

Ltac settle Hd := split; [split; cbn [nodes lists hd_loc]; rewrite ?app_nil_r, ?last_loc_cons|
    split; [intros ? ?; look|reflexivity]]; [|rewrite <- ?Hd; look|relink].

(** Behind the last node. *)
Lemma insert_last fuel h lp n d fl cf l :
  adding h lp n d fl cf l -> l <> [] ->
  exists h', insert_loop fuel lp n d None h = Some (0, h') /\ inserted h h' lp n d fl cf l [].
Proof.
  intros [Hl Hseg Hnd (x0 & Hn & Hd) Hni] Hne.
  destruct (exists_last Hne) as (l1 & [z e] & ->).
  assert (z <> n) by (intros ->; apply Hni; apply locs_mid).
  pose proof (seg_last _ _ _ _ _ _ Hseg) as Hz. rewrite last_loc_cons in Hl.
  eexists. split; [destruct fuel; cbn [insert_loop]; repeat hstep; reflexivity|].
  settle Hd. rewrite (hd_loc_first (l1 ++ [(z, e)]) [(n, d)] None None) by done. look.
Qed.

(** Before the first node. *)
Lemma insert_first f h lp n d fl cf m e l :
  adding h lp n d fl cf ((m, e) :: l) -> cf d e < 0 ->
  exists h', insert_loop (S f) lp n d (Some m) h = Some (0, h') /\
    inserted h h' lp n d fl cf [] ((m, e) :: l).
Proof.
  intros [Hl Hseg Hnd (x0 & Hn & Hd) Hni] Hlt. pose proof (seg_first _ _ _ _ _ _ Hseg) as Hm.
  assert (m <> n) by (intros ->; apply Hni; left). cbn [hd_loc last_loc app] in *.
  eexists. split.
  - cbn [insert_loop]. do 2 hstep. rewrite (proj2 (Z.ltb_lt _ _) Hlt), bool_decide_eq_true_2 by done.
    repeat hstep. reflexivity.
  - settle Hd. cbn [app]. look.
Qed.

(** Between two nodes. *)
Lemma insert_middle f h lp n d fl cf l1 p b m e l2 :
  adding h lp n d fl cf (l1 ++ (p, b) :: (m, e) :: l2) -> cf d e < 0 ->
  exists h', insert_loop (S f) lp n d (Some m) h = Some (0, h') /\
    inserted h h' lp n d fl cf (l1 ++ [(p, b)]) ((m, e) :: l2).
Proof.
  intros [Hl Hseg Hnd (x0 & Hn & Hd) Hni] Hlt.
  assert (Hp : nodes h !! p = Some (mk_node b (Some m) (last_loc None l1)))
    by (apply seg_app in Hseg as [_ Hseg]; exact (seg_first _ _ _ _ _ _ Hseg)).
  assert (Hm : nodes h !! m = Some (mk_node e (hd_loc l2 None) (Some p)))
    by (apply seg_app in Hseg as [_ [_ Hseg]]; exact (seg_first _ _ _ _ _ _ Hseg)).
  assert (p <> n) by (intros ->; apply Hni; apply locs_mid).
  assert (m <> n).
  { intros ->. apply Hni. change ((p, b) :: (n, e) :: l2) with ([(p, b)] ++ (n, e) :: l2).
    rewrite app_assoc. apply locs_mid. }
  unfold locs in Hnd. rewrite fmap_app in Hnd. apply NoDup_app in Hnd as (_ & Hdis & Hnd).
  cbn [fmap list_fmap fst] in Hdis, Hnd.
  assert (m <> p) by (intros ->; apply NoDup_cons in Hnd as [Hnd _]; apply Hnd; left).
  assert (Hf : Some m <> hd_loc (l1 ++ (p, b) :: (m, e) :: l2) None).
  { destruct l1 as [|[q c] l1]; cbn [hd_loc app]; [congruence|]. intros [= ->].
    apply (Hdis q); [left|right; left]. }
  eexists. split.
  - cbn [insert_loop]. do 2 hstep. rewrite (proj2 (Z.ltb_lt _ _) Hlt), bool_decide_eq_false_2 by done.
    repeat hstep. reflexivity.
  - settle Hd. rewrite <- !app_assoc. cbn [app]. rewrite last_loc_app in Hl |- *. cbn [last_loc] in *.
    rewrite (hd_loc_first' l1 (p, b) ((n, d) :: (m, e) :: l2) ((m, e) :: l2) None None). look.
Qed.

(** The search stops before the first element that the new one precedes. *)
Lemma insert_loop_spec fuel h lp n d fl cf l1 l2 :
  adding h lp n d fl cf (l1 ++ l2) -> l1 ++ l2 <> [] ->
  (length l2 <= fuel)%nat -> Forall (fun x => 0 <= cf d x.2) l1 ->
  exists h' l1' l2', insert_loop fuel lp n d (hd_loc l2 None) h = Some (0, h') /\
    l1 ++ l2 = l1' ++ l2' /\ inserted h h' lp n d fl cf l1' l2' /\
    place cf d (l1 ++ l2).*2 = l1'.*2 ++ d :: l2'.*2.
Proof.
  revert l1 fuel. induction l2 as [|[m e] l2 IH]; intros l1 fuel Ha Hne Hf Hcf.
  - rewrite app_nil_r in *. destruct (insert_last fuel _ _ _ _ _ _ _ Ha Hne) as (h' & E & P).
    exists h', l1, []. rewrite app_nil_r. split; [exact E|split; [done|split; [exact P|]]].
    rewrite <- (app_nil_r (l1.*2)) at 1. apply place_split; [by apply Forall_fmap|done].
  - destruct fuel as [|fuel]; cbn [length] in Hf; [lia|]. cbn [hd_loc].
    destruct (Z.lt_ge_cases (cf d e) 0) as [Hlt|Hge].
    + assert (Hp : place cf d (l1 ++ (m, e) :: l2).*2 = l1.*2 ++ d :: ((m, e) :: l2).*2).
      { rewrite fmap_app. apply place_split; [by apply Forall_fmap|done]. }
      enough (exists h', insert_loop (S fuel) lp n d (Some m) h = Some (0, h') /\
        inserted h h' lp n d fl cf l1 ((m, e) :: l2)) as (h' & E & P) by (exists h', l1, ((m, e) :: l2); done).
      destruct l1 as [|[p b] l1 _] using rev_ind; [by apply insert_first|].
      apply insert_middle; [|done]. by rewrite <- app_assoc in Ha.
    + pose proof Ha as Ha'. destruct Ha' as [Hl Hseg _ _ _].
      assert (Hm : nodes h !! m = Some (mk_node e (hd_loc l2 None) (last_loc None l1)))
        by (apply seg_app in Hseg as [_ Hseg]; exact (seg_first _ _ _ _ _ _ Hseg)).
      destruct (IH (l1 ++ [(m, e)]) fuel) as (h' & l1' & l2' & E & P); rewrite <- ?app_assoc; try done; [lia| |].
      { apply Forall_app_2; [done|]. by repeat constructor. }
      rewrite <- app_assoc in P. exists h', l1', l2'. split; [|exact P].
      cbn [insert_loop]. do 2 hstep. rewrite (proj2 (Z.ltb_ge _ _) Hge). exact E.
Qed.

(** The allocation that answers [b] and leaves the script [r]. *)
Definition oom_next (o : list bool) : bool * list bool :=
  match o with [] => (false, []) | b :: r => (b, r) end.
Definition set_oom (o : list bool) h : heap D := mk_heap (nodes h) (lists h) o (errno h).

Lemma alloc_run h : alloc h = Some (negb (oom_next (oom h)).1, set_oom (oom_next (oom h)).2 h).
Proof. unfold alloc, set_oom. destruct h as [ns ls [|b r] e]; done. Qed.

Lemma u32_add_1 n : u32 (u32 (Z.of_nat n) + 1) = u32 (Z.of_nat n + 1).
Proof. unfold u32. by rewrite Zplus_mod_idemp_l. Qed.

(** What there is to show of a run of [libtar_list_add]. *)
Definition add_done h h' lp n fl cf d l l1 l2 : Prop :=
  l = l1 ++ l2 /\ is_list h' lp fl cf (l1 ++ (n, d) :: l2) /\
  (l1 ++ (n, d) :: l2).*2 = added fl cf d l.*2 /\ only_list h h' lp l.

Lemma placed_before_insert h h' lp n d fl cf l1 l2 x :
  placed (<[n := x]> (nodes h)) h' lp n d fl cf l1 l2 -> placed (nodes h) h' lp n d fl cf l1 l2.
Proof.
  intros [P1 P2 P3]. split; [done..|]. intros a Ha. unfold relinked. rewrite (P3 a Ha).
  by rewrite lookup_insert_ne.
Qed.

Lemma placed_done h h' lp n d fl cf l l1 l2 :
  placed (nodes h) h' lp n d fl cf l1 l2 -> l = l1 ++ l2 -> nodes h !! n = None ->
  seg (nodes h) None l None -> NoDup (locs l) -> n ∉ locs l ->
  l1.*2 ++ d :: l2.*2 = added fl cf d l.*2 ->
  (forall lp2, lp2 <> lp -> lists h' !! lp2 = lists h !! lp2) ->
  add_done h h' lp n fl cf d l l1 l2.
Proof.
  intros Hp -> Hn Hseg Hnd Hni Hd Hls.
  split; [done|]. split; [by eapply placed_is_list|]. split; [by rewrite fmap_app|].
  by eapply placed_only.
Qed.

(** An element at an end of the list between [l1] and [l2], whichever branch
    put it there. *)
Ltac at_end l1 l2 :=
  eexists _, l1, l2; split; [repeat hstep; reflexivity|split; [|reflexivity]];
  eapply placed_done; [split; cbn [nodes lists]| |done..| |intros ? ?; look].

(** [libtar_list_add] allocates a node; it goes where the kind of the list
    says. *)
Lemma add_spec h lp fl cf l d :
  is_list h lp fl cf l -> (oom_next (oom h)).1 = false ->
  exists h' n l1 l2, libtar_list_add (Some lp) d h = Some (0, h') /\
    nodes h !! n = None /\ add_done h h' lp n fl cf d l l1 l2 /\ oom h' = (oom_next (oom h)).2.
Proof.
  intros [(la & Hl & Hla) Hseg Hnd] Ho. unfold libtar_list_add.
  erewrite H_run by apply alloc_run. rewrite Ho. cbn [negb].
  set (n := fresh (dom (nodes h))).
  assert (Hn : nodes h !! n = None) by (apply not_elem_of_dom, is_fresh).
  assert (Hni : n ∉ locs l).
  { intros Hin. apply (seg_dom _ _ _ _ _ Hseg), elem_of_dom in Hin. rewrite Hn in Hin. by destruct Hin. }
  unfold new_node. erewrite H_run by reflexivity. cbn [nodes set_oom]. fold n. cbv zeta.
  erewrite H_run by reflexivity.
  do 2 hstep. rewrite u32_add_1.
  enough (exists h' l1 l2, _ = Some (0, h') /\ add_done h h' lp n fl cf d l l1 l2 /\
    oom h' = (oom_next (oom h)).2) as (h' & l1 & l2 & E & Hd & Ho') by (exists h', n, l1, l2; split; [exact E|done]).
  destruct l as [|[f e] l]; cbn [hd_loc].
  { at_end (@nil (loc * D)) (@nil (loc * D)); [look|look|relink|done|].
    unfold added. by repeat case_match. }
  assert (Hfn : f <> n) by (intros ->; apply Hni; left).
  specialize (Hla ltac:(done)). subst la.
  pose proof (seg_first _ _ _ _ _ _ Hseg) as Hf.
  destruct (fl =? LIST_STACK) eqn:Es.
  { at_end (@nil (loc * D)) ((f, e) :: l); [look|look|relink|done|]. 
    unfold added. by rewrite Es. }
  destruct (fl =? LIST_QUEUE) eqn:Eq.
  { destruct (exists_last (l := (f, e) :: l) ltac:(done)) as (l' & [z b] & El).
    assert (Hfirst : hd_loc (l' ++ [(z, b)]) None = Some f) by (by rewrite <- El). rewrite El in *.
    assert (Hz : z <> n) by (intros ->; apply Hni; unfold locs; rewrite fmap_app; apply elem_of_app; right; left).
    pose proof (seg_last _ _ _ _ _ _ Hseg) as Hzx.
    rewrite last_loc_cons. at_end (l' ++ [(z, b)]) (@nil (loc * D)).
    - rewrite (hd_loc_first (l' ++ [(z, b)]) [(n, d)] None None) by (by destruct l').
      rewrite !app_nil_r, last_loc_cons, Hfirst. look.
    - rewrite last_loc_cons. look.
    - rewrite last_loc_cons. relink.
    - by rewrite app_nil_r.
    - unfold added. by rewrite Es, Eq. }
  unfold rounds. erewrite H_run by reflexivity. cbn [nodes].
  lazymatch goal with |- context [insert_loop ?k _ _ _ _ ?h1] =>
    edestruct (insert_loop_spec k h1 lp n d fl cf [] ((f, e) :: l))
      as (h' & l1 & l2 & E & El & (Hp & Hls & Ho') & Hpl); cbn [app] end.
  - split; cbn [nodes lists]; [look| |done|eexists; split; [look|done]|done].
    apply (seg_same (nodes h)); [|done]. intros a Ha. rewrite lookup_insert_ne; [done|]. by intros <-.
  - done.
  - rewrite map_size_insert_None by done. pose proof (seg_length _ _ Hseg Hnd). lia.
  - done.
  - exists h', l1, l2. split; [exact E|]. split; [|by rewrite Ho'].
    apply placed_done; try done.
    + by eapply placed_before_insert.
    + cbn [app] in Hpl. rewrite <- Hpl. unfold added. by rewrite Es, Eq.
    + intros lp2 Hlp. rewrite (Hls _ Hlp). cbn [lists]. look.
Qed.
End Add.

(** ** Removing *)
Section Del.
Context {D : Type}.
Implicit Types (h : heap D) (l : list (loc * D)) (cf : D -> D -> Z).

Lemma u32_sub_1 n : u32 (u32 (Z.of_nat (S n)) - 1) = u32 (Z.of_nat n).
Proof. unfold u32. rewrite Zminus_mod_idemp_l. f_equal. lia. Qed.

(** The heap after the node between [l1] and [l2] was taken out. *)
Record removed h h' (lp a : loc) fl cf l1 l2 : Prop := {
  rm_list : exists la, lists h' !! lp =
      Some (mk_list (hd_loc (l1 ++ l2) None) la cf fl (u32 (Z.of_nat (length (l1 ++ l2))))) /\
    (l1 ++ l2 <> [] -> la = last_loc None (l1 ++ l2));
  rm_node : nodes h' !! a = None;
  rm_rest : forall b, b <> a ->
    relinked (last_loc None l1) (hd_loc l2 None) (last_loc None l1) (hd_loc l2 None) (nodes h) (nodes h') b;
  rm_lists : forall lp2, lp2 <> lp -> lists h' !! lp2 = lists h !! lp2 }.

Lemma locs_middle (a : loc) (d : D) l1 l2 :
  NoDup (locs (l1 ++ (a, d) :: l2)) -> NoDup (locs (l1 ++ l2)) /\ a ∉ locs (l1 ++ l2).
Proof.
  unfold locs. rewrite !fmap_app. cbn [fmap list_fmap fst].
  rewrite <- Permutation_middle. rewrite NoDup_cons. tauto.
Qed.

Lemma removed_is_list h h' lp a d fl cf l1 l2 :
  removed h h' lp a fl cf l1 l2 -> seg (nodes h) None (l1 ++ (a, d) :: l2) None ->
  NoDup (locs (l1 ++ (a, d) :: l2)) -> is_list h' lp fl cf (l1 ++ l2).
Proof.
  intros [Hl _ Hr _] Hseg Hnd. apply locs_middle in Hnd as [Hnd Ha].
  apply seg_app in Hseg as [S1 [_ S2]].
  destruct (seg_relinked (nodes h) (nodes h') (hd_loc ((a, d) :: l2) None) (Some a)
    (last_loc None l1) (hd_loc l2 None) l1 l2 Hnd) as [H1 H2]; [|done..|].
  { intros b Hb. apply Hr. by intros ->. }
  split; [done| |done]. by apply seg_app.
Qed.

Lemma removed_only h h' lp a d fl cf l1 l2 :
  removed h h' lp a fl cf l1 l2 -> only_list h h' lp (l1 ++ (a, d) :: l2).
Proof.
  intros [_ _ Hr Hls]. split; [done|]. intros b Hb Hni.
  unfold locs in Hni. rewrite fmap_app in Hni. cbn [fmap list_fmap fst] in Hni.
  rewrite not_elem_of_app, not_elem_of_cons in Hni. destruct Hni as (N1 & N2 & N3).
  rewrite (Hr b) by done.
  rewrite bool_decide_eq_false_2, bool_decide_eq_false_2; [by destruct (nodes h !! b)|..].
  - intros E. symmetry in E. by apply hd_loc_in in E.
  - intros E. symmetry in E. by apply last_loc_in in E as [E|E].
Qed.

(** Settles the links after a removal. *)
Ltac unlink :=
  let b := fresh "b" in intros b ?; unfold relinked; cbn [nodes hd_loc last_loc app];
  rewrite ?last_loc_cons;
  rewrite lookup_delete_ne by done;
  repeat match goal with
  | |- context [<[?p := _]> _ !! b] =>
      destruct (decide (p = b)) as [<-|?];
      [rewrite lookup_insert_eq|rewrite lookup_insert_ne by done]
  end;
  repeat match goal with
  | E : ?ns !! ?p = Some _ |- context [?ns !! ?p] => rewrite E
  end; cbn [fmap option_fmap option_map];
  repeat case_bool_decide; simplify_eq; try done;
  try (match goal with |- context [?o !! b] => by destruct (o !! b) end).

(** The run of [libtar_list_del], up to the new list header. *)
Ltac taken_out :=
  repeat hstep; eexists; split; [reflexivity|split; [|done]];
  split; cbn [nodes lists]; [|look|unlink|intros ? ?; look].

Lemma del_removed h lp fl cf l1 a d l2 :
  is_list h lp fl cf (l1 ++ (a, d) :: l2) ->
  exists h', libtar_list_del lp (Some a) h = Some (hd_loc l2 None, h') /\
    removed h h' lp a fl cf l1 l2 /\ oom h' = oom h.
Proof.
  intros [(la & Hl & Hla) Hseg Hnd].
  specialize (Hla ltac:(by destruct l1)). subst la. rewrite last_loc_app in Hl. cbn [last_loc] in Hl.
  pose proof Hseg as Hseg'. apply seg_app in Hseg' as [S1 [Ha S2]].
  assert (E1 : u32 (u32 (Z.of_nat (length (l1 ++ (a, d) :: l2))) - 1) = u32 (Z.of_nat (length (l1 ++ l2)))).
  { rewrite !length_app. cbn [length]. rewrite Nat.add_succ_r. apply u32_sub_1. }
  pose proof (locs_middle _ _ _ _ Hnd) as [Hnd' Hni]. unfold libtar_list_del.
  hstep. rewrite E1. hstep.
  destruct l1 as [|[p x] l1 _] using rev_ind; destruct l2 as [|[q y] l2].
  - cbn [app last_loc hd_loc] in *. taken_out. by eexists; split; [look|].
  - cbn [app last_loc hd_loc] in *. pose proof (seg_first _ _ _ _ _ _ S2) as Hq.
    assert (a <> q) by (intros ->; apply Hni; left).
    taken_out. by eexists; split; [look|].
  - rewrite !app_nil_r in *. rewrite last_loc_cons in *. pose proof (seg_last _ _ _ _ _ _ S1) as Hp.
    assert (p <> a) by (intros ->; apply Hni; unfold locs; rewrite fmap_app; apply elem_of_app; right; left).
    cbn [hd_loc last_loc] in *. taken_out. rewrite !app_nil_r.
    eexists; split; [|intros _; by rewrite last_loc_cons].
    rewrite (hd_loc_first (l1 ++ [(p, x)]) [(a, d)] None None) by (by destruct l1). look.
  - rewrite !last_loc_cons in *. pose proof (seg_last _ _ _ _ _ _ S1) as Hp.
    pose proof (seg_first _ _ _ _ _ _ S2) as Hq.
    assert (p <> a /\ q <> a /\ p <> q) as (? & ? & ?).
    { unfold locs in Hnd', Hni. rewrite !fmap_app in Hnd', Hni. split_and!; intros ->.
      - apply Hni, elem_of_app. left. apply elem_of_app. right. left.
      - apply Hni, elem_of_app. right. left.
      - apply NoDup_app in Hnd' as (_ & Hd' & _). eapply (Hd' q); [apply elem_of_app; right; left|left]. }
    cbn [hd_loc last_loc] in *. taken_out.
    eexists; split; [|intros _; reflexivity].
    rewrite !(hd_loc_first (l1 ++ [(p, x)]) ((q, y) :: l2) None None) by (by destruct l1).
    rewrite (hd_loc_first (l1 ++ [(p, x)]) ((a, d) :: (q, y) :: l2) None None) by (by destruct l1).
    rewrite !last_loc_app. look.
Qed.
End Del.

(** ** Walking *)
Section Walk.
Context {D : Type}.
Implicit Types (h : heap D) (l : list (loc * D)) (cf : D -> D -> Z).

Lemma node_of h lp fl cf l1 a d l2 :
  is_list h lp fl cf (l1 ++ (a, d) :: l2) ->
  nodes h !! a = Some (mk_node d (hd_loc l2 None) (last_loc None l1)).
Proof. intros [_ Hs _]. apply seg_app in Hs as [_ Hs]. exact (seg_first _ _ _ _ _ _ Hs). Qed.

(** The cursor stands behind [l1]; at the beginning it is NULL. *)
Lemma next_spec h lp fl cf l1 l2 :
  is_list h lp fl cf (l1 ++ l2) ->
  libtar_list_next lp (last_loc None l1) h = Some (found (hd_loc l2 None), h).
Proof.
  intros Hl. destruct l1 as [|[a d] l1 _] using rev_ind; unfold libtar_list_next.
  - destruct Hl as [(la & E & _) _ _]. cbn [last_loc]. by hstep.
  - rewrite last_loc_cons. rewrite <- app_assoc in Hl. apply node_of in Hl. by hstep.
Qed.

Lemma search_loop_spec fuel h lp fl cf data m l1 l2 :
  is_list h lp fl cf (l1 ++ l2) -> (length l2 <= fuel)%nat ->
  exists r, search_loop fuel data m (hd_loc l2 None) h = Some (r, h) /\
    ((r = (0, None) /\ Forall (fun d => m data d = false) l2.*2) \/
     (exists l3 a d l4, l2 = l3 ++ (a, d) :: l4 /\ r = (1, Some a) /\ m data d = true /\
        Forall (fun d => m data d = false) l3.*2)).
Proof.
  revert l1 fuel. induction l2 as [|[a d] l2 IH]; intros l1 fuel Hl Hf.
  - exists (0, None). split; [by destruct fuel|]. left. by split.
  - cbn [length] in Hf. destruct fuel as [|fuel]; [lia|]. pose proof (node_of _ _ _ _ _ _ _ _ Hl) as Ha.
    cbn [search_loop hd_loc]. hstep. destruct (m data d) eqn:Em.
    + exists (1, Some a). split; [done|]. right. by exists [], a, d, l2.
    + rewrite cons_middle, app_assoc in Hl.
      destruct (IH _ fuel Hl ltac:(lia)) as (r & E & [[-> Hn]|(l3 & b & e & l4 & -> & -> & Hm & Hn)]).
      * exists (0, None). split; [exact E|]. left. split; [done|]. by constructor.
      * exists (1, Some b). split; [exact E|]. right.
        exists ((a, d) :: l3), b, e, l4. split; [done|]. split; [done|]. split; [done|]. by constructor.
Qed.

(** A search goes on behind the cursor and stops at the first match. *)
Lemma search_spec strcmp h lp fl cf data m l1 l2 :
  is_list h lp fl cf (l1 ++ l2) ->
  exists r, libtar_list_search strcmp lp (last_loc None l1) data (Some m) h = Some (r, h) /\
    ((r = (0, None) /\ Forall (fun d => m data d = false) l2.*2) \/
     (exists l3 a d l4, l2 = l3 ++ (a, d) :: l4 /\ r = (1, Some a) /\ m data d = true /\
        Forall (fun d => m data d = false) l3.*2)).
Proof.
  intros Hl. pose proof (seg_length _ _ (il_seg _ _ _ _ _ Hl) (il_nodup _ _ _ _ _ Hl)) as Hlen.
  rewrite length_app in Hlen.
  destruct (search_loop_spec (S (size (nodes h))) h lp fl cf data m l1 l2 Hl ltac:(lia)) as (r & E & Hr).
  exists r. split; [|done]. unfold libtar_list_search.
  destruct l1 as [|[a d] l1 _] using rev_ind.
  - destruct Hl as [(la & El & _) _ _]. cbn [last_loc] in *.
    etransitivity; [eapply H_run; by hstep|]. exact E.
  - rewrite last_loc_cons. rewrite <- app_assoc in Hl. apply node_of in Hl.
    etransitivity; [eapply H_run; by hstep|]. exact E.
Qed.

(** A function that frees the data of each element and nothing of the heap. *)
Definition frees (ff : option (D -> H D unit)) l : Prop :=
  match ff with Some g => Forall (fun x => forall h, g x.2 h = Some (tt, h)) l | None => True end.

Lemma frees_head ff a d l h : frees ff ((a, d) :: l) ->
  match ff with Some g => g d | None => mret tt end h = Some (tt, h) /\ frees ff l.
Proof. destruct ff as [g|]; [|done]. intros [Hg Hl]%Forall_cons. by split. Qed.

Lemma empty_loop_spec fuel lp ff fl cf l prev n h :
  (exists la, lists h !! lp = Some (mk_list (hd_loc l None) la cf fl n)) ->
  seg (nodes h) prev l None -> NoDup (locs l) -> (length l <= fuel)%nat -> frees ff l ->
  exists h', empty_loop fuel lp ff (hd_loc l None) h = Some (tt, h') /\
    (exists la, lists h' !! lp = Some (mk_list None la cf fl n)) /\
    (forall a, a ∈ locs l -> nodes h' !! a = None) /\
    (forall a, a ∉ locs l -> nodes h' !! a = nodes h !! a) /\
    (forall lp2, lp2 <> lp -> lists h' !! lp2 = lists h !! lp2) /\ oom h' = oom h.
Proof.
  revert fuel prev h. induction l as [|[a d] l IH]; intros fuel prev h [la Hl] Hs Hn Hf Hff.
  - exists h. split; [by destruct fuel|]. split; [eauto|]. split; [|done].
    intros a Ha; by apply elem_of_nil in Ha.
  - cbn [length] in Hf. destruct fuel as [|fuel]; [lia|]. destruct Hs as [Ha Hs].
    apply NoDup_cons in Hn as [Hna Hn]. cbn [empty_loop hd_loc]. do 2 hstep.
    erewrite H_run by (apply (frees_head ff a d l); exact Hff). apply (frees_head _ _ _ _ h) in Hff as [_ Hff].
    repeat hstep.
    lazymatch goal with |- context [empty_loop _ _ _ _ ?h1] =>
      destruct (IH fuel (Some a) h1) as (h' & E & Hl' & Hd & Ho1 & Ho2 & Hoom) end.
    + cbn [lists]. eexists. look.
    + apply (seg_same (nodes h)); [|done]. intros b Hb. cbn [nodes].
      rewrite lookup_delete_ne; [done|]. by intros <-.
    + done.
    + lia.
    + exact Hff.
    + cbn [nodes lists] in *. exists h'. split; [exact E|]. split; [done|].
      split; [|split; [|split; [|done]]].
      * intros b Hb. destruct (decide (b ∈ locs l)) as [Hbl|Hbl]; [by apply Hd|].
        apply elem_of_cons in Hb as [-> | Hb]; [|done]. rewrite (Ho1 _ Hbl). look.
      * intros b Hb. apply not_elem_of_cons in Hb as [Hb1 Hb2]. cbn [fst] in Hb1.
        rewrite (Ho1 _ Hb2). by rewrite lookup_delete_ne.
      * intros lp2 Hne. rewrite (Ho2 _ Hne). look.
Qed.

(** Emptying frees every node; the list can be used again. *)
Lemma empty_spec h lp ff fl cf l :
  is_list h lp fl cf l -> frees ff l ->
  exists h', libtar_list_empty lp ff h = Some (tt, h') /\ is_list h' lp fl cf [] /\
    (forall a, a ∈ locs l -> nodes h' !! a = None) /\ only_list h h' lp l /\
    (forall a, a ∉ locs l -> nodes h' !! a = nodes h !! a) /\ oom h' = oom h.
Proof.
  intros [(la & Hl & _) Hs Hn] Hff. pose proof (seg_length _ _ Hs Hn) as Hlen.
  destruct (empty_loop_spec (S (size (nodes h))) lp ff fl cf l None _ h (ex_intro _ la Hl) Hs Hn ltac:(lia) Hff)
    as (h' & E & (la' & Hl') & Hd & Ho1 & Ho2 & Ho).
  unfold libtar_list_empty. hstep. hstep.
  erewrite H_run by exact E. eexists. split; [eapply upd_list_run; exact Hl'|].
  split; [|split; [done|split; [|by split]]].
  - split; [eexists; split; [cbn [lists]; by rewrite lookup_insert_eq|done]|done|constructor].
  - split; [|by intros; apply Ho1]. intros lp2 Hne. cbn [lists]. rewrite <- (Ho2 _ Hne). look.
Qed.

(** Freeing removes the list as well. *)
Lemma free_spec h lp ff fl cf l :
  is_list h lp fl cf l -> frees ff l ->
  exists h', libtar_list_free lp ff h = Some (tt, h') /\ lists h' !! lp = None /\
    (forall a, a ∈ locs l -> nodes h' !! a = None) /\ only_list h h' lp l /\
    (forall a, a ∉ locs l -> nodes h' !! a = nodes h !! a).
Proof.
  intros Hl Hff. destruct (empty_spec h lp ff fl cf l Hl Hff) as (h1 & E & [(la & E1 & _) _ _] & Hd & [O1 O2] & O3 & _).
  eexists. split; [unfold libtar_list_free; erewrite H_run by exact E; unfold free_list; rewrite E1; reflexivity|].
  cbn [lists nodes]. split; [look|]. split; [done|]. split; [|done]. split; [|done].
  intros lp2 Hne. cbn [lists]. rewrite lookup_delete_ne by done. by apply O1.
Qed.
End Walk.

(** ** The list's contract *)
Section Contract.
Context {D : Type} (strcmp : D -> D -> Z).
Implicit Types (h : heap D) (l : list (loc * D)) (cf : D -> D -> Z).

(** Adding a whole sequence. *)
Definition add_all (fl : Z) cf (ds new : list D) : list D :=
  foldl (fun ds d => added fl cf d ds) ds new.

(** Lists that do not share nodes with list [nl] stay what they were. *)
Definition apart h h' (nl : loc) l l' : Prop :=
  forall lp2 fl2 cf2 l2, lp2 <> nl -> (forall a, a ∈ locs l2 -> a ∉ locs l) ->
    is_list h lp2 fl2 cf2 l2 -> is_list h' lp2 fl2 cf2 l2 /\ (forall a, a ∈ locs l2 -> a ∉ locs l').

Lemma add_apart h h' nl fl cf l d n l1 l2 :
  add_done h h' nl n fl cf d l l1 l2 -> nodes h !! n = None -> apart h h' nl l (l1 ++ (n, d) :: l2).
Proof.
  intros (-> & _ & _ & Ho) Hn lp2 fl2 cf2 k Hne Hd Hk. split; [by eapply is_list_other|].
  intros a Ha Hin. unfold locs in Hin, Hd. rewrite fmap_app in Hin, Hd. cbn [fmap list_fmap fst] in Hin.
  rewrite elem_of_app, elem_of_cons in Hin. apply (Hd a Ha). rewrite elem_of_app.
  destruct Hin as [?|[->|?]]; [by left| |by right].
  destruct Hk as [_ Hs _]. apply (seg_dom _ _ _ _ _ Hs), elem_of_dom in Ha. rewrite Hn in Ha. by destruct Ha.
Qed.

Lemma apart_trans h1 h2 h3 nl l1 l2 l3 :
  apart h1 h2 nl l1 l2 -> apart h2 h3 nl l2 l3 -> apart h1 h3 nl l1 l3.
Proof. intros A1 A2 lp fl cf l Hne Hd Hl. destruct (A1 _ _ _ _ Hne Hd Hl). by apply A2. Qed.

Lemma merge_loop_spec fuel h nl fl cf l lp2 fl2 cf2 l1 l2 :
  is_list h lp2 fl2 cf2 (l1 ++ l2) -> is_list h nl fl cf l -> lp2 <> nl ->
  (forall a, a ∈ locs (l1 ++ l2) -> a ∉ locs l) -> oom h = [] -> (length l2 <= fuel)%nat ->
  exists h' l', merge_loop fuel (Some nl) lp2 (last_loc None l1) h = Some (tt, h') /\
    is_list h' nl fl cf l' /\ l'.*2 = add_all fl cf l.*2 l2.*2 /\ apart h h' nl l l' /\ oom h' = [].
Proof.
  revert fuel h l l1. induction l2 as [|[a d] l2 IH]; intros fuel h l l1 H2 Hl Hne Hd Ho Hf.
  - exists h, l. split; [|split; [done|split; [done|split; [|done]]]].
    + pose proof (next_spec _ _ _ _ _ _ H2) as E.
      destruct fuel; cbn [merge_loop]; (etransitivity; [eapply H_run; exact E|]); done.
    + intros lp3 fl3 cf3 l3 _ Hd3 H3. by split.
  - cbn [length] in Hf. destruct fuel as [|fuel]; [lia|].
    pose proof (next_spec _ _ _ _ _ _ H2) as E. pose proof (node_of _ _ _ _ _ _ _ _ H2) as Ha.
    cbn [merge_loop]. destruct (add_spec h nl fl cf l d Hl) as (h1 & n & k1 & k2 & E1 & Hn & Hdone & Ho1).
    { by rewrite Ho. }
    pose proof (add_apart _ _ _ _ _ _ _ _ _ _ Hdone Hn) as Hap.
    destruct Hdone as (_ & Hl1 & Hds & _). destruct (Hap _ _ _ _ Hne Hd H2) as [H2' Hd'].
    rewrite cons_middle, app_assoc in H2', Hd'.
    destruct (IH fuel h1 _ (l1 ++ [(a, d)]) H2' Hl1 Hne Hd') as (h' & l' & E2 & Hl' & Hds' & Hap' & Ho');
      [by rewrite Ho1, Ho|lia|].
    exists h', l'. split; [|split; [done|split; [|split; [by eapply apart_trans|done]]]].
    + etransitivity; [eapply H_run; exact E|]. cbn [found hd_loc].
      etransitivity; [eapply H_run; by apply get_node_run|]. cbn [n_data].
      etransitivity; [eapply H_run; exact E1|]. by rewrite last_loc_cons in E2.
    + rewrite Hds', Hds. done.
Qed.

Lemma new_spec h fl cmp :
  fl ∈ [LIST_USERFUNC; LIST_STACK; LIST_QUEUE] -> oom h = [] ->
  exists h' nl, libtar_list_new strcmp fl cmp h = Some (Some nl, h') /\
    is_list h' nl fl (default strcmp cmp) [] /\ lists h !! nl = None /\
    apart h h' nl [] [] /\ oom h' = [].
Proof.
  intros Hfl Ho. unfold libtar_list_new.
  replace (negb (fl =? LIST_USERFUNC) && negb (fl =? LIST_STACK) && negb (fl =? LIST_QUEUE)) with false.
  2:{ rewrite !elem_of_cons, elem_of_nil in Hfl. by destruct Hfl as [->|[->|[->|[]]]]. }
  set (nl := fresh (dom (lists h))). assert (Hn : lists h !! nl = None) by apply not_elem_of_dom, is_fresh.
  eexists _, nl. split.
  { etransitivity; [eapply H_run; apply alloc_run|]. rewrite Ho. cbn [oom_next fst negb].
    etransitivity; [eapply H_run; reflexivity|]. reflexivity. }
  cbn [lists set_oom]. fold nl. split; [|split; [done|split; [|done]]].
  - split; [|done|constructor]. eexists. split; [cbn [lists]; by rewrite lookup_insert_eq|done].
  - intros lp2 fl2 cf2 l2 Hne Hd [(la & E & Hla) Hs Hnd]. split; [|done]. split; [|done|done].
    exists la. split; [|done]. cbn [lists]. by rewrite lookup_insert_ne.
Qed.

Lemma other_list h nl lp fl cf l : is_list h lp fl cf l -> lists h !! nl = None -> lp <> nl.
Proof. intros [(la & E & _) _ _] Hn ->. by rewrite Hn in E. Qed.

Lemma list_rounds h lp fl cf l : is_list h lp fl cf l -> (length l <= S (size (nodes h)))%nat.
Proof. intros [_ Hs Hn]. pose proof (seg_length _ _ Hs Hn). lia. Qed.

Lemma merge_spec h fl cmp lp1 fl1 cf1 l1 lp2 fl2 cf2 l2 :
  is_list h lp1 fl1 cf1 l1 -> is_list h lp2 fl2 cf2 l2 ->
  fl ∈ [LIST_USERFUNC; LIST_STACK; LIST_QUEUE] -> oom h = [] ->
  exists h' nl l', libtar_list_merge strcmp cmp fl lp1 lp2 h = Some (Some nl, h') /\
    is_list h' nl fl (default strcmp cmp) l' /\
    l'.*2 = add_all fl (default strcmp cmp) [] (l1.*2 ++ l2.*2) /\
    is_list h' lp1 fl1 cf1 l1 /\ is_list h' lp2 fl2 cf2 l2.
Proof.
  intros H1 H2 Hfl Ho. destruct (new_spec h fl cmp Hfl Ho) as (h0 & nl & E0 & Hnl & Hf & A0 & O0).
  assert (Hnone : forall (k : list (loc * D)) a, a ∈ locs k -> a ∉ locs (@nil (loc * D)))
    by (intros k a _ Ha; by apply elem_of_nil in Ha).
  destruct (A0 _ _ _ _ (other_list _ _ _ _ _ _ H1 Hf) (Hnone l1) H1) as [H1' D1].
  destruct (A0 _ _ _ _ (other_list _ _ _ _ _ _ H2 Hf) (Hnone l2) H2) as [H2' D2].
  destruct (merge_loop_spec (S (size (nodes h0))) h0 nl fl _ [] lp1 fl1 cf1 [] l1 H1' Hnl
    (other_list _ _ _ _ _ _ H1 Hf) D1 O0 (list_rounds _ _ _ _ _ H1'))
    as (h1 & k1 & E1 & Hk1 & Ek1 & A1 & O1).
  destruct (A1 _ _ _ _ (other_list _ _ _ _ _ _ H2 Hf) D2 H2') as [H2'' D2'].
  destruct (A1 _ _ _ _ (other_list _ _ _ _ _ _ H1 Hf) D1 H1') as [H1'' D1'].
  destruct (merge_loop_spec (S (size (nodes h1))) h1 nl fl _ k1 lp2 fl2 cf2 [] l2 H2'' Hk1
    (other_list _ _ _ _ _ _ H2 Hf) D2' O1 (list_rounds _ _ _ _ _ H2''))
    as (h2 & k2 & E2 & Hk2 & Ek2 & A2 & O2).
  exists h2, nl, k2. split; [|split; [done|split; [|split]]].
  - unfold libtar_list_merge, rounds.
    etransitivity; [eapply H_run; exact E0|]. etransitivity; [eapply H_run; reflexivity|].
    etransitivity; [eapply H_run; exact E1|]. etransitivity; [eapply H_run; reflexivity|].
    etransitivity; [eapply H_run; exact E2|]. done.
  - rewrite Ek2, Ek1. unfold add_all. by rewrite foldl_app.
  - by destruct (A2 _ _ _ _ (other_list _ _ _ _ _ _ H1 Hf) D1' H1'').
  - by destruct (A2 _ _ _ _ (other_list _ _ _ _ _ _ H2 Hf) D2' H2'').
Qed.

(** Ordered lists *)
Definition in_order cf (x y : D) : Prop := 0 <= cf y x.

Lemma place_perm cf d ds : place cf d ds ≡ₚ d :: ds.
Proof.
  induction ds as [|x ds IH]; [done|]. cbn [place]. case_match; [done|].
  rewrite IH. apply perm_swap.
Qed.

Lemma place_HdRel cf d x ds :
  in_order cf x d -> HdRel (in_order cf) x ds -> HdRel (in_order cf) x (place cf d ds).
Proof.
  intros Hd Hx. destruct Hx as [|y ds Hy]; cbn [place]; [by constructor|].
  by case_match; constructor.
Qed.

Lemma place_sorted cf d ds :
  (forall x y, cf x y < 0 -> 0 <= cf y x) ->
  Sorted (in_order cf) ds -> Sorted (in_order cf) (place cf d ds).
Proof.
  intros Hcf Hs. induction Hs as [|x ds Hs IH Hx]; [by repeat constructor|].
  cbn [place]. destruct (Z.ltb_spec (cf d x) 0) as [Hlt|Hge].
  - constructor; [by constructor|]. constructor. by apply Hcf.
  - constructor; [done|]. by apply place_HdRel.
Qed.

Lemma add_all_sorted cf ds new :
  (forall x y, cf x y < 0 -> 0 <= cf y x) -> Sorted (in_order cf) ds ->
  Sorted (in_order cf) (add_all LIST_USERFUNC cf ds new) /\
  add_all LIST_USERFUNC cf ds new ≡ₚ ds ++ new.
Proof.
  intros Hcf. revert ds. induction new as [|d new IH]; intros ds Hs; cbn [add_all foldl].
  - by rewrite app_nil_r.
  - destruct (IH (place cf d ds)) as [H1 H2]; [by apply place_sorted|]. split; [exact H1|].
    etransitivity; [exact H2|]. rewrite place_perm. by rewrite <- Permutation_middle.
Qed.

Lemma add_all_queue cf ds new : add_all LIST_QUEUE cf ds new = ds ++ new.
Proof.
  revert ds. induction new as [|d new IH]; intros ds; [by rewrite app_nil_r|].
  change (add_all LIST_QUEUE cf ds (d :: new)) with (add_all LIST_QUEUE cf (ds ++ [d]) new).
  rewrite IH. by rewrite <- app_assoc.
Qed.

(** [libtar_list_add] refines the insertion its kind of list stands for: on
    top of a stack, at the end of a queue, before the first larger element of
    an ordered list.  Without memory it returns -1 and changes nothing. *)
Theorem libtar_list_add_refines h lp fl cf l d :
  is_list h lp fl cf l ->
  ((oom_next (oom h)).1 = true ->
     libtar_list_add (Some lp) d h = Some (-1, set_oom (oom_next (oom h)).2 h)) /\
  ((oom_next (oom h)).1 = false ->
     exists h' l', libtar_list_add (Some lp) d h = Some (0, h') /\ is_list h' lp fl cf l' /\
       l'.*2 = added fl cf d l.*2 /\ only_list h h' lp l).
Proof.
  intros Hl. split; intros Ho.
  - unfold libtar_list_add. erewrite H_run by apply alloc_run. by rewrite Ho.
  - destruct (add_spec h lp fl cf l d Hl Ho) as (h' & n & l1 & l2 & E & _ & (_ & H1 & H2 & H3) & _).
    by exists h', (l1 ++ (n, d) :: l2).
Qed.

(** [libtar_list_del] takes out exactly the element pointed at, frees its
    node, leaves every other list alone and moves the pointer to the next
    element. *)
Theorem libtar_list_del_refines h lp fl cf l1 a d l2 :
  is_list h lp fl cf (l1 ++ (a, d) :: l2) ->
  exists h', libtar_list_del lp (Some a) h = Some (hd_loc l2 None, h') /\
    is_list h' lp fl cf (l1 ++ l2) /\ nodes h' !! a = None /\
    only_list h h' lp (l1 ++ (a, d) :: l2).
Proof.
  intros Hl. destruct (del_removed h lp fl cf l1 a d l2 Hl) as (h' & E & Hr & _).
  exists h'. split; [done|]. destruct Hl as [_ Hs Hn].
  split; [by eapply removed_is_list|]. split; [apply Hr|]. by eapply removed_only.
Qed.

(** Merging two lists into an ordered one: the new list is a sorted
    permutation of both, and both are still there. *)
Theorem libtar_list_merge_sorted h cmp lp1 fl1 cf1 l1 lp2 fl2 cf2 l2 :
  is_list h lp1 fl1 cf1 l1 -> is_list h lp2 fl2 cf2 l2 -> oom h = [] ->
  (forall x y, cmp x y < 0 -> 0 <= cmp y x) ->
  exists h' nl l', libtar_list_merge strcmp (Some cmp) LIST_USERFUNC lp1 lp2 h = Some (Some nl, h') /\
    is_list h' nl LIST_USERFUNC cmp l' /\
    Sorted (in_order cmp) l'.*2 /\ l'.*2 ≡ₚ l1.*2 ++ l2.*2 /\
    is_list h' lp1 fl1 cf1 l1 /\ is_list h' lp2 fl2 cf2 l2.
Proof.
  intros H1 H2 Ho Hc.
  destruct (merge_spec h LIST_USERFUNC (Some cmp) _ _ _ _ _ _ _ _ H1 H2) as (h' & nl & l' & E & Hl & El & H);
    [left|done|].
  exists h', nl, l'. split; [done|]. split; [done|]. rewrite El. cbn [default].
  destruct (add_all_sorted cmp [] (l1.*2 ++ l2.*2) Hc) as [Hs Hp]; [constructor|].
  split; [done|]. by split.
Qed.

(** ** Elements from a string *)
Definition tokens (delim s : list Z) : list (list Z) :=
  List.filter (fun f => negb (bool_decide (f = []))) (Compat.fields delim s).

Lemma lift_run {A} (o : option A) x h : o = Some x -> lift o h = Some (x, h).
Proof. by intros ->. Qed.

Lemma strdup_run str_data (null_data : D) s h :
  oom h = [] -> strdup str_data null_data s h = Some (str_data s, h).
Proof. intros Ho. unfold strdup. etransitivity; [eapply H_run, alloc_run|]. rewrite Ho. by destruct h; simpl in *; subst. Qed.

Lemma add_str_loop_spec str_data null_data fuel h lp fl cf l m p s delim :
  is_list h lp fl cf l -> oom h = [] -> str_at m p s -> Forall (fun c => c <> 0) s ->
  (length s < fuel)%nat ->
  exists h' l', add_str_loop str_data null_data fuel (Some lp) m (Some p) delim h = Some (0, h') /\
    is_list h' lp fl cf l' /\ l'.*2 = add_all fl cf l.*2 (str_data <$> tokens delim s) /\ oom h' = [].
Proof.
  revert h l m p s. induction fuel as [|fuel IH]; intros h l m p s Hl Ho Hs Hz Hf; [lia|].
  destruct (Compat.fields_cons delim s) as (f & fs & Ef). pose proof (str_at_bound _ _ _ Hs) as Hb.
  destruct (Compat.strsep_loop_spec delim (length m) m p s f fs Hs Hz ltac:(lia) Ef)
    as (m' & next & E & _ & Hg & Hzg & Hn).
  unfold tokens. rewrite Ef.
  assert (Hrest : forall h l, is_list h lp fl cf l -> oom h = [] ->
    exists h' l', add_str_loop str_data null_data fuel (Some lp) m' next delim h = Some (0, h') /\
      is_list h' lp fl cf l' /\
      l'.*2 = add_all fl cf l.*2 (str_data <$> List.filter (fun f => negb (bool_decide (f = []))) fs) /\
      oom h' = []).
  { intros h1 l1 Hl1 Ho1. destruct fs as [|g gs].
    - destruct Hn as [-> _]. exists h1, l1. split; [by destruct fuel|]. by split.
    - destruct Hn as (r & -> & Hr & Hzr & Hlr & Er).
      destruct (IH h1 l1 m' _ r Hl1 Ho1 Hr Hzr ltac:(lia)) as (h' & l' & H1 & H2 & H3 & H4).
      exists h', l'. split; [exact H1|]. split; [exact H2|]. split; [|exact H4].
      unfold tokens in H3. by rewrite Er in H3. }
  cbn [add_str_loop].
  assert (ES : lift (Compat.compat_strsep m (Some p) delim) h = Some ((m', Some p, next), h)).
  { apply lift_run. cbn [Compat.compat_strsep]. by rewrite E. }
  pose proof (lift_run _ _ h (str_at_cstr _ _ _ Hg Hzg)) as EC.
  destruct f as [|c f]; cbn [List.filter].
  - rewrite bool_decide_eq_true_2 by done. cbn [negb].
    destruct (Hrest h l Hl Ho) as (h' & l' & E1 & H'). exists h', l'. split; [|exact H'].
    etransitivity; [eapply H_run, ES|]. etransitivity; [eapply H_run, EC|]. exact E1.
  - rewrite bool_decide_eq_false_2 by done. cbn [negb].
    destruct (add_spec h lp fl cf l (str_data (c :: f)) Hl) as (h1 & n & l1 & l2 & E1 & _ & Hd & Ho1);
      [by rewrite Ho|]. destruct Hd as (_ & Hl1 & Ed & _). rewrite Ho in Ho1.
    destruct (Hrest h1 _ Hl1 Ho1) as (h' & l' & E2 & H2 & H3 & H4). exists h', l'.
    split; [|split; [exact H2|split; [|exact H4]]].
    + etransitivity; [eapply H_run, ES|]. etransitivity; [eapply H_run, EC|].
      etransitivity; [eapply H_run, strdup_run, Ho|]. etransitivity; [eapply H_run, E1|]. exact E2.
    + by rewrite H3, Ed.
Qed.

(** [libtar_list_add_str] adds the non-empty fields of the string in turn, of
    as much of the string as its buffer of 10240 bytes holds. *)
Theorem libtar_list_add_str_correct str_data null_data h lp fl cf l s delim :
  is_list h lp fl cf l -> oom h = [] -> Forall (fun c => c <> 0) s ->
  exists h' l', libtar_list_add_str str_data null_data (Some lp) s delim h = Some (0, h') /\
    is_list h' lp fl cf l' /\
    l'.*2 = add_all fl cf l.*2 (str_data <$> tokens delim (take (TMP_SIZE - 1) s)).
Proof.
  intros Hl Ho Hz. unfold libtar_list_add_str.
  assert (HT : (0 < TMP_SIZE)%nat) by (apply Nat.ltb_lt; reflexivity).
  set (m := s ++ 0 :: replicate TMP_SIZE 0). set (tmp := (length s + 1)%nat).
  assert (Hlm : length m = (length s + 1 + TMP_SIZE)%nat).
  { unfold m. rewrite length_app. cbn [length]. len. }
  assert (Hs : str_at m 0 s) by (eapply drop_str_at; rewrite drop_0; reflexivity).
  pose proof (Compat.strlcpy_spec m tmp 0 TMP_SIZE s Hs Hz HT) as E.
  rewrite E by lia. clear E. set (t := take (TMP_SIZE - 1) s).
  assert (Hlt : (length t <= TMP_SIZE - 1)%nat) by (unfold t; len).
  destruct (mstore m tmp (t ++ [0])) as [m'|] eqn:E.
  2:{ rewrite mstore_Some in E; [done|]. rewrite length_app. change (length [0]) with 1%nat. lia. }
  assert (Ht : str_at m' tmp t).
  { intros i x Hi. rewrite (mstore_lookup _ _ _ _ _ E). apply lookup_lt_Some in Hi as Hil.
    rewrite decide_True by lia. rewrite <- Hi. f_equal. lia. }
  destruct (add_str_loop_spec str_data null_data (S TMP_SIZE) h lp fl cf l m' tmp t delim Hl Ho Ht)
    as (h' & l' & E1 & Hl' & Ed & _); [by apply Forall_take|lia|].
  exists h', l'. split; [|by split].
  etransitivity; [eapply H_run, lift_run; reflexivity|]. exact E1.
Qed.
End Contract.

(** ** Two lists *)

(** An ordered list of 3 and 7 and a queue of 5 and 1. *)
Definition demo_build : H Z (option loc * option loc) :=
  a ← libtar_list_new Z.sub LIST_USERFUNC (Some Z.sub);
  libtar_list_add a 7;; libtar_list_add a 3;;
  b ← libtar_list_new Z.sub LIST_QUEUE None;
  libtar_list_add b 5;; libtar_list_add b 1;;
  mret (a, b).
Definition demo_heap : heap Z :=
  match demo_build (mk_heap ∅ ∅ [] 0) with Some (_, h) => h | None => mk_heap ∅ ∅ [] 0 end.

Lemma demo_is_list :
  exists la lb a b a' b', is_list demo_heap la LIST_USERFUNC Z.sub [(a, 3); (b, 7)] /\
    is_list demo_heap lb LIST_QUEUE Z.sub [(a', 5); (b', 1)] /\ oom demo_heap = [].
Proof.
  exists 1%positive, 2%positive, 2%positive, 1%positive, 3%positive, 4%positive.
  split; [|split; [|reflexivity]].
  - split; [eexists; split; [vm_compute; reflexivity|reflexivity]|by vm_compute|].
    apply (bool_decide_unpack _). by vm_compute.
  - split; [eexists; split; [vm_compute; reflexivity|reflexivity]|by vm_compute|].
    apply (bool_decide_unpack _). by vm_compute.
Qed.

Lemma libtar_list_add_refines_witness :
  exists h' lp l', libtar_list_add (Some lp) 5 demo_heap = Some (0, h') /\
    is_list h' lp LIST_USERFUNC Z.sub l' /\ l'.*2 = [3; 5; 7].
Proof.
  destruct demo_is_list as (la & lb & a & b & a' & b' & Ha & _ & Ho).
  destruct (proj2 (libtar_list_add_refines demo_heap la LIST_USERFUNC Z.sub _ 5 Ha))
    as (h' & l' & E & Hl & Ed & _); [by rewrite Ho|].
  exists h', la, l'. split; [exact E|]. split; [exact Hl|exact Ed].
Defined.

Lemma libtar_list_del_refines_witness :
  exists h' lp a b, libtar_list_del lp (Some a) demo_heap = Some (Some b, h') /\
    is_list h' lp LIST_USERFUNC Z.sub [(b, 7)] /\ nodes h' !! a = None.
Proof.
  destruct demo_is_list as (la & lb & a & b & a' & b' & Ha & _ & Ho).
  destruct (libtar_list_del_refines demo_heap la LIST_USERFUNC Z.sub [] a 3 [(b, 7)] Ha)
    as (h' & E & Hl & Hn & _).
  exists h', la, a, b. split; [exact E|]. split; [exact Hl|exact Hn].
Defined.

Lemma libtar_list_merge_sorted_witness :
  exists h' la lb nl l', libtar_list_merge Z.sub (Some Z.sub) LIST_USERFUNC la lb demo_heap =
      Some (Some nl, h') /\ is_list h' nl LIST_USERFUNC Z.sub l' /\
    Sorted (in_order Z.sub) l'.*2 /\ l'.*2 ≡ₚ [3; 7; 5; 1].
Proof.
  destruct demo_is_list as (la & lb & a & b & a' & b' & Ha & Hb & Ho).
  destruct (libtar_list_merge_sorted Z.sub demo_heap Z.sub la _ _ _ lb _ _ _ Ha Hb Ho)
    as (h' & nl & l' & E & Hl & Hs & Hp & _); [lia|].
  exists h', la, lb, nl, l'. split; [exact E|]. split; [exact Hl|]. split; [exact Hs|exact Hp].
Defined.

(** Strings as elements, with the numbers of the demonstration as their
    lengths. *)
Lemma libtar_list_add_str_correct_witness :
  exists (h' : heap Z) (lp : loc) l',
    libtar_list_add_str (fun s => Z.of_nat (length s)) 0 (Some lp) (bs ":abcde::ab") (bs ":") demo_heap =
      Some (0, h') /\ is_list h' lp LIST_USERFUNC Z.sub l' /\ l'.*2 = [2; 3; 5; 7].
Proof.
  destruct demo_is_list as (la & lb & a & b & a' & b' & Ha & _ & Ho).
  destruct (libtar_list_add_str_correct (fun s => Z.of_nat (length s)) 0 demo_heap la _ _ _ (bs ":abcde::ab") (bs ":") Ha Ho)
    as (h' & l' & E & Hl & Ed); [apply (bool_decide_unpack _); reflexivity|].
  exists h', la, l'. split; [exact E|]. split; [exact Hl|]. rewrite Ed. reflexivity.
Defined.
End LibtarList.
