(* ===== verification/LibtarHash.v ===== *)
(** * par: the hash table (libtar_hash.c)

    A table of pointers to the lists of LibtarList, which share one heap.
    The table's own structure is a value the operations return updated. *)
From S2P Require Import Prelude CLib Compat LibtarList.

Module LibtarHash.
Export LibtarList.

Record libtar_hashptr := mk_hashptr { bucket : Z; hnode : option loc }.

Record libtar_hash (D : Type) := mk_hash {
  numbuckets : Z; table : list (option loc); hashfunc : D -> Z -> Z; h_nents : Z }.
Arguments mk_hash {D}. Arguments numbuckets {D}. Arguments table {D}. Arguments hashfunc {D}.
Arguments h_nents {D}.

Section Ops.
Context {D : Type} (strcmp : D -> D -> Z) (str_hash : D -> Z -> Z).
Implicit Types (h : libtar_hash D) (hp : libtar_hashptr).

Definition libtar_hashptr_reset : libtar_hashptr := mk_hashptr (-1) libtar_listptr_reset.
Definition libtar_hashptr_data hp : H D D := libtar_listptr_data (hnode hp).

Definition libtar_hash_nents h : Z := h_nents h.

(** Both allocations are checked. *)
Definition libtar_hash_new (num : Z) (hf : option (D -> Z -> Z)) : H D (option (libtar_hash D)) :=
  ok ← alloc;
  if negb ok then mret None
  else
    ok ← alloc;
    if negb ok then mret None
    else mret (Some (mk_hash num (replicate (Z.to_nat num) None) (default str_hash hf) 0)).

(** [h->table[i]] *)
Definition bucket_at h (i : Z) : H D (option loc) := fun hh =>
  if i <? 0 then None else b ← table h !! Z.to_nat i; Some (b, hh).

(** The loop over the buckets from [b] on: the first that has an element. *)
Fixpoint next_bucket (fuel : nat) h (b : Z) : H D (Z * libtar_hashptr) :=
  match fuel with
  | O => undef
  | S f =>
      if b <? numbuckets h then
        lp ← bucket_at h b;
        match lp with
        | Some lp =>
            '(r, n) ← libtar_list_next lp None;
            if negb (r =? 0) then mret (1, mk_hashptr b n) else next_bucket f h (b + 1)
        | None => next_bucket f h (b + 1)
        end
      else mret (0, if b =? numbuckets h then mk_hashptr (-1) None else mk_hashptr b None)
  end.

Definition libtar_hash_next h hp : H D (Z * libtar_hashptr) :=
  '(r, n) ← (if (bucket hp >=? 0) && bool_decide (is_Some (hnode hp)) then
               lp ← bucket_at h (bucket hp);
               match lp with Some lp => libtar_list_next lp (hnode hp) | None => undef end
             else mret (0, hnode hp));
  if negb (r =? 0) then mret (1, mk_hashptr (bucket hp) n)
  else if bucket hp + 1 <? numbuckets h
    then next_bucket (Z.to_nat (numbuckets h - bucket hp)) h (bucket hp + 1)
    else mret (0, if bucket hp + 1 =? numbuckets h then mk_hashptr (-1) None
                  else mk_hashptr (bucket hp + 1) n).

Definition set_h_nents (n : Z) h : libtar_hash D := mk_hash (numbuckets h) (table h) (hashfunc h) n.
Definition set_table (t : list (option loc)) h : libtar_hash D :=
  mk_hash (numbuckets h) t (hashfunc h) (h_nents h).

Definition libtar_hash_del h hp : H D (Z * libtar_hash D * libtar_hashptr) :=
  if (bucket hp <? 0) || (bucket hp >=? numbuckets h) then
    set_errno EINVAL;; mret (-1, h, hp)
  else
    lp ← bucket_at h (bucket hp);
    match lp, hnode hp with
    | Some lp, Some _ =>
        n ← libtar_list_del lp (hnode hp);
        mret (0, set_h_nents (u32 (h_nents h - 1)) h, mk_hashptr (bucket hp) n)
    | _, _ => set_errno EINVAL;; mret (-1, h, hp)
    end.

(** [for (i = 0; i < h->numbuckets; i++) if (h->table[i] != NULL) ...] *)
Fixpoint each_bucket (f : loc -> H D unit) (t : list (option loc)) : H D unit :=
  match t with
  | [] => mret tt
  | None :: t' => each_bucket f t'
  | Some lp :: t' => f lp;; each_bucket f t'
  end.

Definition libtar_hash_empty h (freefunc : option (D -> H D unit)) : H D (libtar_hash D) :=
  each_bucket (fun lp => libtar_list_empty lp freefunc) (table h);;
  mret (set_h_nents 0 h).

Definition libtar_hash_free h (freefunc : option (D -> H D unit)) : H D unit :=
  each_bucket (fun lp => libtar_list_free lp freefunc) (table h).

(** Every round moves to a later element; there are no more of them than
    nodes. *)
Fixpoint hash_search_loop (fuel : nat) h hp (data : D) (matchfunc : D -> D -> bool) :
    H D (Z * libtar_hashptr) :=
  match fuel with
  | O => undef
  | S f =>
      '(r, hp) ← libtar_hash_next h hp;
      if negb (r =? 0) then
        d ← libtar_hashptr_data hp;
        if matchfunc data d then mret (1, hp) else hash_search_loop f h hp data matchfunc
      else mret (0, hp)
  end.
Definition libtar_hash_search h hp (data : D) (matchfunc : D -> D -> bool) : H D (Z * libtar_hashptr) :=
  k ← rounds; hash_search_loop k h hp data matchfunc.

Definition libtar_hash_getkey h hp (key : D) (matchfunc : option (D -> D -> bool)) :
    H D (Z * libtar_hashptr) :=
  let b := if bucket hp =? -1 then i32 (hashfunc h key (numbuckets h)) else bucket hp in
  lp ← bucket_at h b;
  match lp with
  | None => mret (0, mk_hashptr (-1) (hnode hp))
  | Some lp => '(r, n) ← libtar_list_search strcmp lp (hnode hp) key matchfunc; mret (r, mk_hashptr b n)
  end.

Definition libtar_hash_add h (data : D) : H D (Z * libtar_hash D) :=
  let b := i32 (hashfunc h data (numbuckets h)) in
  lp ← bucket_at h b;
  h ← (match lp with
       | Some _ => mret h
       | None => nl ← libtar_list_new strcmp LIST_QUEUE None;
                 mret (set_table (<[Z.to_nat b := nl]> (table h)) h)
       end);
  lp ← bucket_at h b;
  r ← libtar_list_add lp data;
  mret (r, if r =? 0 then set_h_nents (u32 (h_nents h + 1)) h else h).
End Ops.

(** The default hash function looks at the first character only; a [char] is
    signed. *)
Definition libtar_str_hashfunc (key : option (list Z)) (num_buckets : Z) : Z :=
  match key with
  | None => 0
  | Some k => u32 (i8 (hd 0 k)) `mod` num_buckets
  end.

(** ** What a table holds *)
Section Repr.
Context {D : Type} (strcmp : D -> D -> Z).
Implicit Types (h : libtar_hash D) (hh : heap D) (ct : list (list (loc * D))).

(** [ct] lists the elements of every bucket.  The lists of the buckets are
    separate, and every element is in the bucket of its hash. *)
Record hash_ok hh h ct : Prop := {
  ok_size : 0 < numbuckets h < 2 ^ 31;
  ok_table : Z.of_nat (length (table h)) = numbuckets h;
  ok_ct : length ct = length (table h);
  ok_list : forall i lp l, table h !! i = Some (Some lp) -> ct !! i = Some l ->
    is_list hh lp LIST_QUEUE strcmp l;
  ok_none : forall i l, table h !! i = Some None -> ct !! i = Some l -> l = [];
  ok_sep : forall i j lp, table h !! i = Some (Some lp) -> table h !! j = Some (Some lp) -> i = j;
  ok_apart : forall i j l k a, i <> j -> ct !! i = Some l -> ct !! j = Some k ->
    a ∈ locs l -> a ∉ locs k;
  ok_hashed : forall i l d, ct !! i = Some l -> d ∈ l.*2 -> hashfunc h d (numbuckets h) = Z.of_nat i;
  ok_nents : h_nents h = u32 (Z.of_nat (sum_list (length <$> ct))) }.

(** A hash function that keeps to the table for this key. *)
Definition hashes h (d : D) : Prop := 0 <= hashfunc h d (numbuckets h) < numbuckets h.

Lemma bucket_run hh h ct b :
  hash_ok hh h ct -> 0 <= b < numbuckets h ->
  exists lp l, table h !! Z.to_nat b = Some lp /\ ct !! Z.to_nat b = Some l /\
    bucket_at h b hh = Some (lp, hh).
Proof.
  intros Ok Hb. pose proof (ok_table _ _ _ Ok). pose proof (ok_ct _ _ _ Ok).
  destruct (lookup_lt_is_Some_2 (table h) (Z.to_nat b)) as [lp Hlp]; [lia|].
  destruct (lookup_lt_is_Some_2 ct (Z.to_nat b)) as [l Hl]; [lia|].
  exists lp, l. split; [done|]. split; [done|]. unfold bucket_at.
  rewrite (proj2 (Z.ltb_ge _ _)) by lia. by rewrite Hlp.
Qed.

Lemma new_hash_ok hh num hf :
  0 < num < 2 ^ 31 -> hash_ok hh (mk_hash num (replicate (Z.to_nat num) None) hf 0)
    (replicate (Z.to_nat num) []).
Proof.
  intros Hn. split; cbn [numbuckets table h_nents hashfunc].
  - lia.
  - len.
  - by rewrite !length_replicate.
  - intros i lp l Hi. by apply lookup_replicate in Hi as [? _].
  - intros i l _ Hi. by apply lookup_replicate in Hi as [? _].
  - intros i j lp Hi. by apply lookup_replicate in Hi as [? _].
  - intros i j l k a _ Hi _ Ha. apply lookup_replicate in Hi as [-> _]. by apply elem_of_nil in Ha.
  - intros i l d Hi Hd. apply lookup_replicate in Hi as [-> _]. by apply elem_of_nil in Hd.
  - by generalize (Z.to_nat num); intros n; induction n.
Qed.

(** ** Looking a key up *)
Lemma getkey_spec hh h ct key m :
  hash_ok hh h ct -> hashes h key ->
  exists r hp, libtar_hash_getkey strcmp h libtar_hashptr_reset key (Some m) hh = Some ((r, hp), hh) /\
    match ct !! Z.to_nat (hashfunc h key (numbuckets h)) with
    | Some l =>
        (r = 0 /\ Forall (fun d => m key d = false) l.*2) \/
        (exists l1 a d l2, l = l1 ++ (a, d) :: l2 /\ r = 1 /\ m key d = true /\
           Forall (fun d => m key d = false) l1.*2 /\ libtar_hashptr_data hp hh = Some (d, hh))
    | None => False
    end.
Proof.
  intros Ok Hh. pose proof (ok_size _ _ _ Ok). unfold hashes in Hh.
  unfold libtar_hash_getkey. cbn [bucket libtar_hashptr_reset hnode]. rewrite Z.eqb_refl.
  rewrite i32_small by lia. set (b := hashfunc h key (numbuckets h)) in *.
  destruct (bucket_run hh h ct b Ok Hh) as (lp & l & Hlp & Hl & E). rewrite Hl.
  destruct lp as [lp|].
  - pose proof (ok_list _ _ _ Ok _ _ _ Hlp Hl) as Hil.
    destruct (search_spec strcmp hh lp _ _ key m [] l Hil) as ([r n] & Es & Hr).
    exists r, (mk_hashptr b n). split.
    + etransitivity; [eapply H_run, E|]. cbv beta iota.
      etransitivity; [eapply H_run, Es|]. done.
    + destruct Hr as [[[= -> ->] Hn]|(l1 & a & d & l2 & -> & [= -> ->] & Hm & Hn)]; [left; by split|].
      right. exists l1, a, d, l2. split; [done|]. split; [done|]. split; [done|]. split; [done|].
      unfold libtar_hashptr_data, libtar_listptr_data. cbn [hnode].
      etransitivity; [eapply H_run, get_node_run, node_of, Hil|]. done.
  - pose proof (ok_none _ _ _ Ok _ _ Hlp Hl) as ->.
    exists 0, (mk_hashptr (-1) None). split; [|left; by split].
    etransitivity; [eapply H_run, E|]. done.
Qed.

(** ** Adding *)
Lemma total_insert ct i l k n :
  ct !! i = Some l -> length k = (length l + n)%nat ->
  sum_list (length <$> <[i := k]> ct) = (sum_list (length <$> ct) + n)%nat.
Proof.
  intros H Hk. rewrite insert_take_drop by (by eapply lookup_lt_Some).
  rewrite <- (take_drop_middle ct i l H) at 3.
  rewrite !fmap_app, !fmap_cons, !sum_list_with_app. cbn. lia.
Qed.

Lemma bucket_of_elem hh h ct i l d :
  hash_ok hh h ct -> ct !! i = Some l -> d ∈ l.*2 -> Z.to_nat (hashfunc h d (numbuckets h)) = i.
Proof. intros Ok Hl Hd. rewrite (ok_hashed _ _ _ Ok _ _ _ Hl Hd). lia. Qed.

(** The element a list in one bucket gained leaves the rest of the table
    alone. *)
Lemma bucket_grown hh hh' h ct b lp l1 l2 n d :
  let l := l1 ++ l2 in let l' := l1 ++ (n, d) :: l2 in
  hash_ok hh h ct -> table h !! b = Some (Some lp) -> ct !! b = Some l ->
  is_list hh' lp LIST_QUEUE strcmp l' -> nodes hh !! n = None ->
  only_list hh hh' lp l -> hashfunc h d (numbuckets h) = Z.of_nat b ->
  hash_ok hh' (set_h_nents (u32 (h_nents h + 1)) h) (<[b := l']> ct).
Proof.
  intros l l' Ok Hb Hl Hnew Hn Ho Hh.
  assert (Hin' : forall a, a ∈ locs l' <-> a = n \/ a ∈ locs l).
  { intros a. unfold locs, l, l'. rewrite !fmap_app, !elem_of_app. cbn [fmap list_fmap fst].
    rewrite elem_of_cons. tauto. }
  assert (Hbl : (b < length ct)%nat) by (by eapply lookup_lt_Some).
  assert (Hfresh : forall i k, ct !! i = Some k -> n ∉ locs k).
  { intros i k Hk Hin. destruct (lookup_lt_is_Some_2 (table h) i) as [x Hx].
    { rewrite <- (ok_ct _ _ _ Ok). by eapply lookup_lt_Some. }
    destruct x as [lq|].
    - destruct (ok_list _ _ _ Ok _ _ _ Hx Hk) as [_ Hs _].
      apply (seg_dom _ _ _ _ _ Hs), elem_of_dom in Hin. rewrite Hn in Hin. by destruct Hin.
    - rewrite (ok_none _ _ _ Ok _ _ Hx Hk) in Hin. by apply elem_of_nil in Hin. }
  split; cbn [numbuckets table h_nents hashfunc set_h_nents].
  - apply Ok.
  - apply Ok.
  - rewrite length_insert. apply Ok.
  - intros i lq k Hi Hk. destruct (decide (i = b)) as [->|Hne].
    + rewrite list_lookup_insert_eq in Hk by done. injection Hk as <-. rewrite Hb in Hi. by injection Hi as <-.
    + rewrite list_lookup_insert_ne in Hk by done.
      eapply is_list_other; [exact Ho| | |by apply (ok_list _ _ _ Ok i)].
      * intros ->. apply Hne. by eapply (ok_sep _ _ _ Ok).
      * intros a Ha. by eapply (ok_apart _ _ _ Ok i b).
  - intros i k Hi Hk. destruct (decide (i = b)) as [->|Hne]; [by rewrite Hb in Hi|].
    rewrite list_lookup_insert_ne in Hk by done. by eapply (ok_none _ _ _ Ok).
  - apply Ok.
  - intros i j k1 k2 a Hij Hi Hj Ha.
    destruct (decide (i = b)) as [->|Hib]; [rewrite list_lookup_insert_eq in Hi by done; injection Hi as <-|
      rewrite list_lookup_insert_ne in Hi by done];
    (destruct (decide (j = b)) as [->|Hjb]; [rewrite list_lookup_insert_eq in Hj by done; injection Hj as <-|
      rewrite list_lookup_insert_ne in Hj by done]); try done.
    + apply Hin' in Ha as [->|Ha]; [by eapply Hfresh|by eapply (ok_apart _ _ _ Ok b j)].
    + rewrite Hin'. intros [->|Hx]; [by eapply Hfresh|]. by eapply (ok_apart _ _ _ Ok i b).
    + by eapply (ok_apart _ _ _ Ok i j).
  - intros i k x Hk Hx. destruct (decide (i = b)) as [->|Hne].
    + rewrite list_lookup_insert_eq in Hk by done. injection Hk as <-.
      assert (x = d \/ x ∈ l.*2) as [->|Hx']; [|done|by eapply (ok_hashed _ _ _ Ok)].
      unfold l, l' in *. rewrite fmap_app in *. cbn [fmap list_fmap snd] in Hx. set_solver.
    + rewrite list_lookup_insert_ne in Hk by done. by eapply (ok_hashed _ _ _ Ok).
  - rewrite (ok_nents _ _ _ Ok), u32_add_1, (total_insert _ _ _ _ 1 Hl).
    { f_equal. lia. } unfold l, l'. len.
Qed.

Lemma bucket_created hh hh' h ct b nl :
  hash_ok hh h ct -> table h !! b = Some None -> is_list hh' nl LIST_QUEUE strcmp [] ->
  lists hh !! nl = None -> apart hh hh' nl [] [] ->
  hash_ok hh' (set_table (<[b := Some nl]> (table h)) h) ct.
Proof.
  intros Ok Hb Hnl Hnone Hap.
  assert (Hbl : (b < length (table h))%nat) by (by eapply lookup_lt_Some).
  assert (Hold : forall i lp, table h !! i = Some (Some lp) -> lp <> nl).
  { intros i lp Hi ->. destruct (lookup_lt_is_Some_2 ct i) as [l Hl].
    { rewrite (ok_ct _ _ _ Ok). by eapply lookup_lt_Some. }
    destruct (ok_list _ _ _ Ok _ _ _ Hi Hl) as [(la & E & _) _ _]. by rewrite Hnone in E. }
  destruct Ok as [O1 O2 O3 O4 O5 O6 O7 O8 O9].
  split; cbn [numbuckets table h_nents hashfunc set_table]; rewrite ?length_insert; try done.
  - intros i lp l Hi Hl. destruct (decide (i = b)) as [->|Hne].
    + rewrite list_lookup_insert_eq in Hi by done. injection Hi as <-. by rewrite (O5 _ _ Hb Hl).
    + rewrite list_lookup_insert_ne in Hi by done. apply (Hap lp); [by eapply Hold| |by eapply O4].
      intros a _ Ha. by apply elem_of_nil in Ha.
  - intros i l Hi Hl. destruct (decide (i = b)) as [->|Hne].
    + by rewrite list_lookup_insert_eq in Hi.
    + rewrite list_lookup_insert_ne in Hi by done. by eapply O5.
  - intros i j lp Hi Hj. destruct (decide (i = b)) as [->|Hib]; destruct (decide (j = b)) as [->|Hjb];
      rewrite ?list_lookup_insert_eq, ?list_lookup_insert_ne in Hi by done;
      rewrite ?list_lookup_insert_eq, ?list_lookup_insert_ne in Hj by done; try done.
    + injection Hi as <-. by destruct (Hold _ _ Hj).
    + injection Hj as <-. by destruct (Hold _ _ Hi).
    + by eapply O6.
Qed.

(** Adding with memory to spare: the element goes to the end of its bucket. *)
Lemma hash_add_spec hh h ct d :
  hash_ok hh h ct -> hashes h d -> oom hh = [] ->
  exists hh' h' l l', libtar_hash_add strcmp h d hh = Some ((0, h'), hh') /\
    ct !! Z.to_nat (hashfunc h d (numbuckets h)) = Some l /\ l'.*2 = l.*2 ++ [d] /\
    hash_ok hh' h' (<[Z.to_nat (hashfunc h d (numbuckets h)) := l']> ct) /\
    numbuckets h' = numbuckets h /\ hashfunc h' = hashfunc h /\ oom hh' = [].
Proof.
  intros Ok Hh Ho. pose proof (ok_size _ _ _ Ok). pose proof Hh as Hh'. unfold hashes in Hh'.
  unfold libtar_hash_add. rewrite i32_small by lia. set (b := hashfunc h d (numbuckets h)) in *.
  destruct (bucket_run hh h ct b Ok Hh') as (lp & l & Hlp & Hl & E).
  (* after the first part there is a list in the bucket *)
  assert (exists hh1 h1 lp1, (match lp with
       | Some _ => mret h
       | None => nl ← libtar_list_new strcmp LIST_QUEUE None;
                 mret (set_table (<[Z.to_nat b := nl]> (table h)) h)
       end) hh = Some (h1, hh1) /\ hash_ok hh1 h1 ct /\ table h1 !! Z.to_nat b = Some (Some lp1) /\
       oom hh1 = [] /\ numbuckets h1 = numbuckets h /\ hashfunc h1 = hashfunc h)
    as (hh1 & h1 & lp1 & E1 & Ok1 & Hlp1 & Ho1 & Hn1 & Hf1).
  { destruct lp as [lp|]; [by exists hh, h, lp|].
    destruct (new_spec strcmp hh LIST_QUEUE None) as (hh1 & nl & En & Hnl & Hnone & Hap & Ho1); [set_solver|done|].
    exists hh1, (set_table (<[Z.to_nat b := Some nl]> (table h)) h), nl.
    split; [etransitivity; [eapply H_run, En|done]|].
    split; [by eapply bucket_created|]. split; [|done]. cbn [table set_table].
    apply list_lookup_insert_eq. by eapply lookup_lt_Some. }
  destruct (bucket_run hh1 h1 ct b Ok1) as (x & l' & Hx & Hl' & E2); [by rewrite Hn1|].
  rewrite Hlp1 in Hx. injection Hx as <-. rewrite Hl in Hl'. injection Hl' as <-.
  pose proof (ok_list _ _ _ Ok1 _ _ _ Hlp1 Hl) as Hil.
  destruct (add_spec hh1 lp1 _ _ l d Hil) as (hh2 & n & l1 & l2 & E3 & Hn & (-> & Hil2 & Hd & Hon) & Ho2);
    [by rewrite Ho1|].
  eexists hh2, _, (l1 ++ l2), (l1 ++ (n, d) :: l2). split; [|split; [done|split; [exact Hd|]]].
  - etransitivity; [eapply H_run, E|]. etransitivity; [eapply H_run, E1|].
    etransitivity; [eapply H_run, E2|]. etransitivity; [eapply H_run, E3|]. done.
  - split; [|by rewrite <- Hn1, <- Hf1, Ho2, Ho1]. eapply bucket_grown; try done. rewrite Hf1, Hn1. fold b. lia.
Qed.

(** All elements, bucket by bucket. *)
Definition elements ct : list D := ct ≫= (fun l => l.*2).

Lemma elements_In ct d : d ∈ elements ct <-> exists i l, ct !! i = Some l /\ d ∈ l.*2.
Proof.
  unfold elements. rewrite list_elem_of_bind. split.
  - intros (l & Hd & Hl). apply list_elem_of_lookup in Hl as [i Hi]. by exists i, l.
  - intros (i & l & Hl & Hd). exists l. split; [done|]. by eapply list_elem_of_lookup_2.
Qed.

Lemma elements_insert ct i l l' d :
  ct !! i = Some l -> l'.*2 = l.*2 ++ [d] -> elements (<[i := l']> ct) ≡ₚ d :: elements ct.
Proof.
  intros H E. unfold elements. rewrite insert_take_drop by (by eapply lookup_lt_Some).
  rewrite <- (take_drop_middle ct i l H) at 3. rewrite !bind_app. cbn [mbind list_bind]. rewrite E.
  rewrite <- app_assoc. cbn [app]. rewrite <- !Permutation_middle. done.
Qed.

Lemma hash_add_elements hh h ct d :
  hash_ok hh h ct -> hashes h d -> oom hh = [] ->
  exists hh' h' ct', libtar_hash_add strcmp h d hh = Some ((0, h'), hh') /\ hash_ok hh' h' ct' /\
    elements ct' ≡ₚ d :: elements ct /\ numbuckets h' = numbuckets h /\ hashfunc h' = hashfunc h /\ oom hh' = [].
Proof.
  intros Ok Hh Ho.
  destruct (hash_add_spec hh h ct d Ok Hh Ho) as (hh' & h' & l & l' & E & Hl & Ed & Ok' & H).
  eexists hh', h', _. split; [done|]. split; [done|]. split; [by eapply elements_insert|exact H].
Qed.

(** C38: [libtar_hash_add] adds one element to the table, in the bucket of its
    hash, creating the bucket's list when there is none, and keeps the table
    well-formed. *)
Theorem libtar_hash_add_refines hh h ct d :
  hash_ok hh h ct -> hashes h d -> oom hh = [] ->
  exists hh' h' ct', libtar_hash_add strcmp h d hh = Some ((0, h'), hh') /\ hash_ok hh' h' ct' /\
    elements ct' ≡ₚ d :: elements ct.
Proof.
  intros Ok Hh Ho. destruct (hash_add_elements hh h ct d Ok Hh Ho) as (hh' & h' & ct' & E & Ok' & P & _).
  by exists hh', h', ct'.
Qed.

(** Which allocations fail has no part in the invariant. *)
Lemma hash_ok_oom o hh h ct : hash_ok hh h ct -> hash_ok (set_oom o hh) h ct.
Proof.
  intros [O1 O2 O3 O4 O5 O6 O7 O8 O9]. split; try done. intros i lp l Hi Hl.
  destruct (O4 i lp l Hi Hl) as [H1 H2 H3]. by split.
Qed.

(** The same for the whole table. *)
Lemma getkey_found hh h ct key m :
  hash_ok hh h ct -> hashes h key ->
  (forall d, m key d = true -> hashfunc h d (numbuckets h) = hashfunc h key (numbuckets h)) ->
  exists r hp, libtar_hash_getkey strcmp h libtar_hashptr_reset key (Some m) hh = Some ((r, hp), hh) /\
    ((r = 1 /\ exists d, libtar_hashptr_data hp hh = Some (d, hh) /\ d ∈ elements ct /\ m key d = true) \/
     (r = 0 /\ forall d, d ∈ elements ct -> m key d = false)).
Proof.
  intros Ok Hh Hm. destruct (getkey_spec hh h ct key m Ok Hh) as (r & hp & E & Hr).
  exists r, hp. split; [done|]. destruct (ct !! _) as [l|] eqn:El; [|done].
  destruct Hr as [[-> Hn]|(l1 & a & d & l2 & -> & -> & Hmd & _ & Hd)].
  - right. split; [done|]. intros d Hd. apply elements_In in Hd as (i & l' & Hl' & Hd).
    destruct (m key d) eqn:Emd; [|done]. exfalso.
    pose proof (ok_hashed _ _ _ Ok _ _ _ Hl' Hd) as Hi. rewrite (Hm d Emd) in Hi. rewrite Hi, Nat2Z.id in El.
    rewrite Hl' in El. injection El as ->. rewrite Forall_forall in Hn. rewrite (Hn d Hd) in Emd. done.
  - left. split; [done|]. exists d. split; [done|]. split; [|done].
    apply elements_In. eexists _, _. split; [exact El|]. rewrite fmap_app, elem_of_app. right. left.
Qed.
(** A look-up from the start finds a matching element of the whole table if
    there is one, provided that what matches the key hashes like the key. *)
Theorem libtar_hash_getkey_finds hh h ct key m :
  hash_ok hh h ct -> hashes h key ->
  (forall d, m key d = true -> hashfunc h d (numbuckets h) = hashfunc h key (numbuckets h)) ->
  exists r hp, libtar_hash_getkey strcmp h libtar_hashptr_reset key (Some m) hh = Some ((r, hp), hh) /\
    ((r = 1 /\ exists d, libtar_hashptr_data hp hh = Some (d, hh) /\ d ∈ elements ct /\ m key d = true) \/
     (r = 0 /\ forall d, d ∈ elements ct -> m key d = false)).
Proof. exact (getkey_found hh h ct key m). Qed.

(** ** Freeing *)

(** Buckets with separate lists, whose elements can be freed. *)
Fixpoint separate (ff : option (D -> H D unit)) hh (tb : list (option loc)) ct : Prop :=
  match tb, ct with
  | [], [] => True
  | o :: tb, l :: ct =>
      match o with
      | Some lp => is_list hh lp LIST_QUEUE strcmp l /\ frees ff l /\ Some lp ∉ tb /\
          (forall k a, k ∈ ct -> a ∈ locs k -> a ∉ locs l)
      | None => l = []
      end /\ separate ff hh tb ct
  | _, _ => False
  end.

Lemma separate_other ff hh hh' lp l tb ct :
  only_list hh hh' lp l -> Some lp ∉ tb -> (forall k a, k ∈ ct -> a ∈ locs k -> a ∉ locs l) ->
  separate ff hh tb ct -> separate ff hh' tb ct.
Proof.
  intros Ho. revert ct. induction tb as [|o tb IH]; intros [|k ct] Hn Hd; try done.
  apply not_elem_of_cons in Hn as [Hne Hn]. intros [Hk Hs].
  split; [|apply IH; [done|intros k' a Hk'; apply Hd; by right|done]].
  destruct o as [lq|]; [|done]. destruct Hk as (H1 & H2 & H3 & H4). split; [|done].
  eapply is_list_other; [exact Ho|congruence| |exact H1]. intros a. apply Hd. left.
Qed.

(** Every list and every node of the table goes, and nothing else. *)
Lemma each_bucket_free ff hh tb ct :
  separate ff hh tb ct ->
  exists hh', each_bucket (fun lp => libtar_list_free lp ff) tb hh = Some (tt, hh') /\
    (forall lp, lists hh' !! lp = if bool_decide (Some lp ∈ tb) then None else lists hh !! lp) /\
    (forall a, (exists l, l ∈ ct /\ a ∈ locs l) -> nodes hh' !! a = None) /\
    (forall a, (forall l, l ∈ ct -> a ∉ locs l) -> nodes hh' !! a = nodes hh !! a).
Proof.
  revert hh ct. induction tb as [|o tb IH]; intros hh [|l ct] Hs; try done.
  { exists hh. split; [done|]. split; [done|]. split; [|done]. intros a (l & Hl & _). by apply elem_of_nil in Hl. }
  destruct Hs as [Ho Hs]. destruct o as [lp|]; cbn [each_bucket].
  - destruct Ho as (Hl & Hff & Hlp & Hd).
    destruct (free_spec hh lp ff _ _ l Hl Hff) as (h1 & E1 & E2 & E3 & E4 & E5).
    destruct (IH h1 ct) as (h2 & F1 & F2 & F3 & F4); [by eapply separate_other|].
    exists h2. split; [etransitivity; [eapply H_run, E1|exact F1]|]. split; [|split].
    + intros lq. rewrite F2. destruct (decide (lq = lp)) as [->|Hne].
      * rewrite bool_decide_eq_false_2 by done. rewrite bool_decide_eq_true_2 by left. exact E2.
      * rewrite (proj1 E4) by done. destruct (decide (Some lq ∈ tb)) as [Hin|Hin].
        -- rewrite !bool_decide_eq_true_2; [done|by right|done].
        -- rewrite !bool_decide_eq_false_2; [done|set_solver|done].
    + intros a (k & Hk & Ha). apply elem_of_cons in Hk as [->|Hk]; [|apply F3; by exists k].
      rewrite F4, E3; [done|done|]. intros k Hk Ha'. by eapply Hd.
    + intros a Ha. rewrite F4, E5; [done|apply Ha; left|]. intros k Hk. apply Ha. by right.
  - subst l. destruct (IH hh ct Hs) as (h2 & F1 & F2 & F3 & F4). exists h2. split; [exact F1|]. split; [|split].
    + intros lq. rewrite F2. rewrite (bool_decide_ext (Some lq ∈ tb) (Some lq ∈ None :: tb)); [done|set_solver].
    + intros a (k & Hk & Ha). apply elem_of_cons in Hk as [->|Hk]; [by apply elem_of_nil in Ha|]. apply F3. by exists k.
    + intros a Ha. apply F4. intros k Hk. apply Ha. by right.
Qed.

Lemma hash_separate ff hh h ct :
  hash_ok hh h ct -> Forall (frees ff) ct -> separate ff hh (table h) ct.
Proof.
  intros [_ _ O3 O4 O5 O6 O7 _ _]. revert O3 O4 O5 O6 O7. generalize (table h). clear h.
  intros tb. revert ct. induction tb as [|o tb IH]; intros [|l ct] O3 O4 O5 O6 O7 Hff; try done.
  apply Forall_cons in Hff as [Hl Hff]. injection O3 as O3. split.
  - destruct o as [lp|]; [|by apply (O5 0%nat)]. split; [by apply (O4 0%nat)|]. split; [done|]. split.
    + intros Hin. apply list_elem_of_lookup in Hin as [i Hi]. by specialize (O6 0%nat (S i) lp eq_refl Hi).
    + intros k a Hk Ha Ha'. apply list_elem_of_lookup in Hk as [i Hi].
      by apply (O7 0%nat (S i) l k a ltac:(lia) eq_refl Hi Ha').
  - apply IH; [done| | | | |done].
    + intros i. apply (O4 (S i)).
    + intros i. apply (O5 (S i)).
    + intros i j lp Hi Hj. enough (S i = S j) by lia. by apply (O6 (S i) (S j) lp).
    + intros i j l1 l2 a Hij. apply (O7 (S i) (S j)). lia.
Qed.

Lemma hash_free_run hh h ct ff :
  hash_ok hh h ct -> Forall (frees ff) ct ->
  exists hh', libtar_hash_free h ff hh = Some (tt, hh') /\
    (forall lp, lists hh' !! lp = if bool_decide (Some lp ∈ table h) then None else lists hh !! lp) /\
    (forall a, (exists l, l ∈ ct /\ a ∈ locs l) -> nodes hh' !! a = None) /\
    (forall a, (forall l, l ∈ ct -> a ∉ locs l) -> nodes hh' !! a = nodes hh !! a).
Proof. intros Ok Hff. by apply each_bucket_free, hash_separate. Qed.

(** Freeing a table whose elements are freed one by one, or not at all, frees
    all its lists and nodes, and nothing else. *)
Theorem libtar_hash_free_all hh h ct (ff : option (D -> H D unit)) :
  hash_ok hh h ct -> match ff with Some g => Forall (fun d => forall h1 : heap D, g d h1 = Some (tt, h1)) (elements ct) | None => True end ->
  exists hh', libtar_hash_free h ff hh = Some (tt, hh') /\
    (forall lp, Some lp ∈ table h -> lists hh' !! lp = None) /\
    (forall lp, Some lp ∉ table h -> lists hh' !! lp = lists hh !! lp) /\
    (forall a, (exists l, l ∈ ct /\ a ∈ locs l) -> nodes hh' !! a = None) /\
    (forall a, (forall l, l ∈ ct -> a ∉ locs l) -> nodes hh' !! a = nodes hh !! a).
Proof.
  intros Ok Hff. destruct (hash_free_run hh h ct ff Ok) as (hh' & E & E1 & E2 & E3).
  { apply Forall_forall. intros l Hl. destruct ff as [g|]; [|done]. apply Forall_forall. intros x Hx.
    rewrite Forall_forall in Hff. apply Hff, list_elem_of_bind. exists l. split; [|done]. by apply (list_elem_of_fmap_2 snd). }
  exists hh'. split; [exact E|]. split; [|split; [|by split]]; intros lp Hlp; rewrite E1.
  - by rewrite bool_decide_eq_true_2.
  - by rewrite bool_decide_eq_false_2.
Qed.
End Repr.

(** ** A table of numbers *)
Definition mod_hash (d num : Z) : Z := d `mod` num.
Definition demo_hash : libtar_hash Z := mk_hash 16 (replicate 16 None) mod_hash 0.
Definition empty_heap : heap Z := mk_heap ∅ ∅ [] 0.

Lemma demo_hash_ok : hash_ok Z.sub empty_heap demo_hash (replicate 16 []).
Proof. exact (new_hash_ok Z.sub empty_heap 16 mod_hash ltac:(lia)). Qed.

Lemma mod_hashes (h : libtar_hash Z) d :
  hashfunc h = mod_hash -> 0 < numbuckets h -> hashes h d.
Proof. unfold hashes. intros -> Hn. apply Z.mod_pos_bound. exact Hn. Qed.

Lemma libtar_hash_add_refines_witness :
  exists hh h ct, libtar_hash_add Z.sub demo_hash 35 empty_heap = Some ((0, h), hh) /\
    hash_ok Z.sub hh h ct /\ elements ct ≡ₚ [35].
Proof.
  destruct (libtar_hash_add_refines Z.sub empty_heap demo_hash _ 35 demo_hash_ok)
    as (hh & h & ct & E & Ok & Hp); [by apply mod_hashes|reflexivity|].
  exists hh, h, ct. split; [exact E|]. split; [exact Ok|exact Hp].
Defined.

(** A table with one element that was added. *)
Lemma libtar_hash_free_all_witness :
  exists hh h hh', libtar_hash_add Z.sub demo_hash 35 empty_heap = Some ((0, h), hh) /\
    libtar_hash_free h None hh = Some (tt, hh').
Proof.
  destruct (hash_add_elements Z.sub empty_heap demo_hash _ 35 demo_hash_ok)
    as (hh & h & ct & E & Ok & _); [by apply mod_hashes|reflexivity|].
  destruct (libtar_hash_free_all Z.sub hh h ct None Ok I) as (hh' & E' & _).
  exists hh, h, hh'. split; [exact E|exact E'].
Defined.

Lemma libtar_hash_getkey_finds_witness :
  exists hp, libtar_hash_getkey Z.sub demo_hash libtar_hashptr_reset 35 (Some Z.eqb) empty_heap =
    Some ((0, hp), empty_heap).
Proof.
  destruct (libtar_hash_getkey_finds Z.sub empty_heap demo_hash _ 35 Z.eqb demo_hash_ok)
    as (r & hp & E & [[-> (d & Hd & Hin & _)]|[-> _]]).
  - by apply mod_hashes.
  - intros d Hd. apply Z.eqb_eq in Hd. by subst.
  - exfalso. apply elements_In in Hin as (i & l & Hl & Hin). apply lookup_replicate in Hl as [-> _].
    by apply elem_of_nil in Hin.
  - exists hp. exact E.
Defined.
End LibtarHash.
