(* ===== verification/ParHeader.v ===== *)
(** * par: the file header (libpar.h, util.c, decode.c, encode.c)

    The header block of an archive member is an object of 512 bytes, as the
    structure lays it out, its two pointers included.  A handle is a record;
    the heap blocks it points at are kept by address. *)
From S2P Require Import Prelude CLib Compat.

Module ParHeader.
Export Compat(slash, dot, S_IFMT, S_IFDIR, S_IFCHR, S_IFBLK, S_IFREG, S_IFLNK, S_IFSOCK, S_IFIFO).

(** ** Constants *)
Definition T_BLOCKSIZE : nat := 512.
Definition T_NAMELEN : nat := 100.
Definition TVERSION : list Z := bs "MY".
Definition TVERSLEN : nat := 2.
Definition TMAGIC : list Z := bs "^*TAd&".
Definition TMAGLEN : nat := 6.
Definition GNU_LONGNAME_TYPE : Z := ch "L".
Definition GNU_LONGLINK_TYPE : Z := ch "K".
Definition SYMTYPE : Z := 1.
Definition REGTYPE : Z := 2.
Definition DIRTYPE : Z := 4.
Definition LNKTYPE : Z := 8.
Definition PAR_GNU : Z := 1.
Definition PAR_VERBOSE : Z := 2.
Definition PAR_NOOVERWRITE : Z := 4.
Definition PAR_IGNORE_EOT : Z := 8.
Definition PAR_COMPRESS : Z := 16.
Definition BIT_ISSET (bitmask bit : Z) : bool := negb (Z.land bitmask bit =? 0).

(** The members of the structure: offset and size. *)
Record member := mk_member { m_off : nat; m_size : nat }.
Definition f_name := mk_member 0 100.
Definition f_mode := mk_member 100 8.
Definition f_uid := mk_member 108 8.
Definition f_gid := mk_member 116 8.
Definition f_size := mk_member 124 12.
Definition f_mtime := mk_member 136 12.
Definition f_chksum := mk_member 148 8.
Definition f_typeflag := mk_member 156 1.
Definition f_linkname := mk_member 157 100.
Definition f_magic := mk_member 257 6.
Definition f_version := mk_member 263 2.
Definition f_uname := mk_member 265 32.
Definition f_gname := mk_member 297 32.
Definition f_prefix := mk_member 329 155.
Definition f_padding := mk_member 484 12.
Definition f_gnu_longname := mk_member 496 8.
Definition f_gnu_longlink := mk_member 504 8.

(** The bytes from a member on (what a pointer to it points at), its own
    bytes, and a store into it. *)
Definition at_member (m : mem) (f : member) : list Z := drop (m_off f) m.
Definition get_member (m : mem) (f : member) : list Z := take (m_size f) (at_member m f).
Definition put (m : mem) (f : member) (l : list Z) : option mem := mstore m (m_off f) l.

(** ** util.c *)

(** [basename] is the C library's here; the character is converted to
    [unsigned int] with its sign. *)
Definition path_hashfunc (basename : list Z -> list Z) (key : list Z) (numbuckets : Z) : option Z :=
  if (length key <? Compat.MAXPATHLEN)%nat
  then Some (i32 (u32 (i8 ((basename key ++ [0]) !!! 0%nat)) `mod` u32 numbuckets))
  else None.

Definition dev_match (dev1 dev2 : Z) : bool := memcmp (le_bytes 8 dev1) (le_bytes 8 dev2) =? 0.
Definition ino_match (ino1 ino2 : Z) : bool := memcmp (le_bytes 8 ino1) (le_bytes 8 ino2) =? 0.
Definition dev_hash (dev : Z) : Z := i32 (dev `mod` 16).
Definition ino_hash (inode : Z) : Z := i32 (inode `mod` 256).

Definition sum (l : list Z) : Z := foldl Z.add 0 l.

Definition th_crc_calc (m : mem) : Z :=
  sum m + sum ((fun c => 32 - c) <$> get_member m f_chksum).
Definition th_signed_crc_calc (m : mem) : Z :=
  sum (i8 <$> m) + sum ((fun c => 32 - i8 c) <$> get_member m f_chksum).

(** The conversion of [%o]: [strtoul], with its largest value on overflow. *)
Definition strtoul8 (s : list Z) : option Z :=
  '(v, _) ← scan_num 8 (length s) s;
  Some (if 2 ^ 64 <=? Z.abs v then 2 ^ 64 - 1 else u64 v).

Definition oct_to_int (oct : list Z) : option Z :=
  s ← cstr oct; Some (match strtoul8 s with Some i => i32 (u32 i) | None => 0 end).
Definition oct_to_size (oct : list Z) : option Z :=
  s ← cstr oct; Some (match strtoul8 s with Some i => i | None => 0 end).

(** What the two functions store: [int_to_oct] a text of at most
    [octlen - 1] characters that ends in a blank and a NUL, the other one the
    digits and a blank. *)
Definition int_to_oct (num : Z) (octlen : nat) : list Z :=
  snprintf_out octlen (fmt_width 8 (octlen - 2) (u64 num) ++ [32]).
Definition int_to_oct_nonull (num : Z) (octlen : nat) (old : list Z) : list Z :=
  let l := snprintf_out octlen (fmt_width 8 (octlen - 1) (u64 (i32 num))) in
  take (octlen - 1) (l ++ drop (length l) old) ++ [32].

(** ** The file types *)
Definition S_ISREG (mode : Z) : bool := Z.land mode S_IFMT =? S_IFREG.
Definition S_ISLNK (mode : Z) : bool := Z.land mode S_IFMT =? S_IFLNK.
Definition S_ISDIR (mode : Z) : bool := Z.land mode S_IFMT =? S_IFDIR.
Definition S_ISCHR (mode : Z) : bool := Z.land mode S_IFMT =? S_IFCHR.
Definition S_ISBLK (mode : Z) : bool := Z.land mode S_IFMT =? S_IFBLK.
Definition S_ISFIFO (mode : Z) : bool := Z.land mode S_IFMT =? S_IFIFO.
Definition S_ISSOCK (mode : Z) : bool := Z.land mode S_IFMT =? S_IFSOCK.

Definition typeflag (m : mem) : option Z := m !! m_off f_typeflag.
Definition mode_field (m : mem) : option Z := i ← oct_to_int (at_member m f_mode); Some (u32 i).

Definition TH_ISREG (m : mem) : option bool :=
  f ← typeflag m;
  if f =? REGTYPE then Some true
  else md ← mode_field m; Some (S_ISREG md && negb (f =? LNKTYPE)).
Definition TH_ISLNK (m : mem) : option bool := f ← typeflag m; Some (f =? LNKTYPE).
Definition TH_ISSYM (m : mem) : option bool :=
  f ← typeflag m; if f =? SYMTYPE then Some true else md ← mode_field m; Some (S_ISLNK md).
Definition TH_ISDIR (m : mem) : option bool :=
  f ← typeflag m; if f =? DIRTYPE then Some true else md ← mode_field m; Some (S_ISDIR md).
Definition TH_ISLONGNAME (m : mem) : option bool := f ← typeflag m; Some (f =? GNU_LONGNAME_TYPE).
Definition TH_ISLONGLINK (m : mem) : option bool := f ← typeflag m; Some (f =? GNU_LONGLINK_TYPE).

Definition th_get_crc (m : mem) : option Z := oct_to_int (at_member m f_chksum).
Definition th_get_size (m : mem) : option Z := oct_to_size (at_member m f_size).
Definition th_get_mtime (m : mem) : option Z := oct_to_int (at_member m f_mtime).

Definition th_crc_ok (m : mem) : option bool :=
  c ← th_get_crc m; Some ((c =? th_crc_calc m) || (c =? th_signed_crc_calc m)).

(** ** decode.c *)

(** [while (p[0] == '.' && p[0] == p[1] && p[2] == '/') { p += 3; t = p; }];
    a pointer into the name is the rest of the name. *)
Fixpoint skip_dotdot (p t : list Z) : list Z * list Z :=
  match p with
  | a :: b :: c :: p' =>
      if (a =? dot) && (a =? b) && (c =? slash) then skip_dotdot p' p' else (p, t)
  | _ => (p, t)
  end.

(** To behind the next slash. *)
Fixpoint past_slash (p : list Z) : list Z :=
  match p with [] => [] | c :: p' => if c =? slash then p' else past_slash p' end.

Fixpoint skip_slashes (p : list Z) : list Z :=
  match p with c :: p' => if c =? slash then skip_slashes p' else p | [] => [] end.

Fixpoint suffix_loop (fuel : nat) (p t : list Z) : list Z :=
  match p, fuel with
  | [], _ | _, O => t
  | _, S f => let '(p, t) := skip_dotdot p t in suffix_loop f (past_slash p) t
  end.

Definition safer_name_suffix (file_name : list Z) : list Z :=
  let p := skip_slashes file_name in
  match suffix_loop (length p) p p with [] => [dot] | t => t end.

(** The mode, with the type the type flag tells when the mode has none. *)
Definition th_get_mode (m : mem) : option Z :=
  md ← mode_field m;
  if negb (Z.land md S_IFMT =? 0) then Some md
  else
    f ← typeflag m;
    Some (Z.lor md (if f =? SYMTYPE then S_IFLNK else if f =? DIRTYPE then S_IFDIR else S_IFREG)).

Definition is_posix (m : mem) : bool :=
  bool_decide (take (TMAGLEN - 1) (get_member m f_magic) = take (TMAGLEN - 1) TMAGIC).

Section Users.
(** The user and group databases. *)
Context (getpwnam getgrnam : list Z -> option Z) (getpwuid getgrgid : Z -> option (list Z)).

(** Without an entry and without digits in the field the result is not
    initialised. *)
Definition th_get_uid (m : mem) : option Z :=
  n ← cstr (at_member m f_uname);
  match getpwnam n with
  | Some uid => Some uid
  | None => s ← cstr (at_member m f_uid); i ← strtoul8 s; Some (u32 i)
  end.
Definition th_get_gid (m : mem) : option Z :=
  n ← cstr (at_member m f_gname);
  match getgrnam n with
  | Some gid => Some gid
  | None => s ← cstr (at_member m f_gid); i ← strtoul8 s; Some (u32 i)
  end.

(** ** encode.c *)
Definition th_set_type (m : mem) (mode : Z) : option mem :=
  m ← (if S_ISLNK mode then put m f_typeflag [SYMTYPE] else Some m);
  m ← (if S_ISREG mode then put m f_typeflag [REGTYPE] else Some m);
  if S_ISDIR mode then put m f_typeflag [DIRTYPE] else Some m.

(** What [strlcpy] stores ([Compat.strlcpy_spec]). *)
Definition strlcpy_out (n : nat) (s : list Z) : list Z := take (n - 1) s ++ [0].

Definition th_set_user (m : mem) (uid : Z) : option mem :=
  m ← match getpwuid uid with
      | Some pw_name => put m f_uname (strlcpy_out (m_size f_uname) pw_name)
      | None => Some m
      end;
  put m f_uid (int_to_oct uid 8).
Definition th_set_group (m : mem) (gid : Z) : option mem :=
  m ← match getgrgid gid with
      | Some gr_name => put m f_gname (strlcpy_out (m_size f_gname) gr_name)
      | None => Some m
      end;
  put m f_gid (int_to_oct gid 8).
Definition th_set_mode (m : mem) (fmode : Z) : option mem := put m f_mode (int_to_oct fmode 8).
Definition th_set_mtime (m : mem) (fmtime : Z) : option mem :=
  put m f_mtime (int_to_oct_nonull fmtime 12 (get_member m f_mtime)).
Definition th_set_size (m : mem) (fsize : Z) : option mem :=
  put m f_size (int_to_oct_nonull fsize 12 (get_member m f_size)).

Record stat := mk_stat {
  st_dev : Z; st_ino : Z; st_mode : Z; st_uid : Z; st_gid : Z; st_size : Z; st_mtime : Z }.

(** The result and the header. *)
Definition th_set_from_stat (m : mem) (s : stat) : option (Z * mem) :=
  if S_ISCHR (st_mode s) || S_ISBLK (st_mode s) || S_ISFIFO (st_mode s) || S_ISSOCK (st_mode s)
  then Some (-1, m)
  else
    m ← th_set_type m (st_mode s);
    m ← th_set_user m (st_uid s);
    m ← th_set_group m (st_gid s);
    m ← th_set_mode m (st_mode s);
    m ← th_set_mtime m (st_mtime s);
    m ← th_set_size m (if S_ISREG (st_mode s) then st_size s else 0);
    Some (0, m).
End Users.

(** ** Octal fields *)
Lemma skip_space_blanks k r : skip_space (replicate k 32 ++ r) = skip_space r.
Proof. induction k; [done|exact IHk]. Qed.

Lemma scan_digits_end w b ds acc r :
  b <= 16 -> digits_ok b ds -> (length ds <= w)%nat ->
  (r = [] \/ exists c r', r = c :: r' /\ digit_in b c = None) ->
  scan_digits w b acc ((digit_char <$> ds) ++ r) = (num_val b acc ds, length ds, r).
Proof.
  intros Hb Hok Hw [->|(c & r' & -> & Hc)]; [|by apply scan_digits_stop].
  revert w acc Hw. induction Hok as [|d ds Hd Hds IH]; intros w acc Hw; [by destruct w|].
  destruct w as [|w]; [cbn [length] in Hw; lia|]. cbn [fmap list_fmap app scan_digits].
  rewrite digit_char_val by done. rewrite IH; [done|cbn [length] in Hw; lia].
Qed.

(** Blanks, digits and something else: the value of the digits. *)
Lemma scan_num_blanks k ds r w :
  digits_ok 8 ds -> ds <> [] -> (length ds <= w)%nat ->
  (r = [] \/ exists c r', r = c :: r' /\ digit_in 8 c = None) ->
  scan_num 8 w (replicate k 32 ++ (digit_char <$> ds) ++ r) = Some (num_val 8 0 ds, r).
Proof.
  intros Hok Hne Hw Hr. destruct ds as [|d ds]; [done|]. inversion Hok as [|? ? Hd Hds]; subst.
  destruct (digit_char_plain d ltac:(lia)) as (Hs & Hm & Hp & _).
  unfold scan_num. rewrite skip_space_blanks. cbn [fmap list_fmap app skip_space]. rewrite Hs.
  destruct w as [|w]; [cbn [length] in Hw; lia|]. rewrite Hm, Hp.
  assert (E : scan_digits (S w) 8 0 ((digit_char <$> d :: ds) ++ r) =
    (num_val 8 0 (d :: ds), length (d :: ds), r)) by (apply scan_digits_end; [lia|done..]).
  cbn [fmap list_fmap app] in E. change (8 =? 16) with false. cbn [andb].
  destruct w as [|w]; [by rewrite E|]. match type of E with scan_digits _ _ _ (_ :: ?x) = _ => destruct x end;
    by rewrite E.
Qed.

Lemma digit_char_nonzero ds : digits_ok 8 ds -> Forall (fun c => c <> 0) (digit_char <$> ds).
Proof.
  intros H. apply Forall_fmap. eapply Forall_impl; [exact H|]. intros d Hd. cbn in Hd |- *.
  pose proof (digit_char_range d). lia.
Qed.

Lemma blanks_nonzero k : Forall (fun c => c <> 0) (replicate k 32).
Proof. by apply Forall_replicate. Qed.

(** The text of a number of at most [n] octal digits in a width [w]. *)
Lemma fmt_width_digits w n x :
  0 <= x < 2 ^ 64 -> x < 8 ^ Z.of_nat n -> (0 < n)%nat ->
  exists k ds, fmt_width 8 w x = replicate k 32 ++ (digit_char <$> ds) /\ digits_ok 8 ds /\
    ds <> [] /\ num_val 8 0 ds = x /\ (length ds <= n)%nat /\ (k = w - length ds)%nat.
Proof.
  intros Hx Hn H0. destruct (digits_spec 8 x ltac:(lia) Hx) as (Hok & Hne & Hv & Hl).
  exists (w - length (digits 8 x))%nat, (digits 8 x). unfold fmt_width. rewrite length_fmap.
  split; [done|]. split; [done|]. split; [done|]. split; [done|]. split; [by apply Hl|done].
Qed.

(** The value of such a text, in front of something that is no digit. *)
Lemma strtoul8_text k ds r :
  digits_ok 8 ds -> ds <> [] -> num_val 8 0 ds < 2 ^ 64 ->
  (r = [] \/ exists c r', r = c :: r' /\ digit_in 8 c = None) -> 0 <= num_val 8 0 ds ->
  strtoul8 (replicate k 32 ++ (digit_char <$> ds) ++ r) = Some (num_val 8 0 ds).
Proof.
  intros Hok Hne Hv Hr H0. unfold strtoul8.
  rewrite scan_num_blanks; [|done..|len|done].
  cbn [mbind option_bind]. rewrite (proj2 (Z.leb_gt _ _)) by lia. by rewrite u64_small.
Qed.

Lemma cstr_app s r : Forall (fun c => c <> 0) s -> cstr (s ++ r) = (t ← cstr r; Some (s ++ t)).
Proof.
  induction 1 as [|c s Hc Hs IH]; cbn [app cstr]; [by destruct (cstr r)|].
  rewrite (proj2 (Z.eqb_neq _ _) Hc), IH. by destruct (cstr r).
Qed.

Lemma cstr_in r : 0 ∈ r -> is_Some (cstr r).
Proof.
  induction r as [|c r IH]; intros H; [by apply elem_of_nil in H|]. cbn [cstr].
  destruct (Z.eqb_spec c 0) as [->|Hc]; [by eexists|]. apply elem_of_cons in H as [E|H]; [by subst|].
  destruct (IH H) as [s ->]. by eexists.
Qed.

(** How a number is written into a member of the header and read back from
    the bytes that start there: the written text has the size of the member,
    and what follows it does not matter as long as the string ends. *)
Class Codec (w : nat) (enc : Z -> list Z) (dec : list Z -> option Z) (ok : Z -> Prop) : Prop := {
  codec_length n : ok n -> length (enc n) = w;
  codec_decode n r : ok n -> 0 ∈ r -> dec (enc n ++ r) = Some n }.

(** The text [int_to_oct] stores of a number of at most seven digits. *)
Lemma int_to_oct_text n :
  0 <= n < 8 ^ 7 ->
  exists k ds e, int_to_oct n 8 = replicate k 32 ++ (digit_char <$> ds) ++ e ++ [0] /\ digits_ok 8 ds /\
    ds <> [] /\ num_val 8 0 ds = n /\ (e = [] \/ e = [32]) /\ (k + length ds + length e = 7)%nat.
Proof.
  intros Hn. assert (H64 : 8 ^ 7 < 2 ^ 64) by reflexivity. unfold int_to_oct. rewrite u64_small by lia.
  destruct (fmt_width_digits (8 - 2) 7 n) as (k & ds & -> & Hok & Hne & Hv & Hl & Hk);
    [lia|exact (proj2 Hn)|lia|].
  exists k, ds, (take (7 - length ds - k) [32]). cbn [snprintf_out]. rewrite <- !app_assoc.
  assert (0 < length ds)%nat by (destruct ds; [done|cbn; lia]).
  split; [|split; [done|split; [done|split; [done|]]]].
  - rewrite (take_app_ge (replicate _ _)) by (len).
    rewrite length_replicate, take_app_ge by (len). rewrite length_fmap.
    rewrite <- !app_assoc. do 4 f_equal. lia.
  - destruct (decide (length ds = 7)%nat) as [E|E].
    + replace (7 - length ds - k)%nat with 0%nat by lia. split; [by left|]. change (take 0 [32]) with (@nil Z). cbn. lia.
    + replace (7 - length ds - k)%nat with 1%nat by lia. split; [by right|]. cbn. lia.
Qed.

#[export] Instance oct_codec : Codec 8 (fun n => int_to_oct n 8) oct_to_int (fun n => 0 <= n < 8 ^ 7).
Proof.
  split.
  - intros n Hn. destruct (int_to_oct_text n Hn) as (k & ds & e & -> & _ & _ & _ & _ & Hl).
    len.
  - intros n r Hn _. destruct (int_to_oct_text n Hn) as (k & ds & e & -> & Hok & Hne & Hv & He & Hl).
    unfold oct_to_int. replace ((replicate k 32 ++ (digit_char <$> ds) ++ e ++ [0]) ++ r)
      with ((replicate k 32 ++ (digit_char <$> ds) ++ e) ++ 0 :: r) by (by rewrite <- !app_assoc).
    rewrite cstr_app_nul.
    2:{ repeat apply Forall_app_2; [apply blanks_nonzero|by apply digit_char_nonzero|].
        by destruct He as [->| ->]; repeat constructor. }
    cbn [mbind option_bind]. assert (H64 : 8 ^ 7 < 2 ^ 31) by reflexivity.
    rewrite strtoul8_text; [|done|done|lia| |lia].
    + rewrite Hv. cbn. by wrap_small.
    + destruct He as [->| ->]; [by left|right]. by exists 32, [].
Qed.

(** The text [int_to_oct_nonull] stores of a number of at most eleven digits
    into a member of twelve bytes, whatever was there. *)
Definition oct_nonull (n : Z) : list Z := fmt_width 8 11 n ++ [32].

Lemma int_to_oct_nonull_text n old :
  0 <= n < 2 ^ 31 -> length old = 12%nat -> int_to_oct_nonull n 12 old = oct_nonull n.
Proof.
  intros Hn Ho. unfold int_to_oct_nonull, oct_nonull. rewrite i32_small, u64_small by lia. f_equal.
  destruct (fmt_width_digits 11 11 n) as (k & ds & E & Hok & Hne & Hv & Hl & Hk);
    [lia|change (8 ^ Z.of_nat 11) with (2 ^ 33); lia|lia|].
  change (12 - 1)%nat with 11%nat. rewrite E. cbn [snprintf_out].
  assert (length (replicate k 32 ++ (digit_char <$> ds)) = 11%nat) as HL
    by (len).
  rewrite (take_ge (replicate k 32 ++ _)) by lia. rewrite <- app_assoc. by rewrite take_app_length'.
Qed.

Lemma oct_nonull_codec dec :
  (forall l s n, cstr l = Some s -> 0 <= n < 2 ^ 31 -> strtoul8 s = Some n -> dec l = Some n) ->
  Codec 12 oct_nonull dec (fun n => 0 <= n < 2 ^ 31).
Proof.
  intros Hdec. assert (Htext : forall n, 0 <= n < 2 ^ 31 -> exists k ds,
    oct_nonull n = replicate k 32 ++ (digit_char <$> ds) ++ [32] /\ digits_ok 8 ds /\ ds <> [] /\
    num_val 8 0 ds = n /\ (k + length ds = 11)%nat).
  { intros n Hn. destruct (fmt_width_digits 11 11 n) as (k & ds & E & Hok & Hne & Hv & Hl & Hk);
      [lia|change (8 ^ Z.of_nat 11) with (2 ^ 33); lia|lia|].
    exists k, ds. unfold oct_nonull. rewrite E, <- app_assoc. repeat split; try done. lia. }
  split.
  - intros n Hn. destruct (Htext n Hn) as (k & ds & -> & _ & _ & _ & Hl).
    len.
  - intros n r Hn Hr. destruct (Htext n Hn) as (k & ds & -> & Hok & Hne & Hv & Hl).
    destruct (cstr_in r Hr) as [s Hs]. rewrite <- !app_assoc.
    eapply (Hdec _ (replicate k 32 ++ (digit_char <$> ds) ++ [32] ++ s)); [|done|].
    + rewrite !app_assoc, cstr_app, Hs; [done|].
      repeat apply Forall_app_2; [apply blanks_nonzero|by apply digit_char_nonzero|by repeat constructor].
    + rewrite strtoul8_text; [by rewrite Hv|done|done|lia| |lia]. right. by exists 32, s.
Qed.

#[export] Instance size_codec : Codec 12 oct_nonull oct_to_size (fun n => 0 <= n < 2 ^ 31).
Proof. apply oct_nonull_codec. intros l s n Hl Hn Hs. unfold oct_to_size. rewrite Hl. cbn. by rewrite Hs. Qed.

#[export] Instance time_codec : Codec 12 oct_nonull oct_to_int (fun n => 0 <= n < 2 ^ 31).
Proof.
  apply oct_nonull_codec. intros l s n Hl Hn Hs. unfold oct_to_int. rewrite Hl. cbn [mbind option_bind].
  rewrite Hs. by wrap_small.
Qed.

(** A member written with a codec, in a header in which some NUL follows. *)
Lemma codec_member {w enc dec ok} (C : Codec w enc dec ok) m off n i :
  ok n -> bytes_at m off (enc n) -> m !! i = Some 0 -> (off + w <= i)%nat ->
  dec (drop off m) = Some n.
Proof.
  intros Hn Hb Hi Hl. rewrite (bytes_at_drop _ _ _ Hb). apply codec_decode; [done|].
  rewrite codec_length by done. apply list_elem_of_lookup. exists (i - (off + w))%nat.
  rewrite lookup_drop, <- Hi. f_equal. lia.
Qed.

(** ** What a header tells of a file *)

(** A header that differs from another one in the given members at most. *)
Definition outside (f : member) (i n : nat) : Prop := (i + n <= m_off f \/ m_off f + m_size f <= i)%nat.
Definition changed_only (fs : list member) (m m' : mem) : Prop :=
  length m' = length m /\ forall i, Forall (fun f => outside f i 1) fs -> m' !! i = m !! i.

Lemma changed_refl m : changed_only [] m m.
Proof. by split. Qed.

Lemma changed_trans fs gs m1 m2 m3 :
  changed_only fs m1 m2 -> changed_only gs m2 m3 -> changed_only (fs ++ gs) m1 m3.
Proof.
  intros [L1 H1] [L2 H2]. split; [by rewrite L2|]. intros i Hi. apply Forall_app in Hi as [Hf Hg].
  by rewrite H2, H1.
Qed.

Lemma changed_weaken fs gs m m' : changed_only fs m m' -> fs ⊆ gs -> changed_only gs m m'.
Proof.
  intros [L H] Hs. split; [done|]. intros i Hi. apply H. rewrite Forall_forall in Hi |- *. auto.
Qed.

Lemma bytes_kept fs m m' off l :
  changed_only fs m m' -> bytes_at m off l -> Forall (fun f => outside f off (length l)) fs ->
  bytes_at m' off l.
Proof.
  intros [_ H] Hb Hf i c Hi. apply lookup_lt_Some in Hi as Hl. rewrite H; [by apply Hb|].
  eapply Forall_impl; [exact Hf|]. unfold outside. cbn. lia.
Qed.

(** Evaluates offsets and sizes. *)
Ltac bounds := cbn; unfold T_BLOCKSIZE; lia.

Lemma put_spec m f l : length m = T_BLOCKSIZE -> (m_off f + m_size f <= T_BLOCKSIZE)%nat ->
  (length l <= m_size f)%nat ->
  exists m', put m f l = Some m' /\ changed_only [f] m m' /\ bytes_at m' (m_off f) l.
Proof.
  intros Hm Hf Hl. destruct (mstore_is_Some m (m_off f) l) as [m' E]; [lia|].
  exists m'. split; [done|]. split; [|by eapply bytes_at_store].
  destruct (mstore_same_outside _ _ _ _ E) as [L H]. split; [done|]. intros i Hi.
  apply Forall_cons_1 in Hi as [Hi _]. unfold outside in Hi. apply H. lia.
Qed.

Lemma changed_length fs m m' : changed_only fs m m' -> length m = T_BLOCKSIZE -> length m' = T_BLOCKSIZE.
Proof. by intros [-> _]. Qed.

(** Members that do not overlap: evaluates their offsets. *)
Ltac disjoint := repeat (apply Forall_cons_2; [unfold outside; cbn; lia|]); apply Forall_nil_2.

Section Users.
Context (getpwnam getgrnam : list Z -> option Z) (getpwuid getgrgid : Z -> option (list Z)).

(** A database whose two lookups agree, with names that fit the header. *)
Definition database_ok (by_name : list Z -> option Z) (by_id : Z -> option (list Z)) : Prop :=
  by_name [] = None /\
  forall id name, by_id id = Some name ->
    by_name name = Some id /\ (length name < 32)%nat /\ Forall (fun c => 0 < c < 256) name.

(** The text of a name in its member, empty without an entry. *)
Definition name_text (by_id : Z -> option (list Z)) (id : Z) : list Z :=
  match by_id id with Some name => name ++ [0] | None => [0] end.

Lemma name_lookup by_name by_id m off id :
  database_ok by_name by_id -> bytes_at m off (name_text by_id id) ->
  exists name, cstr (drop off m) = Some name /\
    by_name name = match by_id id with Some _ => Some id | None => None end.
Proof.
  intros [Hnil Hdb] Hb. rewrite (bytes_at_drop _ _ _ Hb). unfold name_text.
  destruct (by_id id) as [name|] eqn:E; [|by exists []].
  destruct (Hdb _ _ E) as (Hn & _ & Hz). exists name. rewrite <- app_assoc. split; [|done].
  apply cstr_app_nul. eapply Forall_impl; [exact Hz|]. intros c Hc. cbn in Hc. lia.
Qed.

(** Storing a user or group: the name where the database has one, and the
    number. *)
Lemma set_id_spec by_name by_id fn fi m id :
  database_ok by_name by_id -> 0 <= id < 8 ^ 7 -> length m = T_BLOCKSIZE ->
  m_size fn = 32%nat -> m_size fi = 8%nat -> (m_off fi + 8 <= m_off fn)%nat -> (m_off fn + 32 <= T_BLOCKSIZE)%nat ->
  m !! m_off fn = Some 0 ->
  exists m', (m1 ← match by_id id with
                   | Some name => put m fn (strlcpy_out (m_size fn) name) | None => Some m end;
              put m1 fi (int_to_oct id 8)) = Some m' /\
    changed_only [fn; fi] m m' /\ bytes_at m' (m_off fn) (name_text by_id id) /\
    bytes_at m' (m_off fi) (int_to_oct id 8).
Proof.
  intros [_ Hdb] Hid Hm Hsn Hsi Hd Hb H0.
  assert (exists m1, match by_id id with Some name => put m fn (strlcpy_out (m_size fn) name) | None => Some m end
      = Some m1 /\ changed_only [fn] m m1 /\ bytes_at m1 (m_off fn) (name_text by_id id))
    as (m1 & -> & C1 & B1).
  { unfold name_text. destruct (by_id id) as [name|] eqn:E.
    - destruct (Hdb _ _ E) as (_ & Hl & _). unfold strlcpy_out. rewrite Hsn, take_ge by lia.
      apply put_spec; [done|lia|]. rewrite length_app, Hsn. cbn. lia.
    - exists m. split; [done|]. split; [by split|]. intros [|i] c Hi; [|done].
      rewrite Nat.add_0_r, H0. exact Hi. }
  pose proof (codec_length id Hid) as Hl. cbn beta in Hl. cbn [mbind option_bind].
  destruct (put_spec m1 fi (int_to_oct id 8)) as (m2 & -> & C2 & B2);
    [by eapply changed_length|lia|lia|].
  exists m2. split; [done|]. split; [exact (changed_trans [fn] [fi] _ _ _ C1 C2)|]. split; [|exact B2].
  eapply bytes_kept; [exact C2|exact B1|]. constructor; [|done]. unfold outside. lia.
Qed.

(** The types of files an archive can hold, and their flags. *)
Definition file_type (mode : Z) : Prop :=
  Z.land mode S_IFMT = S_IFREG \/ Z.land mode S_IFMT = S_IFLNK \/ Z.land mode S_IFMT = S_IFDIR.
Definition flag_of (mode : Z) : Z :=
  if S_ISLNK mode then SYMTYPE else if S_ISREG mode then REGTYPE else DIRTYPE.

Lemma set_type_spec m mode :
  file_type mode -> length m = T_BLOCKSIZE ->
  exists m', th_set_type m mode = Some m' /\ changed_only [f_typeflag] m m' /\
    bytes_at m' (m_off f_typeflag) [flag_of mode].
Proof.
  intros Ht Hm. unfold th_set_type, flag_of, S_ISLNK, S_ISREG, S_ISDIR.
  destruct Ht as [E|[E|E]]; rewrite E; cbn [Z.eqb S_IFREG S_IFLNK S_IFDIR Pos.eqb mbind option_bind].
  - destruct (put_spec m f_typeflag [REGTYPE]) as (m' & E' & H); [done|bounds..|].
    rewrite E'. by exists m'.
  - destruct (put_spec m f_typeflag [SYMTYPE]) as (m' & E' & H); [done|bounds..|].
    rewrite E'. by exists m'.
  - by apply (put_spec m f_typeflag [DIRTYPE]); [|bounds..].
Qed.

Lemma set_size_spec m f n :
  0 <= n < 2 ^ 31 -> length m = T_BLOCKSIZE -> m_size f = 12%nat -> (m_off f + 12 <= T_BLOCKSIZE)%nat ->
  exists m', put m f (int_to_oct_nonull n 12 (get_member m f)) = Some m' /\ changed_only [f] m m' /\
    bytes_at m' (m_off f) (oct_nonull n).
Proof.
  intros Hn Hm Hs Hf. rewrite int_to_oct_nonull_text; [|done|].
  2:{ unfold get_member, at_member. len. }
  apply put_spec; [done|lia|]. rewrite (codec_length (Codec := size_codec) n Hn). lia.
Qed.

(** The conditions under which a file's status fits the header. *)
Record stat_ok (s : stat) : Prop := {
  so_type : file_type (st_mode s);
  so_mode : 0 <= st_mode s < 2 ^ 16;
  so_uid : 0 <= st_uid s < 8 ^ 7;
  so_gid : 0 <= st_gid s < 8 ^ 7;
  so_size : 0 <= st_size s < 2 ^ 31;
  so_mtime : 0 <= st_mtime s < 2 ^ 31 }.

Definition stored_size (s : stat) : Z := if S_ISREG (st_mode s) then st_size s else 0.

(** The bytes of a header made from a file's status. *)
Record describes (m : mem) (s : stat) : Prop := {
  d_length : length m = T_BLOCKSIZE;
  d_type : bytes_at m (m_off f_typeflag) [flag_of (st_mode s)];
  d_mode : bytes_at m (m_off f_mode) (int_to_oct (st_mode s) 8);
  d_uname : bytes_at m (m_off f_uname) (name_text getpwuid (st_uid s));
  d_uid : bytes_at m (m_off f_uid) (int_to_oct (st_uid s) 8);
  d_gname : bytes_at m (m_off f_gname) (name_text getgrgid (st_gid s));
  d_gid : bytes_at m (m_off f_gid) (int_to_oct (st_gid s) 8);
  d_mtime : bytes_at m (m_off f_mtime) (oct_nonull (st_mtime s));
  d_size : bytes_at m (m_off f_size) (oct_nonull (stored_size s));
  d_nul : m !! (m_off f_chksum + 7)%nat = Some 0 }.

Definition stat_members : list member :=
  [f_typeflag; f_uname; f_uid; f_gname; f_gid; f_mode; f_mtime; f_size].

Context (Hpw : database_ok getpwnam getpwuid) (Hgr : database_ok getgrnam getgrgid).

Lemma name_text_length by_name by_id id :
  database_ok by_name by_id -> (length (name_text by_id id) <= 32)%nat.
Proof.
  intros [_ H]. unfold name_text. destruct (by_id id) as [name|] eqn:E; [|cbn; lia].
  destruct (H _ _ E) as (_ & Hl & _). len.
Qed.

Lemma set_from_stat_spec m s :
  stat_ok s -> length m = T_BLOCKSIZE -> m !! m_off f_uname = Some 0 -> m !! m_off f_gname = Some 0 ->
  m !! (m_off f_chksum + 7)%nat = Some 0 ->
  exists m', th_set_from_stat getpwuid getgrgid m s = Some (0, m') /\ changed_only stat_members m m' /\
    describes m' s.
Proof.
  intros [Ht Hmd Hu Hg Hsz Hmt] Hm H1 H2 H3. unfold th_set_from_stat, S_ISCHR, S_ISBLK, S_ISFIFO, S_ISSOCK.
  assert (Hmd7 : 0 <= st_mode s < 8 ^ 7) by (assert (2 ^ 16 < 8 ^ 7) by reflexivity; lia).
  assert (Hss : 0 <= stored_size s < 2 ^ 31) by (unfold stored_size; case_match; lia).
  assert ((Z.land (st_mode s) S_IFMT =? S_IFCHR) || (Z.land (st_mode s) S_IFMT =? S_IFBLK) ||
    (Z.land (st_mode s) S_IFMT =? S_IFIFO) || (Z.land (st_mode s) S_IFMT =? S_IFSOCK) = false) as ->.
  { destruct Ht as [E|[E|E]]; rewrite E; reflexivity. }
  destruct (set_type_spec m (st_mode s) Ht Hm) as (m1 & -> & C1 & B1). cbn [mbind option_bind].
  pose proof (changed_length _ _ _ C1 Hm) as L1. unfold th_set_user, th_set_group, th_set_mode, th_set_mtime, th_set_size.
  destruct (set_id_spec getpwnam getpwuid f_uname f_uid m1 (st_uid s)) as (m2 & E2 & C2 & B2 & B3);
    [done..|bounds|bounds|by rewrite (proj2 C1) by disjoint|].
  rewrite E2. clear E2. cbn [mbind option_bind]. pose proof (changed_length _ _ _ C2 L1) as L2.
  pose proof (changed_trans _ _ _ _ _ C1 C2) as C12.
  destruct (set_id_spec getgrnam getgrgid f_gname f_gid m2 (st_gid s)) as (m3 & E3 & C3 & B4 & B5);
    [done..|bounds|bounds|by rewrite (proj2 C12) by disjoint|].
  rewrite E3. clear E3. cbn [mbind option_bind]. pose proof (changed_length _ _ _ C3 L2) as L3.
  pose proof (codec_length (Codec := oct_codec)) as HL8. cbn beta in HL8.
  destruct (put_spec m3 f_mode (int_to_oct (st_mode s) 8)) as (m4 & -> & C4 & B6);
    [done|bounds|rewrite HL8 by done; bounds|]. cbn [mbind option_bind].
  pose proof (changed_length _ _ _ C4 L3) as L4.
  destruct (set_size_spec m4 f_mtime (st_mtime s)) as (m5 & -> & C5 & B7); [done..|bounds|].
  cbn [mbind option_bind]. pose proof (changed_length _ _ _ C5 L4) as L5. fold (stored_size s).
  destruct (set_size_spec m5 f_size (stored_size s)) as (m6 & -> & C6 & B8); [done..|bounds|].
  cbn [mbind option_bind]. exists m6. split; [done|].
  pose proof (changed_trans _ _ _ _ _ C5 C6) as C56. pose proof (changed_trans _ _ _ _ _ C4 C56) as C46.
  pose proof (changed_trans _ _ _ _ _ C3 C46) as C36. pose proof (changed_trans _ _ _ _ _ C2 C36) as C26.
  pose proof (changed_trans _ _ _ _ _ C1 C26) as C16. cbn [app] in *.
  split; [exact C16|].
  pose proof (name_text_length _ _ (st_uid s) Hpw) as HLu. pose proof (name_text_length _ _ (st_gid s) Hgr) as HLg.
  pose proof (codec_length (Codec := size_codec) _ Hmt) as HLt.
  split.
  - by eapply changed_length.
  - eapply bytes_kept; [exact C26|exact B1|disjoint].
  - eapply bytes_kept; [exact C56|exact B6|]. rewrite HL8 by done. disjoint.
  - eapply bytes_kept; [exact C36|exact B2|]. revert HLu. generalize (length (name_text getpwuid (st_uid s))). intros k Hk. disjoint.
  - eapply bytes_kept; [exact C36|exact B3|]. rewrite HL8 by done. disjoint.
  - eapply bytes_kept; [exact C46|exact B4|]. revert HLg. generalize (length (name_text getgrgid (st_gid s))). intros k Hk. disjoint.
  - eapply bytes_kept; [exact C46|exact B5|]. rewrite HL8 by done. disjoint.
  - eapply bytes_kept; [exact C6|exact B7|]. rewrite HLt. disjoint.
  - exact B8.
  - rewrite <- H3. apply (proj2 C16). disjoint.
Qed.

Ltac member_in := unfold stat_members; repeat first [apply list_elem_of_here | apply list_elem_of_further].

(** Changes elsewhere leave it a description. *)
Definition apart (f g : member) : Prop := outside f (m_off g) (m_size g).
#[export] Instance apart_dec f g : Decision (apart f g).
Proof. unfold apart, outside. apply _. Defined.

Lemma describes_kept fs m m' s :
  stat_ok s -> describes m s -> changed_only fs m m' -> Forall (fun f => Forall (apart f) stat_members) fs ->
  m' !! (m_off f_chksum + 7)%nat = Some 0 -> describes m' s.
Proof.
  intros S [L D1 D2 D3 D4 D5 D6 D7 D8 D9] C Hf H0.
  assert (keep : forall g l, g ∈ stat_members -> bytes_at m (m_off g) l -> (length l <= m_size g)%nat ->
    bytes_at m' (m_off g) l).
  { intros g l Hg Hb Hl. apply (bytes_kept fs m m' _ _ C Hb). eapply Forall_impl; [exact Hf|].
    intros f Hfs. cbn in Hfs. rewrite Forall_forall in Hfs. specialize (Hfs g Hg). unfold apart, outside in *. lia. }
  assert (H16 : 2 ^ 16 < 8 ^ 7) by reflexivity. pose proof (so_mode _ S). pose proof (so_size _ S).
  assert (HL8 : forall n, 0 <= n < 8 ^ 7 -> (length (int_to_oct n 8) <= 8)%nat).
  { intros n Hn. by rewrite (codec_length (Codec := oct_codec) n Hn). }
  assert (HL12 : forall n, 0 <= n < 2 ^ 31 -> (length (oct_nonull n) <= 12)%nat).
  { intros n Hn. by rewrite (codec_length (Codec := size_codec) n Hn). }
  assert (Hss : 0 <= stored_size s < 2 ^ 31) by (unfold stored_size; case_match; lia).
  assert (Hu : 0 <= st_uid s < 8 ^ 7) by apply S. assert (Hg : 0 <= st_gid s < 8 ^ 7) by apply S.
  assert (Ht : 0 <= st_mtime s < 2 ^ 31) by apply S. assert (Hm : 0 <= st_mode s < 8 ^ 7) by lia.
  assert (Lu := name_text_length _ _ (st_uid s) Hpw). assert (Lg := name_text_length _ _ (st_gid s) Hgr).
  constructor; [exact (changed_length _ _ _ C L)|..|exact H0].
  - apply (keep f_typeflag); [member_in|exact D1|cbn; lia].
  - apply (keep f_mode); [member_in|exact D2|exact (HL8 _ Hm)].
  - apply (keep f_uname); [member_in|exact D3|exact Lu].
  - apply (keep f_uid); [member_in|exact D4|exact (HL8 _ Hu)].
  - apply (keep f_gname); [member_in|exact D5|exact Lg].
  - apply (keep f_gid); [member_in|exact D6|exact (HL8 _ Hg)].
  - apply (keep f_mtime); [member_in|exact D7|exact (HL12 _ Ht)].
  - apply (keep f_size); [member_in|exact D8|exact (HL12 _ Hss)].
Qed.

(** Reading a field back from such a header. *)
Lemma describes_octal {w enc dec ok} (C : Codec w enc dec ok) m s off n :
  describes m s -> ok n -> bytes_at m off (enc n) -> (off + w <= 155)%nat ->
  dec (drop off m) = Some n.
Proof. intros D Hn Hb Hl. exact (codec_member C m off n _ Hn Hb (d_nul _ _ D) Hl). Qed.

Lemma describes_mode m s : describes m s -> stat_ok s -> mode_field m = Some (st_mode s).
Proof.
  intros D S. unfold mode_field, at_member. pose proof (so_mode _ S).
  rewrite (describes_octal oct_codec m s _ (st_mode s)); [|done| |apply (d_mode _ _ D)|cbn; lia].
  - cbn. by wrap_small.
  - assert (2 ^ 16 < 8 ^ 7) by reflexivity. lia.
Qed.

Lemma describes_flag m s : describes m s -> typeflag m = Some (flag_of (st_mode s)).
Proof. intros D. unfold typeflag. rewrite <- (Nat.add_0_r (m_off f_typeflag)). by apply (d_type _ _ D). Qed.

Lemma describes_type m s :
  describes m s -> stat_ok s ->
  TH_ISREG m = Some (S_ISREG (st_mode s)) /\ TH_ISDIR m = Some (S_ISDIR (st_mode s)) /\
  TH_ISSYM m = Some (S_ISLNK (st_mode s)) /\ TH_ISLNK m = Some false /\
  TH_ISLONGNAME m = Some false /\ TH_ISLONGLINK m = Some false.
Proof.
  intros D S. unfold TH_ISREG, TH_ISDIR, TH_ISSYM, TH_ISLNK, TH_ISLONGNAME, TH_ISLONGLINK.
  rewrite (describes_flag _ _ D), (describes_mode _ _ D S). unfold flag_of, S_ISREG, S_ISDIR, S_ISLNK.
  destruct (so_type _ S) as [E|[E|E]]; rewrite E; repeat split; cbn; rewrite ?E; reflexivity.
Qed.

Lemma describes_size m s : describes m s -> stat_ok s -> th_get_size m = Some (stored_size s).
Proof.
  intros D S. apply (describes_octal size_codec m s); [done| |apply (d_size _ _ D)|cbn; lia].
  pose proof (so_size _ S). unfold stored_size. cbn. case_match; lia.
Qed.

Lemma octal_string m off id :
  0 <= id < 8 ^ 7 -> bytes_at m off (int_to_oct id 8) ->
  exists t, cstr (drop off m) = Some t /\ strtoul8 t = Some id.
Proof.
  intros Hid Hb. destruct (int_to_oct_text id Hid) as (k & ds & e & Et & Hok & Hne & Hv & He & _).
  assert (8 ^ 7 < 2 ^ 64) by reflexivity. exists (replicate k 32 ++ (digit_char <$> ds) ++ e). split.
  - rewrite (bytes_at_drop _ _ _ Hb), Et.
    replace ((replicate k 32 ++ (digit_char <$> ds) ++ e ++ [0]) ++ drop (off + length (replicate k 32 ++ (digit_char <$> ds) ++ e ++ [0])) m)
      with ((replicate k 32 ++ (digit_char <$> ds) ++ e) ++ 0 :: drop (off + length (replicate k 32 ++ (digit_char <$> ds) ++ e ++ [0])) m)
      by (by rewrite <- !app_assoc).
    apply cstr_app_nul. repeat apply Forall_app_2; [apply blanks_nonzero|by apply digit_char_nonzero|].
    by destruct He as [->| ->]; repeat constructor.
  - rewrite strtoul8_text; [by rewrite Hv|done|done|lia| |lia].
    destruct He as [->| ->]; [by left|right]. by exists 32, [].
Qed.

(** Everything the extraction reads of the status. *)
Lemma describes_fields m s :
  describes m s -> stat_ok s ->
  th_get_mode m = Some (st_mode s) /\ th_get_uid getpwnam m = Some (st_uid s) /\
  th_get_gid getgrnam m = Some (st_gid s) /\ th_get_mtime m = Some (st_mtime s).
Proof.
  intros D S. pose proof (so_uid _ S). pose proof (so_gid _ S). assert (Hr : 8 ^ 7 < 2 ^ 32) by reflexivity.
  split; [|split; [|split]].
  - unfold th_get_mode. rewrite (describes_mode m s D S). cbn [mbind option_bind].
    destruct (so_type _ S) as [Et|[Et|Et]]; rewrite Et; cbn; rewrite ?Et; reflexivity.
  - unfold th_get_uid, at_member.
    destruct (name_lookup _ _ _ _ _ Hpw (d_uname _ _ D)) as (name & -> & Hn). cbn [mbind option_bind].
    rewrite Hn. destruct (octal_string m _ _ (so_uid _ S) (d_uid _ _ D)) as (u & -> & Hu).
    destruct (getpwuid (st_uid s)); [done|]. cbn [mbind option_bind]. rewrite Hu. cbn. by wrap_small.
  - unfold th_get_gid, at_member.
    destruct (name_lookup _ _ _ _ _ Hgr (d_gname _ _ D)) as (name & -> & Hn). cbn [mbind option_bind].
    rewrite Hn. destruct (octal_string m _ _ (so_gid _ S) (d_gid _ _ D)) as (u & -> & Hu).
    destruct (getgrgid (st_gid s)); [done|]. cbn [mbind option_bind]. rewrite Hu. cbn. by wrap_small.
  - apply (describes_octal time_codec m s); [done|apply (so_mtime _ S)|apply (d_mtime _ _ D)|cbn; lia].
Qed.

(** A file's status that fits the header is read back from the header made
    of it: mode, type, owner, group, size and time. *)
Theorem stat_roundtrip s :
  stat_ok s ->
  exists m, th_set_from_stat getpwuid getgrgid (replicate T_BLOCKSIZE 0) s = Some (0, m) /\
    th_get_mode m = Some (st_mode s) /\ TH_ISREG m = Some (S_ISREG (st_mode s)) /\
    TH_ISDIR m = Some (S_ISDIR (st_mode s)) /\ TH_ISSYM m = Some (S_ISLNK (st_mode s)) /\
    th_get_uid getpwnam m = Some (st_uid s) /\ th_get_gid getgrnam m = Some (st_gid s) /\
    th_get_mtime m = Some (st_mtime s) /\
    th_get_size m = Some (if S_ISREG (st_mode s) then st_size s else 0).
Proof.
  intros S. destruct (set_from_stat_spec (replicate T_BLOCKSIZE 0) s S) as (m & E & _ & D);
    [apply length_replicate|apply lookup_replicate_2; bounds..|].
  exists m. split; [exact E|]. destruct (describes_type m s D S) as (H1 & H2 & H3 & _).
  destruct (describes_fields m s D S) as (H4 & H5 & H6 & H7). pose proof (describes_size m s D S) as H8.
  repeat split; assumption.
Qed.
End Users.

(** ** Safe names *)
(** The components of a name, and the name of some. *)
Fixpoint components (s : list Z) : list (list Z) :=
  match s with
  | [] => [[]]
  | c :: s =>
      if c =? slash then [] :: components s
      else match components s with x :: l => (c :: x) :: l | [] => [[c]] end
  end.
Fixpoint path (l : list (list Z)) : list Z :=
  match l with [] => [] | [x] => x | x :: l => x ++ slash :: path l end.
Definition dotdot : list Z := [dot; dot].

Lemma path_cons x y l : path (x :: y :: l) = x ++ slash :: path (y :: l).
Proof. done. Qed.

Lemma components_ne s : components s <> [].
Proof. destruct s as [|c s]; [done|]. cbn. case_match; [done|]. by destruct (components s). Qed.

Lemma path_components s : path (components s) = s.
Proof.
  induction s as [|c s IH]; [done|]. cbn [components]. pose proof (components_ne s) as Hne. destruct (Z.eqb_spec c slash) as [->|Hc].
  - destruct (components s) as [|y l]; [done|]. rewrite path_cons, IH. done.
  - destruct (components s) as [|x [|y l]]; [done| |]; cbn in *; by rewrite IH.
Qed.

Lemma components_slash s : Forall (fun x => slash ∉ x) (components s).
Proof.
  induction s as [|c s IH]; cbn [components]; [repeat constructor; set_solver|]. destruct (Z.eqb_spec c slash) as [->|Hc].
  - constructor; [set_solver|done].
  - destruct (components s) as [|x l]; [repeat constructor; set_solver|]. apply Forall_cons in IH as [H1 H2]. constructor; [set_solver|done].
Qed.

Lemma path_suffix up down : down <> [] -> exists r, path (up ++ down) = r ++ path down.
Proof.
  intros Hd. induction up as [|x up [r E]]; [by exists []|]. cbn [app]. destruct (up ++ down) as [|y l] eqn:El.
  - apply app_eq_nil in El as [_ ?]. done.
  - rewrite path_cons, E. exists (x ++ slash :: r). by rewrite <- app_assoc.
Qed.

Lemma past_component x p : slash ∉ x -> past_slash (x ++ slash :: p) = p /\ past_slash x = [].
Proof.
  induction x as [|c x IH]; intros Hs; [by cbn|]. apply not_elem_of_cons in Hs as [Hc Hs]. cbn [app past_slash].
  rewrite (proj2 (Z.eqb_neq c slash)) by done. by apply IH.
Qed.

(** Only [..] and its slash are skipped. *)
Lemma skip_other x p t : slash ∉ x -> x <> dotdot -> skip_dotdot (x ++ slash :: p) t = (x ++ slash :: p, t).
Proof.
  intros Hs Hx. destruct x as [|a [|b [|c x]]]; cbn [app skip_dotdot].
  - destruct p as [|? [|? p]]; done.
  - destruct p as [|? p]; cbn [app skip_dotdot]; [done|]. assert (a <> slash) by set_solver.
    destruct (Z.eqb_spec a dot) as [->|]; [|done]. by rewrite (proj2 (Z.eqb_neq dot slash)).
  - destruct (Z.eqb_spec a dot) as [->|]; [|done]. destruct (Z.eqb_spec dot b) as [<-|]; [|done]. done.
  - destruct (Z.eqb_spec c slash) as [->|]; [set_solver|]. by rewrite andb_false_r.
Qed.

Lemma skip_last x t : slash ∉ x -> skip_dotdot x t = (x, t).
Proof.
  intros Hs. destruct x as [|a [|b [|c x]]]; [done..|]. cbn [skip_dotdot].
  destruct (Z.eqb_spec c slash) as [->|]; [set_solver|]. by rewrite andb_false_r.
Qed.

Lemma suffix_loop_up fuel p t : suffix_loop (S fuel) (dotdot ++ slash :: p) t = suffix_loop (S fuel) p p.
Proof. destruct p as [|c p]; [destruct fuel; done|]. done. Qed.

(** What is behind the last [..] that something follows. *)
Lemma suffix_loop_spec l fuel pre :
  l <> [] -> Forall (fun x => slash ∉ x) l -> dotdot ∉ pre -> (length (path l) <= fuel)%nat ->
  exists up down z, pre ++ l = up ++ down ++ [z] /\ (up = [] \/ last up = Some dotdot) /\ dotdot ∉ down /\
    suffix_loop fuel (path l) (path (pre ++ l)) = path (down ++ [z]).
Proof.
  revert fuel pre. induction l as [|x l IH]; intros fuel pre Hne Hs Hd Hf; [done|]. apply Forall_cons in Hs as [Hx Hs].
  destruct l as [|y l].
  - exists [], pre, x. split_and!; [done|by left|done|]. cbn [path] in *. destruct x as [|c x]; [by destruct fuel|].
    destruct fuel as [|fuel]; [cbn in Hf; lia|]. cbn [suffix_loop]. rewrite (skip_last (c :: x)) by done.
    rewrite (proj2 (past_component (c :: x) [] Hx)). by destruct fuel.
  - rewrite path_cons, length_app in Hf. cbn [length] in Hf. destruct fuel as [|fuel]; [lia|].
    destruct (decide (x = dotdot)) as [->|Hxd].
    + destruct (IH (S fuel) []) as (up & down & z & E & Hu & Hn & El); [done|done|set_solver|lia|].
      exists (pre ++ dotdot :: up), down, z. split_and!; [cbn [app] in E; by rewrite E, <- app_assoc| |done|].
      * right. rewrite last_app, last_cons. destruct Hu as [->|E2]; [done|rewrite E2; done].
      * rewrite path_cons, suffix_loop_up. exact El.
    + destruct (IH fuel (pre ++ [x])) as (up & down & z & E & Hu & Hn & El); [done|done|set_solver|lia|].
      rewrite <- app_assoc in E, El. exists up, down, z. split_and!; [done..|]. rewrite path_cons.
      assert (Hnil : x ++ slash :: path (y :: l) <> []) by (by destruct x).
      assert (Eun : forall p t, p <> [] -> suffix_loop (S fuel) p t = let '(p, t) := skip_dotdot p t in suffix_loop fuel (past_slash p) t)
        by (by intros []).
      rewrite Eun, skip_other by done. rewrite (proj1 (past_component x _ Hx)). exact El.
Qed.

Lemma safer_spec file_name :
  exists up down z, components (skip_slashes file_name) = up ++ down ++ [z] /\ (up = [] \/ last up = Some dotdot) /\ dotdot ∉ down /\
    safer_name_suffix file_name = match path (down ++ [z]) with [] => [dot] | t => t end.
Proof.
  set (p := skip_slashes file_name). destruct (suffix_loop_spec (components p) (length p) []) as (up & down & z & E & Hu & Hn & El);
    [apply components_ne|apply components_slash|set_solver|by rewrite path_components|].
  exists up, down, z. split_and!; [done..|]. unfold safer_name_suffix. fold p. cbn [app] in El.
  rewrite path_components in El. by rewrite El.
Qed.

Lemma skip_slashes_suffix s : exists r, s = r ++ skip_slashes s.
Proof.
  induction s as [|c s [r IH]]; cbn [skip_slashes]; [by exists []|].
  case_match; [exists (c :: r); by rewrite IH at 1|by exists []].
Qed.

Lemma safer_suffix file_name :
  safer_name_suffix file_name = [dot] \/ exists r, file_name = r ++ safer_name_suffix file_name.
Proof.
  destruct (safer_spec file_name) as (up & down & z & E & _ & _ & ->). destruct (path (down ++ [z])) eqn:Ep; [by left|right].
  destruct (skip_slashes_suffix file_name) as [r Er]. destruct (path_suffix up (down ++ [z])) as [r' E']; [by destruct down|].
  rewrite <- E, path_components, Ep in E'. exists (r ++ r'). by rewrite <- app_assoc, <- E'.
Qed.

(** C30: The name a member is extracted under is what is left of the stored one
    behind its leading slashes and behind the last component [..] that another
    one follows, or the current directory when that is empty: in it no
    component but the last is [..]. *)
Theorem safer_name_suffix_safe file_name :
  exists up down z, components (skip_slashes file_name) = up ++ down ++ [z] /\
    (up = [] \/ last up = Some dotdot) /\ dotdot ∉ down /\
    safer_name_suffix file_name = match path (down ++ [z]) with [] => [dot] | t => t end.
Proof. exact (safer_spec file_name). Qed.

(** A name that goes up in front of a doubled slash is made an absolute one,
    and a last component [..] stays. *)
Lemma safer_name_suffix_absolute : safer_name_suffix (bs "..//etc/passwd") = bs "/etc/passwd".
Proof. reflexivity. Qed.
Lemma safer_name_suffix_parent : safer_name_suffix (bs "..") = bs ".." /\ safer_name_suffix (bs "x/..") = bs "x/..".
Proof. by split. Qed.

(** ** Checksums *)
Lemma foldl_add a l : foldl Z.add a l = a + sum l.
Proof.
  unfold sum. revert a. induction l as [|x l IH]; intros a; cbn [foldl]; [lia|]. rewrite IH, (IH (0 + x)). lia.
Qed.

Lemma sum_cons x l : sum (x :: l) = x + sum l.
Proof. unfold sum at 1. cbn [foldl]. rewrite foldl_add. lia. Qed.

Lemma sum_app l1 l2 : sum (l1 ++ l2) = sum l1 + sum l2.
Proof. induction l1 as [|x l1 IH]; cbn [app]; [cbn; lia|]. rewrite !sum_cons, IH. lia. Qed.

Lemma sum_bound l : Forall byte_ok l -> 0 <= sum l <= 255 * Z.of_nat (length l).
Proof.
  induction 1 as [|x l Hx Hl IH]; [cbn; lia|]. rewrite sum_cons. cbn [length]. unfold byte_ok in Hx. lia.
Qed.

Lemma sum_blanks (f : Z -> Z) l : sum ((fun c => 32 - f c) <$> l) = 32 * Z.of_nat (length l) - sum (f <$> l).
Proof. induction l as [|x l IH]; [done|]. cbn [fmap list_fmap length]. rewrite !sum_cons, IH. lia. Qed.

(** The parts of a header around its checksum. *)
Lemma header_parts m : m = take 148 m ++ get_member m f_chksum ++ drop 156 m.
Proof.
  unfold get_member, at_member. cbn [m_off m_size f_chksum].
  rewrite <- (take_drop 148 m) at 1. f_equal. rewrite <- (take_drop 8 (drop 148 m)) at 1. f_equal.
  by rewrite drop_drop.
Qed.

Lemma chksum_length m : length m = T_BLOCKSIZE -> length (get_member m f_chksum) = 8%nat.
Proof. intros Hm. unfold get_member, at_member. rewrite length_take, length_drop, Hm. reflexivity. Qed.

(** The checksums count the checksum itself as blanks. *)
Lemma th_crc_calc_parts m : length m = T_BLOCKSIZE ->
  th_crc_calc m = sum (take 148 m) + 256 + sum (drop 156 m).
Proof.
  intros Hm. unfold th_crc_calc. rewrite (sum_blanks (fun c => c)), chksum_length, list_fmap_id by done.
  rewrite (header_parts m) at 1. rewrite !sum_app. lia.
Qed.

Lemma th_signed_crc_calc_parts m : length m = T_BLOCKSIZE ->
  th_signed_crc_calc m = sum (i8 <$> take 148 m) + 256 + sum (i8 <$> drop 156 m).
Proof.
  intros Hm. unfold th_signed_crc_calc. rewrite sum_blanks, chksum_length by done.
  rewrite (header_parts m) at 1. rewrite !fmap_app, !sum_app. lia.
Qed.

Lemma i8_byte c : byte_ok c -> i8 c = c \/ i8 c = c - 256.
Proof.
  intros Hc. unfold byte_ok in Hc. destruct (decide (c < 128)) as [H|H]; [left; by wrap_small|right].
  unfold i8. change (2 ^ 7) with 128. change (2 ^ 8) with 256.
  rewrite <- (Z_mod_plus_full _ (-1)), Z.mod_small by lia. lia.
Qed.

Lemma sum_i8 l : Forall byte_ok l -> exists k, 0 <= k /\ sum (i8 <$> l) = sum l - 256 * k.
Proof.
  induction 1 as [|x l Hx Hl (k & Hk & IH)]; [by exists 0|]. cbn [fmap list_fmap]. rewrite !sum_cons, IH.
  destruct (i8_byte x Hx) as [->| ->]; [exists k|exists (k + 1)]; lia.
Qed.

(** The signed checksum is behind the unsigned one by a multiple of 256. *)
Lemma th_signed_crc_calc_le m : length m = T_BLOCKSIZE -> Forall byte_ok m ->
  exists k, 0 <= k /\ th_signed_crc_calc m = th_crc_calc m - 256 * k.
Proof.
  intros Hm Hb. rewrite th_crc_calc_parts, th_signed_crc_calc_parts by done.
  destruct (sum_i8 (take 148 m)) as (k1 & H1 & ->); [by apply Forall_take|].
  destruct (sum_i8 (drop 156 m)) as (k2 & H2 & ->); [by apply Forall_drop|]. exists (k1 + k2). lia.
Qed.

Lemma th_crc_calc_bound m : length m = T_BLOCKSIZE -> Forall byte_ok m -> 0 <= th_crc_calc m < 8 ^ 6.
Proof.
  intros Hm Hb. rewrite th_crc_calc_parts by done.
  pose proof (sum_bound (take 148 m) ltac:(by apply Forall_take)) as H1.
  pose proof (sum_bound (drop 156 m) ltac:(by apply Forall_drop)) as H2.
  rewrite length_take in H1. rewrite length_drop, Hm in H2. unfold T_BLOCKSIZE in *. change (8 ^ 6) with 262144. lia.
Qed.

Lemma chksum_irrelevant m m' : changed_only [f_chksum] m m' -> length m = T_BLOCKSIZE ->
  th_crc_calc m' = th_crc_calc m.
Proof.
  intros C Hm. rewrite !th_crc_calc_parts by (done || by eapply changed_length).
  assert (take 148 m' = take 148 m /\ drop 156 m' = drop 156 m) as [-> ->]; [|done].
  destruct C as [_ C]. split; apply list_eq; intros i.
  - destruct (decide (i < 148)%nat) as [Hi|Hi]; [|by rewrite !lookup_take_ge by lia].
    rewrite !lookup_take_lt by lia. apply C. disjoint.
  - rewrite !lookup_drop. apply C. disjoint.
Qed.

(** A directory of user 1000, whom the database knows, and group 100. *)
Definition demo_pwuid (uid : Z) : option (list Z) := if uid =? 1000 then Some (bs "ann") else None.
Definition demo_pwnam (name : list Z) : option Z := if bool_decide (name = bs "ann") then Some 1000 else None.

Lemma stat_roundtrip_witness :
  exists m, th_set_from_stat demo_pwuid (fun _ => None) (replicate T_BLOCKSIZE 0)
      (mk_stat 1 2 0x41ed 1000 100 4096 1456000000) = Some (0, m) /\
    th_get_mode m = Some 0x41ed /\ TH_ISDIR m = Some true /\ th_get_uid demo_pwnam m = Some 1000 /\
    th_get_gid (fun _ => None) m = Some 100 /\ th_get_mtime m = Some 1456000000 /\ th_get_size m = Some 0.
Proof.
  destruct (stat_roundtrip demo_pwnam (fun _ => None) demo_pwuid (fun _ => None)) with
    (s := mk_stat 1 2 0x41ed 1000 100 4096 1456000000) as (m & E & H1 & _ & H2 & _ & H3 & H4 & H5 & H6).
  - split; [reflexivity|]. intros id name. unfold demo_pwuid. destruct (Z.eqb_spec id 1000) as [->|]; [|done].
    intros [= <-]. split; [reflexivity|]. split; [cbn; lia|]. apply (bool_decide_unpack _). reflexivity.
  - by split.
  - split; [by right; right|vm_compute; split; congruence..].
  - exists m. split; [exact E|]. split; [exact H1|]. split; [exact H2|]. split; [exact H3|].
    split; [exact H4|]. split; [exact H5|exact H6].
Defined.
End ParHeader.
