(* ===== verification/ParBlock.v ===== *)
(** * par: handles and header blocks (libpar.h, block.c, handle.c's block
    input and output, the paths of encode.c and decode.c)

    A handle is a record with the header buffer, the two streams it may use
    and the heap blocks its pointers refer to. *)
From S2P Require Import Prelude CLib Compat ParHeader.

Module ParBlock.
Export ParHeader.

Definition EINVAL : Z := 22.
Definition E2BIG : Z := 7.

(** A descriptor, or zlib's stream over one: the bytes that follow, the bytes
    written, and what the next calls answer: -1, or how many bytes they move
    at most.  Without an answer a call moves all it can. *)
Record stream := mk_stream { s_in : list Z; s_out : list Z; s_io : list Z }.

(** What the extraction asks of the file system. *)
Inductive syscall :=
| Sys_mkdir (path : list Z) (mode : Z)
| Sys_open (path : list Z)
| Sys_write (l : list Z)
| Sys_close
| Sys_chown (path : list Z) (uid gid : Z)
| Sys_utime (path : list Z) (mtime : Z)
| Sys_chmod (path : list Z) (mode : Z)
| Sys_link (target path : list Z)
| Sys_symlink (target path : list Z)
| Sys_unlink (path : list Z)
| Sys_lstat (path : list Z)
| Sys_print (l : list Z).

Record par := mk_par {
  th_buf : mem;
  options : Z;
  use_gz : bool;
  fd : stream;
  gzfd : stream;
  th_pathname : option (list Z);
  allocs : gmap Z (list Z);      (* the heap blocks, by address *)
  addrs : list Z;                (* what the next allocations return *)
  errno : Z;
  trace : list syscall }.        (* the calls made, in order *)

Notation P := (SM par) (only parsing).

Definition set_th_buf (m : mem) (t : par) : par :=
  mk_par m (options t) (use_gz t) (fd t) (gzfd t) (th_pathname t) (allocs t) (addrs t) (errno t) (trace t).
Definition set_streams (f g : stream) (t : par) : par :=
  mk_par (th_buf t) (options t) (use_gz t) f g (th_pathname t) (allocs t) (addrs t) (errno t) (trace t).
Definition set_th_pathname (s : option (list Z)) (t : par) : par :=
  mk_par (th_buf t) (options t) (use_gz t) (fd t) (gzfd t) s (allocs t) (addrs t) (errno t) (trace t).
Definition set_heap (a : gmap Z (list Z)) (l : list Z) (t : par) : par :=
  mk_par (th_buf t) (options t) (use_gz t) (fd t) (gzfd t) (th_pathname t) a l (errno t) (trace t).
Definition set_errno_to (e : Z) (t : par) : par :=
  mk_par (th_buf t) (options t) (use_gz t) (fd t) (gzfd t) (th_pathname t) (allocs t) (addrs t) e (trace t).

Definition set_trace (l : list syscall) (t : par) : par :=
  mk_par (th_buf t) (options t) (use_gz t) (fd t) (gzfd t) (th_pathname t) (allocs t) (addrs t) (errno t) l.

Definition set_errno (e : Z) : P unit := sm_modify (set_errno_to e).

(** A computation on the header buffer. *)
Definition on_buf {A} (f : mem -> option A) : P A := fun t => x ← f (th_buf t); Some (x, t).
Definition upd_buf (f : mem -> option mem) : P unit := fun t => m ← f (th_buf t); Some (tt, set_th_buf m t).

(** ** The heap *)

(** A new block with the bytes [l]; 0 when there is no memory. *)
Definition malloc (l : list Z) : P Z := fun t =>
  match addrs t with
  | [] => Some (0, t)
  | p :: r => Some (p, set_heap (if p =? 0 then allocs t else <[p := l]> (allocs t)) r t)
  end.

Definition free (p : Z) : P unit := fun t =>
  if p =? 0 then Some (tt, t)
  else _ ← allocs t !! p; Some (tt, set_heap (delete p (allocs t)) (addrs t) t).

Definition block (p : Z) : P (list Z) := fun t => l ← allocs t !! p; Some (l, t).
Definition set_block (p : Z) (l : list Z) : P unit := fun t =>
  _ ← allocs t !! p; Some (tt, set_heap (<[p := l]> (allocs t)) (addrs t) t).

(** The string at an address. *)
Definition string_at (p : Z) : P (list Z) := l ← block p; sm_lift (cstr l).
Definition strdup (s : list Z) : P Z := malloc (s ++ [0]).

(** The pointer members of the header. *)
Definition get_ptr (f : member) : P Z := on_buf (fun m => l ← mload m (m_off f) 8; Some (le_val l)).
Definition set_ptr (f : member) (p : Z) : P unit := upd_buf (fun m => put m f (le_bytes 8 p)).

(** ** Block input and output *)
Definition next_answer (s : stream) (n : nat) : Z * list Z :=
  match s_io s with [] => (Z.of_nat n, []) | a :: io => (a, io) end.

Definition stream_read (s : stream) (n : nat) : Z * list Z * stream :=
  let '(a, io) := next_answer s n in
  if a <? 0 then (-1, [], mk_stream (s_in s) (s_out s) io)
  else
    let l := take (Z.to_nat a `min` n) (s_in s) in
    (Z.of_nat (length l), l, mk_stream (drop (length l) (s_in s)) (s_out s) io).

Definition stream_write (s : stream) (l : list Z) : Z * stream :=
  let '(a, io) := next_answer s (length l) in
  if a <? 0 then (-1, mk_stream (s_in s) (s_out s) io)
  else
    let w := take (Z.to_nat a `min` length l) l in
    (Z.of_nat (length w), mk_stream (s_in s) (s_out s ++ w) io).

(** The stream a handle uses. *)
Definition archive (t : par) : stream := if use_gz t then gzfd t else fd t.
Definition set_archive (s : stream) (t : par) : par :=
  if use_gz t then set_streams (fd t) s t else set_streams s (gzfd t) t.

(** The count and the bytes read. *)
Definition par_block_read : P (Z * list Z) := fun t =>
  let '(n, l, s) := stream_read (archive t) T_BLOCKSIZE in Some ((n, l), set_archive s t).
Definition par_block_write (buf : list Z) : P Z := fun t =>
  let '(n, s) := stream_write (archive t) buf in Some (n, set_archive s t).

(** ** block.c *)
Definition th_finish (m : mem) : option mem :=
  m ← put m f_version (take TVERSLEN TVERSION);
  m ← put m f_magic (take TMAGLEN TMAGIC);
  put m f_chksum (int_to_oct (th_crc_calc m) 8).

(** [T_BLOCKSIZE] or what a failed call leaves [errno] at. *)
Definition failed_block (i : Z) : P Z := (if i =? -1 then mret tt else set_errno EINVAL);; mret (-1).

Fixpoint read_internal_loop (fuel : nat) (num_zero_blocks : Z) : P Z :=
  match fuel with
  | O => sm_undef
  | S f =>
      '(i, l) ← par_block_read;
      upd_buf (fun m => mstore m 0 l);;
      if negb (i =? Z.of_nat T_BLOCKSIZE) then mret i
      else
        name0 ← on_buf (fun m => m !! m_off f_name);
        if name0 =? 0 then
          o ← sm_gets options;
          if negb (BIT_ISSET o PAR_IGNORE_EOT) && (2 <=? num_zero_blocks + 1) then mret 0
          else read_internal_loop f (num_zero_blocks + 1)
        else
          magic ← on_buf (fun m => Some (is_posix m));
          version ← on_buf (fun m =>
            Some (bool_decide (take TVERSLEN (get_member m f_version) = take TVERSLEN TVERSION)));
          if negb magic then mret (-2)
          else if negb version then mret (-2)
          else
            ok ← on_buf th_crc_ok;
            mret (if ok : bool then i else -2)
  end.

(** Every round but the last reads a block. *)
Definition rounds : P nat := sm_gets (fun t => S (length (s_in (archive t)))).
Definition th_read_internal : P Z := k ← rounds; read_internal_loop k 0.

(** The blocks of a long name, appended to the heap block at [p]. *)
Fixpoint read_long_loop (fuel : nat) (p j blocks : Z) : P Z :=
  if negb (j <? blocks) then mret 0
  else match fuel with
  | O => sm_undef
  | S f =>
      '(i, l) ← par_block_read;
      old ← block p;
      set_block p (old ++ l);;
      if negb (i =? Z.of_nat T_BLOCKSIZE) then failed_block i else read_long_loop f p (j + 1) blocks
  end.

Definition block_count (sz : Z) : Z := sz / 512 + (if sz `mod` 512 =? 0 then 0 else 1).

(** A GNU extension header: its text goes to the pointer member [f], then the
    next header is read. *)
Definition read_long (f : member) : P Z :=
  sz ← on_buf th_get_size;
  let blocks := block_count sz in
  if (2 ^ 64 - 1) / 512 <? blocks then set_errno E2BIG;; mret (-1)
  else
    p ← malloc [];
    set_ptr f p;;
    if p =? 0 then mret (-1)
    else
      k ← rounds;
      r ← read_long_loop k p 0 blocks;
      if negb (r =? 0) then mret (-1)
      else
        i ← th_read_internal;
        if negb (i =? Z.of_nat T_BLOCKSIZE) then failed_block i else mret 0.

(** What follows the first header. *)
Definition read_extensions (i : Z) : P Z :=
  if i =? 0 then mret 1
  else if negb (i =? Z.of_nat T_BLOCKSIZE) then failed_block i
  else
    longlink ← on_buf TH_ISLONGLINK;
    r ← (if longlink : bool then read_long f_gnu_longlink else mret 0);
    if negb (r =? 0) then mret (-1)
    else
      longname ← on_buf TH_ISLONGNAME;
      r ← (if longname : bool then read_long f_gnu_longname else mret 0);
      mret r.

Definition th_read : P Z :=
  p ← get_ptr f_gnu_longname; free p;;
  p ← get_ptr f_gnu_longlink; free p;;
  upd_buf (fun _ => Some (replicate T_BLOCKSIZE 0));;
  i ← th_read_internal;
  read_extensions i.

(** Writes one block; 0 or -1. *)
Definition write_block (l : list Z) : P Z :=
  i ← par_block_write l; if negb (i =? Z.of_nat T_BLOCKSIZE) then failed_block i else mret 0.

(** The full blocks of a long name, and the rest of the name. *)
Fixpoint write_long_loop (j : nat) (s : list Z) : P (Z * list Z) :=
  match j with
  | S (S _ as j') =>
      r ← write_block (take T_BLOCKSIZE s);
      if negb (r =? 0) then mret (-1, s) else write_long_loop j' (drop T_BLOCKSIZE s)
  | _ => mret (0, s)
  end.

(** The extension header of type [ty] for the name at [p]. *)
Definition write_long (p ty : Z) : P Z :=
  type2 ← on_buf typeflag;
  sz2 ← on_buf th_get_size;
  upd_buf (fun m => put m f_typeflag [ty]);;
  s ← string_at p;
  upd_buf (fun m => th_set_size m (Z.of_nat (length s)));;
  upd_buf th_finish;;
  m ← sm_gets th_buf;
  r ← write_block m;
  if negb (r =? 0) then mret (-1)
  else
    '(r, rest) ← write_long_loop (Z.to_nat (block_count (Z.of_nat (length s)))) s;
    if negb (r =? 0) then mret (-1)
    else
      r ← write_block (strncpy_out T_BLOCKSIZE rest);
      if negb (r =? 0) then mret (-1)
      else
        upd_buf (fun m => put m f_typeflag [type2]);;
        upd_buf (fun m => th_set_size m sz2);;
        mret 0.

Definition th_write : P Z :=
  o ← sm_gets options;
  longlink ← get_ptr f_gnu_longlink;
  r ← (if BIT_ISSET o PAR_GNU && negb (longlink =? 0) then write_long longlink GNU_LONGLINK_TYPE
       else mret 0);
  if negb (r =? 0) then mret (-1)
  else
    longname ← get_ptr f_gnu_longname;
    r ← (if BIT_ISSET o PAR_GNU && negb (longname =? 0) then write_long longname GNU_LONGNAME_TYPE
         else mret 0);
    if negb (r =? 0) then mret (-1)
    else
      upd_buf th_finish;;
      m ← sm_gets th_buf;
      write_block m.

(** ** Paths *)
Definition th_get_linkname : P (list Z) :=
  p ← get_ptr f_gnu_longlink;
  if negb (p =? 0) then string_at p else on_buf (fun m => cstr (at_member m f_linkname)).

(** NULL when there is no memory for the buffer. *)
Definition th_get_pathname : P (option (list Z)) :=
  p ← get_ptr f_gnu_longname;
  if negb (p =? 0) then s ← string_at p; mret (Some (safer_name_suffix s))
  else
    old ← sm_gets th_pathname;
    ok ← match old with Some _ => mret 1 | None => malloc [] end;
    if ok =? 0 then mret None
    else
      m ← sm_gets th_buf;
      let name := until_nul (get_member m f_name) in
      let prefix := until_nul (get_member m f_prefix) in
      first ← on_buf (fun m => m !! m_off f_prefix);
      let s := if negb (is_posix m) || (first =? 0) then name else prefix ++ [slash] ++ name in
      sm_modify (set_th_pathname (Some s));;
      mret (Some (safer_name_suffix s)).

(** The last character of an empty path is read in front of it.  A path that
    cannot be split is left out, with a message. *)
Definition th_set_path (pathname : list Z) : P unit :=
  p ← get_ptr f_gnu_longname;
  free p;;
  set_ptr f_gnu_longname 0;;
  c ← sm_lift (last pathname);
  dir ← (if c =? slash then mret false else on_buf TH_ISDIR);
  let suffix := if dir : bool then [slash] else [] in
  o ← sm_gets options;
  let len := length pathname in
  if (T_NAMELEN - 1 <? len)%nat && BIT_ISSET o PAR_GNU then
    p ← strdup pathname;
    set_ptr f_gnu_longname p;;
    s ← string_at p;
    upd_buf (fun m => put m f_name (strncpy_out T_NAMELEN s))
  else if (T_NAMELEN <? len)%nat then
    let from := (len - T_NAMELEN - 1)%nat in
    match find_char slash (drop from pathname) with
    | None => mret tt
    | Some k =>
        let tmp := (from + k)%nat in
        upd_buf (fun m => put m f_name (snprintf_out 100 (drop (S tmp) pathname ++ suffix)));;
        upd_buf (fun m => put m f_prefix (snprintf_out (S tmp `min` 155) pathname))
    end
  else upd_buf (fun m => put m f_name (snprintf_out 100 (pathname ++ suffix))).

Definition th_set_link (linkname : list Z) : P unit :=
  o ← sm_gets options;
  if (T_NAMELEN - 1 <? length linkname)%nat && BIT_ISSET o PAR_GNU then
    p ← strdup linkname;
    set_ptr f_gnu_longlink p;;
    upd_buf (fun m => put m f_linkname (bs "././@LongLink" ++ [0]))
  else
    upd_buf (fun m => put m f_linkname (strlcpy_out (m_size f_linkname) linkname));;
    p ← get_ptr f_gnu_longlink;
    free p;;
    set_ptr f_gnu_longlink 0.

(** ** Finished headers *)
Definition version_ok (m : mem) : bool :=
  bool_decide (take TVERSLEN (get_member m f_version) = take TVERSLEN TVERSION).

(** A header that is accepted when it is read. *)
Record header_ok (m : mem) : Prop := {
  ho_length : length m = T_BLOCKSIZE;
  ho_name : m !! 0%nat <> Some 0;
  ho_magic : is_posix m = true;
  ho_version : version_ok m = true;
  ho_crc : th_crc_ok m = Some true }.

Definition finish_members : list member := [f_version; f_magic; f_chksum].

Lemma member_is m f l : bytes_at m (m_off f) l -> length l = m_size f -> get_member m f = l.
Proof.
  intros H Hl. unfold get_member, at_member. rewrite (bytes_at_drop _ _ _ H). by rewrite take_app_length'.
Qed.

Lemma put_bytes m f l m' : put m f l = Some m' -> Forall byte_ok m -> Forall byte_ok l -> Forall byte_ok m'.
Proof.
  unfold put, mstore. case_decide; [|done]. intros [= <-] Hm Hl.
  repeat apply Forall_app_2; [by apply Forall_take|done|by apply Forall_drop].
Qed.

Lemma digit_char_byte ds : digits_ok 8 ds -> Forall byte_ok (digit_char <$> ds).
Proof.
  intros H. apply Forall_fmap. eapply Forall_impl; [exact H|]. intros d Hd. cbn in Hd |- *.
  pose proof (digit_char_range d). unfold byte_ok. lia.
Qed.

Lemma int_to_oct_bytes n : 0 <= n < 8 ^ 7 -> Forall byte_ok (int_to_oct n 8).
Proof.
  intros Hn. destruct (int_to_oct_text n Hn) as (k & ds & e & -> & Hok & _ & _ & He & _).
  repeat apply Forall_app_2; [by apply Forall_replicate|by apply digit_char_byte| |by repeat constructor].
  by destruct He as [->| ->]; repeat constructor.
Qed.

Lemma oct_nonull_bytes n : 0 <= n < 2 ^ 31 -> Forall byte_ok (oct_nonull n).
Proof.
  intros Hn. destruct (fmt_width_digits 11 11 n) as (k & ds & E & Hok & _);
    [lia|change (8 ^ Z.of_nat 11) with (2 ^ 33); lia|lia|].
  unfold oct_nonull. rewrite E. repeat apply Forall_app_2; [by apply Forall_replicate|by apply digit_char_byte|].
  by repeat constructor.
Qed.

Lemma put_name_bytes by_name by_id f id m m' :
  database_ok by_name by_id -> Forall byte_ok m ->
  match by_id id with Some n => put m f (strlcpy_out (m_size f) n) | None => Some m end = Some m' ->
  Forall byte_ok m'.
Proof.
  intros [_ Hdb] Hm E. destruct (by_id id) as [n|] eqn:En; [|by injection E as <-].
  eapply put_bytes; [exact E|exact Hm|]. apply Forall_app_2; [|by repeat constructor].
  apply Forall_take. eapply Forall_impl; [apply (Hdb _ _ En)|]. unfold byte_ok. cbn. lia.
Qed.

Lemma put_flag_bytes (b : bool) v m m' :
  byte_ok v -> Forall byte_ok m -> (if b then put m f_typeflag [v] else Some m) = Some m' -> Forall byte_ok m'.
Proof.
  intros Hv Hm E. destruct b; [|by injection E as <-]. eapply put_bytes; [exact E|exact Hm|by constructor].
Qed.

(** A header made from a file's status consists of bytes. *)
Lemma from_stat_bytes by_name by_gname getpwuid getgrgid m s m' :
  database_ok by_name getpwuid -> database_ok by_gname getgrgid -> stat_ok s ->
  length m = T_BLOCKSIZE -> Forall byte_ok m ->
  th_set_from_stat getpwuid getgrgid m s = Some (0, m') -> Forall byte_ok m'.
Proof.
  intros Hpw Hgr S L Hb. unfold th_set_from_stat. case_match; [done|].
  assert (H16 : 2 ^ 16 < 8 ^ 7) by reflexivity. pose proof (so_mode _ S). pose proof (so_size _ S).
  assert (Hnn : forall n f x, 0 <= n < 2 ^ 31 -> m_size f = 12%nat -> (m_off f + 12 <= length x)%nat ->
    Forall byte_ok (int_to_oct_nonull n 12 (get_member x f))).
  { intros n f x Hn Hs Hl. rewrite int_to_oct_nonull_text; [by apply oct_nonull_bytes|done|].
    unfold get_member, at_member. len. }
  assert (Hlen : forall x f l y, put x f l = Some y -> length y = length x)
    by (intros x f l y E; by eapply mstore_length).
  intros E. apply bind_Some_inv in E as (m1 & E1 & E). unfold th_set_type in E1.
  apply bind_Some_inv in E1 as (x1 & F1 & E1). apply bind_Some_inv in E1 as (x2 & F2 & E1).
  apply bind_Some_inv in E as (m2 & E2 & E). apply bind_Some_inv in E2 as (x3 & F3 & E2).
  apply bind_Some_inv in E as (m3 & E3 & E). apply bind_Some_inv in E3 as (x4 & F4 & E3).
  apply bind_Some_inv in E as (m4 & E4 & E). apply bind_Some_inv in E as (m5 & E5 & E).
  apply bind_Some_inv in E as (m6 & E6 & E). injection E as <-.
  assert (Lf : forall (b : bool) v x y, (if b then put x f_typeflag [v] else Some x) = Some y -> length y = length x).
  { intros [] v x y Ex; [by eapply Hlen|by injection Ex as <-]. }
  assert (Ln : forall (o : option (list Z)) f x y,
    match o with Some n => put x f (strlcpy_out (m_size f) n) | None => Some x end = Some y -> length y = length x).
  { intros [n|] f x y Ex; [by eapply Hlen|by injection Ex as <-]. }
  assert (L4 : length m4 = T_BLOCKSIZE).
  { rewrite (Hlen _ _ _ _ E4), (Hlen _ _ _ _ E3), (Ln _ _ _ _ F4), (Hlen _ _ _ _ E2), (Ln _ _ _ _ F3).
    by rewrite (Lf _ _ _ _ E1), (Lf _ _ _ _ F2), (Lf _ _ _ _ F1). }
  pose proof (Hlen _ _ _ _ E5) as L5.
  eapply put_bytes; [exact E6| |apply Hnn; [case_match; lia|done|rewrite L5, L4; bounds]].
  eapply put_bytes; [exact E5| |apply Hnn; [apply S|done|rewrite L4; bounds]].
  eapply put_bytes; [exact E4| |apply int_to_oct_bytes; lia].
  eapply put_bytes; [exact E3| |apply int_to_oct_bytes, S]. eapply put_name_bytes; [exact Hgr| |exact F4].
  eapply put_bytes; [exact E2| |apply int_to_oct_bytes, S]. eapply put_name_bytes; [exact Hpw| |exact F3].
  eapply put_flag_bytes; [|eapply put_flag_bytes; [|eapply put_flag_bytes; [|exact Hb|exact F1]|exact F2]|exact E1];
    (unfold byte_ok, SYMTYPE, REGTYPE, DIRTYPE; lia).
Qed.

(** [th_finish] makes a header acceptable and changes nothing but the
    version, the magic and the checksum. *)
Lemma th_finish_spec m :
  length m = T_BLOCKSIZE -> Forall byte_ok m ->
  exists m', th_finish m = Some m' /\ changed_only finish_members m m' /\ Forall byte_ok m' /\
    is_posix m' = true /\ version_ok m' = true /\
    bytes_at m' (m_off f_chksum) (int_to_oct (th_crc_calc m') 8).
Proof.
  intros Hm Hb. unfold th_finish.
  destruct (put_spec m f_version (take TVERSLEN TVERSION)) as (m1 & E1 & C1 & B1); [done|bounds..|].
  rewrite E1. cbn [mbind option_bind]. pose proof (changed_length _ _ _ C1 Hm) as L1.
  pose proof (put_bytes _ _ _ _ E1 Hb ltac:(by repeat constructor)) as Hb1.
  destruct (put_spec m1 f_magic (take TMAGLEN TMAGIC)) as (m2 & E2 & C2 & B2); [done|bounds..|].
  rewrite E2. cbn [mbind option_bind]. pose proof (changed_length _ _ _ C2 L1) as L2.
  pose proof (put_bytes _ _ _ _ E2 Hb1 ltac:(by repeat constructor)) as Hb2.
  pose proof (th_crc_calc_bound m2 L2 Hb2) as Hc. assert (8 ^ 6 < 8 ^ 7) by reflexivity.
  assert (Hc7 : 0 <= th_crc_calc m2 < 8 ^ 7) by lia.
  destruct (put_spec m2 f_chksum (int_to_oct (th_crc_calc m2) 8)) as (m3 & E3 & C3 & B3);
    [done|bounds|rewrite (codec_length (Codec := oct_codec) _ Hc7); bounds|].
  exists m3. split; [done|].
  split; [exact (changed_trans [_] [_; _] _ _ _ C1 (changed_trans [_] [_] _ _ _ C2 C3))|].
  split; [by eapply put_bytes; [exact E3|done|apply int_to_oct_bytes]|].
  split; [|split].
  - unfold is_posix. rewrite (member_is m3 f_magic (take TMAGLEN TMAGIC)); [reflexivity| |reflexivity].
    eapply bytes_kept; [exact C3|exact B2|disjoint].
  - unfold version_ok. rewrite (member_is m3 f_version (take TVERSLEN TVERSION)); [reflexivity| |reflexivity].
    eapply bytes_kept; [exact (changed_trans [_] [_] _ _ _ C2 C3)|exact B1|disjoint].
  - by rewrite (chksum_irrelevant m2 m3 C3 L2).
Qed.

(** The stored checksum is the one it is compared with. *)
Lemma stored_crc m n :
  length m = T_BLOCKSIZE -> 0 <= n < 8 ^ 7 -> bytes_at m (m_off f_chksum) (int_to_oct n 8) ->
  th_get_crc m = Some n.
Proof.
  intros Hm Hn Hb. unfold th_get_crc, oct_to_int, at_member.
  destruct (octal_string m _ n Hn Hb) as (s & -> & Hs). cbn [mbind option_bind]. rewrite Hs.
  assert (8 ^ 7 < 2 ^ 31) by reflexivity. by wrap_small.
Qed.

Lemma finished_ok m m' :
  length m = T_BLOCKSIZE -> Forall byte_ok m -> m !! 0%nat <> Some 0 -> th_finish m = Some m' -> header_ok m'.
Proof.
  intros Hm Hb H0 E. destruct (th_finish_spec m Hm Hb) as (m1 & E1 & C & Hb1 & H1 & H2 & H3).
  rewrite E in E1. injection E1 as <-. pose proof (changed_length _ _ _ C Hm) as L.
  split; [done| |done|done|].
  - by rewrite (proj2 C) by disjoint.
  - unfold th_crc_ok. pose proof (th_crc_calc_bound m' L Hb1). assert (8 ^ 6 < 8 ^ 7) by reflexivity.
    rewrite (stored_crc m' (th_crc_calc m')) by (done || lia). cbn. by rewrite Z.eqb_refl.
Qed.

(** ** Runs of the block operations *)

(** A handle whose stream works and has the bytes [l] in front of it. *)
Definition reads (t : par) (l : list Z) : Prop := s_io (archive t) = [] /\ s_in (archive t) = l.
Definition read_to (t : par) (r : list Z) : par := set_archive (mk_stream r (s_out (archive t)) []) t.
Definition wrote (t : par) (l : list Z) : par :=
  set_archive (mk_stream (s_in (archive t)) (s_out (archive t) ++ l) []) t.

Lemma archive_set s t : archive (set_archive s t) = s.
Proof. unfold archive, set_archive. destruct (use_gz t) eqn:E; cbn; by rewrite E. Qed.

Lemma archive_buf m t : archive (set_th_buf m t) = archive t.
Proof. done. Qed.

Lemma reads_read_to t l r : reads t l -> reads (read_to t r) r.
Proof. intros _. unfold reads, read_to. by rewrite archive_set. Qed.

Lemma read_to_buf t r : th_buf (read_to t r) = th_buf t.
Proof. unfold read_to, set_archive. by destruct (use_gz t). Qed.

Lemma read_to_options t r : options (read_to t r) = options t.
Proof. unfold read_to, set_archive. by destruct (use_gz t). Qed.

Lemma block_read_run t l r :
  reads t (l ++ r) -> length l = T_BLOCKSIZE ->
  par_block_read t = Some ((Z.of_nat T_BLOCKSIZE, l), read_to t r).
Proof.
  intros [Hio Hin] Hl. unfold par_block_read, stream_read, next_answer. rewrite Hio, Hin.
  rewrite (proj2 (Z.ltb_ge _ _)) by lia. rewrite Nat2Z.id, Nat.min_id, <- Hl.
  by rewrite take_app_length, drop_app_length, Hl.
Qed.

Lemma block_write_run t l :
  s_io (archive t) = [] -> length l = T_BLOCKSIZE ->
  par_block_write l t = Some (Z.of_nat T_BLOCKSIZE, wrote t l).
Proof.
  intros Hio Hl. unfold par_block_write, stream_write, next_answer. rewrite Hio.
  rewrite (proj2 (Z.ltb_ge _ _)) by lia. rewrite Nat2Z.id, Nat.min_id, firstn_all, Hl. done.
Qed.

Lemma upd_buf_run f t m : f (th_buf t) = Some m -> upd_buf f t = Some (tt, set_th_buf m t).
Proof. intros E. unfold upd_buf. by rewrite E. Qed.

Lemma on_buf_run {A} (f : mem -> option A) t x : f (th_buf t) = Some x -> on_buf f t = Some (x, t).
Proof. intros E. unfold on_buf. by rewrite E. Qed.

Lemma fill_buf m l : length m = T_BLOCKSIZE -> length l = T_BLOCKSIZE -> mstore m 0 l = Some l.
Proof.
  intros Hm Hl. rewrite mstore_Some by lia. cbn [take app plus]. rewrite drop_ge by lia. by rewrite app_nil_r.
Qed.

(** The handle after the block [l] was read into its buffer. *)
Definition got (t : par) (l r : list Z) : par := set_th_buf l (read_to t r).

Lemma got_reads t l r : reads (got t l r) r.
Proof. unfold reads, got, read_to. by rewrite archive_buf, archive_set. Qed.

Lemma got_options t l r : options (got t l r) = options t.
Proof. apply (read_to_options t r). Qed.

Lemma read_to_read_to t r1 r2 : read_to (read_to t r1) r2 = read_to t r2.
Proof. unfold read_to, archive, set_archive, set_streams. by destruct t as [? ? [] ? ? ? ? ? ? ?]. Qed.

Lemma got_got t l1 r1 l2 r2 : got (got t l1 r1) l2 r2 = got t l2 r2.
Proof. unfold got, read_to, archive, set_archive, set_streams, set_th_buf. by destruct t as [? ? [] ? ? ? ? ? ? ?]. Qed.

(** What a round does with the block it read. *)
Definition judge (fuel : nat) (z : Z) (t : par) (l : mem) : option (Z * par) :=
  (name0 ← l !! 0%nat;
   if name0 =? 0 then
     if negb (BIT_ISSET (options t) PAR_IGNORE_EOT) && (2 <=? z + 1) then Some (0, t)
     else read_internal_loop fuel (z + 1) t
   else if negb (is_posix l) then Some (-2, t)
   else if negb (version_ok l) then Some (-2, t)
   else ok ← th_crc_ok l; Some (if ok : bool then Z.of_nat T_BLOCKSIZE else -2, t)).

Lemma read_round fuel z t l r :
  reads t (l ++ r) -> length l = T_BLOCKSIZE -> length (th_buf t) = T_BLOCKSIZE ->
  read_internal_loop (S fuel) z t = judge fuel z (got t l r) l.
Proof.
  intros Hr Hl Hb. cbn [read_internal_loop]. sm_step (block_read_run t l r Hr Hl). cbn beta iota.
  assert (Eb : mstore (th_buf (read_to t r)) 0 l = Some l) by (rewrite read_to_buf; by apply fill_buf).
  sm_step (upd_buf_run (fun m => mstore m 0 l) (read_to t r) l Eb). rewrite Z.eqb_refl. cbn [negb].
  fold (got t l r). unfold judge. cbn [m_off f_name].
  destruct (l !! 0%nat) as [name0|] eqn:E0.
  2:{ apply lookup_ge_None in E0. rewrite Hl in E0. unfold T_BLOCKSIZE in E0. lia. }
  sm_step (on_buf_run (fun m => m !! 0%nat) (got t l r) name0 E0). cbn [mbind option_bind].
  destruct (name0 =? 0).
  - sm_step (eq_refl (Some (options (got t l r), got t l r))). by case_match.
  - sm_step (on_buf_run (fun m => Some (is_posix m)) (got t l r) (is_posix l) eq_refl).
    sm_step (on_buf_run (fun m => Some (version_ok m)) (got t l r) (version_ok l) eq_refl).
    destruct (is_posix l), (version_ok l); cbn [negb]; try done.
    unfold mbind, SM_bind, on_buf. cbn [th_buf got set_th_buf]. by destruct (th_crc_ok l).
Qed.

Lemma rounds_run t : rounds t = Some (S (length (s_in (archive t))), t).
Proof. done. Qed.

Lemma rounds_more t l r : reads t (l ++ r) -> length l = T_BLOCKSIZE ->
  exists k, rounds t = Some (S (S k), t).
Proof.
  intros [_ Hin] Hl. exists (length r + 511)%nat. rewrite rounds_run, Hin, length_app, Hl.
  do 2 f_equal. unfold T_BLOCKSIZE. lia.
Qed.

(** An acceptable header is read. *)
Lemma read_accepts t l r :
  reads t (l ++ r) -> header_ok l -> length (th_buf t) = T_BLOCKSIZE ->
  th_read_internal t = Some (Z.of_nat T_BLOCKSIZE, got t l r).
Proof.
  intros Hr [Hl H0 H1 H2 H3] Hb. unfold th_read_internal. sm_step rounds_run.
  rewrite (read_round _ _ _ l r) by done. unfold judge. destruct (l !! 0%nat) as [c|] eqn:E0.
  2:{ apply lookup_ge_None in E0. rewrite Hl in E0. unfold T_BLOCKSIZE in E0. lia. }
  cbn [mbind option_bind]. rewrite (proj2 (Z.eqb_neq _ _)) by congruence. rewrite H1, H2, H3. done.
Qed.

(** Two zero blocks end the archive. *)
Lemma read_eof t r :
  reads t (replicate (2 * T_BLOCKSIZE) 0 ++ r) -> BIT_ISSET (options t) PAR_IGNORE_EOT = false ->
  length (th_buf t) = T_BLOCKSIZE ->
  th_read_internal t = Some (0, got t (replicate T_BLOCKSIZE 0) r).
Proof.
  intros Hr Ho Hb. assert (E : replicate (2 * T_BLOCKSIZE) 0 = replicate T_BLOCKSIZE 0 ++ replicate T_BLOCKSIZE 0)
    by (by rewrite <- replicate_add).
  rewrite E, <- app_assoc in Hr. set (l := replicate T_BLOCKSIZE 0) in *.
  assert (Hl : length l = T_BLOCKSIZE) by apply length_replicate.
  assert (H0 : l !! 0%nat = Some 0) by reflexivity.
  unfold th_read_internal. destruct (rounds_more t l (l ++ r)) as [k Ek]; [done..|]. sm_step Ek.
  rewrite (read_round _ _ t l (l ++ r)) by done. unfold judge. rewrite H0, got_options, Ho. cbn [mbind option_bind].
  change (negb false && (2 <=? 0 + 1)) with false. cbn [Z.eqb].
  rewrite (read_round _ _ _ l r) by (done || apply got_reads). unfold judge. rewrite H0, !got_options, Ho, got_got.
  done.
Qed.

(** A damaged checksum is told. *)
Lemma damaged_crc m i b c h :
  length m = T_BLOCKSIZE -> Forall byte_ok m -> th_finish m = Some h ->
  h !! i = Some b -> byte_ok c -> c <> b -> (i < 148 \/ 156 <= i)%nat ->
  th_crc_ok (<[i := c]> h) = Some false.
Proof.
  intros Hm Hb E Hi Hc Hne Hd. destruct (th_finish_spec m Hm Hb) as (h1 & E1 & C & Hbh & _ & _ & H3).
  rewrite E in E1. injection E1 as <-. pose proof (changed_length _ _ _ C Hm) as L.
  set (h' := <[i := c]> h). assert (L' : length h' = T_BLOCKSIZE) by (unfold h'; by rewrite length_insert).
  assert (Hbh' : Forall byte_ok h') by (by apply Forall_insert).
  pose proof (th_crc_calc_bound h L Hbh) as HB. assert (8 ^ 6 < 8 ^ 7) by reflexivity.
  assert (Hget : th_get_crc h' = Some (th_crc_calc h)).
  { apply stored_crc; [done|lia|]. intros j x Hj. unfold h'. apply lookup_lt_Some in Hj as Hjl.
    rewrite (codec_length (Codec := oct_codec)) in Hjl by lia. cbn [m_off f_chksum] in *.
    rewrite list_lookup_insert_ne by lia. by apply H3. }
  assert (Hsum : th_crc_calc h' = th_crc_calc h + (c - b)).
  { assert (Hins : forall l j x y, l !! j = Some x -> sum (<[j := y]> l) = sum l + (y - x)).
    { intros l j x y Hj. rewrite <- (take_drop_middle l j x Hj) at 2. apply lookup_lt_Some in Hj.
      rewrite insert_take_drop by done. rewrite !sum_app, !sum_cons. lia. }
    rewrite !th_crc_calc_parts by done. unfold h'. destruct Hd as [Hd|Hd].
    - rewrite take_insert_lt, drop_insert_lt by lia. rewrite (Hins _ _ b c); [lia|]. by rewrite lookup_take_lt.
    - rewrite take_insert_ge, drop_insert_ge by lia. rewrite (Hins _ _ b c); [lia|].
      rewrite lookup_drop, <- Hi. f_equal. lia. }
  destruct (th_signed_crc_calc_le h' L' Hbh') as (k & Hk & Hs).
  assert (byte_ok b) as Hbb by (by eapply Forall_lookup_1; [exact Hbh|]). unfold byte_ok in *.
  unfold th_crc_ok. rewrite Hget. cbn [mbind option_bind].
  rewrite (proj2 (Z.eqb_neq _ _)), (proj2 (Z.eqb_neq _ _)) by lia. done.
Qed.

(** A header without GNU pointers. *)
Definition no_ptrs (m : mem) : Prop := bytes_at m (m_off f_gnu_longname) (replicate 16 0).

Lemma get_ptr_run t f : no_ptrs (th_buf t) -> length (th_buf t) = T_BLOCKSIZE ->
  f = f_gnu_longname \/ f = f_gnu_longlink -> get_ptr f t = Some (0, t).
Proof.
  intros Hn Hm Hf. apply on_buf_run. unfold mload.
  assert (E : forall k, (k + 8 <= 16)%nat -> take 8 (drop (496 + k) (th_buf t)) = replicate 8 0).
  { intros k Hk. unfold no_ptrs in Hn. pose proof (bytes_at_drop _ _ _ Hn) as E. cbn [m_off f_gnu_longname] in E.
    rewrite <- drop_drop, E, drop_app_le, drop_replicate, take_app_le by (len).
    rewrite take_replicate. f_equal. lia. }
  rewrite decide_True by (destruct Hf as [-> | ->]; rewrite Hm; bounds). cbn [mbind option_bind].
  destruct Hf as [-> | ->]; [change (m_off f_gnu_longname) with (496 + 0)%nat|change (m_off f_gnu_longlink) with (496 + 8)%nat];
    rewrite E by lia; reflexivity.
Qed.

Lemma free_null t : free 0 t = Some (tt, t).
Proof. done. Qed.

Lemma th_read_run t : no_ptrs (th_buf t) -> length (th_buf t) = T_BLOCKSIZE ->
  th_read t = (th_read_internal ≫= read_extensions) (set_th_buf (replicate T_BLOCKSIZE 0) t).
Proof.
  intros Hn Hm. unfold th_read.
  sm_step (get_ptr_run t f_gnu_longname Hn Hm (or_introl eq_refl)). sm_step free_null.
  sm_step (get_ptr_run t f_gnu_longlink Hn Hm (or_intror eq_refl)). sm_step free_null.
  by sm_step (upd_buf_run (fun _ => Some (replicate T_BLOCKSIZE 0)) t (replicate T_BLOCKSIZE 0) eq_refl).
Qed.

Lemma no_ptrs_zero : no_ptrs (replicate T_BLOCKSIZE 0).
Proof.
  intros i c Hi. apply lookup_replicate in Hi as [-> Hi]. apply lookup_replicate_2. bounds.
Qed.

(** Headers of ordinary members. *)
Definition plain (m : mem) : Prop :=
  TH_ISLONGLINK m = Some false /\ TH_ISLONGNAME m = Some false.

Lemma got_zero t l r : got (set_th_buf (replicate T_BLOCKSIZE 0) t) l r = got t l r.
Proof. unfold got, read_to, archive, set_archive, set_streams, set_th_buf. by destruct t as [? ? [] ? ? ? ? ? ? ?]. Qed.

Lemma th_read_accepts t l r :
  no_ptrs (th_buf t) -> length (th_buf t) = T_BLOCKSIZE -> reads t (l ++ r) -> header_ok l -> plain l ->
  th_read t = Some (0, got t l r).
Proof.
  intros Hn Hm Hr Hl [H1 H2]. rewrite th_read_run by done.
  sm_step (read_accepts (set_th_buf (replicate T_BLOCKSIZE 0) t) l r Hr Hl (length_replicate _ _)).
  unfold read_extensions. cbn [Z.eqb]. rewrite Z.eqb_refl. cbn [negb].
  assert (E : forall f, f l = Some false -> on_buf f (got t l r) = Some (false, got t l r))
    by (intros f; exact (on_buf_run f (got t l r) false)).
  rewrite got_zero. change (Z.of_nat T_BLOCKSIZE =? 0) with false. cbn iota.
  sm_step (E _ H1). cbn iota. sm_step (eq_refl (Some (0, got t l r))). cbn [Z.eqb negb].
  sm_step (E _ H2). done.
Qed.

Lemma th_read_eof t r :
  no_ptrs (th_buf t) -> length (th_buf t) = T_BLOCKSIZE -> reads t (replicate (2 * T_BLOCKSIZE) 0 ++ r) ->
  BIT_ISSET (options t) PAR_IGNORE_EOT = false ->
  th_read t = Some (1, got t (replicate T_BLOCKSIZE 0) r).
Proof.
  intros Hn Hm Hr Ho. rewrite th_read_run by done.
  sm_step (read_eof (set_th_buf (replicate T_BLOCKSIZE 0) t) r Hr Ho (length_replicate _ _)).
  by rewrite got_zero.
Qed.

(** The first byte of a block is all that tells a block of zeros: with a NUL
    there the rest of it is not looked at, and the next header is read. *)
Lemma damaged_first_byte_skipped t z h r :
  length z = T_BLOCKSIZE -> z !! 0%nat = Some 0 -> header_ok h -> length (th_buf t) = T_BLOCKSIZE ->
  reads t (z ++ h ++ r) -> th_read_internal t = Some (Z.of_nat T_BLOCKSIZE, got t h r).
Proof.
  intros Hz H0 [Hl Hn H1 H2 H3] Hb Hr. unfold th_read_internal. destruct (rounds_more t z (h ++ r)) as [k Ek]; [done..|]. sm_step Ek.
  rewrite (read_round _ _ t z (h ++ r)) by done. unfold judge. rewrite H0. cbn [mbind option_bind Z.eqb].
  change (2 <=? 0 + 1) with false. rewrite andb_false_r.
  rewrite (read_round _ _ _ h r) by (done || apply got_reads). unfold judge. destruct (h !! 0%nat) as [c|] eqn:E0.
  2:{ apply lookup_ge_None in E0. rewrite Hl in E0. unfold T_BLOCKSIZE in E0. lia. }
  cbn [mbind option_bind]. rewrite (proj2 (Z.eqb_neq _ _)) by congruence. rewrite H1, H2, H3, got_got. done.
Qed.

(** C28: A member's header with one byte changed outside its checksum is
    refused, unless it is the first byte that is changed to a NUL: such a block
    is taken for one of zeros and skipped without a look at the rest of it
    ([damaged_first_byte_skipped]). *)
Theorem damaged_header_refused t m h i b c r :
  no_ptrs (th_buf t) -> length (th_buf t) = T_BLOCKSIZE ->
  length m = T_BLOCKSIZE -> Forall byte_ok m -> m !! 0%nat <> Some 0 -> th_finish m = Some h ->
  h !! i = Some b -> byte_ok c -> c <> b -> (i < 148 \/ 156 <= i)%nat -> (i = 0%nat -> c <> 0) ->
  reads t (<[i := c]> h ++ r) ->
  th_read t = Some (-1, set_errno_to EINVAL (got t (<[i := c]> h) r)).
Proof.
  intros Hn Ht Hm Hb H0 E Hi Hc Hne Hd Hi0 Hr. rewrite th_read_run by done.
  pose proof (damaged_crc m i b c h Hm Hb E Hi Hc Hne Hd) as Hcrc.
  pose proof (finished_ok m h Hm Hb H0 E) as Hok. set (h' := <[i := c]> h) in *.
  assert (L : length h' = T_BLOCKSIZE) by (unfold h'; rewrite length_insert; apply Hok).
  set (z := set_th_buf (replicate T_BLOCKSIZE 0) t).
  assert (Ei : th_read_internal z = Some (-2, got t h' r)).
  { unfold th_read_internal. sm_step rounds_run. rewrite (read_round _ _ _ h' r) by (done || apply length_replicate).
    unfold z. rewrite got_zero. unfold judge. destruct (h' !! 0%nat) as [n0|] eqn:E0.
    2:{ apply lookup_ge_None in E0. rewrite L in E0. unfold T_BLOCKSIZE in E0. lia. }
    assert (n0 <> 0).
    { destruct (decide (i = 0%nat)) as [->|Hi'].
      - unfold h' in E0. rewrite list_lookup_insert_eq in E0 by (by eapply lookup_lt_Some). injection E0 as <-. by apply Hi0.
      - unfold h' in E0. rewrite list_lookup_insert_ne in E0 by done. intros ->. by apply (ho_name _ Hok). }
    cbn [mbind option_bind]. rewrite (proj2 (Z.eqb_neq _ _)) by done. rewrite Hcrc.
    by destruct (is_posix h'), (version_ok h'). }
  sm_step Ei. done.
Qed.

(** Writing a header without GNU pointers finishes it and writes it. *)
Lemma th_write_run t h :
  no_ptrs (th_buf t) -> length (th_buf t) = T_BLOCKSIZE -> Forall byte_ok (th_buf t) ->
  th_finish (th_buf t) = Some h -> s_io (archive t) = [] ->
  th_write t = Some (0, wrote (set_th_buf h t) h).
Proof.
  intros Hn Hm Hb E Hio. unfold th_write. sm_step (eq_refl (Some (options t, t))).
  sm_step (get_ptr_run t f_gnu_longlink Hn Hm (or_intror eq_refl)). cbn [Z.eqb negb].
  rewrite andb_false_r. cbn iota. sm_step (eq_refl (Some (0, t))). cbn [Z.eqb negb].
  sm_step (get_ptr_run t f_gnu_longname Hn Hm (or_introl eq_refl)). cbn [Z.eqb negb].
  rewrite andb_false_r. cbn iota. sm_step (eq_refl (Some (0, t))). cbn [Z.eqb negb].
  sm_step (upd_buf_run th_finish t h E). sm_step (eq_refl (Some (h, set_th_buf h t))).
  unfold write_block. destruct (th_finish_spec _ Hm Hb) as (h' & E' & C & _). rewrite E in E'. injection E' as <-.
  sm_step (block_write_run (set_th_buf h t) h Hio (changed_length _ _ _ C Hm)). done.
Qed.

(** Finishing a header keeps what it tells of the file, and its pointers. *)
Lemma finished_describes by_name by_gname getpwuid getgrgid m s h :
  database_ok by_name getpwuid -> database_ok by_gname getgrgid ->
  stat_ok s -> describes getpwuid getgrgid m s -> Forall byte_ok m -> th_finish m = Some h ->
  describes getpwuid getgrgid h s.
Proof.
  intros Hpw Hgr S D Hb E. pose proof (d_length _ _ _ _ D) as L.
  destruct (th_finish_spec m L Hb) as (h' & E' & C & Hb' & _ & _ & Hc). rewrite E in E'. injection E' as <-.
  pose proof (changed_length _ _ _ C L) as L'.
  eapply (describes_kept _ _ _ _ Hpw Hgr); [exact S|exact D|exact C|apply (bool_decide_unpack _); vm_compute; exact I|].
  pose proof (th_crc_calc_bound h L' Hb') as HB. assert (8 ^ 6 < 8 ^ 7) by reflexivity.
  destruct (int_to_oct_text (th_crc_calc h) ltac:(lia)) as (k & ds & e & Et & _ & _ & _ & _ & Hl).
  rewrite Et in Hc. apply Hc. rewrite !app_assoc, lookup_app_r by (len).
  rewrite !length_app, length_replicate, length_fmap. by replace (7 - _)%nat with 0%nat by lia.
Qed.

Lemma finished_no_ptrs m h : length m = T_BLOCKSIZE -> Forall byte_ok m -> th_finish m = Some h ->
  no_ptrs m -> no_ptrs h.
Proof.
  intros Hm Hb E Hn. destruct (th_finish_spec m Hm Hb) as (h' & E' & C & _). rewrite E in E'. injection E' as <-.
  eapply bytes_kept; [exact C|exact Hn|disjoint].
Qed.

(** ** Paths *)
Lemma member_string m f s :
  bytes_at m (m_off f) (s ++ [0]) -> Forall (fun c => c <> 0) s -> (length s < m_size f)%nat ->
  until_nul (get_member m f) = s.
Proof.
  intros Hb Hz Hl. unfold get_member, at_member. rewrite (bytes_at_drop _ _ _ Hb), <- app_assoc.
  rewrite take_app_ge by lia. destruct (m_size f - length s)%nat as [|k] eqn:E; [lia|]. by apply until_nul_app.
Qed.

Lemma changed_nothing m m' : changed_only [] m m' -> m' = m.
Proof. intros [_ H]. apply list_eq. intros i. apply H. by apply Forall_nil. Qed.

Lemma set_ptr_null t f : no_ptrs (th_buf t) -> length (th_buf t) = T_BLOCKSIZE ->
  f = f_gnu_longname \/ f = f_gnu_longlink -> set_ptr f 0 t = Some (tt, t).
Proof.
  intros Hn Hm Hf. assert (E : put (th_buf t) f (le_bytes 8 0) = Some (th_buf t)).
  { change (le_bytes 8 0) with (replicate 8 0).
    destruct (mstore_is_Some (th_buf t) (m_off f) (replicate 8 0)) as [m E].
    { rewrite Hm. destruct Hf as [-> | ->]; bounds. }
    etransitivity; [exact E|]. f_equal. apply list_eq. intros i. rewrite (mstore_lookup _ _ _ _ _ E).
    case_decide as Hd; [|done]. rewrite length_replicate in Hd. rewrite lookup_replicate_2 by lia. symmetry.
    assert (Hi : exists j, i = (496 + j)%nat /\ (j < 16)%nat).
    { exists (i - 496)%nat. destruct Hf as [-> | ->]; cbn in Hd; lia. }
    destruct Hi as (j & -> & Hj). apply Hn. by apply lookup_replicate_2. }
  etransitivity; [exact (upd_buf_run _ _ _ E)|]. by destruct t.
Qed.

(** The trailing slash a directory's name gets. *)
Definition dir_suffix (dir : bool) (p : list Z) : list Z :=
  if dir && negb (bool_decide (last p = Some slash)) then [slash] else [].

(** How a path is laid out: in the name member alone, or split at a slash
    into prefix and name. *)
Inductive path_layout (p sfx : list Z) : list Z -> list Z -> Prop :=
| layout_name : (length p + length sfx < 100)%nat -> path_layout p sfx [] (p ++ sfx)
| layout_split pre name :
    p = pre ++ [slash] ++ name -> (100 < length p)%nat -> (length name + length sfx < 100)%nat ->
    (0 < length pre < 155)%nat -> slash ∉ drop (length p - 101) pre -> path_layout p sfx pre (name ++ sfx).

Definition path_members : list member := [f_name; f_prefix].

Lemma find_char_first c s r : c ∉ s -> find_char c (s ++ c :: r) = Some (length s).
Proof.
  unfold find_char. induction s as [|x s IH]; intros Hc; cbn [app find_sub].
  - by rewrite bool_decide_eq_true_2.
  - rewrite bool_decide_eq_false_2.
    + rewrite IH; [done|]. intros H. apply Hc, elem_of_cons. by right.
    + cbn. intros [= ->]. apply Hc, elem_of_cons. by left.
Qed.

Lemma free_longname t B (k : P B) :
  no_ptrs (th_buf t) -> length (th_buf t) = T_BLOCKSIZE ->
  (p0 ← get_ptr f_gnu_longname; free p0;; set_ptr f_gnu_longname 0;; k) t = k t.
Proof.
  intros Hn Hm. sm_step (get_ptr_run t f_gnu_longname Hn Hm (or_introl eq_refl)). sm_step free_null.
  by sm_step (set_ptr_null t f_gnu_longname Hn Hm (or_introl eq_refl)).
Qed.

(** The test behind the suffix, whichever way it goes. *)
Lemma suffix_run t p c dir :
  length (th_buf t) = T_BLOCKSIZE -> TH_ISDIR (th_buf t) = Some dir -> last p = Some c ->
  exists b, (if c =? slash then mret false else on_buf TH_ISDIR) t = Some (b, t) /\
    (if b : bool then [slash] else []) = dir_suffix dir p.
Proof.
  intros Hm Hdir El. unfold dir_suffix. rewrite El. destruct (Z.eqb_spec c slash) as [->|Hc].
  - exists false. rewrite bool_decide_eq_true_2 by done. by rewrite andb_false_r.
  - exists dir. rewrite bool_decide_eq_false_2 by congruence. rewrite andb_true_r.
    split; [by apply on_buf_run|done].
Qed.

(** A string and its NUL in a member that has room for them. *)
Lemma put_string m f l :
  length m = T_BLOCKSIZE -> f = f_name /\ (length l < 100)%nat \/ f = f_prefix /\ (length l < 155)%nat ->
  exists m', put m f (l ++ [0]) = Some m' /\ changed_only [f] m m' /\ bytes_at m' (m_off f) (l ++ [0]).
Proof. intros L [[-> Hl]|[-> Hl]]; (apply put_spec; [done|bounds|len]). Qed.

(** The slash the split is made at. *)
Lemma split_at_slash p pre name :
  p = pre ++ [slash] ++ name -> (100 < length p)%nat -> (length name < 100)%nat ->
  slash ∉ drop (length p - 101) pre ->
  find_char slash (drop (length p - 101) p) = Some (length pre - (length p - 101))%nat /\
  drop (S (length pre)) p = name /\ take (length pre) p = pre.
Proof.
  intros Ep Hlp Hln Hns.
  assert (Hlen : (length p = length pre + 1 + length name)%nat) by (rewrite Ep, !length_app; cbn; lia).
  split; [|split].
  - rewrite Ep at 2. rewrite drop_app_le by lia. cbn [app]. rewrite find_char_first by done. by rewrite length_drop.
  - rewrite Ep, app_assoc. apply drop_app_length'. len.
  - rewrite Ep. apply take_app_length.
Qed.

Lemma set_path_spec t p dir pre name :
  no_ptrs (th_buf t) -> length (th_buf t) = T_BLOCKSIZE -> p <> [] ->
  TH_ISDIR (th_buf t) = Some dir -> BIT_ISSET (options t) PAR_GNU = false ->
  path_layout p (dir_suffix dir p) pre name -> th_buf t !! m_off f_prefix = Some 0 ->
  exists m, th_set_path p t = Some (tt, set_th_buf m t) /\ changed_only path_members (th_buf t) m /\
    bytes_at m (m_off f_name) (name ++ [0]) /\ bytes_at m (m_off f_prefix) (pre ++ [0]) /\
    (Forall byte_ok (th_buf t) -> Forall byte_ok p -> Forall byte_ok m).
Proof.
  intros Hn Hm Hp Hdir Ho Hlay H0.
  assert (Hsl : Forall byte_ok (dir_suffix dir p)) by (unfold dir_suffix; case_match; by repeat constructor).
  destruct (last p) as [c|] eqn:El; [|by apply last_None in El].
  destruct (suffix_run t p c dir Hm Hdir El) as (b & Eb & Esfx).
  unfold th_set_path. rewrite (free_longname t) by done. rewrite El.
  destruct Hlay as [Hl|pre name Ep Hlp Hln Hpre Hns].
  - destruct (put_string (th_buf t) f_name (p ++ dir_suffix dir p) Hm) as (m & E & C & B);
      [left; split; [done|len]|].
    exists m. split; [|split; [|split; [exact B|split]]].
    + sm_step (sm_lift_run (Some c) c t eq_refl). sm_step Eb. rewrite Esfx.
      sm_step (eq_refl (Some (options t, t))). rewrite Ho, andb_false_r.
      rewrite (proj2 (Nat.ltb_ge _ _)) by (unfold T_NAMELEN; lia). apply upd_buf_run.
      cbn [snprintf_out]. rewrite take_ge by (len). exact E.
    + eapply changed_weaken; [exact C|]. intros f Hf. apply list_elem_of_singleton in Hf as ->. apply list_elem_of_here.
    + intros [|i] x Hi; [|done]. injection Hi as <-. rewrite (proj2 C) by disjoint. exact H0.
    + intros Hb Hbp. eapply put_bytes; [exact E|exact Hb|]. repeat apply Forall_app_2; try done. by repeat constructor.
  - destruct (split_at_slash p pre name Ep Hlp ltac:(lia) Hns) as (Ef & Ed & Et).
    assert (Hlen : (length p = length pre + 1 + length name)%nat) by (rewrite Ep, !length_app; cbn; lia).
    destruct (put_string (th_buf t) f_name (name ++ dir_suffix dir p) Hm) as (m1 & E1 & C1 & B1);
      [left; split; [done|len]|].
    destruct (put_string m1 f_prefix pre) as (m2 & E2 & C2 & B2); [by eapply changed_length|right; split; [done|lia]|].
    exists m2. split; [|split; [exact (changed_trans [_] [_] _ _ _ C1 C2)|split; [|split; [exact B2|]]]].
    + sm_step (sm_lift_run (Some c) c t eq_refl). sm_step Eb. rewrite Esfx.
      sm_step (eq_refl (Some (options t, t))). rewrite Ho, andb_false_r.
      rewrite (proj2 (Nat.ltb_lt T_NAMELEN _)) by (unfold T_NAMELEN; lia).
      replace (length p - T_NAMELEN - 1)%nat with (length p - 101)%nat by (unfold T_NAMELEN; lia).
      rewrite Ef. cbv zeta. replace (length p - 101 + (length pre - (length p - 101)))%nat with (length pre) by lia.
      rewrite Ed. cbn [snprintf_out]. rewrite (take_ge (name ++ _)) by (len).
      sm_step (upd_buf_run (fun m => put m f_name ((name ++ dir_suffix dir p) ++ [0])) t m1 E1).
      rewrite Nat.min_l by lia. cbn [snprintf_out]. rewrite Et.
      etransitivity; [exact (upd_buf_run (fun m => put m f_prefix (pre ++ [0])) (set_th_buf m1 t) m2 E2)|]. done.
    + eapply bytes_kept; [exact C2|exact B1|]. rewrite !length_app. disjoint.
    + intros Hb Hbp. rewrite Ep in Hbp. apply Forall_app in Hbp as [Hbp Hbn]. apply Forall_app in Hbn as [_ Hbn].
      eapply put_bytes; [exact E2|eapply put_bytes; [exact E1|exact Hb|]|];
        repeat apply Forall_app_2; try done; by repeat constructor.
Qed.

(** The name a header with such members has. *)
Lemma get_pathname_spec u pre name :
  no_ptrs (th_buf u) -> length (th_buf u) = T_BLOCKSIZE -> is_posix (th_buf u) = true ->
  bytes_at (th_buf u) (m_off f_name) (name ++ [0]) -> bytes_at (th_buf u) (m_off f_prefix) (pre ++ [0]) ->
  Forall (fun c => c <> 0) name -> Forall (fun c => c <> 0) pre ->
  (length name < 100)%nat -> (length pre < 155)%nat ->
  th_pathname u <> None \/ (exists a l, addrs u = a :: l /\ a <> 0) ->
  exists u', th_get_pathname u =
    Some (Some (safer_name_suffix (match pre with [] => name | _ => pre ++ [slash] ++ name end)), u') /\
    th_buf u' = th_buf u /\ archive u' = archive u /\ trace u' = trace u /\ options u' = options u /\
    th_pathname u' <> None.
Proof.
  intros Hn Hm Hp Bn Bp Zn Zp Ln Lp Hbuf. unfold th_get_pathname.
  assert (exists ok u1, match th_pathname u with Some _ => mret 1 | None => malloc [] end u = Some (ok, u1) /\ ok <> 0 /\
    th_buf u1 = th_buf u /\ archive u1 = archive u /\ trace u1 = trace u /\ options u1 = options u)
    as (ok & u1 & E1 & Hok & Eb & Ea & Etr & Eop).
  { destruct (th_pathname u); [by exists 1, u|]. destruct Hbuf as [?|(a & l & Ea & Ha)]; [done|].
    eexists a, _. split; [unfold malloc; rewrite Ea; reflexivity|]. done. }
  eexists. split.
  - sm_step (get_ptr_run u f_gnu_longname Hn Hm (or_introl eq_refl)). cbn [Z.eqb negb].
    sm_step (eq_refl (Some (th_pathname u, u))). sm_step E1. rewrite (proj2 (Z.eqb_neq ok 0)) by done.
    sm_step (eq_refl (Some (th_buf u1, u1))). rewrite Eb.
    assert (Ef : on_buf (fun m => m !! m_off f_prefix) u1 = Some ((pre ++ [0]) !!! 0%nat, u1)).
    { apply on_buf_run. rewrite Eb, <- (Nat.add_0_r (m_off f_prefix)). apply Bp. by destruct pre. }
    sm_step Ef. rewrite Hp, (member_string _ _ name Bn Zn Ln), (member_string _ _ pre Bp Zp Lp). cbn [negb orb].
    replace (if ((pre ++ [0]) !!! 0%nat) =? 0 then name else pre ++ [slash] ++ name)
      with (match pre with [] => name | _ => pre ++ [slash] ++ name end); [reflexivity|].
    destruct Zp as [|c pre Hc _]; [done|]. change (((c :: pre) ++ [0]) !!! 0%nat) with c.
    by rewrite (proj2 (Z.eqb_neq _ _) Hc).
  - split; [exact Eb|]. split; [exact Ea|]. split; [exact Etr|]. by split.
Qed.

(** A path that fits the header, in its name alone or split at a slash, is
    the path the member has when the finished header is read, made safe; a
    directory's gets a trailing slash. *)
Theorem path_roundtrip t p dir pre name :
  no_ptrs (th_buf t) -> length (th_buf t) = T_BLOCKSIZE -> p <> [] -> Forall (fun c => c <> 0) p ->
  TH_ISDIR (th_buf t) = Some dir -> BIT_ISSET (options t) PAR_GNU = false ->
  path_layout p (dir_suffix dir p) pre name -> th_buf t !! m_off f_prefix = Some 0 ->
  exists m, th_set_path p t = Some (tt, set_th_buf m t) /\
    forall h u, changed_only finish_members m h -> is_posix h = true -> th_buf u = h -> th_pathname u <> None ->
      exists u', th_get_pathname u = Some (Some (safer_name_suffix (p ++ dir_suffix dir p)), u').
Proof.
  intros Hn Hm Hp Hz Hdir Ho Hlay H0.
  destruct (set_path_spec t p dir pre name Hn Hm Hp Hdir Ho Hlay H0) as (m & E & C & Bn & Bp & _).
  exists m. split; [exact E|]. intros h u Ch Hpos Eu Hbuf. subst h.
  assert (Zs : Forall (fun c => c <> 0) (dir_suffix dir p)) by (unfold dir_suffix; case_match; by repeat constructor).
  assert (exists Zn : Forall (fun c => c <> 0) name, Forall (fun c => c <> 0) pre /\ (length name < 100)%nat /\
    (length pre < 155)%nat /\ match pre with [] => name | _ => pre ++ [slash] ++ name end = p ++ dir_suffix dir p)
    as (Zn & Zp & Ln & Lp & Ew).
  { destruct Hlay as [Hl|pre name Ep Hlp Hln Hpre Hns].
    - exists (Forall_app_2 _ _ _ Hz Zs). rewrite length_app. cbn. split; [done|]. split; [lia|]. split; [lia|done].
    - rewrite Ep in Hz. apply Forall_app in Hz as [Zp Hz]. apply Forall_app in Hz as [_ Zn].
      exists (Forall_app_2 _ _ _ Zn Zs). rewrite length_app. split; [done|]. split; [lia|]. split; [lia|].
      transitivity ((pre ++ [slash] ++ name) ++ dir_suffix dir p); [|by rewrite <- Ep].
      rewrite <- !app_assoc. destruct pre; [cbn in Hpre; lia|done]. }
  destruct (get_pathname_spec u pre name) as (u' & Eg & _);
    [| |exact Hpos| | |exact Zn|exact Zp|exact Ln|exact Lp|by left|].
  - eapply bytes_kept; [exact Ch| |disjoint]. eapply bytes_kept; [exact C|exact Hn|disjoint].
  - by rewrite (proj1 Ch), (proj1 C).
  - eapply bytes_kept; [exact Ch|exact Bn|]. rewrite length_app. cbn [length]. disjoint.
  - eapply bytes_kept; [exact Ch|exact Bp|]. rewrite length_app. cbn [length]. disjoint.
  - exists u'. by rewrite Eg, Ew.
Qed.

(** ** A handle to try things on *)
Definition demo_par (m : mem) (i : list Z) : par :=
  mk_par m 0 false (mk_stream i [] []) (mk_stream [] [] []) (Some []) ∅ [] 0 [].

(** A path of 102 characters, split behind its directory. *)
Lemma path_roundtrip_witness :
  let p := bs "dir/" ++ replicate 98 (ch "x") in
  exists m, th_set_path p (demo_par (replicate T_BLOCKSIZE 0) []) =
    Some (tt, set_th_buf m (demo_par (replicate T_BLOCKSIZE 0) [])) /\
    forall h u, changed_only finish_members m h -> is_posix h = true -> th_buf u = h -> th_pathname u <> None ->
      exists u', th_get_pathname u = Some (Some p, u').
Proof.
  intros p. destruct (path_roundtrip (demo_par (replicate T_BLOCKSIZE 0) []) p false (bs "dir") (replicate 98 (ch "x")))
    as (m & E & H).
  - apply no_ptrs_zero.
  - apply length_replicate.
  - discriminate.
  - apply (bool_decide_unpack _). reflexivity.
  - reflexivity.
  - reflexivity.
  - change (replicate 98 (ch "x")) with (replicate 98 (ch "x") ++ dir_suffix false p) at 1.
    apply layout_split; [reflexivity|cbn; lia|cbn; lia|cbn; lia|].
    apply (bool_decide_unpack _). vm_compute. reflexivity.
  - reflexivity.
  - exists m. split; [exact E|]. intros h u Ch Hp Eu Hn. destruct (H h u Ch Hp Eu Hn) as (u' & E'). by exists u'.
Defined.

Lemma damaged_header_refused_witness :
  exists h, th_finish (ch "a" :: replicate 511 0) = Some h /\
    th_read (demo_par (replicate T_BLOCKSIZE 0) (<[5%nat := 1]> h)) =
      Some (-1, set_errno_to EINVAL (got (demo_par (replicate T_BLOCKSIZE 0) (<[5%nat := 1]> h)) (<[5%nat := 1]> h) [])).
Proof.
  destruct (th_finish_spec (ch "a" :: replicate 511 0)) as (h & E & C & Hb & _);
    [reflexivity|apply (bool_decide_unpack _); vm_compute; reflexivity|].
  exists h. split; [exact E|].
  apply (damaged_header_refused _ (ch "a" :: replicate 511 0) h 5 0 1 []).
  - apply no_ptrs_zero.
  - apply length_replicate.
  - reflexivity.
  - apply (bool_decide_unpack _). vm_compute. reflexivity.
  - discriminate.
  - exact E.
  - rewrite (proj2 C) by disjoint. reflexivity.
  - apply (bool_decide_unpack _). reflexivity.
  - discriminate.
  - left. lia.
  - discriminate.
  - split; [reflexivity|]. by rewrite app_nil_r.
Defined.
End ParBlock.
