(* ===== verification/ParFile.v ===== *)
(** * par: the contents of members (append.c, extract.c)

    Files are padded to whole blocks in the archive. *)
From S2P Require Import Prelude CLib Compat ParHeader ParBlock.

Module ParFile.
Export ParBlock.

(** ** append.c *)

Fixpoint eof_loop (j : nat) : P Z :=
  match j with
  | O => mret 0
  | S j' => r ← write_block (replicate T_BLOCKSIZE 0); if negb (r =? 0) then mret (-1) else eof_loop j'
  end.
Definition par_append_eof : P Z := eof_loop 2.

Section Append.
(** Files opened for reading, and what the uninitialised block holds. *)
Context (open_read : list Z -> option stream) (junk : mem).

(** The full blocks: what is left of the size, of the file, and the block
    buffer; nothing when the function fails. *)
Fixpoint append_loop (fuel : nat) (i : Z) (file : stream) (block : mem) : P (option (Z * stream * mem)) :=
  if i <=? Z.of_nat T_BLOCKSIZE then mret (Some (i, file, block))
  else match fuel with
  | O => sm_undef
  | S f =>
      let '(j, l, file) := stream_read file T_BLOCKSIZE in
      block ← sm_lift (mstore block 0 l);
      if negb (j =? Z.of_nat T_BLOCKSIZE) then
        (if j =? -1 then mret tt else set_errno EINVAL);; mret None
      else
        n ← par_block_write block;
        if n =? -1 then mret None else append_loop f (i - Z.of_nat T_BLOCKSIZE) file block
  end.

Definition par_append_regfile (realname : list Z) : P Z :=
  match open_read realname with
  | None => mret (-1)
  | Some file =>
      size ← on_buf th_get_size;
      let i := i32 size in
      r ← append_loop (Z.to_nat (i / Z.of_nat T_BLOCKSIZE)) i file junk;
      match r with
      | None => mret (-1)
      | Some (i, file, block) =>
          if 0 <? i then
            let '(j, l, file) := stream_read file (Z.to_nat i) in
            block ← sm_lift (mstore block 0 l);
            if j =? -1 then mret (-1)
            else
              block ← sm_lift (mstore block (Z.to_nat i) (replicate (T_BLOCKSIZE - Z.to_nat i) 0));
              n ← par_block_write block;
              if n =? -1 then mret (-1) else mret 0
          else mret 0
      end
  end.

(** The end of [par_append_file]: the header and, for a regular file, the
    contents. *)
Definition append_member (realname : list Z) : P Z :=
  r ← th_write;
  if negb (r =? 0) then mret (-1)
  else
    reg ← on_buf TH_ISREG;
    if reg : bool then
      r ← par_append_regfile realname; if negb (r =? 0) then mret (-1) else mret 0
    else mret 0.
End Append.

(** ** extract.c *)

Fixpoint skip_loop (fuel : nat) (i : Z) : P Z :=
  if negb (0 <? i) then mret 0
  else match fuel with
  | O => sm_undef
  | S f =>
      '(k, _) ← par_block_read;
      if negb (k =? Z.of_nat T_BLOCKSIZE) then failed_block k else skip_loop f (i - Z.of_nat T_BLOCKSIZE)
  end.

Definition par_skip_regfile : P Z :=
  reg ← on_buf TH_ISREG;
  if negb reg then set_errno EINVAL;; mret (-1)
  else
    size ← on_buf th_get_size;
    k ← rounds;
    skip_loop k (i64 size).

Section Extract.
(** How the file system answers a call after the ones before: a result, or
    minus an error number. *)
Context (os : list syscall -> syscall -> Z).

Definition sys (e : syscall) : P Z := fun t =>
  let a := os (trace t) e in
  let t := set_trace (trace t ++ [e]) t in
  if a <? 0 then Some (-1, set_errno_to (- a) t) else Some (a, t).

(** [mkdirhier], with the directories it asks for; each is asked for once. *)
Definition mkdirs (path : list Z) : P Z := fun t =>
  let answer d := Z.max 0 (- os (trace t) (Sys_mkdir d 511)) in
  '(r, asked) ← Compat.mkdirhier answer path;
  Some (r, set_trace (trace t ++ ((fun d => Sys_mkdir d 511) <$> asked)) t).

(** The directory of a path, which must fit the static buffer. *)
Definition cdirname (path : list Z) : option (list Z) :=
  match Compat.compat_cdirname (Some path) with Compat.Path d => Some d | _ => None end.

(** The name given, or the member's; NULL is not a name to open. *)
Definition filename_of (realname : option (list Z)) : P (list Z) :=
  match realname with
  | Some n => mret n
  | None => n ← th_get_pathname; sm_lift n
  end.

Fixpoint extract_loop (fuel : nat) (i : Z) : P Z :=
  if negb (0 <? i) then mret 0
  else match fuel with
  | O => sm_undef
  | S f =>
      '(k, buf) ← par_block_read;
      if negb (k =? Z.of_nat T_BLOCKSIZE) then
        (if k =? -1 then mret tt else set_errno EINVAL);; sys Sys_close;; mret (-1)
      else
        w ← sys (Sys_write (if Z.of_nat T_BLOCKSIZE <? i then buf else take (Z.to_nat i) buf));
        if w =? -1 then sys Sys_close;; mret (-1)
        else extract_loop f (i - Z.of_nat T_BLOCKSIZE)
  end.

Definition par_extract_regfile (realname : option (list Z)) : P Z :=
  reg ← on_buf TH_ISREG;
  if negb reg then set_errno EINVAL;; mret (-1)
  else
    filename ← filename_of realname;
    size ← on_buf th_get_size;
    dir ← sm_lift (cdirname filename);
    r ← mkdirs dir;
    if r =? -1 then mret (-1)
    else
      fdout ← sys (Sys_open filename);
      if fdout =? -1 then mret (-1)
      else
        k ← rounds;
        r ← extract_loop k (i64 size);
        if negb (r =? 0) then mret r
        else
          c ← sys Sys_close;
          if c =? -1 then mret (-1) else mret 0.
End Extract.

(** ** Padding *)
Definition padding (n : nat) : nat := ((T_BLOCKSIZE - n mod T_BLOCKSIZE) mod T_BLOCKSIZE)%nat.
Definition padded (c : list Z) : list Z := c ++ replicate (padding (length c)) 0.

Lemma padded_step c : (T_BLOCKSIZE <= length c)%nat ->
  padded c = take T_BLOCKSIZE c ++ padded (drop T_BLOCKSIZE c).
Proof.
  intros Hl. unfold padded. rewrite length_drop, app_assoc, take_drop. do 2 f_equal.
  unfold padding. replace (length c) with (length c - T_BLOCKSIZE + 1 * T_BLOCKSIZE)%nat at 1 by lia.
  by rewrite Nat.Div0.mod_add.
Qed.

Lemma padded_last c : (0 < length c <= T_BLOCKSIZE)%nat ->
  padded c = c ++ replicate (T_BLOCKSIZE - length c) 0.
Proof.
  intros [H0 Hl]. unfold padded, padding. do 2 f_equal. unfold T_BLOCKSIZE in *.
  destruct (decide (length c = 512)%nat) as [E|E]; [by rewrite E|].
  rewrite (Nat.mod_small (length c)) by lia. apply Nat.mod_small. lia.
Qed.

Lemma padded_length c : (0 < length c <= T_BLOCKSIZE)%nat -> length (padded c) = T_BLOCKSIZE.
Proof. intros H. rewrite padded_last by done. len. Qed.

(** ** Writing *)
Lemma wrote_wrote t a b : wrote (wrote t a) b = wrote t (a ++ b).
Proof.
  unfold wrote, archive, set_archive, set_streams. destruct t as [? ? [] ? ? ? ? ? ? ?]; cbn; by rewrite app_assoc.
Qed.

Lemma wrote_nil t : s_io (archive t) = [] -> wrote t [] = t.
Proof.
  unfold wrote, archive, set_archive, set_streams. destruct t as [? ? [] [] [] ? ? ? ? ?]; cbn; intros ->;
    by rewrite app_nil_r.
Qed.

Lemma wrote_io t l : s_io (archive (wrote t l)) = [].
Proof. unfold wrote. by rewrite archive_set. Qed.

Lemma wrote_buf t l : th_buf (wrote t l) = th_buf t.
Proof. unfold wrote, set_archive. by destruct (use_gz t). Qed.

Lemma wrote_options t l : options (wrote t l) = options t.
Proof. unfold wrote, set_archive. by destruct (use_gz t). Qed.

Lemma wrote_gz t l : use_gz (wrote t l) = use_gz t.
Proof. unfold wrote, set_archive. by destruct (use_gz t) eqn:E. Qed.

(** A compressed archive leaves the file itself alone. *)
Lemma wrote_fd t l : use_gz t = true -> fd (wrote t l) = fd t.
Proof. unfold wrote, set_archive. by intros ->. Qed.

Lemma wrote_out t l : s_out (archive (wrote t l)) = s_out (archive t) ++ l.
Proof. unfold wrote. by rewrite archive_set. Qed.

Lemma write_block_run t l : s_io (archive t) = [] -> length l = T_BLOCKSIZE ->
  write_block l t = Some (0, wrote t l).
Proof. intros Hio Hl. unfold write_block. by sm_step (block_write_run t l Hio Hl). Qed.

Lemma append_eof_run t : s_io (archive t) = [] ->
  par_append_eof t = Some (0, wrote t (replicate (2 * T_BLOCKSIZE) 0)).
Proof.
  intros Hio. unfold par_append_eof. cbn [eof_loop].
  sm_step (write_block_run t (replicate T_BLOCKSIZE 0) Hio (length_replicate _ _)). cbn [Z.eqb negb].
  sm_step (write_block_run (wrote t (replicate T_BLOCKSIZE 0)) (replicate T_BLOCKSIZE 0) (wrote_io _ _) (length_replicate _ _)).
  by rewrite wrote_wrote.
Qed.

Lemma stream_read_all l r o n : length l = n ->
  stream_read (mk_stream (l ++ r) o []) n = (Z.of_nat n, l, mk_stream r o []).
Proof.
  intros <-. unfold stream_read, next_answer. cbn [s_io s_in s_out].
  rewrite (proj2 (Z.ltb_ge _ _)) by lia. rewrite Nat2Z.id, Nat.min_id.
  by rewrite take_app_length, drop_app_length.
Qed.

Lemma append_loop_spec fuel c o block t :
  (length c <= T_BLOCKSIZE * (fuel + 1))%nat -> length block = T_BLOCKSIZE -> s_io (archive t) = [] ->
  exists c' block' w, append_loop fuel (Z.of_nat (length c)) (mk_stream c o []) block t =
      Some (Some (Z.of_nat (length c'), mk_stream c' o [], block'), wrote t w) /\
    padded c = w ++ padded c' /\ (length c' <= T_BLOCKSIZE)%nat /\ length block' = T_BLOCKSIZE.
Proof.
  revert c block t. induction fuel as [|fuel IH]; intros c block t Hc Hb Hio; cbn [append_loop].
  - rewrite (proj2 (Z.leb_le _ _)) by lia. exists c, block, []. rewrite wrote_nil by done. split; [done|split; [done|split; [lia|done]]].
  - destruct (Z.leb_spec (Z.of_nat (length c)) (Z.of_nat T_BLOCKSIZE)) as [Hle|Hgt].
    { exists c, block, []. rewrite wrote_nil by done. split; [done|split; [done|split; [lia|done]]]. }
    assert (Ht : length (take T_BLOCKSIZE c) = T_BLOCKSIZE) by (len).
    assert (Er : stream_read (mk_stream c o []) T_BLOCKSIZE =
      (Z.of_nat T_BLOCKSIZE, take T_BLOCKSIZE c, mk_stream (drop T_BLOCKSIZE c) o [])).
    { rewrite <- (take_drop T_BLOCKSIZE c) at 1. by apply stream_read_all. }
    destruct (IH (drop T_BLOCKSIZE c) (take T_BLOCKSIZE c) (wrote t (take T_BLOCKSIZE c)))
      as (c' & b' & w & E & Ep & Hl & Hb'); [len|done|apply wrote_io|].
    exists c', b', (take T_BLOCKSIZE c ++ w). split; [|split; [|done]].
    + rewrite Er. cbn beta iota.
      sm_step (sm_lift_run (mstore block 0 (take T_BLOCKSIZE c)) (take T_BLOCKSIZE c) t (fill_buf _ _ Hb Ht)).
      rewrite Z.eqb_refl. cbn [negb]. sm_step (block_write_run t _ Hio Ht).
      change (Z.of_nat T_BLOCKSIZE =? -1) with false. cbn iota.
      rewrite length_drop, Nat2Z.inj_sub in E by lia. etransitivity; [exact E|]. by rewrite wrote_wrote.
    + rewrite padded_step by lia. by rewrite Ep, app_assoc.
Qed.

Section Append.
Context (open_read : list Z -> option stream) (junk : mem) (Hjunk : length junk = T_BLOCKSIZE).

Lemma append_regfile_run real c o t :
  open_read real = Some (mk_stream c o []) -> s_io (archive t) = [] ->
  th_get_size (th_buf t) = Some (Z.of_nat (length c)) -> Z.of_nat (length c) < 2 ^ 31 ->
  par_append_regfile open_read junk real t = Some (0, wrote t (padded c)).
Proof.
  intros Ho Hio Hs Hl. unfold par_append_regfile. rewrite Ho.
  sm_step (on_buf_run th_get_size t _ Hs). cbv zeta. rewrite i32_small by lia.
  destruct (append_loop_spec (Z.to_nat (Z.of_nat (length c) / Z.of_nat T_BLOCKSIZE)) c o junk t)
    as (c' & block & w & E & Ep & Hl' & Hb); [|done|done|].
  { rewrite <- Nat2Z.inj_div, Nat2Z.id. pose proof (Nat.div_mod_eq (length c) T_BLOCKSIZE).
    pose proof (Nat.mod_upper_bound (length c) T_BLOCKSIZE ltac:(done)). lia. }
  sm_step E. cbn beta iota. rewrite Ep. destruct (decide (c' = [])) as [->|Hne].
  { cbn [length]. change (0 <? Z.of_nat 0) with false. cbn iota. by rewrite app_nil_r. }
  assert (H0 : (0 < length c')%nat) by (destruct c'; [done|cbn; lia]).
  rewrite (proj2 (Z.ltb_lt _ _)) by lia. rewrite Nat2Z.id.
  assert (Er : stream_read (mk_stream c' o []) (length c') = (Z.of_nat (length c'), c', mk_stream [] o []))
    by (rewrite <- (app_nil_r c') at 1; by apply stream_read_all).
  rewrite Er. cbn beta iota.
  destruct (mstore_is_Some block 0 c') as [m1 E1]; [lia|].
  sm_step (sm_lift_run (mstore block 0 c') m1 (wrote t w) E1).
  rewrite (proj2 (Z.eqb_neq (Z.of_nat (length c')) (-1))) by lia.
  assert (E2 : mstore m1 (length c') (replicate (T_BLOCKSIZE - length c') 0) = Some (padded c')).
  { rewrite mstore_Some in E1 by lia. cbn [take app plus] in E1. injection E1 as <-.
    rewrite mstore_Some by (len).
    rewrite take_app_length, length_replicate, drop_ge by (len).
    by rewrite app_nil_r, padded_last. }
  sm_step (sm_lift_run _ _ (wrote t w) E2).
  sm_step (block_write_run (wrote t w) (padded c') (wrote_io _ _) (padded_length c' ltac:(lia))).
  change (Z.of_nat T_BLOCKSIZE =? -1) with false. cbn iota. by rewrite wrote_wrote.
Qed.
End Append.

(** ** Reading *)
Section Extract.
Context (os : list syscall -> syscall -> Z) (Hos : forall tr e, 0 <= os tr e).

Lemma sys_run e t : sys os e t = Some (os (trace t) e, set_trace (trace t ++ [e]) t).
Proof. unfold sys. by rewrite (proj2 (Z.ltb_ge _ _)) by apply Hos. Qed.

(** The state of an extraction that goes on: the stream, the header and the
    calls so far; the options and the path buffer stay as they are. *)
Context (o : Z) (path : option (list Z)).
Record extracting (t : par) (l : list Z) (m : mem) (tr : list syscall) : Prop := {
  ex_reads : reads t l; ex_buf : th_buf t = m; ex_trace : trace t = tr;
  ex_rest : options t = o /\ th_pathname t = path }.

Lemma extracting_sys t l m tr e :
  extracting t l m tr -> extracting (set_trace (trace t ++ [e]) t) l m (tr ++ [e]).
Proof. intros [H1 H2 H3 H4]. split; [exact H1|exact H2| |exact H4]. by rewrite <- H3. Qed.

Lemma read_to_trace t r : trace (read_to t r) = trace t.
Proof. unfold read_to, set_archive. by destruct (use_gz t). Qed.

Lemma read_to_path t r : th_pathname (read_to t r) = th_pathname t.
Proof. unfold read_to, set_archive. by destruct (use_gz t). Qed.

Lemma extracting_read t l r m tr : extracting t (l ++ r) m tr -> extracting (read_to t r) r m tr.
Proof.
  intros [H1 H2 H3 H4]. split; [by eapply reads_read_to|by rewrite read_to_buf|by rewrite read_to_trace|].
  by rewrite read_to_options, read_to_path.
Qed.

Lemma extract_done fuel i t : i <= 0 -> extract_loop os fuel i t = Some (0, t).
Proof. intros Hi. destruct fuel; cbn [extract_loop]; by rewrite (proj2 (Z.ltb_ge _ _)). Qed.

Lemma extract_round fuel i t b r m tr :
  extracting t (b ++ r) m tr -> length b = T_BLOCKSIZE -> 0 < i ->
  exists t', extract_loop os (S fuel) i t = extract_loop os fuel (i - Z.of_nat T_BLOCKSIZE) t' /\
    extracting t' r m (tr ++ [Sys_write (if Z.of_nat T_BLOCKSIZE <? i then b else take (Z.to_nat i) b)]).
Proof.
  intros He Hb Hi. eexists. split; [|by apply extracting_sys, (extracting_read t b)].
  cbn [extract_loop]. rewrite (proj2 (Z.ltb_lt _ _)) by lia. cbn [negb].
  sm_step (block_read_run t b r (ex_reads _ _ _ _ He) Hb). cbn beta iota. rewrite Z.eqb_refl. cbn [negb].
  sm_step (sys_run (Sys_write (if Z.of_nat T_BLOCKSIZE <? i then b else take (Z.to_nat i) b)) (read_to t r)).
  match goal with |- context [?a =? -1] => rewrite (proj2 (Z.eqb_neq a (-1))) end; [done|].
  match goal with |- os ?tr ?e <> _ => pose proof (Hos tr e) end. lia.
Qed.

Lemma extract_loop_spec fuel c r t m tr :
  extracting t (padded c ++ r) m tr -> (length c <= fuel)%nat ->
  exists t' ws, extract_loop os fuel (Z.of_nat (length c)) t = Some (0, t') /\
    extracting t' r m (tr ++ (Sys_write <$> ws)) /\ concat ws = c.
Proof.
  revert c t tr. induction fuel as [|fuel IH]; intros c t tr He Hf.
  - destruct c; [|cbn in Hf; lia]. exists t, []. rewrite extract_done by done. cbn [fmap list_fmap].
    rewrite app_nil_r. by split.
  - destruct (decide (c = [])) as [->|Hne].
    { exists t, []. rewrite extract_done by done. cbn [fmap list_fmap]. rewrite app_nil_r. by split. }
    assert (H0 : (0 < length c)%nat) by (destruct c; [done|cbn; lia]).
    destruct (decide (length c <= T_BLOCKSIZE)%nat) as [Hle|Hgt].
    + destruct (extract_round fuel (Z.of_nat (length c)) t (padded c) r m tr He) as (t' & E & He');
        [by apply padded_length|lia|].
      rewrite (proj2 (Z.ltb_ge _ _)) in He' by lia. rewrite Nat2Z.id, padded_last, take_app_length in He' by lia.
      exists t', [c]. rewrite E, extract_done by lia. split; [done|]. split; [exact He'|]. cbn. by rewrite app_nil_r.
    + rewrite padded_step, <- app_assoc in He by lia.
      destruct (extract_round fuel (Z.of_nat (length c)) t (take T_BLOCKSIZE c) _ m tr He) as (t' & E & He');
        [len|lia|].
      rewrite (proj2 (Z.ltb_lt _ _)) in He' by lia.
      assert (0 < T_BLOCKSIZE)%nat by (unfold T_BLOCKSIZE; lia).
      destruct (IH (drop T_BLOCKSIZE c) t' _ He') as (t2 & ws & E2 & He2 & Hc); [len|].
      exists t2, (take T_BLOCKSIZE c :: ws). rewrite length_drop, Nat2Z.inj_sub in E2 by lia. rewrite E, E2.
      split; [done|]. rewrite <- app_assoc in He2. split; [exact He2|]. cbn [concat]. by rewrite Hc, take_drop.
Qed.

(** A regular member is extracted: the directories, the file, its contents in
    turn. *)
Lemma extract_regfile_run name d c r t m tr :
  extracting t (padded c ++ r) m tr -> TH_ISREG m = Some true ->
  th_get_size m = Some (Z.of_nat (length c)) -> Z.of_nat (length c) < 2 ^ 63 ->
  cdirname name = Some d -> Forall (fun x => x <> 0) d -> (length d + 2 < Compat.MAXPATHLEN)%nat ->
  exists t' ds ws, par_extract_regfile os (Some name) t = Some (0, t') /\
    extracting t' r m
      (tr ++ ((fun d => Sys_mkdir d 511) <$> ds) ++ [Sys_open name] ++ (Sys_write <$> ws) ++ [Sys_close]) /\
    concat ws = c.
Proof.
  intros He Hreg Hs Hc Hd Hz Hl. unfold par_extract_regfile.
  assert (Eb : th_buf t = m) by apply He. rewrite <- Eb in Hreg, Hs.
  assert (exists r ds, Compat.mkdirhier (fun d => Z.max 0 (- os (trace t) (Sys_mkdir d 511))) d = Some (r, ds) /\
    r <> -1) as (r0 & ds & Em & Hr0).
  { rewrite Compat.mkdirhier_spec by done.
    match goal with |- context [Compat.make_all ?f ?a ?b ?c ?e] =>
      destruct (Compat.make_all_ok f a b c e) as (r0 & ds & -> & H) end; [|done|by exists r0, ds].
    intros x. match goal with |- context [os ?a ?b] => pose proof (Hos a b) end. lia. }
  set (tr1 := tr ++ ((fun d => Sys_mkdir d 511) <$> ds)).
  set (t1 := set_trace (trace t ++ ((fun d => Sys_mkdir d 511) <$> ds)) t).
  assert (He1 : extracting t1 (padded c ++ r) m tr1).
  { destruct He as [H1 H2 H3 H4]. split; [exact H1|exact H2| |exact H4]. unfold t1, tr1. cbn. by rewrite H3. }
  pose proof (extracting_sys _ _ _ _ (Sys_open name) He1) as He2.
  set (t2 := set_trace (trace t1 ++ [Sys_open name]) t1) in *.
  destruct (extract_loop_spec (S (length (s_in (archive t2)))) c r t2 m _ He2) as (t3 & ws & E3 & He3 & Hcat).
  { rewrite (proj2 (ex_reads _ _ _ _ He2)). unfold padded. len. }
  exists (set_trace (trace t3 ++ [Sys_close]) t3), ds, ws.
  split; [|split; [|exact Hcat]].
  - sm_step (on_buf_run TH_ISREG t true Hreg). cbn [negb]. sm_step (eq_refl (Some (name, t))).
    sm_step (on_buf_run th_get_size t _ Hs). sm_step (sm_lift_run _ _ t Hd).
    assert (E1 : mkdirs os d t = Some (r0, t1)) by (unfold mkdirs; rewrite Em; done).
    sm_step E1. rewrite (proj2 (Z.eqb_neq r0 (-1))) by done. sm_step (sys_run (Sys_open name) t1).
    match goal with |- context [os ?a ?b =? -1] =>
      rewrite (proj2 (Z.eqb_neq (os a b) (-1))) by (pose proof (Hos a b); lia) end.
    fold t2. sm_step (rounds_run t2). rewrite i64_small by lia. sm_step E3. cbn [Z.eqb negb].
    sm_step (sys_run Sys_close t3).
    match goal with |- context [os ?a ?b =? -1] =>
      rewrite (proj2 (Z.eqb_neq (os a b) (-1))) by (pose proof (Hos a b); lia) end. done.
  - pose proof (extracting_sys _ _ _ _ Sys_close He3) as H. unfold tr1 in H. by rewrite <- !app_assoc in H.
Qed.
End Extract.

(** ** Members *)
Section Members.
Context (getpwnam getgrnam : list Z -> option Z) (getpwuid getgrgid : Z -> option (list Z)).
Context (Hpw : database_ok getpwnam getpwuid) (Hgr : database_ok getgrnam getgrgid).
Context (open_read : list Z -> option stream) (junk : mem) (Hjunk : length junk = T_BLOCKSIZE).
Context (os : list syscall -> syscall -> Z) (Hos : forall tr e, 0 <= os tr e).

(** A handle about to append a regular file with the contents [c]. *)
Record appending (t : par) (s : stat) (real c : list Z) : Prop := {
  ap_io : s_io (archive t) = [];
  ap_ptrs : no_ptrs (th_buf t);
  ap_bytes : Forall byte_ok (th_buf t);
  ap_name : th_buf t !! 0%nat <> Some 0;
  ap_stat : stat_ok s;
  ap_header : describes getpwuid getgrgid (th_buf t) s;
  ap_reg : S_ISREG (st_mode s) = true;
  ap_size : st_size s = Z.of_nat (length c);
  ap_open : exists o, open_read real = Some (mk_stream c o []) }.

Lemma append_member_run t s real c :
  appending t s real c ->
  exists h t', append_member open_read junk real t = Some (0, t') /\
    s_out (archive t') = s_out (archive t) ++ h ++ padded c /\ th_buf t' = h /\
    changed_only finish_members (th_buf t) h /\ header_ok h /\ describes getpwuid getgrgid h s /\ no_ptrs h /\
    s_io (archive t') = [] /\ options t' = options t /\ use_gz t' = use_gz t /\ (use_gz t = true -> fd t' = fd t).
Proof.
  intros [Hio Hn Hb H0 S D Hreg Hsz [o Ho]]. pose proof (d_length _ _ _ _ D) as L.
  destruct (th_finish_spec (th_buf t) L Hb) as (h & E & C & _).
  pose proof (finished_describes _ _ _ _ _ _ _ Hpw Hgr S D Hb E) as Dh.
  destruct (describes_type _ _ h s Dh S) as (Ereg & _).
  pose proof (describes_size _ _ h s Dh S) as Es. unfold stored_size in Es. rewrite Hreg, Hsz in Es.
  exists h, (wrote (wrote (set_th_buf h t) h) (padded c)). split.
  - unfold append_member. sm_step (th_write_run t h Hn L Hb E Hio). cbn [Z.eqb negb].
    set (t1 := wrote (set_th_buf h t) h). assert (Eb : th_buf t1 = h) by apply wrote_buf.
    rewrite <- Eb in Ereg, Es. rewrite Hreg in Ereg. sm_step (on_buf_run TH_ISREG t1 true Ereg).
    pose proof (so_size _ S).
    sm_step (append_regfile_run open_read junk Hjunk real c o t1 Ho (wrote_io _ _) Es ltac:(lia)). done.
  - rewrite !wrote_out, !wrote_buf. split; [by rewrite <- app_assoc|]. split; [done|]. split; [exact C|].
    split; [by eapply finished_ok|]. split; [exact Dh|]. split; [by eapply finished_no_ptrs|].
    split; [apply wrote_io|]. split; [by rewrite !wrote_options|]. split; [by rewrite !wrote_gz|].
    intros Hgz. by rewrite !wrote_fd by (by rewrite ?wrote_gz).
Qed.

(** A regular file that was appended is read back, wherever its member lies
    in an archive: the header tells the same of the file, the contents are
    written to the extracted file, and the next member is in front of the
    stream. *)
Theorem member_roundtrip t s real c name d :
  appending t s real c ->
  cdirname name = Some d -> Forall (fun x => x <> 0) d -> (length d + 2 < Compat.MAXPATHLEN)%nat ->
  exists h t', append_member open_read junk real t = Some (0, t') /\
    s_out (archive t') = s_out (archive t) ++ h ++ padded c /\
    changed_only finish_members (th_buf t) h /\
    forall u r, reads u (h ++ padded c ++ r) -> no_ptrs (th_buf u) -> length (th_buf u) = T_BLOCKSIZE ->
      exists u1 u2 ds ws, th_read u = Some (0, u1) /\ th_buf u1 = h /\ describes getpwuid getgrgid h s /\
        par_extract_regfile os (Some name) u1 = Some (0, u2) /\ reads u2 r /\
        trace u2 = trace u ++ ((fun d => Sys_mkdir d 511) <$> ds) ++ [Sys_open name] ++ (Sys_write <$> ws) ++ [Sys_close] /\
        concat ws = c.
Proof.
  intros A Hd Hz Hl. destruct (append_member_run t s real c A) as (h & t' & E & Eo & _ & C & Hok & Dh & _).
  exists h, t'. split; [exact E|]. split; [exact Eo|]. split; [exact C|]. intros u r Hr Hn Hm.
  destruct A as [_ _ _ _ S _ Hreg Hsz _]. pose proof (so_size _ S).
  destruct (describes_type _ _ h s Dh S) as (Ereg & _ & _ & _ & Eln & Ell). rewrite Hreg in Ereg.
  pose proof (describes_size _ _ h s Dh S) as Es. unfold stored_size in Es. rewrite Hreg, Hsz in Es.
  assert (He : extracting (options u) (th_pathname u) (got u h (padded c ++ r)) (padded c ++ r) h (trace u)).
  { split; [apply got_reads|done|apply read_to_trace|]. split; [apply got_options|apply read_to_path]. }
  destruct (extract_regfile_run os Hos _ _ name d c r _ h (trace u) He Ereg Es ltac:(lia) Hd Hz Hl)
    as (u2 & ds & ws & E2 & He2 & Hc).
  exists (got u h (padded c ++ r)), u2, ds, ws.
  split; [by apply th_read_accepts|]. split; [done|]. split; [exact Dh|]. split; [exact E2|].
  split; [apply He2|]. split; [apply He2|exact Hc].
Qed.
End Members.

(** ** A file to archive *)
Definition no_name (_ : list Z) : option Z := None.
Definition no_id (_ : Z) : option (list Z) := None.
Definition demo_stat : stat := mk_stat 0 0 0x81a4 1000 100 3 10.
Definition demo_header : mem :=
  match th_set_from_stat no_id no_id (ch "f" :: replicate 511 0) demo_stat with Some (_, m) => m | None => [] end.
Definition demo_open (_ : list Z) : option stream := Some (mk_stream (bs "abc") [] []).

Lemma no_database : database_ok no_name no_id.
Proof. by split. Qed.

Lemma demo_stat_ok : stat_ok demo_stat.
Proof. split; [by left|vm_compute; split; congruence..]. Qed.

Lemma demo_appending : appending no_id no_id demo_open (demo_par demo_header []) demo_stat (bs "f") (bs "abc").
Proof.
  destruct (set_from_stat_spec no_name no_name no_id no_id no_database no_database (ch "f" :: replicate 511 0) demo_stat
    demo_stat_ok) as (m & E & C & D); [reflexivity..|].
  assert (Em : demo_header = m) by (unfold demo_header; by rewrite E).
  constructor; cbn [th_buf demo_par]; [reflexivity| | | |apply demo_stat_ok|by rewrite Em|reflexivity|reflexivity|by exists []].
  - rewrite Em. eapply bytes_kept; [exact C| |disjoint]. intros i c Hi. apply lookup_replicate in Hi as [-> Hi].
    change (ch "f" :: replicate 511 0) with ([ch "f"] ++ replicate 511 0).
    rewrite lookup_app_r by (cbn; lia). apply lookup_replicate_2. cbn. lia.
  - apply (bool_decide_unpack _). vm_compute. reflexivity.
  - rewrite Em, (proj2 C) by disjoint. discriminate.
Qed.

Lemma member_roundtrip_witness :
  exists h t', append_member demo_open (replicate T_BLOCKSIZE 7) (bs "f") (demo_par demo_header []) = Some (0, t') /\
    s_out (fd t') = h ++ padded (bs "abc") /\
    exists u1 u2 ds ws, th_read (demo_par (replicate T_BLOCKSIZE 0) (s_out (fd t'))) = Some (0, u1) /\
      par_extract_regfile (fun _ _ => 0) (Some (bs "x/f")) u1 = Some (0, u2) /\
      trace u2 = ((fun d => Sys_mkdir d 511) <$> ds) ++ [Sys_open (bs "x/f")] ++ (Sys_write <$> ws) ++ [Sys_close] /\
      concat ws = bs "abc".
Proof.
  destruct (member_roundtrip no_name no_name no_id no_id no_database no_database demo_open (replicate T_BLOCKSIZE 7)
    (length_replicate _ _) (fun _ _ => 0) (fun _ _ => Z.le_refl 0) (demo_par demo_header []) demo_stat (bs "f")
    (bs "abc") (bs "x/f") (bs "x")) as (h & t' & E & Eo & _ & H).
  - apply demo_appending.
  - reflexivity.
  - apply (bool_decide_unpack _). reflexivity.
  - apply Nat.ltb_lt. reflexivity.
  - exists h, t'. split; [exact E|]. change (archive t') with (archive t') in Eo.
    assert (Ea : archive t' = fd t').
    { assert (Eu : use_gz t' = use_gz (demo_par demo_header [])).
      { revert E. vm_compute. intros [= <-]. reflexivity. }
      unfold archive. by rewrite Eu. }
    rewrite Ea in Eo. split; [exact Eo|].
    destruct (H (demo_par (replicate T_BLOCKSIZE 0) (s_out (fd t'))) []) as (u1 & u2 & ds & ws & E1 & _ & _ & E2 & _ & E3 & E4).
    + split; [reflexivity|]. change (s_out (fd t') = h ++ padded (bs "abc") ++ []). by rewrite app_nil_r.
    + apply no_ptrs_zero.
    + apply length_replicate.
    + exists u1, u2, ds, ws. split; [exact E1|]. split; [exact E2|]. split; [exact E3|exact E4].
Defined.
End ParFile.
