(* ===== verification/ParExtract.v ===== *)
(** * par: extraction (extract.c, wrapper.c's extraction, list.c)

    An archive opened for reading: the handle together with the table of what
    was extracted so far, in which hard links find their targets. *)
From S2P Require Import Prelude CLib Compat LibtarList LibtarHash ParHeader ParBlock ParFile.

Module ParExtract.
Export ParFile.

(** ** The handle and its table *)
Record opened (D : Type) := mk_opened {
  handle : par;
  t_h : LibtarHash.libtar_hash D;
  t_heap : LibtarList.heap D }.
Arguments mk_opened {D}. Arguments handle {D}. Arguments t_h {D}. Arguments t_heap {D}.

Section Lift.
Context {D : Type}.

Definition set_handle (t : par) (s : opened D) : opened D := mk_opened t (t_h s) (t_heap s).

Definition on_par {A} (m : SM par A) : SM (opened D) A := fun s =>
  '(x, t) ← m (handle s); Some (x, set_handle t s).

(** An operation that looks at the table, and one that returns it updated. *)
Definition on_hash {A} (f : LibtarHash.libtar_hash D -> LibtarList.H D A) : SM (opened D) A := fun s =>
  '(x, hh) ← f (t_h s) (t_heap s); Some (x, mk_opened (handle s) (t_h s) hh).
Definition upd_hash {A} (f : LibtarHash.libtar_hash D -> LibtarList.H D (A * LibtarHash.libtar_hash D)) :
    SM (opened D) A := fun s =>
  '(x, h, hh) ← f (t_h s) (t_heap s); Some (x, mk_opened (handle s) h hh).
End Lift.

(** [strcmp] of the strings at the beginning of two blocks. *)
Definition strcmp (a b : list Z) : Z := memcmp (until_nul a ++ [0]) (until_nul b ++ [0]).

Section Extract.
Context (getpwnam getgrnam : list Z -> option Z) (getpwuid getgrgid : Z -> option (list Z)).
(** The C library's [basename]; its [dirname] returns the directory and leaves
    something in its argument; [fnmatch]; how [localtime] and [strftime] show
    a time; the effective user. *)
Context (basename : list Z -> list Z) (dirname : list Z -> list Z * list Z).
Context (fnmatch : list Z -> list Z -> Z -> Z) (timetext : Z -> list Z) (euid : Z).
Context (os : list syscall -> syscall -> Z).

Notation X := (SM (opened (list Z))) (only parsing).
Notation sys := (ParFile.sys os).

Definition ENOENT : Z := 2.

(** ** extract.c *)
Definition par_set_file_perms (realname : option (list Z)) : SM par Z :=
  filename ← filename_of realname;
  mode ← on_buf th_get_mode;
  uid ← on_buf (th_get_uid getpwnam);
  gid ← on_buf (th_get_gid getgrnam);
  mtime ← on_buf th_get_mtime;
  sym ← on_buf TH_ISSYM;
  r ← (if (euid =? 0) && negb sym then sys (Sys_chown filename uid gid) else mret 0);
  if r =? -1 then mret (-1)
  else
    r ← (if negb sym then sys (Sys_utime filename mtime) else mret 0);
    if r =? -1 then mret (-1)
    else
      r ← (if negb sym then sys (Sys_chmod filename mode) else mret 0);
      if r =? -1 then mret (-1) else mret 0.

(** [mkdirhier(dirname(filename))], and what the file name is then. *)
Definition make_parent (filename : list Z) : SM par (Z * list Z) :=
  let '(dir, filename) := dirname filename in
  r ← mkdirs os dir; mret (r, filename).

(** The path hash; a key that does not fit its buffer overflows it. *)
Definition path_hash (d : list Z) (num : Z) : Z := default 0 (path_hashfunc basename (until_nul d) num).
Definition hashable (key : list Z) : X unit := fun s =>
  _ ← path_hashfunc basename (until_nul key) (LibtarHash.numbuckets (t_h s)); Some (tt, s).

(** The extraction of what is not a regular file returns the name of the file
    as the caller finds it afterwards. *)
Definition par_extract_hardlink (realname : list Z) : X (Z * list Z) :=
  lnk ← on_par (on_buf TH_ISLNK);
  if negb lnk then on_par (set_errno EINVAL);; mret (-1, realname)
  else
    '(r, filename) ← on_par (make_parent realname);
    if r =? -1 then mret (-1, filename)
    else
      linkname ← on_par th_get_linkname;
      let key := safer_name_suffix linkname ++ [0] in
      hashable key;;
      '(found, hp) ← on_hash (fun h => LibtarHash.libtar_hash_getkey strcmp h LibtarHash.libtar_hashptr_reset
        key (Some (LibtarList.libtar_str_match strcmp)));
      linktgt ← (if negb (found =? 0) then
                   lnp ← on_hash (fun _ => LibtarHash.libtar_hashptr_data hp);
                   sm_lift (cstr (drop (S (length (until_nul lnp))) lnp))
                 else mret (safer_name_suffix linkname));
      r ← on_par (sys (Sys_link linktgt filename));
      if r =? -1 then mret (-1, filename) else mret (0, filename).

Definition par_extract_symlink (realname : list Z) : SM par (Z * list Z) :=
  sym ← on_buf TH_ISSYM;
  if negb sym then set_errno EINVAL;; mret (-1, realname)
  else
    '(r, filename) ← make_parent realname;
    if r =? -1 then mret (-1, filename)
    else
      r ← sys (Sys_unlink filename);
      e ← sm_gets errno;
      if (r =? -1) && negb (e =? ENOENT) then mret (-1, filename)
      else
        linkname ← th_get_linkname;
        r ← sys (Sys_symlink (safer_name_suffix linkname) filename);
        if r =? -1 then mret (-1, filename) else mret (0, filename).

Definition par_extract_dir (realname : list Z) : SM par (Z * list Z) :=
  dir ← on_buf TH_ISDIR;
  if negb dir then set_errno EINVAL;; mret (-1, realname)
  else
    mode ← on_buf th_get_mode;
    '(r, filename) ← make_parent realname;
    if r =? -1 then mret (-1, filename)
    else
      r ← sys (Sys_mkdir filename mode);
      if r =? -1 then
        e ← sm_gets errno;
        if e =? Compat.EEXIST then
          r ← sys (Sys_chmod filename mode);
          if r =? -1 then mret (-1, filename) else mret (1, filename)
        else mret (-1, filename)
      else mret (0, filename).

(** Which of them a member is given to; the name is that of the buffer the
    caller passed. *)
Definition extract_member (realname : list Z) : X (Z * list Z) :=
  dir ← on_par (on_buf TH_ISDIR);
  if dir : bool then
    '(i, realname) ← on_par (par_extract_dir realname);
    mret (if i =? 1 then 0 else i, realname)
  else
    lnk ← on_par (on_buf TH_ISLNK);
    if lnk : bool then par_extract_hardlink realname
    else
      sym ← on_par (on_buf TH_ISSYM);
      if sym : bool then on_par (par_extract_symlink realname)
      else i ← on_par (par_extract_regfile os (Some realname)); mret (i, realname).

(** The member's name and the extracted one, for the hard links that follow. *)
Definition remember (realname : list Z) : X Z :=
  n ← on_par th_get_pathname;
  pathname ← sm_lift n;
  ok ← on_hash (fun _ => LibtarList.alloc);
  if negb ok then mret (-1)
  else
    let lnp := pathname ++ [0] ++ realname ++ [0] in
    hashable lnp;;
    r ← upd_hash (fun h => LibtarHash.libtar_hash_add strcmp h lnp);
    if negb (r =? 0) then mret (-1) else mret 0.

(** [PAR_NOOVERWRITE]: the file must not be there. *)
Definition may_write (realname : list Z) : SM par bool :=
  o ← sm_gets options;
  if BIT_ISSET o PAR_NOOVERWRITE then
    r ← sys (Sys_lstat realname);
    e ← sm_gets errno;
    if (r =? 0) || negb (e =? ENOENT) then set_errno Compat.EEXIST;; mret false else mret true
  else mret true.

Definition par_extract_file (realname : list Z) : X Z :=
  ok ← on_par (may_write realname);
  if negb ok then mret (-1)
  else
    '(i, realname) ← extract_member realname;
    if negb (i =? 0) then mret i
    else
      i ← on_par (par_set_file_perms (Some realname));
      if negb (i =? 0) then mret i else remember realname.

(** ** list.c *)
Definition _POSIX_LOGIN_NAME_MAX : nat := 9.

(** [%-<w>.<w>s] and [%<w>s] *)
Definition left_field (w : nat) (s : list Z) : list Z := let s := take w s in s ++ replicate (w - length s) 32.
Definition right_field (w : nat) (s : list Z) : list Z := replicate (w - length s) 32 ++ s.

Definition user_text (by_id : Z -> option (list Z)) (id : Z) : list Z :=
  match by_id id with
  | None => until_nul (snprintf_out _POSIX_LOGIN_NAME_MAX (fmt_int (i32 id)))
  | Some n => until_nul (strlcpy_out _POSIX_LOGIN_NAME_MAX n)
  end.

Definition print (l : list Z) : SM par unit := sm_modify (fun t => set_trace (trace t ++ [Sys_print l]) t).

Definition th_print_long_ls : SM par unit :=
  uid ← on_buf (th_get_uid getpwnam);
  gid ← on_buf (th_get_gid getgrnam);
  mode ← on_buf th_get_mode;
  print (take 10 (until_nul (Compat.strmode mode)) ++ [32] ++ left_field 8 (user_text getpwuid uid) ++ [32] ++
    left_field 8 (user_text getgrgid gid) ++ [32]);;
  size ← on_buf th_get_size;
  print (right_field 9 (fmt_int (i64 size)) ++ [32]);;
  mtime ← on_buf th_get_mtime;
  print (timetext mtime);;
  n ← th_get_pathname;
  pathname ← sm_lift n;
  print ([32] ++ pathname);;
  sym ← on_buf TH_ISSYM;
  lnk ← on_buf TH_ISLNK;
  (if sym || lnk then
     print (if sym : bool then bs " -> " else bs " link to ");;
     o ← sm_gets options;
     longlink ← get_ptr f_gnu_longlink;
     if BIT_ISSET o PAR_GNU && negb (longlink =? 0) then
       s ← string_at longlink; print (safer_name_suffix s)
     else
       s ← on_buf (fun m => cstr (at_member m f_linkname)); print (take 100 (safer_name_suffix s))
   else mret tt);;
  print [10].

Definition verbose : SM par unit :=
  o ← sm_gets options;
  if BIT_ISSET o PAR_VERBOSE then th_print_long_ls else mret tt.

(** ** wrapper.c *)
Definition FNM_PATHNAME : Z := 1.
Definition FNM_PERIOD : Z := 4.

(** The name a member is extracted to, in a buffer of [MAXPATHLEN]. *)
Definition target_name (prefix : option (list Z)) (filename : list Z) : list Z :=
  match prefix with
  | Some p => take (Compat.MAXPATHLEN - 1) (p ++ [slash] ++ filename)
  | None => take (Compat.MAXPATHLEN - 1) filename
  end.

(** One member to [prefix]; the loops end at the first that fails. *)
Definition extract_next (prefix : option (list Z)) (filename : list Z) : X Z :=
  on_par verbose;; par_extract_file (target_name prefix filename).

(** Every round reads a block at least. *)
Fixpoint extract_all_loop (fuel : nat) (prefix : option (list Z)) : X Z :=
  match fuel with
  | O => sm_undef
  | S f =>
      i ← on_par th_read;
      if negb (i =? 0) then mret (if i =? 1 then 0 else -1)
      else
        n ← on_par th_get_pathname;
        filename ← sm_lift n;
        r ← extract_next prefix filename;
        if negb (r =? 0) then mret (-1) else extract_all_loop f prefix
  end.
Definition par_extract_all (prefix : option (list Z)) : X Z :=
  k ← on_par rounds; extract_all_loop k prefix.

Fixpoint extract_glob_loop (fuel : nat) (globname : list Z) (prefix : option (list Z)) : X Z :=
  match fuel with
  | O => sm_undef
  | S f =>
      i ← on_par th_read;
      if negb (i =? 0) then mret (if i =? 1 then 0 else -1)
      else
        n ← on_par th_get_pathname;
        filename ← sm_lift n;
        if negb (fnmatch globname filename (Z.lor FNM_PATHNAME FNM_PERIOD) =? 0) then
          reg ← on_par (on_buf TH_ISREG);
          r ← (if reg : bool then on_par par_skip_regfile else mret 0);
          if negb (r =? 0) then mret (-1) else extract_glob_loop f globname prefix
        else
          r ← extract_next prefix filename;
          if negb (r =? 0) then mret (-1) else extract_glob_loop f globname prefix
  end.
Definition par_extract_glob (globname : list Z) (prefix : option (list Z)) : X Z :=
  k ← on_par rounds; extract_glob_loop k globname prefix.
End Extract.
End ParExtract.
