(* ===== verification/ParAppend.v ===== *)
(** * par: appending files (append.c, wrapper.c's tree)

    An archive opened for writing: the handle with a table of the devices
    seen, each with a table of the inodes seen on it, so that a second name of
    a file is stored as a hard link to the first. *)
From S2P Require Import Prelude CLib Compat LibtarList LibtarHash ParHeader ParBlock ParFile ParExtract.

Module ParAppend.
Export ParExtract.

(** What the pointers in the table of devices point at: a [dev_t] that is
    looked up, or a [tar_dev_t], which begins with one and names its table of
    inodes.  The same for the inodes. *)
Inductive dev_data := Dev_key (dev : Z) | Tar_dev (td_dev : Z) (td_h : positive).
Inductive ino_data := Ino_key (ino : Z) | Tar_ino (ti_ino : Z) (ti_name : list Z).

Definition dev_of (d : dev_data) : Z := match d with Dev_key dev | Tar_dev dev _ => dev end.
Definition ino_of (d : ino_data) : Z := match d with Ino_key ino | Tar_ino ino _ => ino end.

(** A table of inodes, with the heap its lists are in: no pointer leads from
    one table to another. *)
Definition ino_table : Type := LibtarHash.libtar_hash ino_data * LibtarList.heap ino_data.

Record appender := mk_appender { a_open : opened dev_data; inos : gmap positive ino_table }.

Definition set_open (s : opened dev_data) (a : appender) : appender := mk_appender s (inos a).
Definition set_inos (i : gmap positive ino_table) (a : appender) : appender := mk_appender (a_open a) i.

(** One script tells which allocations fail. *)
Definition script (a : appender) : list bool := LibtarList.oom (t_heap (a_open a)).
Definition set_script (o : list bool) (a : appender) : appender :=
  set_open (mk_opened (handle (a_open a)) (t_h (a_open a)) (LibtarList.set_oom o (t_heap (a_open a)))) a.

Notation A := (SM appender) (only parsing).

Definition on_open {B} (m : SM (opened dev_data) B) : A B := fun a =>
  '(x, s) ← m (a_open a); Some (x, set_open s a).
Definition on_handle {B} (m : SM par B) : A B := on_open (on_par m).

(** [calloc] for an entry: is there memory? *)
Definition calloc : A bool := on_open (on_hash (fun _ => LibtarList.alloc)).

(** An operation on the table of inodes at [h]. *)
Definition upd_inos {B} (h : positive)
    (f : LibtarHash.libtar_hash ino_data -> LibtarList.H ino_data (B * LibtarHash.libtar_hash ino_data)) :
    A B := fun a =>
  '(t, hh) ← inos a !! h;
  '(x, t, hh) ← f t (LibtarList.set_oom (script a) hh);
  Some (x, set_inos (<[h := (t, hh)]> (inos a)) (set_script (LibtarList.oom hh) a)).
Definition on_inos {B} (h : positive) (f : LibtarHash.libtar_hash ino_data -> LibtarList.H ino_data B) : A B :=
  upd_inos h (fun t hh => '(x, hh) ← f t hh; Some ((x, t), hh)).

Section Append.
Context (getpwnam getgrnam : list Z -> option Z) (getpwuid getgrgid : Z -> option (list Z)).
Context (timetext : Z -> list Z).
(** The file system: [lstat], [readlink], what [open] and [read] deliver, and
    the entries of a directory or the error of [opendir]. *)
Context (lstat : list Z -> option stat) (readlink : list Z -> option (list Z)).
Context (open_read : list Z -> option stream) (junk : mem).
Context (opendir : list Z -> Z + list (list Z)).
(** The default comparisons and hash function, which these tables replace. *)
Context (strcmp_dev : dev_data -> dev_data -> Z) (strcmp_ino : ino_data -> ino_data -> Z).
Context (str_hash : ino_data -> Z -> Z).

(** [libtar_hash_new(256, ino_hash)] *)
Definition new_inos : A (option positive) := fun a =>
  '(o, hh) ← LibtarHash.libtar_hash_new str_hash 256 (Some (fun d _ => ino_hash (ino_of d)))
    (LibtarList.mk_heap ∅ ∅ (script a) 0);
  let a := set_script (LibtarList.oom hh) a in
  match o with
  | None => Some (None, a)
  | Some t => let h := fresh (dom (inos a)) in Some (Some h, set_inos (<[h := (t, hh)]> (inos a)) a)
  end.

(** The table of the inodes on a device; NULL when there is no memory. *)
Definition device_table (dev : Z) : A (option positive) :=
  '(found, hp) ← on_open (on_hash (fun h => LibtarHash.libtar_hash_getkey strcmp_dev h
    LibtarHash.libtar_hashptr_reset (Dev_key dev) (Some (fun a b => dev_match (dev_of a) (dev_of b)))));
  if negb (found =? 0) then
    d ← on_open (on_hash (fun _ => LibtarHash.libtar_hashptr_data hp));
    match d with Tar_dev _ h => mret (Some h) | Dev_key _ => sm_undef end
  else
    ok ← calloc;
    if negb ok then mret None
    else
      td_h ← new_inos;
      match td_h with
      | None => mret None
      | Some h =>
          r ← on_open (upd_hash (fun t => LibtarHash.libtar_hash_add strcmp_dev t (Tar_dev dev h)));
          if r =? -1 then mret None else mret (Some h)
      end.

(** The name of the first file with this inode goes to the table; another is
    encoded as a link to it. *)
Definition link_or_remember (h : positive) (ino : Z) (name : list Z) : A bool :=
  '(found, hp) ← on_inos h (fun t => LibtarHash.libtar_hash_getkey strcmp_ino t
    LibtarHash.libtar_hashptr_reset (Ino_key ino) (Some (fun a b => ino_match (ino_of a) (ino_of b))));
  if negb (found =? 0) then
    d ← on_inos h (fun _ => LibtarHash.libtar_hashptr_data hp);
    match d with
    | Tar_ino _ ti_name =>
        on_handle (upd_buf (fun m => put m f_typeflag [LNKTYPE]));;
        on_handle (th_set_link ti_name);;
        mret true
    | Ino_key _ => sm_undef
    end
  else
    ok ← calloc;
    if negb ok then mret false
    else
      upd_inos h (fun t => LibtarHash.libtar_hash_add strcmp_ino t
        (Tar_ino ino (take (Compat.MAXPATHLEN - 1) name)));;
      mret true.

(** The target of a symbolic link. *)
Definition encode_symlink (realname : list Z) : SM par bool :=
  sym ← on_buf TH_ISSYM;
  if sym : bool then
    match readlink realname with
    | None => mret false
    | Some path => th_set_link (until_nul (take (Compat.MAXPATHLEN - 1) path));; mret true
    end
  else mret true.

Definition header_from (s : stat) : SM par Z := fun t =>
  '(r, m) ← th_set_from_stat getpwuid getgrgid (th_buf t) s; Some (r, set_th_buf m t).

Definition par_append_file (realname : list Z) (savename : option (list Z)) : A Z :=
  match lstat realname with
  | None => mret (-1)
  | Some s =>
      on_handle (upd_buf (fun _ => Some (replicate T_BLOCKSIZE 0)));;
      r ← on_handle (header_from s);
      if negb (r =? 0) then mret (-1)
      else
        on_handle (th_set_path (default realname savename));;
        td ← device_table (st_dev s);
        match td with
        | None => mret (-1)
        | Some h =>
            ok ← link_or_remember h (st_ino s) (default realname savename);
            if negb ok then mret (-1)
            else
              ok ← on_handle (encode_symlink realname);
              if negb ok then mret (-1)
              else
                on_handle (verbose getpwnam getgrnam getpwuid getgrgid timetext);;
                on_handle (append_member open_read junk realname)
        end
  end.

(** ** wrapper.c *)
Definition ENOTDIR : Z := 20.

Definition join_name (dir name : list Z) : list Z := take (Compat.MAXPATHLEN - 1) (dir ++ [slash] ++ name).

(** The entries of a directory; [tree] appends a directory in it. *)
Fixpoint append_entries (tree : list Z -> option (list Z) -> A Z) (realdir : list Z)
    (savedir : option (list Z)) (names : list (list Z)) : A Z :=
  match names with
  | [] => mret 0
  | d_name :: rest =>
      if bool_decide (d_name = bs ".") || bool_decide (d_name = bs "..") then
        append_entries tree realdir savedir rest
      else
        let realpath := join_name realdir d_name in
        let savepath := (fun d => join_name d d_name) <$> savedir in
        match lstat realpath with
        | None => mret (-1)
        | Some s =>
            r ← (if S_ISDIR (st_mode s) then tree realpath savepath else par_append_file realpath savepath);
            if negb (r =? 0) then mret (-1) else append_entries tree realdir savedir rest
        end
  end.

(** The depth of the directories below bounds the fuel. *)
Fixpoint par_append_tree (fuel : nat) (realdir : list Z) (savedir : option (list Z)) : A Z :=
  match fuel with
  | O => sm_undef
  | S f =>
      r ← par_append_file realdir savedir;
      if negb (r =? 0) then mret (-1)
      else
        match opendir realdir with
        | inl e => mret (if e =? ENOTDIR then 0 else -1)
        | inr names => append_entries (par_append_tree f) realdir savedir names
        end
  end.
End Append.
End ParAppend.
