(* ===== verification/ParHandle.v ===== *)
(** * par: opening and closing archives (handle.c)

    Opening is a computation over the calls of the system and the memory;
    what it leaves in [*t] is the handle, or nothing once it was freed. *)
From S2P Require Import Prelude CLib Compat LibtarList LibtarHash Quid ParHeader ParBlock ParFile ParExtract ParAppend.

Module ParHandle.
Export ParAppend.

Definition O_RDONLY : Z := 0.
Definition O_WRONLY : Z := 1.
Definition O_RDWR : Z := 2.
Definition O_ACCMODE : Z := 3.
Definition O_CREAT : Z := 0x40.
Definition O_EXCL : Z := 0x80.
Definition ENOMEM : Z := 12.

Inductive handle_call :=
| Call_open (path : list Z) (flags mode : Z)
| Call_fchmod (fd mode : Z)
| Call_gzdopen (fd : Z) (writes : bool)
| Call_close (fd : Z)
| Call_gzclose (fd : Z).

(** The table a handle carries: names of extracted files, or devices. *)
Inductive handle_table :=
| Paths (h : LibtarHash.libtar_hash (list Z)) (hh : LibtarList.heap (list Z))
| Devices (h : LibtarHash.libtar_hash dev_data) (hh : LibtarList.heap dev_data) (i : gmap positive ino_table).

Record PAR := mk_PAR {
  pathname : list Z; PAR_fd : Z; PAR_gzfd : bool; oflags : Z; PAR_options : Z; PAR_use_gz : bool;
  PAR_h : handle_table }.

(** The calls so far, the error number, and which allocations fail. *)
Record process := mk_process { p_calls : list handle_call; p_errno : Z; p_oom : list bool }.

Notation W := (SM process) (only parsing).

Section Handle.
Context (basename : list Z -> list Z) (strhash_path : list Z -> Z -> Z) (strhash_dev : dev_data -> Z -> Z).
(** How the system answers a call after the ones before; [gzdopen] answers 0
    for NULL. *)
Context (env : list handle_call -> handle_call -> Z).

Definition call (e : handle_call) : W Z := fun p =>
  Some (env (p_calls p) e, mk_process (p_calls p ++ [e]) (p_errno p) (p_oom p)).
Definition set_perrno (e : Z) : W unit := sm_modify (fun p => mk_process (p_calls p) e (p_oom p)).
Definition palloc : W bool := fun p =>
  match p_oom p with
  | [] => Some (true, p)
  | b :: r => Some (negb b, mk_process (p_calls p) (p_errno p) r)
  end.

Definition gzopen_init (flags mode fd : Z) : W bool :=
  let acc := Z.land flags O_ACCMODE in
  if negb ((acc =? O_WRONLY) || (acc =? O_RDONLY)) then set_perrno EINVAL;; mret false
  else
    r ← (if negb (Z.land flags O_CREAT =? 0) then call (Call_fchmod fd mode) else mret 0);
    if negb (r =? 0) then call (Call_close fd);; mret false
    else
      gz ← call (Call_gzdopen fd (acc =? O_WRONLY));
      if gz =? 0 then set_perrno ENOMEM;; mret false else mret true.

(** [libtar_hash_new] on a heap of its own. *)
Definition new_table {D} (str_hash : D -> Z -> Z) (num : Z) (hf : D -> Z -> Z) :
    W (option (LibtarHash.libtar_hash D * LibtarList.heap D)) := fun p =>
  match LibtarHash.libtar_hash_new str_hash num (Some hf) (LibtarList.mk_heap ∅ ∅ (p_oom p) 0) with
  | Some (o, hh) =>
      Some ((fun h => (h, hh)) <$> o, mk_process (p_calls p) (p_errno p) (LibtarList.oom hh))
  | None => None
  end.

Definition new_handle_table (flags : Z) : W (option handle_table) :=
  if Z.land flags O_ACCMODE =? O_RDONLY then
    o ← new_table strhash_path 256 (path_hash basename);
    mret ((fun '(h, hh) => Paths h hh) <$> o)
  else
    o ← new_table strhash_dev 16 (fun d _ => dev_hash (dev_of d));
    mret ((fun '(h, hh) => Devices h hh ∅) <$> o).

(** [par_init]: -1, or the handle. *)
Definition par_init (path : list Z) (compress : bool) (flags opts : Z) : W (option PAR) :=
  if Z.land flags O_ACCMODE =? O_RDWR then set_perrno EINVAL;; mret None
  else
    ok ← palloc;
    if negb ok then mret None
    else
      h ← new_handle_table flags;
      mret (mk_PAR path 0 false flags opts compress <$> h).

Definition with_fds (fd : Z) (gz : bool) (t : PAR) : PAR :=
  mk_PAR (pathname t) fd gz (oflags t) (PAR_options t) (PAR_use_gz t) (PAR_h t).

(** [libtar_hash_free] of the table, whose elements nothing frees. *)
Definition free_table (t : handle_table) : W unit :=
  match t with
  | Paths h hh => sm_lift (fst <$> LibtarHash.libtar_hash_free h None hh)
  | Devices h hh i => sm_lift (fst <$> LibtarHash.libtar_hash_free h None hh)
  end.

(** The result, and what [*t] is then: a handle, or freed. *)
Definition par_open (path : list Z) (compress : bool) (flags mode opts : Z) : W (Z * option PAR) :=
  o ← par_init path compress flags opts;
  match o with
  | None => mret (-1, None)
  | Some t =>
      let flags := if BIT_ISSET opts PAR_NOOVERWRITE && negb (Z.land flags O_CREAT =? 0)
                   then Z.lor flags O_EXCL else flags in
      fd ← call (Call_open path flags mode);
      if fd <? 0 then mret (-1, Some (with_fds fd false t))
      else
        gz ← (if PAR_use_gz t then gzopen_init flags mode fd else mret false);
        if negb gz then
          free_table (PAR_h t);;
          mret (-1, None)
        else mret (0, Some (with_fds fd true t))
  end.

(** [free] of a block that nothing else points at. *)
Definition free_block {D} (d : D) : LibtarList.H D unit := fun hh => Some (tt, hh).

(** [tar_dev_free]: the table of the device is freed with its entries; the
    tables of different devices are different ones. *)
Definition tar_dev_free (i : gmap positive ino_table) (d : dev_data) : LibtarList.H dev_data unit :=
  match d with
  | Tar_dev _ td_h =>
      LibtarList.lift ('(t, hh) ← i !! td_h; fst <$> LibtarHash.libtar_hash_free t (Some free_block) hh)
  | Dev_key _ => LibtarList.undef
  end.

(** [par_close]: the elements of the table are freed with it, blocks of names
    or devices. *)
Definition par_close (t : PAR) : W Z :=
  i ← call (if PAR_use_gz t then Call_gzclose (PAR_fd t) else Call_close (PAR_fd t));
  match PAR_h t with
  | Paths h hh => sm_lift (fst <$> LibtarHash.libtar_hash_free h (Some free_block) hh)
  | Devices h hh i => sm_lift (fst <$> LibtarHash.libtar_hash_free h (Some (tar_dev_free i)) hh)
  end;;
  mret i.

(** ** Opening *)
Definition empty_table {D} (num : Z) (hf : D -> Z -> Z) : LibtarHash.libtar_hash D :=
  LibtarHash.mk_hash num (replicate (Z.to_nat num) None) hf 0.

(** What a new table holds, and that it can be freed, whether or not there is
    memory. *)
Lemma free_empty {D} num (hf : D -> Z -> Z) ff hh :
  LibtarHash.libtar_hash_free (empty_table num hf) ff hh = Some (tt, hh).
Proof.
  unfold LibtarHash.libtar_hash_free, empty_table. cbn [LibtarHash.table].
  induction (Z.to_nat num); [done|]. exact IHn.
Qed.

Definition fresh_table (t : handle_table) : Prop :=
  match t with
  | Paths h _ => exists num hf, h = empty_table num hf
  | Devices h _ _ => exists num hf, h = empty_table num hf
  end.

Lemma new_table_run {D} (str_hash : D -> Z -> Z) num hf p :
  exists o p', new_table str_hash num hf p = Some (o, p') /\ p_calls p' = p_calls p /\
    (p_oom p = [] -> p' = p /\ o = Some (empty_table num hf, LibtarList.mk_heap ∅ ∅ [] 0)) /\
    (forall h hh, o = Some (h, hh) -> h = empty_table num hf).
Proof.
  unfold new_table, LibtarHash.libtar_hash_new, LibtarList.alloc. cbn.
  destruct p as [c e [|b1 [|b2 r]]]; cbn.
  - eexists _, _. split; [done|]. split; [done|]. split; [done|]. by intros h hh [= <- <-].
  - destruct b1; cbn; eexists _, _; (split; [done|]; split; [done|]; split; [done|]); [done|by intros h hh [= <- <-]].
  - destruct b1, b2; cbn; eexists _, _; (split; [done|]; split; [done|]; split; [done|]); try done; by intros h hh [= <- <-].
Qed.

Lemma new_handle_table_run flags p :
  exists o p', new_handle_table flags p = Some (o, p') /\ p_calls p' = p_calls p /\
    (p_oom p = [] -> p' = p /\ o = Some (if Z.land flags O_ACCMODE =? O_RDONLY
      then Paths (empty_table 256 (path_hash basename)) (LibtarList.mk_heap ∅ ∅ [] 0)
      else Devices (empty_table 16 (fun d _ => dev_hash (dev_of d))) (LibtarList.mk_heap ∅ ∅ [] 0) ∅)) /\
    (forall h, o = Some h -> fresh_table h).
Proof.
  unfold new_handle_table. destruct (Z.land flags O_ACCMODE =? O_RDONLY).
  - destruct (new_table_run strhash_path 256 (path_hash basename) p) as (o & p' & E & Ec & Eo & Et).
    eexists _, p'. split; [by sm_step E|]. split; [done|]. split.
    + intros Hp. destruct (Eo Hp) as [-> ->]. done.
    + intros h Hh. destruct o as [[h0 hh0]|]; [|done]. injection Hh as <-. exists 256, (path_hash basename). by eapply Et.
  - destruct (new_table_run strhash_dev 16 (fun d _ => dev_hash (dev_of d)) p) as (o & p' & E & Ec & Eo & Et).
    eexists _, p'. split; [by sm_step E|]. split; [done|]. split.
    + intros Hp. destruct (Eo Hp) as [-> ->]. done.
    + intros h Hh. destruct o as [[h0 hh0]|]; [|done]. injection Hh as <-. eexists 16, _. by eapply Et.
Qed.

Lemma par_init_run path compress flags opts p :
  exists o p', par_init path compress flags opts p = Some (o, p') /\ p_calls p' = p_calls p /\
    (forall t, o = Some t -> PAR_use_gz t = compress /\ fresh_table (PAR_h t)).
Proof.
  unfold par_init. destruct (_ =? O_RDWR).
  { eexists None, _. split; [reflexivity|]. by split. }
  assert (exists ok p0, palloc p = Some (ok, p0) /\ p_calls p0 = p_calls p) as (ok & p0 & E0 & Ec0).
  { unfold palloc. destruct p as [c e [|b r]]; cbn; eauto. }
  destruct ok.
  - destruct (new_handle_table_run flags p0) as (o & p' & E & Ec & _ & Et).
    eexists _, p'. split; [sm_step E0; cbn [negb]; by sm_step E|]. split; [congruence|].
    intros t Ht. destruct o as [h|]; [|done]. injection Ht as <-. split; [done|]. by apply Et.
  - eexists None, p0. split; [by sm_step E0|]. by split.
Qed.

Lemma free_fresh h p : fresh_table h -> free_table h p = Some (tt, p).
Proof. destruct h; intros (num & hf & ->); unfold free_table; rewrite free_empty; done. Qed.

(** Without compression an archive is never opened: the pointer to zlib's
    stream that the function looks at is then always null.  A descriptor it
    opened stays open. *)
Theorem par_open_uncompressed_fails path flags mode opts p :
  exists t p', par_open path false flags mode opts p = Some ((-1, t), p') /\
    (p_calls p' = p_calls p \/ exists fl, p_calls p' = p_calls p ++ [Call_open path fl mode]).
Proof.
  destruct (par_init_run path false flags opts p) as (o & p1 & E1 & Ec & Ht). unfold par_open.
  destruct o as [t|].
  2:{ eexists None, p1. split; [by sm_step E1|by left]. }
  destruct (Ht t eq_refl) as [Hgz Hfr].
  set (fl := if _ : bool then Z.lor flags O_EXCL else flags).
  set (fd := env (p_calls p1) (Call_open path fl mode)).
  set (p2 := mk_process (p_calls p1 ++ [Call_open path fl mode]) (p_errno p1) (p_oom p1)).
  destruct (fd <? 0) eqn:Efd.
  - eexists _, p2. split; [|right; exists fl; unfold p2; cbn; by rewrite Ec].
    sm_step E1. fold fl. sm_step (eq_refl (Some (fd, p2))). rewrite Efd. done.
  - eexists None, p2. split; [|right; exists fl; unfold p2; cbn; by rewrite Ec].
    sm_step E1. fold fl. sm_step (eq_refl (Some (fd, p2))). rewrite Efd, Hgz.
    sm_step (eq_refl (Some (false, p2))). cbn [negb]. by sm_step (free_fresh (PAR_h t) p2 Hfr).
Qed.

(** A system in which nothing fails. *)
Definition healthy : Prop := forall tr e,
  match e with
  | Call_open _ _ _ => 0 <= env tr e
  | Call_gzdopen _ _ => env tr e <> 0
  | _ => env tr e = 0
  end.

Lemma call_run e p : call e p =
  Some (env (p_calls p) e, mk_process (p_calls p ++ [e]) (p_errno p) (p_oom p)).
Proof. done. Qed.

Lemma par_init_ok path compress flags opts p :
  p_oom p = [] -> (Z.land flags O_ACCMODE =? O_RDWR) = false ->
  par_init path compress flags opts p =
    Some (Some (mk_PAR path 0 false flags opts compress
      (if Z.land flags O_ACCMODE =? O_RDONLY
       then Paths (empty_table 256 (path_hash basename)) (LibtarList.mk_heap ∅ ∅ [] 0)
       else Devices (empty_table 16 (fun d _ => dev_hash (dev_of d))) (LibtarList.mk_heap ∅ ∅ [] 0) ∅)), p).
Proof.
  intros Hp Hf. unfold par_init. rewrite Hf.
  assert (E0 : palloc p = Some (true, p)) by (unfold palloc; by rewrite Hp). sm_step E0. cbn [negb].
  destruct (new_handle_table_run flags p) as (o & p' & E & _ & Eo & _). destruct (Eo Hp) as [-> ->].
  by sm_step E.
Qed.

Lemma gzopen_init_ok flags mode fd p :
  healthy -> Z.land flags O_ACCMODE = O_WRONLY \/ Z.land flags O_ACCMODE = O_RDONLY ->
  exists p', gzopen_init flags mode fd p = Some (true, p').
Proof.
  intros He Hf. unfold gzopen_init.
  replace ((_ =? O_WRONLY) || (_ =? O_RDONLY)) with true by (by destruct Hf as [-> | ->]). cbn [negb].
  assert (exists p1, (if negb (Z.land flags O_CREAT =? 0) then call (Call_fchmod fd mode) else mret 0) p = Some (0, p1))
    as [p1 E1].
  { destruct (Z.land flags O_CREAT =? 0); cbn [negb]; [by exists p|]. eexists. rewrite call_run.
    by rewrite (He (p_calls p) (Call_fchmod fd mode)). }
  set (e := Call_gzdopen fd (Z.land flags O_ACCMODE =? O_WRONLY)).
  eexists. sm_step E1. cbn [Z.eqb negb]. sm_step (call_run e p1).
  pose proof (He (p_calls p1) e) as Hg. cbn in Hg. by rewrite (proj2 (Z.eqb_neq _ _) Hg).
Qed.

Lemma open_run path flags mode p :
  healthy -> p_oom p = [] -> Z.land flags O_ACCMODE = O_WRONLY \/ Z.land flags O_ACCMODE = O_RDONLY ->
  exists fd p', par_open path true flags mode 0 p =
    Some ((0, Some (mk_PAR path fd true flags 0 true
      (if Z.land flags O_ACCMODE =? O_RDONLY
       then Paths (empty_table 256 (path_hash basename)) (LibtarList.mk_heap ∅ ∅ [] 0)
       else Devices (empty_table 16 (fun d _ => dev_hash (dev_of d))) (LibtarList.mk_heap ∅ ∅ [] 0) ∅))), p').
Proof.
  intros He Hp Hf. set (e := Call_open path flags mode). set (fd := env (p_calls p) e).
  pose proof (He (p_calls p) e) as Hfd. cbn in Hfd. fold fd in Hfd.
  destruct (gzopen_init_ok flags mode fd (mk_process (p_calls p ++ [e]) (p_errno p) (p_oom p)) He Hf) as [p' E'].
  exists fd, p'. unfold par_open. sm_step (par_init_ok path true flags 0 p Hp ltac:(by destruct Hf as [-> | ->])).
  change (BIT_ISSET 0 PAR_NOOVERWRITE) with false. cbn [andb]. cbn iota.
  sm_step (call_run e p). fold fd. rewrite (proj2 (Z.ltb_ge _ _)) by exact Hfd. cbn [PAR_use_gz].
  by sm_step E'.
Qed.
End Handle.

(** ** The archive header *)
Definition PACKAGE_MAGIC : list Z := bs "$MAVJO}".
Definition PACKAGE_VERSION_MAJOR : Z := 1.
Definition PACKAGE_VERSION_MINOR : Z := 2.

Record archive_header := mk_archive_header {
  magic : list Z; version_major : Z; version_minor : Z; ah_options : Z; ah_quid : Quid.quid_t; meta : list Z }.

(** The bytes of the structure: all its members have alignment 1. *)
Definition header_bytes (h : archive_header) : list Z :=
  magic h ++ [version_major h; version_minor h; ah_options h] ++ Quid.quid_bytes (ah_quid h) ++ meta h.
Definition sizeof_header : nat := 8 + 3 + 20 + 64.

(** [quid] is what [quid_create] makes; the other arguments are what the
    members hold that are not initialised. *)
Definition par_write_header (quid : Quid.quid_t) (junk_options : Z) (junk_meta : list Z) : SM par Z := fun t =>
  let header := mk_archive_header (strlcpy_out 8 PACKAGE_MAGIC) PACKAGE_VERSION_MAJOR PACKAGE_VERSION_MINOR
    (if use_gz t then Z.lor junk_options PAR_COMPRESS else junk_options) quid junk_meta in
  let '(n, s) := stream_write (fd t) (header_bytes header) in
  Some (if n <? 0 then -1 else 0, set_streams s (gzfd t) t).

(** [file] is what the descriptor has in front of it after [lseek], [None]
    when it cannot seek; [junk] is the structure before it is read. *)
Definition par_read_header (file : option stream) (junk : mem) : SM par Z := fun t =>
  match file with
  | None => Some (-1, t)
  | Some f =>
      let '(n, l, s) := stream_read f sizeof_header in
      let t := set_streams s (gzfd t) t in
      if n <? 0 then Some (-1, t)
      else
        header ← mstore junk 0 l;
        Some (if bool_decide (until_nul (take 8 header) = until_nul (take 8 (PACKAGE_MAGIC ++ [0])))
              then 0 else -2, t)
  end.

(** What is written is accepted. *)
Lemma write_header_run quid jo jm t :
  s_io (fd t) = [] ->
  exists b, par_write_header quid jo jm t =
      Some (0, set_streams (mk_stream (s_in (fd t)) (s_out (fd t) ++ b) []) (gzfd t) t) /\
    length b = length (header_bytes (mk_archive_header (strlcpy_out 8 PACKAGE_MAGIC) 1 2 0 quid jm)) /\
    take 8 b = PACKAGE_MAGIC ++ [0].
Proof.
  intros Hio. unfold par_write_header. set (h := mk_archive_header _ _ _ _ _ _). exists (header_bytes h).
  unfold stream_write, next_answer. rewrite Hio. rewrite (proj2 (Z.ltb_ge _ _)) by lia.
  rewrite Nat2Z.id, Nat.min_id, firstn_all. split; [|split; [done|done]].
  by rewrite (proj2 (Z.ltb_ge _ _)) by lia.
Qed.

Lemma read_header_run b o r jk t :
  length b = sizeof_header -> length jk = sizeof_header -> take 8 b = PACKAGE_MAGIC ++ [0] ->
  par_read_header (Some (mk_stream (b ++ r) o [])) jk t = Some (0, set_streams (mk_stream r o []) (gzfd t) t).
Proof.
  intros Hb Hj Hm. unfold par_read_header. rewrite stream_read_all by done. cbn beta iota.
  rewrite (proj2 (Z.ltb_ge _ _)) by lia. rewrite mstore_Some by lia. cbn [mbind option_bind].
  rewrite take_0, app_nil_l, (drop_ge jk), app_nil_r, Hm by lia. by rewrite bool_decide_eq_true_2.
Qed.
End ParHandle.
