(* ===== verification/ParArchive.v ===== *)
(** * par: archives as a whole

    The table of devices and inodes refines a map from files to their first
    names, and what was appended to an archive is extracted from it. *)
From S2P Require Import Prelude CLib Compat LibtarList LibtarHash ParHeader ParBlock ParFile ParExtract ParAppend.

Module ParArchive.
Export ParAppend.

(** ** Running what is lifted *)
Section Runs.
Context {D : Type}.
Implicit Types (s : opened D).

Lemma on_par_run {A} (m : SM par A) s x t : m (handle s) = Some (x, t) -> on_par m s = Some (x, set_handle t s).
Proof. intros E. unfold on_par. by rewrite E. Qed.

Lemma on_hash_run {A} (f : LibtarHash.libtar_hash D -> LibtarList.H D A) s x hh :
  f (t_h s) (t_heap s) = Some (x, hh) -> on_hash f s = Some (x, mk_opened (handle s) (t_h s) hh).
Proof. intros E. unfold on_hash. by rewrite E. Qed.

Lemma upd_hash_run {A} (f : LibtarHash.libtar_hash D -> LibtarList.H D (A * LibtarHash.libtar_hash D)) s x h hh :
  f (t_h s) (t_heap s) = Some ((x, h), hh) -> upd_hash f s = Some (x, mk_opened (handle s) h hh).
Proof. intros E. unfold upd_hash. by rewrite E. Qed.
End Runs.

Lemma on_open_run {B} (m : SM (opened dev_data) B) a x s :
  m (a_open a) = Some (x, s) -> on_open m a = Some (x, set_open s a).
Proof. intros E. unfold on_open. by rewrite E. Qed.

(** The state with another handle. *)
Definition with_handle (t : par) (a : appender) : appender := set_open (set_handle t (a_open a)) a.

Lemma on_handle_run {B} (m : SM par B) a x t :
  m (handle (a_open a)) = Some (x, t) -> on_handle m a = Some (x, with_handle t a).
Proof. intros E. unfold on_handle. apply on_open_run, on_par_run, E. Qed.

(** A look at the table of devices that changes nothing. *)
Lemma look_run {B} (f : LibtarHash.libtar_hash dev_data -> LibtarList.H dev_data B) a y :
  f (t_h (a_open a)) (t_heap (a_open a)) = Some (y, t_heap (a_open a)) -> on_open (on_hash f) a = Some (y, a).
Proof.
  intros E. rewrite (on_open_run _ _ _ _ (on_hash_run _ _ _ _ E)). by destruct a as [[] ?].
Qed.

Lemma on_handle_at {B} (m : SM par B) a t x t' :
  m t = Some (x, t') -> on_handle m (with_handle t a) = Some (x, with_handle t' a).
Proof. intros E. exact (on_handle_run m (with_handle t a) x t' E). Qed.

Lemma with_handle_id a : with_handle (handle (a_open a)) a = a.
Proof. by destruct a as [[] ?]. Qed.

(** ** The tables of devices and inodes *)
Definition id_ok (x : Z) : Prop := 0 <= x < 2 ^ 64.

Lemma le_bytes_inj a b : id_ok a -> id_ok b -> le_bytes 8 a = le_bytes 8 b -> a = b.
Proof.
  intros Ha Hb E%(f_equal le_val). rewrite !le_val_bytes in E. unfold id_ok in *.
  change (256 ^ Z.of_nat 8) with (2 ^ 64) in E. by rewrite !Z.mod_small in E.
Qed.

Lemma memcmp_ids a b : id_ok a -> id_ok b -> (memcmp (le_bytes 8 a) (le_bytes 8 b) =? 0) = true <-> a = b.
Proof.
  intros Ha Hb. rewrite Z.eqb_eq, memcmp_eq by (by rewrite !le_bytes_length).
  split; [by apply le_bytes_inj|by intros ->].
Qed.

(** Identifiers with the same bytes have the same hashes. *)
Lemma ids_mod a b n : (memcmp (le_bytes 8 a) (le_bytes 8 b) =? 0) = true -> (n | 2 ^ 64) -> 0 < n -> b `mod` n = a `mod` n.
Proof.
  intros Hm Hn H0. apply Z.eqb_eq, memcmp_eq in Hm; [|by rewrite !le_bytes_length].
  apply (f_equal le_val) in Hm. rewrite !le_val_bytes in Hm. change (256 ^ Z.of_nat 8) with (2 ^ 64) in Hm.
  by rewrite <- (Z.mod_mod_divide b (2 ^ 64) n), <- (Z.mod_mod_divide a (2 ^ 64) n), Hm.
Qed.

Section Cache.
Context (strcmp_dev : dev_data -> dev_data -> Z) (strcmp_ino : ino_data -> ino_data -> Z).
Context (str_hash : ino_data -> Z -> Z).

(** The names a table of inodes has. *)
Definition inodes_ok (tb : ino_table) (f : Z -> option (list Z)) : Prop :=
  exists ct, LibtarHash.hash_ok strcmp_ino tb.2 tb.1 ct /\ LibtarHash.numbuckets tb.1 = 256 /\
    LibtarHash.hashfunc tb.1 = (fun d _ => ino_hash (ino_of d)) /\
    (forall d, d ∈ LibtarHash.elements ct -> exists ino nm, d = Tar_ino ino nm /\ id_ok ino) /\
    (forall ino nm, Tar_ino ino nm ∈ LibtarHash.elements ct <-> f ino = Some nm).

(** The devices, each with a table of its own. *)
Record devices_ok (a : appender) (ct : list (list (positive * dev_data))) (seen : gmap (Z * Z) (list Z)) : Prop := {
  do_hash : LibtarHash.hash_ok strcmp_dev (t_heap (a_open a)) (t_h (a_open a)) ct;
  do_size : LibtarHash.numbuckets (t_h (a_open a)) = 16;
  do_func : LibtarHash.hashfunc (t_h (a_open a)) = (fun d _ => dev_hash (dev_of d));
  do_script : script a = [];
  do_tables : forall d, d ∈ LibtarHash.elements ct -> exists dev h tb, d = Tar_dev dev h /\ id_ok dev /\
    inos a !! h = Some tb /\ inodes_ok tb (fun ino => seen !! (dev, ino));
  do_unique : forall d1 h1 d2 h2, Tar_dev d1 h1 ∈ LibtarHash.elements ct ->
    Tar_dev d2 h2 ∈ LibtarHash.elements ct -> d1 = d2 <-> h1 = h2;
  do_all : forall dev ino nm, seen !! (dev, ino) = Some nm -> exists h, Tar_dev dev h ∈ LibtarHash.elements ct }.

(** The map from device and inode to the first name that was appended. *)
Definition caches (a : appender) (seen : gmap (Z * Z) (list Z)) : Prop := exists ct, devices_ok a ct seen.

Lemma set_script_id a : script a = [] -> set_script [] a = a.
Proof. destruct a as [[t h [ns ls o e]] i]. unfold script, set_script, LibtarList.set_oom. cbn. by intros ->. Qed.

Lemma calloc_run a : script a = [] -> calloc a = Some (true, a).
Proof.
  destruct a as [[t h [ns ls o e]] i]. unfold script, calloc, on_open, on_hash, LibtarList.alloc, set_open. cbn.
  by intros ->.
Qed.

(** A fresh table of inodes. *)
Definition ino_table0 : ino_table :=
  (LibtarHash.mk_hash 256 (replicate 256 None) (fun d _ => ino_hash (ino_of d)) 0, LibtarList.mk_heap ∅ ∅ [] 0).

Lemma new_inos_run a : script a = [] ->
  new_inos str_hash a = Some (Some (fresh (dom (inos a))), set_inos (<[fresh (dom (inos a)) := ino_table0]> (inos a)) a).
Proof.
  intros H. unfold new_inos. rewrite H.
  change (LibtarHash.libtar_hash_new _ _ _ _) with (Some (Some ino_table0.1, ino_table0.2)).
  cbn [mbind option_bind]. change (LibtarList.oom ino_table0.2) with (@nil bool). cbv zeta.
  by rewrite (set_script_id a H).
Qed.

Lemma ino_table0_ok f : (forall ino, f ino = None) -> inodes_ok ino_table0 f.
Proof.
  intros Hf. exists (replicate 256 []).
  assert (E : LibtarHash.elements (D := ino_data) (replicate 256 []) = []) by reflexivity. rewrite E.
  split; [exact (LibtarHash.new_hash_ok strcmp_ino _ 256 _ ltac:(lia))|]. split; [done|]. split; [done|].
  split; [by intros d H%elem_of_nil|]. intros ino nm. rewrite elem_of_nil, Hf. by split.
Qed.

Lemma dev_hashes h d : LibtarHash.numbuckets h = 16 -> LibtarHash.hashfunc h = (fun d _ => dev_hash (dev_of d)) ->
  LibtarHash.hashes h d.
Proof.
  unfold LibtarHash.hashes, dev_hash. intros -> ->. pose proof (Z.mod_pos_bound (dev_of d) 16 ltac:(lia)).
  by rewrite i32_small by lia.
Qed.

Lemma ino_hashes h d : LibtarHash.numbuckets h = 256 -> LibtarHash.hashfunc h = (fun d _ => ino_hash (ino_of d)) ->
  LibtarHash.hashes h d.
Proof.
  unfold LibtarHash.hashes, ino_hash. intros -> ->. pose proof (Z.mod_pos_bound (ino_of d) 256 ltac:(lia)).
  by rewrite i32_small by lia.
Qed.

(** Looking a device up leaves everything as it is. *)
Lemma device_lookup a ct seen dev :
  devices_ok a ct seen -> id_ok dev ->
  exists r hp, on_open (on_hash (fun h => LibtarHash.libtar_hash_getkey strcmp_dev h
      LibtarHash.libtar_hashptr_reset (Dev_key dev) (Some (fun a b => dev_match (dev_of a) (dev_of b))))) a =
      Some ((r, hp), a) /\
    ((r = 1 /\ exists h, on_open (on_hash (fun _ => LibtarHash.libtar_hashptr_data hp)) a = Some (Tar_dev dev h, a) /\
        Tar_dev dev h ∈ LibtarHash.elements ct) \/
     (r = 0 /\ forall h, Tar_dev dev h ∉ LibtarHash.elements ct)).
Proof.
  intros [Ok Hs Hf _ Ht _ _] Hdev.
  destruct (LibtarHash.getkey_found strcmp_dev _ _ ct (Dev_key dev) (fun a b => dev_match (dev_of a) (dev_of b)) Ok)
    as (r & hp & E & Hr).
  { by apply dev_hashes. }
  { intros d Hd. rewrite Hf. unfold dev_hash. cbn [dev_of] in *. f_equal.
    apply (ids_mod _ _ 16 Hd); [by exists (2 ^ 60)|done]. }
  exists r, hp. split; [by apply look_run|].
  destruct Hr as [(-> & d & Ed & Hd & Hm)|(-> & Hn)].
  - left. split; [done|]. destruct (Ht d Hd) as (dev' & h & _ & -> & Hdev' & _).
    apply memcmp_ids in Hm; [|done..]. cbn [dev_of] in Hm. subst dev'. exists h. split; [|done].
    exact (look_run (fun _ => LibtarHash.libtar_hashptr_data hp) a _ Ed).
  - right. split; [done|]. intros h Hh. apply Hn in Hh. cbn [dev_of] in Hh.
    assert (dev_match dev dev = true) as E1 by (by apply memcmp_ids). congruence.
Qed.

(** A new device with a fresh table. *)
Lemma devices_grown a ct seen dev h hd hh ct' :
  devices_ok a ct seen -> id_ok dev -> (forall h, Tar_dev dev h ∉ LibtarHash.elements ct) ->
  inos a !! h = None ->
  LibtarHash.hash_ok strcmp_dev hh hd ct' -> LibtarHash.elements ct' ≡ₚ Tar_dev dev h :: LibtarHash.elements ct ->
  LibtarHash.numbuckets hd = 16 -> LibtarHash.hashfunc hd = (fun d _ => dev_hash (dev_of d)) ->
  LibtarList.oom hh = [] ->
  devices_ok (mk_appender (mk_opened (handle (a_open a)) hd hh) (<[h := ino_table0]> (inos a))) ct' seen.
Proof.
  intros [Ok Hs Hf Hsc Ht Hu Ha] Hdev Hnew Hh Ok' Hp Hn Hf' Ho. split; try done.
  - intros d Hd. rewrite Hp in Hd. apply elem_of_cons in Hd as [->|Hd].
    + exists dev, h, ino_table0. split; [done|]. split; [done|]. split; [apply lookup_insert_eq|].
      apply ino_table0_ok. intros ino. destruct (seen !! (dev, ino)) as [nm|] eqn:E; [|done].
      destruct (Ha _ _ _ E) as [h0 Hin]. by destruct (Hnew h0).
    + destruct (Ht d Hd) as (dev' & h' & tb & -> & H1 & H2 & H3). exists dev', h', tb.
      split; [done|]. split; [done|]. split; [|done]. cbn [inos].
      rewrite lookup_insert_ne; [done|]. intros ->. congruence.
  - intros d1 h1 d2 h2 H1 H2. rewrite Hp in H1, H2. apply elem_of_cons in H1 as [[= -> ->]|H1];
      apply elem_of_cons in H2 as [[= -> ->]|H2].
    + done.
    + split; [intros <-; by destruct (Hnew h2)|intros <-].
      destruct (Ht _ H2) as (? & ? & tb & [= <- <-] & _ & E & _). congruence.
    + split; [intros ->; by destruct (Hnew h1)|intros ->].
      destruct (Ht _ H1) as (? & ? & tb & [= <- <-] & _ & E & _). congruence.
    + by apply Hu.
  - intros dev' ino nm E. destruct (Ha _ _ _ E) as [h0 Hin]. exists h0. rewrite Hp. by apply elem_of_cons; right.
Qed.

Lemma device_table_run a seen dev :
  caches a seen -> id_ok dev ->
  exists h a' ct, device_table strcmp_dev str_hash dev a = Some (Some h, a') /\ devices_ok a' ct seen /\
    Tar_dev dev h ∈ LibtarHash.elements ct /\ handle (a_open a') = handle (a_open a).
Proof.
  intros [ct C] Hdev. destruct (device_lookup a ct seen dev C Hdev) as (r & hp & E & Hr).
  destruct Hr as [(-> & h & Ed & Hin)|(-> & Hn)].
  - exists h, a, ct. split; [|done]. unfold device_table. sm_step E. cbn [Z.eqb negb]. by sm_step Ed.
  - pose proof (do_script _ _ _ C) as Hs. set (h := fresh (dom (inos a))).
    assert (Hh : inos a !! h = None) by (apply not_elem_of_dom, is_fresh).
    destruct (LibtarHash.hash_add_elements strcmp_dev _ _ ct (Tar_dev dev h) (do_hash _ _ _ C))
      as (hh & hd & ct' & Ea & Ok' & Hp & Hnb & Hhf & Ho).
    { apply dev_hashes; apply C. }
    { exact Hs. }
    set (a1 := set_inos (<[h := ino_table0]> (inos a)) a).
    exists h, (set_open (mk_opened (handle (a_open a)) hd hh) a1), ct'. split; [|split; [|split]].
    + unfold device_table. sm_step E. cbn [Z.eqb negb]. sm_step (calloc_run a Hs). cbn [negb].
      sm_step (new_inos_run a Hs). fold h a1.
      assert (Eu : on_open (upd_hash (fun t => LibtarHash.libtar_hash_add strcmp_dev t (Tar_dev dev h))) a1 =
        Some (0, set_open (mk_opened (handle (a_open a)) hd hh) a1)) by (apply on_open_run, upd_hash_run, Ea).
      by sm_step Eu.
    + eapply (devices_grown a ct); try done; [by rewrite Hnb; apply C|by rewrite Hhf; apply C].
    + rewrite Hp. apply elem_of_cons. by left.
    + done.
Qed.

Lemma upd_inos_run {B} h (f : LibtarHash.libtar_hash ino_data -> LibtarList.H ino_data (B * LibtarHash.libtar_hash ino_data))
    a t hh x t' hh' :
  inos a !! h = Some (t, hh) -> script a = [] -> f t (LibtarList.set_oom [] hh) = Some ((x, t'), hh') ->
  LibtarList.oom hh' = [] -> upd_inos h f a = Some (x, set_inos (<[h := (t', hh')]> (inos a)) a).
Proof.
  intros Hh Hs E Ho. unfold upd_inos. rewrite Hh. cbn [mbind option_bind]. rewrite Hs, E.
  cbn [mbind option_bind]. by rewrite Ho, set_script_id.
Qed.

(** The state when the table at [h] has become [tb]. *)
Definition with_table (h : positive) (tb : ino_table) (a : appender) : appender :=
  set_inos (<[h := tb]> (inos a)) a.

Lemma devices_changed a ct seen seen' dev h tb :
  devices_ok a ct seen -> Tar_dev dev h ∈ LibtarHash.elements ct ->
  inodes_ok tb (fun ino => seen' !! (dev, ino)) ->
  (forall dev' ino, dev' <> dev -> seen' !! (dev', ino) = seen !! (dev', ino)) ->
  devices_ok (with_table h tb a) ct seen'.
Proof.
  intros [Ok Hs Hf Hsc Ht Hu Ha] Hin Htb Hsame. split; try done.
  - intros d Hd. destruct (Ht d Hd) as (dev' & h' & tb' & -> & H1 & H2 & H3).
    destruct (decide (dev' = dev)) as [->|Hne].
    + assert (h' = h) as -> by (by apply (Hu dev h' dev h Hd Hin)).
      exists dev, h, tb. cbn [inos with_table set_inos]. by rewrite lookup_insert_eq.
    + exists dev', h', tb'. split; [done|]. split; [done|]. cbn [inos with_table set_inos].
      rewrite lookup_insert_ne by (intros ->; apply Hne; by apply (Hu dev' h' dev h' Hd Hin)).
      split; [done|]. destruct H3 as (cti & K1 & K2 & K3 & K4 & K5). exists cti.
      split; [done|]. split; [done|]. split; [done|]. split; [done|]. intros ino nm. by rewrite Hsame.
  - intros dev' ino nm E. destruct (decide (dev' = dev)) as [->|Hne]; [by exists h|].
    rewrite Hsame in E by done. by eapply Ha.
Qed.

Lemma with_table_twice h tb tb' a : with_table h tb' (with_table h tb a) = with_table h tb' a.
Proof. unfold with_table, set_inos. cbn. by rewrite insert_insert_eq. Qed.

(** Looking an inode up: the name it is known by. *)
Lemma inode_lookup tb f ino :
  inodes_ok tb f -> id_ok ino ->
  let hh := LibtarList.set_oom [] tb.2 in
  exists r hp, LibtarHash.libtar_hash_getkey strcmp_ino tb.1 LibtarHash.libtar_hashptr_reset (Ino_key ino)
      (Some (fun a b => ino_match (ino_of a) (ino_of b))) hh = Some ((r, hp), hh) /\
    match f ino with
    | Some nm => r = 1 /\ LibtarHash.libtar_hashptr_data hp hh = Some (Tar_ino ino nm, hh)
    | None => r = 0
    end.
Proof.
  intros (ct & Ok & Hs & Hf & Hd & He) Hino hh.
  destruct (LibtarHash.getkey_found strcmp_ino hh tb.1 ct (Ino_key ino) (fun a b => ino_match (ino_of a) (ino_of b)))
    as (r & hp & E & Hr).
  { by apply LibtarHash.hash_ok_oom. }
  { by apply ino_hashes. }
  { intros d Hm. rewrite Hf. unfold ino_hash. cbn [ino_of] in *. f_equal.
    apply (ids_mod _ _ 256 Hm); [by exists (2 ^ 56)|done]. }
  exists r, hp. split; [exact E|].
  destruct Hr as [(-> & d & Ed & Hin & Hm)|(-> & Hn)].
  - destruct (Hd d Hin) as (ino' & nm & -> & Hi'). apply memcmp_ids in Hm; [|done..]. cbn [ino_of] in Hm. subst ino'.
    apply He in Hin. by rewrite Hin.
  - destruct (f ino) as [nm|] eqn:Ef; [|done]. apply He, Hn in Ef. cbn [ino_of] in Ef.
    assert (ino_match ino ino = true) as E1 by (by apply memcmp_ids). congruence.
Qed.

Lemma inode_added tb f g ino nm :
  inodes_ok tb f -> id_ok ino -> g ino = Some nm -> f ino = None -> (forall i, i <> ino -> g i = f i) ->
  exists t' hh', LibtarHash.libtar_hash_add strcmp_ino tb.1 (Tar_ino ino nm) (LibtarList.set_oom [] tb.2) =
      Some ((0, t'), hh') /\ inodes_ok (t', hh') g /\ LibtarList.oom hh' = [].
Proof.
  intros (ct & Ok & Hs & Hf & Hd & He) Hino Hg Hnone Hsame.
  destruct (LibtarHash.hash_add_elements strcmp_ino (LibtarList.set_oom [] tb.2) tb.1 ct (Tar_ino ino nm))
    as (hh' & t' & ct' & E & Ok' & Hp & Hnb & Hhf & Ho).
  { by apply LibtarHash.hash_ok_oom. }
  { by apply ino_hashes. }
  { done. }
  exists t', hh'. split; [exact E|]. split; [|exact Ho]. exists ct'. cbn [fst snd].
  split; [exact Ok'|]. split; [by rewrite Hnb|]. split; [by rewrite Hhf|]. split.
  - intros d Hin. rewrite Hp in Hin. apply elem_of_cons in Hin as [->|Hin]; [by exists ino, nm|by apply Hd].
  - intros i n. rewrite Hp, elem_of_cons. destruct (decide (i = ino)) as [->|Hne].
    + rewrite Hg, He, Hnone. split; [intros [[= ->]|?]; done|intros [= ->]; by left].
    + rewrite Hsame, He by done. split; [intros [[= -> ->]|?]; done|by right].
Qed.

Lemma devices_with_handle t a ct seen : devices_ok a ct seen -> devices_ok (with_handle t a) ct seen.
Proof. by intros []. Qed.

(** What a header that becomes a link goes through. *)
Definition make_link (nm : list Z) : SM par unit :=
  upd_buf (fun m => put m f_typeflag [LNKTYPE]);; th_set_link nm.

Lemma link_known a ct seen dev h ino nm name t' :
  devices_ok a ct seen -> Tar_dev dev h ∈ LibtarHash.elements ct -> id_ok ino ->
  seen !! (dev, ino) = Some nm -> make_link nm (handle (a_open a)) = Some (tt, t') ->
  exists a', link_or_remember strcmp_ino h ino name a = Some (true, a') /\ devices_ok a' ct seen /\
    handle (a_open a') = t'.
Proof.
  intros C Hin Hino Hnm Hlink. destruct (do_tables _ _ _ C _ Hin) as (? & ? & [t hh] & [= <- <-] & _ & Hh & Htb).
  destruct (inode_lookup _ _ ino Htb Hino) as (r & hp & E & Hr). rewrite Hnm in Hr. destruct Hr as [-> Ed].
  cbn [fst snd] in E, Ed. set (hh0 := LibtarList.set_oom [] hh) in *. set (a1 := with_table h (t, hh0) a).
  assert (Hh1 : inos a1 !! h = Some (t, hh0)) by apply lookup_insert_eq.
  pose proof (do_script _ _ _ C) as Hs.
  unfold make_link in Hlink. apply bind_Some_inv in Hlink as ([[] t1] & E1 & E2).
  exists (with_handle t' a1). split; [|split; [|done]].
  - unfold link_or_remember, on_inos.
    assert (El : upd_inos h (fun t hh => '(x, hh) ← LibtarHash.libtar_hash_getkey strcmp_ino t
        LibtarHash.libtar_hashptr_reset (Ino_key ino) (Some (fun a b => ino_match (ino_of a) (ino_of b))) hh;
        Some ((x, t), hh)) a = Some ((1, hp), a1)).
    { eapply upd_inos_run; [exact Hh|exact Hs| |done]. fold hh0. by rewrite E. }
    sm_step El. cbn [Z.eqb negb].
    assert (Ep : upd_inos h (fun t hh => '(x, hh) ← LibtarHash.libtar_hashptr_data hp hh; Some ((x, t), hh)) a1 =
      Some (Tar_ino ino nm, a1)).
    { rewrite (upd_inos_run h _ a1 t hh0 (Tar_ino ino nm) t hh0 Hh1 Hs); [|fold hh0|done].
      - do 2 f_equal. exact (with_table_twice h (t, hh0) (t, hh0) a).
      - change (LibtarList.set_oom [] hh0) with hh0. by rewrite Ed. }
    sm_step Ep. sm_step (on_handle_run _ a1 _ _ E1).
    by sm_step (on_handle_run _ (with_handle t1 a1) _ _ E2).
  - apply devices_with_handle. eapply devices_changed; [exact C|exact Hin| |done].
    destruct Htb as (cti & K1 & K2). exists cti. split; [by apply LibtarHash.hash_ok_oom|done].
Qed.

Lemma link_new a ct seen dev h ino name :
  devices_ok a ct seen -> Tar_dev dev h ∈ LibtarHash.elements ct -> id_ok ino -> seen !! (dev, ino) = None ->
  exists a', link_or_remember strcmp_ino h ino name a = Some (true, a') /\
    devices_ok a' ct (<[(dev, ino) := take (Compat.MAXPATHLEN - 1) name]> seen) /\
    handle (a_open a') = handle (a_open a).
Proof.
  intros C Hin Hino Hnm. destruct (do_tables _ _ _ C _ Hin) as (? & ? & [t hh] & [= <- <-] & _ & Hh & Htb).
  destruct (inode_lookup _ _ ino Htb Hino) as (r & hp & E & Hr). rewrite Hnm in Hr. subst r.
  cbn [fst snd] in E. set (hh0 := LibtarList.set_oom [] hh) in *. set (a1 := with_table h (t, hh0) a).
  assert (Hh1 : inos a1 !! h = Some (t, hh0)) by apply lookup_insert_eq.
  pose proof (do_script _ _ _ C) as Hs. set (nm := take (Compat.MAXPATHLEN - 1) name).
  destruct (inode_added (t, hh) _ (fun i => <[(dev, ino) := nm]> seen !! (dev, i)) ino nm Htb Hino)
    as (t' & hh' & Ea & Htb' & Ho); [apply lookup_insert_eq|done| |].
  { intros i Hi. rewrite lookup_insert_ne; [done|congruence]. }
  exists (with_table h (t', hh') a). split; [|split; [|done]].
  - unfold link_or_remember, on_inos.
    assert (El : upd_inos h (fun t hh => '(x, hh) ← LibtarHash.libtar_hash_getkey strcmp_ino t
        LibtarHash.libtar_hashptr_reset (Ino_key ino) (Some (fun a b => ino_match (ino_of a) (ino_of b))) hh;
        Some ((x, t), hh)) a = Some ((0, hp), a1)).
    { eapply upd_inos_run; [exact Hh|exact Hs| |done]. fold hh0. by rewrite E. }
    sm_step El. cbn [Z.eqb negb]. sm_step (calloc_run a1 Hs). cbn [negb].
    assert (Eu : upd_inos h (fun t => LibtarHash.libtar_hash_add strcmp_ino t (Tar_ino ino nm)) a1 =
      Some (0, with_table h (t', hh') a1)) by (eapply upd_inos_run; [exact Hh1|exact Hs|exact Ea|exact Ho]).
    sm_step Eu. unfold mret, SM_ret. do 2 f_equal. exact (with_table_twice h (t, hh0) (t', hh') a).
  - eapply devices_changed; [exact C|exact Hin|exact Htb'|].
    intros dev' i Hne. rewrite lookup_insert_ne; [done|congruence].
Qed.

(** C16: The tables are a map from device and inode to a name: a file that is in it
    becomes a link to the name, another is added with its own. *)
Theorem inode_cache_refines a seen dev ino name :
  caches a seen -> id_ok dev -> id_ok ino ->
  exists h a1, device_table strcmp_dev str_hash dev a = Some (Some h, a1) /\
    match seen !! (dev, ino) with
    | Some nm =>
        forall t', make_link nm (handle (a_open a)) = Some (tt, t') ->
        exists a', link_or_remember strcmp_ino h ino name a1 = Some (true, a') /\ caches a' seen /\
          handle (a_open a') = t'
    | None =>
        exists a', link_or_remember strcmp_ino h ino name a1 = Some (true, a') /\
          caches a' (<[(dev, ino) := take (Compat.MAXPATHLEN - 1) name]> seen) /\
          handle (a_open a') = handle (a_open a)
    end.
Proof.
  intros C Hdev Hino. destruct (device_table_run a seen dev C Hdev) as (h & a1 & ct & E & C1 & Hin & Eh).
  exists h, a1. split; [exact E|]. destruct (seen !! (dev, ino)) as [nm|] eqn:Enm.
  - intros t' Hl. rewrite <- Eh in Hl.
    destruct (link_known a1 ct seen dev h ino nm name t' C1 Hin Hino Enm Hl) as (a' & E' & C' & Eh').
    exists a'. split; [exact E'|]. split; [by exists ct|exact Eh'].
  - destruct (link_new a1 ct seen dev h ino name C1 Hin Hino Enm) as (a' & E' & C' & Eh').
    exists a'. split; [exact E'|]. split; [by exists ct|by rewrite Eh'].
Qed.
End Cache.

(** Two names of one file. *)
Definition demo_appender : appender :=
  mk_appender (mk_opened (demo_par (replicate T_BLOCKSIZE 0) [])
    (LibtarHash.mk_hash 16 (replicate 16 None) (fun d _ => dev_hash (dev_of d)) 0) (LibtarList.mk_heap ∅ ∅ [] 0)) ∅.
Definition no_hash {D} (_ : D) (_ : Z) : Z := 0.
Definition no_order {D} (_ _ : D) : Z := 0.

Lemma demo_caches : caches no_order no_order demo_appender ∅.
Proof.
  exists (replicate 16 []). assert (E : LibtarHash.elements (D := dev_data) (replicate 16 []) = []) by reflexivity.
  split; try done.
  - exact (LibtarHash.new_hash_ok no_order _ 16 _ ltac:(lia)).
  - intros d Hd. rewrite E in Hd. by apply elem_of_nil in Hd.
  - intros d1 h1 d2 h2 H1. rewrite E in H1. by apply elem_of_nil in H1.
Qed.

Lemma inode_cache_refines_witness :
  exists h1 a1 a2 h2 a3 a4 t', device_table no_order no_hash 5 demo_appender = Some (Some h1, a1) /\
    link_or_remember no_order h1 7 (bs "f") a1 = Some (true, a2) /\
    device_table no_order no_hash 5 a2 = Some (Some h2, a3) /\
    link_or_remember no_order h2 7 (bs "g") a3 = Some (true, a4) /\
    make_link (bs "f") (demo_par (replicate T_BLOCKSIZE 0) []) = Some (tt, t') /\ handle (a_open a4) = t'.
Proof.
  assert (H5 : id_ok 5) by (unfold id_ok; lia). assert (H7 : id_ok 7) by (unfold id_ok; lia).
  destruct (inode_cache_refines no_order no_order no_hash demo_appender ∅ 5 7 (bs "f") demo_caches H5 H7)
    as (h1 & a1 & E1 & a2 & E2 & C2 & Eh2).
  destruct (inode_cache_refines no_order no_order no_hash a2 _ 5 7 (bs "g") C2 H5 H7) as (h2 & a3 & E3 & H).
  rewrite lookup_insert_eq, Eh2 in H.
  destruct (make_link (bs "f") (demo_par (replicate T_BLOCKSIZE 0) [])) as [[[] t']|] eqn:El;
    [|exfalso; revert El; vm_compute; discriminate].
  destruct (H t' El) as (a4 & E4 & _ & Eh4).
  exists h1, a1, a2, h2, a3, a4, t'. split; [exact E1|]. split; [exact E2|]. split; [exact E3|]. split; [exact E4|].
  split; [reflexivity|exact Eh4].
Defined.

(** ** Appending a file *)
Record file := mk_file { f_real : list Z; f_save : list Z; f_stat : stat; f_contents : list Z }.

(** A header with a name that is read back as [p]. *)
Record named (h : mem) (p : list Z) : Prop := {
  na_parts : exists pre name, p = match pre with [] => name | _ => pre ++ [slash] ++ name end /\
    name <> [] /\ (length name < 100)%nat /\ (length pre < 155)%nat /\
    bytes_at h (m_off f_name) (name ++ [0]) /\ bytes_at h (m_off f_prefix) (pre ++ [0]);
  na_nonzero : Forall (fun c => c <> 0) p }.

Lemma named_first h p : named h p -> h !! 0%nat <> Some 0.
Proof.
  intros [(pre & name & Ep & Hne & _ & _ & Hb & _) Hz]. destruct name as [|c name]; [done|].
  specialize (Hb 0%nat c eq_refl). cbn [m_off f_name plus] in Hb. rewrite Hb. intros [= ->].
  rewrite Ep in Hz. destruct pre as [|x pre]; [by inversion Hz|]. apply Forall_app in Hz as [_ Hz].
  apply Forall_app in Hz as [_ Hz]. by inversion Hz.
Qed.

Lemma named_kept h h' p : named h p -> changed_only finish_members h h' -> named h' p.
Proof.
  intros [(pre & name & Ep & Hne & Hl & Hlp & Hb & Hbp) Hz] C. split; [|done]. exists pre, name.
  split; [done|]. split; [done|]. split; [done|]. split; [done|].
  split; (eapply bytes_kept; [exact C|done|]); rewrite length_app; cbn [length]; disjoint.
Qed.

Section Append.
Context (getpwnam getgrnam : list Z -> option Z) (getpwuid getgrgid : Z -> option (list Z)).
Context (Hpw : database_ok getpwnam getpwuid) (Hgr : database_ok getgrnam getgrgid).
Context (timetext : Z -> list Z) (lstat : list Z -> option stat) (readlink : list Z -> option (list Z)).
Context (open_read : list Z -> option stream) (junk : mem) (Hjunk : length junk = T_BLOCKSIZE).
Context (strcmp_dev : dev_data -> dev_data -> Z) (strcmp_ino : ino_data -> ino_data -> Z).
Context (str_hash : ino_data -> Z -> Z).

Notation append_file := (par_append_file getpwnam getgrnam getpwuid getgrgid timetext lstat readlink open_read junk
  strcmp_dev strcmp_ino str_hash).
Notation caches := (caches strcmp_dev strcmp_ino).

(** A regular file that an archive can hold under its name. *)
Record archivable (f : file) : Prop := {
  ar_lstat : lstat (f_real f) = Some (f_stat f);
  ar_stat : stat_ok (f_stat f);
  ar_reg : S_ISREG (st_mode (f_stat f)) = true;
  ar_size : st_size (f_stat f) = Z.of_nat (length (f_contents f));
  ar_open : exists o, open_read (f_real f) = Some (mk_stream (f_contents f) o []);
  ar_dev : id_ok (st_dev (f_stat f));
  ar_ino : id_ok (st_ino (f_stat f));
  ar_chars : Forall (fun c => 0 < c < 256) (f_save f);
  ar_layout : exists pre name, path_layout (f_save f) [] pre name /\ name <> [] }.

(** A handle that writes a compressed archive, with the files seen so far and
    the bytes written; the file itself is [f0] until zlib's stream ends. *)
Record writer (f0 : stream) (a : appender) (seen : gmap (Z * Z) (list Z)) (out : list Z) : Prop := {
  wr_file : use_gz (handle (a_open a)) = true /\ fd (handle (a_open a)) = f0;
  wr_io : s_io (archive (handle (a_open a))) = [];
  wr_out : s_out (archive (handle (a_open a))) = out;
  wr_options : options (handle (a_open a)) = 0;
  wr_caches : caches a seen }.

(** The header of a member. *)
Record member_of (h : mem) (f : file) : Prop := {
  mo_ok : header_ok h;
  mo_describes : describes getpwuid getgrgid h (f_stat f);
  mo_ptrs : no_ptrs h;
  mo_named : named h (f_save f) }.

Lemma describes_renamed m m' s :
  stat_ok s -> describes getpwuid getgrgid m s -> changed_only path_members m m' -> describes getpwuid getgrgid m' s.
Proof.
  intros S D C. eapply (describes_kept _ _ _ _ Hpw Hgr); [exact S|exact D|exact C|apply (bool_decide_unpack _); vm_compute; exact I|].
  rewrite (proj2 C); [exact (d_nul _ _ _ _ D)|disjoint].
Qed.

Lemma layout_named m p pre name :
  path_layout p [] pre name -> name <> [] -> Forall (fun c => c <> 0) p ->
  bytes_at m (m_off f_name) (name ++ [0]) -> bytes_at m (m_off f_prefix) (pre ++ [0]) -> named m p.
Proof.
  intros Hl Hne Hz Hb Hbp. split; [|done]. exists pre, name. destruct Hl as [Hl|pre name Ep Hlp Hln Hpre Hns].
  - rewrite app_nil_r in *. cbn [length] in *.
    split; [done|split; [done|split; [lia|split; [cbn; lia|split; [exact Hb|exact Hbp]]]]].
  - rewrite app_nil_r in *. cbn [length] in *.
    split; [|split; [done|split; [lia|split; [lia|split; [exact Hb|exact Hbp]]]]].
    destruct pre; [cbn in Hpre; lia|exact Ep].
Qed.

Lemma zero_outside m m' : changed_only stat_members m m' -> m = replicate T_BLOCKSIZE 0 ->
  no_ptrs m' /\ m' !! m_off f_prefix = Some 0 /\ length m' = T_BLOCKSIZE.
Proof.
  intros C ->. split; [|split].
  - eapply bytes_kept; [exact C|exact no_ptrs_zero|disjoint].
  - rewrite (proj2 C) by disjoint. reflexivity.
  - eapply changed_length; [exact C|apply length_replicate].
Qed.

(** The header up to the look-up of the inode. *)
Lemma header_run f t :
  archivable f -> options t = 0 ->
  exists m1 m2, header_from getpwuid getgrgid (f_stat f) (set_th_buf (replicate T_BLOCKSIZE 0) t) = Some (0, set_th_buf m1 t) /\
    th_set_path (f_save f) (set_th_buf m1 t) = Some (tt, set_th_buf m2 t) /\
    describes getpwuid getgrgid m2 (f_stat f) /\ no_ptrs m2 /\ named m2 (f_save f) /\ Forall byte_ok m2.
Proof.
  intros [_ S Hreg _ _ _ _ Hc (pre & name & Hlay & Hne)] Ho.
  assert (Hb0 : Forall byte_ok (replicate T_BLOCKSIZE 0)) by (by apply Forall_replicate).
  destruct (set_from_stat_spec getpwnam getgrnam getpwuid getgrgid Hpw Hgr (replicate T_BLOCKSIZE 0) (f_stat f) S)
    as (m1 & E1 & C1 & D1); [apply length_replicate|reflexivity..|].
  destruct (zero_outside _ _ C1 eq_refl) as (N1 & Z1 & L1).
  pose proof (from_stat_bytes _ _ _ _ _ _ _ Hpw Hgr S (length_replicate _ _) Hb0 E1) as B1.
  destruct (describes_type _ _ m1 _ D1 S) as (_ & Hdir & _).
  assert (Hnd : S_ISDIR (st_mode (f_stat f)) = false).
  { unfold S_ISREG, S_ISDIR in *. apply Z.eqb_eq in Hreg. by rewrite Hreg. }
  rewrite Hnd in Hdir.
  assert (Hp : f_save f <> []) by (destruct Hlay as [Hl|pre name Ep]; [by rewrite app_nil_r in Hne|rewrite Ep; by destruct pre]).
  destruct (set_path_spec (set_th_buf m1 t) (f_save f) false pre name) as (m2 & E2 & C2 & Bn & Bp & Bb);
    [done|done|done|done|cbn [options set_th_buf]; by rewrite Ho|done|done|].
  cbn [th_buf set_th_buf] in *. exists m1, m2.
  split; [unfold header_from; cbn [th_buf set_th_buf]; by rewrite E1|]. split; [exact E2|].
  split; [by eapply describes_renamed|]. split; [eapply bytes_kept; [exact C2|exact N1|disjoint]|]. split.
  - eapply layout_named; [exact Hlay|exact Hne| |exact Bn|exact Bp].
    eapply Forall_impl; [exact Hc|]. intros c Hcc. cbn in Hcc. lia.
  - apply Bb; [exact B1|]. eapply Forall_impl; [exact Hc|]. unfold byte_ok. cbn. lia.
Qed.

Lemma caches_with_handle t a seen : caches a seen -> caches (with_handle t a) seen.
Proof. intros [ct C]. exists ct. by apply devices_with_handle. Qed.

(** Everything before the look-up of the device. *)
Lemma append_file_header f a :
  archivable f -> options (handle (a_open a)) = 0 ->
  exists m, describes getpwuid getgrgid m (f_stat f) /\ no_ptrs m /\ named m (f_save f) /\ Forall byte_ok m /\
    append_file (f_real f) (Some (f_save f)) a =
      (td ← device_table strcmp_dev str_hash (st_dev (f_stat f));
       match td with
       | None => mret (-1)
       | Some h =>
           ok ← link_or_remember strcmp_ino h (st_ino (f_stat f)) (f_save f);
           if negb ok then mret (-1)
           else
             ok ← on_handle (encode_symlink readlink (f_real f));
             if negb ok then mret (-1)
             else
               on_handle (verbose getpwnam getgrnam getpwuid getgrgid timetext);;
               on_handle (append_member open_read junk (f_real f))
       end) (with_handle (set_th_buf m (handle (a_open a))) a).
Proof.
  intros A Ho. set (t := handle (a_open a)) in *.
  destruct (header_run f t A Ho) as (m1 & m2 & E1 & E2 & D & N & Na & B).
  exists m2. repeat (split; [done|]). unfold par_append_file. rewrite (ar_lstat _ A). cbn [default].
  rewrite <- (with_handle_id a) at 1. fold t.
  assert (E0 : upd_buf (fun _ => Some (replicate T_BLOCKSIZE 0)) t =
    Some (tt, set_th_buf (replicate T_BLOCKSIZE 0) t)) by done.
  sm_step (on_handle_at _ a t _ _ E0).
  sm_step (on_handle_at _ a _ _ _ E1). cbn [Z.eqb negb].
  sm_step (on_handle_at _ a _ _ _ E2). done.
Qed.

(** A file that was not seen becomes a member with its contents. *)
Lemma append_file_run f f0 a seen out :
  writer f0 a seen out -> archivable f -> seen !! (st_dev (f_stat f), st_ino (f_stat f)) = None ->
  exists a' h nm, append_file (f_real f) (Some (f_save f)) a = Some (0, a') /\
    writer f0 a' (<[(st_dev (f_stat f), st_ino (f_stat f)) := nm]> seen) (out ++ h ++ padded (f_contents f)) /\
    member_of h f.
Proof.
  intros [[Hgz Hfd] Hio Hout Ho C] A Hseen. destruct (append_file_header f a A Ho) as (m & D & N & Na & B & E).
  set (t := set_th_buf m (handle (a_open a))) in *.
  destruct (device_table_run strcmp_dev strcmp_ino str_hash (with_handle t a) seen _ (caches_with_handle t a seen C) (ar_dev _ A))
    as (h & a1 & ct & E1 & C1 & Hin & Eh1).
  destruct (link_new strcmp_dev strcmp_ino a1 ct seen _ h _ (f_save f) C1 Hin (ar_ino _ A) Hseen)
    as (a2 & E2 & C2 & Eh2).
  assert (Eh : handle (a_open a2) = t) by (by rewrite Eh2, Eh1).
  pose proof (ar_stat _ A) as S. destruct (describes_type _ _ m _ D S) as (_ & _ & Hsym & _).
  assert (Hns : S_ISLNK (st_mode (f_stat f)) = false).
  { pose proof (ar_reg _ A) as Hreg. unfold S_ISREG, S_ISLNK in *. apply Z.eqb_eq in Hreg. by rewrite Hreg. }
  rewrite Hns in Hsym.
  assert (Ap : appending getpwuid getgrgid open_read t (f_stat f) (f_real f) (f_contents f)).
  { split; try done; [by eapply named_first|apply A..]. }
  destruct (append_member_run getpwnam getgrnam getpwuid getgrgid Hpw Hgr open_read junk Hjunk t _ _ _ Ap)
    as (hd & t' & E3 & Eo & Eb & Cf & Hok & Dh & Nh & Hio' & Ho' & Hgz' & Hfd').
  assert (E4 : encode_symlink readlink (f_real f) t = Some (true, t))
    by (unfold encode_symlink; by sm_step (on_buf_run TH_ISSYM t false Hsym)).
  assert (E5 : verbose getpwnam getgrnam getpwuid getgrgid timetext t = Some (tt, t)).
  { unfold verbose. sm_step (eq_refl (Some (options t, t))). cbn [options t set_th_buf]. by rewrite Ho. }
  exists (with_handle t' a2), hd, (take (Compat.MAXPATHLEN - 1) (f_save f)). split; [|split].
  - rewrite E. sm_step E1. sm_step E2. cbn [negb].
    rewrite <- (with_handle_id a2), Eh. sm_step (on_handle_at _ a2 _ _ _ E4). cbn [negb].
    sm_step (on_handle_at _ a2 _ _ _ E5). exact (on_handle_at _ a2 _ _ _ E3).
  - split; [| | | |apply caches_with_handle; by exists ct].
    + change (use_gz t' = true /\ fd t' = f0). split; [by rewrite Hgz'|]. by rewrite Hfd'.
    + exact Hio'.
    + cbn [with_handle a_open set_open handle set_handle]. rewrite Eo. change (archive t) with (archive (handle (a_open a))).
      by rewrite Hout.
    + cbn [with_handle a_open set_open handle set_handle]. by rewrite Ho'.
  - split; [done|done|done|]. by eapply named_kept.
Qed.

End Append.

(** ** Extracting *)
Section Extract.
Context (getpwnam getgrnam : list Z -> option Z) (getpwuid getgrgid : Z -> option (list Z)).
Context (Hpw : database_ok getpwnam getpwuid) (Hgr : database_ok getgrnam getgrgid).
Context (basename : list Z -> list Z) (dirname : list Z -> list Z * list Z).
Context (timetext : Z -> list Z) (euid : Z).
Context (os : list syscall -> syscall -> Z) (Hos : forall tr e, 0 <= os tr e).

Notation extract_file := (par_extract_file getpwnam getgrnam basename dirname euid os).
Notation path_hash := (path_hash basename).

(** A handle that reads: what is in front of it, and the calls made so far. *)
Record reader (s : opened (list Z)) (l : list Z) (tr : list syscall) : Prop := {
  rd_reads : reads (handle s) l;
  rd_buf : no_ptrs (th_buf (handle s)) /\ length (th_buf (handle s)) = T_BLOCKSIZE;
  rd_options : options (handle s) = 0;
  rd_trace : trace (handle s) = tr;
  rd_path : th_pathname (handle s) <> None \/ (exists a l, addrs (handle s) = a :: l /\ a <> 0);
  rd_hash : exists ct, LibtarHash.hash_ok strcmp (t_heap s) (t_h s) ct;
  rd_table : LibtarHash.numbuckets (t_h s) = 256 /\ LibtarHash.hashfunc (t_h s) = path_hash;
  rd_oom : LibtarList.oom (t_heap s) = [] }.

(** The calls that give an extracted file its owner, time and mode. *)
Definition perms_calls (s : stat) (name : list Z) : list syscall :=
  (if euid =? 0 then [Sys_chown name (st_uid s) (st_gid s)] else []) ++
  [Sys_utime name (st_mtime s); Sys_chmod name (st_mode s)].

Lemma sys_step {B} e (bad good : SM par B) t :
  (r ← ParFile.sys os e; if r =? -1 then bad else good) t = good (set_trace (trace t ++ [e]) t).
Proof.
  sm_step (sys_run os Hos e t). rewrite (proj2 (Z.eqb_neq _ (-1))); [done|]. pose proof (Hos (trace t) e). lia.
Qed.

Lemma set_perms_run t s name :
  describes getpwuid getgrgid (th_buf t) s -> stat_ok s -> S_ISREG (st_mode s) = true ->
  par_set_file_perms getpwnam getgrnam euid os (Some name) t =
    Some (0, set_trace (trace t ++ perms_calls s name) t).
Proof.
  intros D S Hreg. unfold par_set_file_perms.
  destruct (describes_fields getpwnam getgrnam getpwuid getgrgid Hpw Hgr _ _ D S) as (H1 & H2 & H3 & H4).
  destruct (describes_type _ _ _ _ D S) as (_ & _ & H5 & _).
  assert (Hns : S_ISLNK (st_mode s) = false)
    by (unfold S_ISREG, S_ISLNK in *; apply Z.eqb_eq in Hreg; by rewrite Hreg).
  rewrite Hns in H5. sm_step (eq_refl (Some (name, t))).
  sm_step (on_buf_run th_get_mode t _ H1). sm_step (on_buf_run (th_get_uid getpwnam) t _ H2).
  sm_step (on_buf_run (th_get_gid getgrnam) t _ H3). sm_step (on_buf_run th_get_mtime t _ H4).
  sm_step (on_buf_run TH_ISSYM t _ H5). cbn [negb]. rewrite andb_true_r.
  assert (Hlast : forall u, (r ← ParFile.sys os (Sys_utime name (st_mtime s)); if r =? -1 then mret (-1)
      else r ← ParFile.sys os (Sys_chmod name (st_mode s)); if r =? -1 then mret (-1) else mret 0) u =
    Some (0, set_trace (trace u ++ [Sys_utime name (st_mtime s); Sys_chmod name (st_mode s)]) u)).
  { intros u. rewrite sys_step, sys_step. cbn [trace set_trace]. by rewrite <- app_assoc. }
  unfold perms_calls. destruct (euid =? 0).
  - rewrite sys_step, Hlast. cbn [trace set_trace]. by rewrite <- app_assoc.
  - sm_step (eq_refl (Some (0, t))). exact (Hlast t).
Qed.

Lemma reader_handle s t l tr :
  reader s l tr -> reads t l -> th_buf t = th_buf (handle s) -> options t = 0 -> trace t = tr -> th_pathname t <> None ->
  reader (set_handle t s) l tr.
Proof.
  intros [R1 R2 R3 R4 R5 R6 R7 R8] H1 H2 H3 H4 H5. split; try done; cbn [set_handle handle]; [by rewrite H2|by left].
Qed.

(** The block [l] was read last. *)
Lemma reader_got s l0 l r tr :
  reader s l0 tr -> no_ptrs l -> length l = T_BLOCKSIZE -> reader (set_handle (got (handle s) l r) s) r tr.
Proof.
  intros [R1 R2 R3 R4 R5 R6 R7 R8] Hn Hl. split; try done; cbn [handle set_handle].
  - apply got_reads.
  - by rewrite got_options.
  - unfold got. cbn [trace set_th_buf]. by rewrite read_to_trace.
  - unfold got, read_to, set_archive. by destruct (use_gz (handle s)).
Qed.

Lemma pathname_run s l tr p :
  reader s l tr -> is_posix (th_buf (handle s)) = true -> named (th_buf (handle s)) p ->
  exists t', th_get_pathname (handle s) = Some (Some (safer_name_suffix p), t') /\
    reader (set_handle t' s) l tr /\ th_buf t' = th_buf (handle s) /\ th_pathname t' <> None.
Proof.
  intros R Hp [(pre & name & Ep & Hne & Hl & Hlp & Hb & Hbp) Hz].
  assert (Hz2 : Forall (fun c => c <> 0) name /\ Forall (fun c => c <> 0) pre).
  { rewrite Ep in Hz. destruct pre as [|c pre]; [by split|]. apply Forall_app in Hz as [Hz1 Hz].
    by apply Forall_app in Hz as [_ Hz]. }
  destruct (get_pathname_spec (handle s) pre name) as (u' & E & Eb & Ea & Et & Eo & Epn);
    [apply R|apply R|exact Hp|exact Hb|exact Hbp|apply Hz2|apply Hz2|exact Hl|exact Hlp|apply R|].
  rewrite <- Ep in E. exists u'. split; [exact E|]. split; [|by split].
  apply (reader_handle s u' l tr R); try done.
  - unfold reads. rewrite Ea. apply R.
  - rewrite Eo. apply R.
  - rewrite Et. apply R.
Qed.

Lemma path_hashes h d : LibtarHash.numbuckets h = 256 -> LibtarHash.hashfunc h = path_hash -> LibtarHash.hashes h d.
Proof.
  unfold LibtarHash.hashes, ParExtract.path_hash, path_hashfunc. intros -> ->.
  case_match; cbn [default from_option]; [|unfold id; lia]. rewrite (u32_small 256) by lia.
  match goal with |- context [u32 ?x `mod` 256] => pose proof (Z.mod_pos_bound (u32 x) 256 ltac:(lia)) end.
  unfold id. by rewrite i32_small by lia.
Qed.

Lemma until_nul_head p r : Forall (fun c => c <> 0) p -> until_nul (p ++ [0] ++ r) = p.
Proof. exact (until_nul_app p r). Qed.

(** The extracted file is remembered. *)
Lemma remember_run s l tr p name :
  reader s l tr -> is_posix (th_buf (handle s)) = true -> named (th_buf (handle s)) p ->
  Forall (fun c => c <> 0) (safer_name_suffix p) -> (length (safer_name_suffix p) < Compat.MAXPATHLEN)%nat ->
  exists s', remember basename name s = Some (0, s') /\ reader s' l tr /\ th_buf (handle s') = th_buf (handle s).
Proof.
  intros R Hp Hn Hz Hl. destruct (pathname_run s l tr p R Hp Hn) as (t' & E & R' & Eb & _).
  set (s1 := set_handle t' s) in *. set (n := safer_name_suffix p) in *. set (lnp := n ++ [0] ++ name ++ [0]).
  destruct (rd_hash _ _ _ R') as [ct Ok]. destruct (rd_table _ _ _ R') as [Hnb Hhf].
  destruct (LibtarHash.hash_add_elements strcmp (t_heap s1) (t_h s1) ct lnp Ok) as (hh & hd & ct' & Ea & Ok' & _ & Hnb' & Hhf' & Ho);
    [by apply path_hashes|apply R'|].
  exists (mk_opened t' hd hh). split; [|split; [|exact Eb]].
  - unfold remember. sm_step (on_par_run _ _ _ _ E). fold s1. sm_step (sm_lift_run _ _ s1 (eq_refl (Some n))).
    assert (El : on_hash (fun _ => LibtarList.alloc) s1 = Some (true, s1)).
    { pose proof (rd_oom _ _ _ R') as Hoom. unfold on_hash, LibtarList.alloc. rewrite Hoom.
      cbn [mbind option_bind]. by destruct s1. }
    sm_step El. cbn [negb]. fold lnp.
    assert (Eh : hashable basename lnp s1 = Some (tt, s1)).
    { unfold hashable, path_hashfunc, lnp. rewrite until_nul_head by done. rewrite (proj2 (Nat.ltb_lt _ _)) by done. done. }
    sm_step Eh. sm_step (upd_hash_run (fun h => LibtarHash.libtar_hash_add strcmp h lnp) s1 0 hd hh Ea). done.
  - destruct R' as [Q1 Q2 Q3 Q4 Q5 Q6 Q7 Q8]. split; cbn [handle t_h t_heap]; try done; [by exists ct'|].
    by rewrite Hnb', Hhf'.
Qed.

Lemma safe_length p : p <> [] -> (length (safer_name_suffix p) <= length p)%nat.
Proof.
  intros Hp. destruct (safer_suffix p) as [->|[r E]].
  - destruct p; [done|cbn; lia].
  - rewrite E at 2. rewrite length_app. lia.
Qed.

Lemma safe_nonzero p : Forall (fun c => c <> 0) p -> Forall (fun c => c <> 0) (safer_name_suffix p).
Proof.
  intros Hp. destruct (safer_suffix p) as [->|[r E]]; [by repeat constructor|].
  rewrite E in Hp. by apply Forall_app in Hp as [_ Hp].
Qed.

Lemma named_length h p : named h p -> p <> [] /\ (length p < 256)%nat.
Proof.
  intros [(pre & name & -> & Hne & Hl & Hlp & _) _]. destruct pre as [|c pre].
  - split; [done|lia].
  - split; [done|]. rewrite !length_app. cbn [length] in *. lia.
Qed.

(** A regular file that is in an archive, and where it goes. *)
Record stored (f : file) : Prop := {
  st_ok : stat_ok (f_stat f);
  st_reg : S_ISREG (st_mode (f_stat f)) = true;
  st_len : st_size (f_stat f) = Z.of_nat (length (f_contents f)) }.

Definition target (prefix : option (list Z)) (f : file) : list Z :=
  target_name prefix (safer_name_suffix (f_save f)).

Definition target_ok (prefix : option (list Z)) (f : file) : Prop :=
  exists d, cdirname (target prefix f) = Some d /\ Forall (fun c => c <> 0) d /\
    (length d + 2 < Compat.MAXPATHLEN)%nat.

(** The calls that extract a file: its directories, the file with its
    contents, its owner, time and mode. *)
Definition extracts (prefix : option (list Z)) (f : file) (tr : list syscall) : Prop :=
  exists ds ws, tr = ((fun d => Sys_mkdir d 511) <$> ds) ++ [Sys_open (target prefix f)] ++ (Sys_write <$> ws) ++
      [Sys_close] ++ perms_calls (f_stat f) (target prefix f) /\
    concat ws = f_contents f.

Lemma extract_file_run prefix f s r tr :
  reader s (padded (f_contents f) ++ r) tr -> member_of getpwuid getgrgid (th_buf (handle s)) f ->
  th_pathname (handle s) <> None -> stored f -> target_ok prefix f ->
  exists s' tr', extract_file (target prefix f) s = Some (0, s') /\ reader s' r (tr ++ tr') /\ extracts prefix f tr'.
Proof.
  intros R [Hok D Hp Hn] Hpath [S Hreg Hlen] (d & Hd & Hz & Hl). set (name := target prefix f) in *.
  set (h := th_buf (handle s)) in *. destruct (describes_type _ _ h _ D S) as (Ereg & Edir & Esym & Elnk & _).
  assert (Hnot : S_ISDIR (st_mode (f_stat f)) = false /\ S_ISLNK (st_mode (f_stat f)) = false).
  { unfold S_ISREG, S_ISDIR, S_ISLNK in *. apply Z.eqb_eq in Hreg. by rewrite Hreg. }
  rewrite (proj1 Hnot) in Edir. rewrite (proj2 Hnot) in Esym. rewrite Hreg in Ereg.
  pose proof (describes_size _ _ h _ D S) as Es. unfold stored_size in Es. rewrite Hreg, Hlen in Es.
  pose proof (so_size _ S).
  assert (He : extracting 0 (th_pathname (handle s)) (handle s) (padded (f_contents f) ++ r) h tr).
  { split; [apply R|done|apply R|split; [apply R|done]]. }
  destruct (extract_regfile_run os Hos _ _ name d (f_contents f) r _ h tr He Ereg Es ltac:(lia) Hd Hz Hl)
    as (t1 & ds & ws & E1 & [X1 X2 X3 [X4 X5]] & Hc).
  set (t2 := set_trace (trace t1 ++ perms_calls (f_stat f) name) t1).
  assert (E2 : par_set_file_perms getpwnam getgrnam euid os (Some name) t1 = Some (0, t2))
    by (apply set_perms_run; [by rewrite X2|done..]).
  assert (R2 : reader (set_handle t2 s) r (tr ++ ((fun d => Sys_mkdir d 511) <$> ds) ++ [Sys_open name] ++
    (Sys_write <$> ws) ++ [Sys_close] ++ perms_calls (f_stat f) name)).
  { destruct R as [Q1 Q2 Q3 Q4 Q5 Q6 Q7 Q8]. split; try done; cbn [handle set_handle t2 set_trace th_buf options trace th_pathname].
    - rewrite X2. exact Q2.
    - rewrite X3. by rewrite <- !app_assoc.
    - left. by rewrite X5. }
  assert (Hb2 : th_buf (handle (set_handle t2 s)) = h) by exact X2.
  destruct (remember_run (set_handle t2 s) r _ (f_save f) name R2) as (s' & E3 & R3 & _);
    [rewrite Hb2; apply Hok|by rewrite Hb2|apply safe_nonzero, Hn| |].
  { destruct (named_length _ _ Hn) as [Hne Hnl]. pose proof (safe_length _ Hne).
    apply Nat.lt_trans with 256%nat; [lia|]. apply Nat.ltb_lt. reflexivity. }
  exists s', (((fun d => Sys_mkdir d 511) <$> ds) ++ [Sys_open name] ++ (Sys_write <$> ws) ++ [Sys_close] ++
    perms_calls (f_stat f) name). split; [|split; [exact R3|by exists ds, ws]].
  assert (Hob : forall g b, g h = Some b -> on_par (on_buf g) s = Some (b : bool, s)).
  { intros g b Eg. rewrite (on_par_run _ s b (handle s)); [by destruct s|]. by apply on_buf_run. }
  unfold par_extract_file.
  assert (Em : on_par (may_write os name) s = Some (true, s)).
  { rewrite (on_par_run _ s true (handle s)); [by destruct s|]. unfold may_write.
    sm_step (eq_refl (Some (options (handle s), handle s))). by rewrite (rd_options _ _ _ R). }
  sm_step Em. cbn [negb].
  assert (Ex : extract_member basename dirname os name s = Some ((0, name), set_handle t1 s)).
  { unfold extract_member. sm_step (Hob TH_ISDIR false Edir). sm_step (Hob TH_ISLNK false Elnk).
    sm_step (Hob TH_ISSYM false Esym). by sm_step (on_par_run _ s _ _ E1). }
  sm_step Ex. cbn [Z.eqb negb].
  sm_step (on_par_run _ (set_handle t1 s) _ _ E2). cbn [Z.eqb negb]. exact E3.
Qed.

(** ** All members *)
Lemma plain_member h f : member_of getpwuid getgrgid h f -> stored f -> plain h.
Proof.
  intros M S. destruct (describes_type _ _ h _ (mo_describes _ _ _ _ M) (st_ok _ S)) as (_ & _ & _ & _ & H1 & H2).
  by split.
Qed.

(** One round of the loop. *)
Lemma extract_round_run fuel prefix f h s r tr :
  reader s (h ++ padded (f_contents f) ++ r) tr -> member_of getpwuid getgrgid h f -> stored f -> target_ok prefix f ->
  exists s' tr', extract_all_loop getpwnam getgrnam getpwuid getgrgid basename dirname timetext euid os (S fuel) prefix s =
      extract_all_loop getpwnam getgrnam getpwuid getgrgid basename dirname timetext euid os fuel prefix s' /\
    reader s' r (tr ++ tr') /\ extracts prefix f tr'.
Proof.
  intros R M S T. set (t1 := got (handle s) h (padded (f_contents f) ++ r)).
  assert (E1 : th_read (handle s) = Some (0, t1))
    by (apply th_read_accepts; [apply R..|apply M|by eapply plain_member]).
  assert (R1 : reader (set_handle t1 s) (padded (f_contents f) ++ r) tr) by (eapply reader_got; [exact R|apply M..]).
  destruct (pathname_run (set_handle t1 s) _ tr (f_save f) R1) as (t2 & E2 & R2 & Eb2 & Hp2); [apply M|apply M|].
  assert (M2 : member_of getpwuid getgrgid (th_buf (handle (set_handle t2 (set_handle t1 s)))) f)
    by (cbn [handle set_handle]; by rewrite Eb2).
  destruct (extract_file_run prefix f _ r tr R2 M2 Hp2 S T) as (s' & tr' & E3 & R3 & X).
  exists s', tr'. split; [|by split]. cbn [extract_all_loop].
  sm_step (on_par_run _ s _ _ E1). cbn [Z.eqb negb].
  sm_step (on_par_run _ (set_handle t1 s) _ _ E2). sm_step (sm_lift_run _ _ (set_handle t2 (set_handle t1 s)) (eq_refl (Some (safer_name_suffix (f_save f))))).
  assert (E4 : extract_next getpwnam getgrnam getpwuid getgrgid basename dirname timetext euid os prefix
    (safer_name_suffix (f_save f)) (set_handle t2 (set_handle t1 s)) = Some (0, s')).
  { unfold extract_next.
    assert (Ev : verbose getpwnam getgrnam getpwuid getgrgid timetext t2 = Some (tt, t2)).
    { unfold verbose. sm_step (eq_refl (Some (options t2, t2))). pose proof (rd_options _ _ _ R2) as Eo.
      cbn [handle set_handle] in Eo. by rewrite Eo. }
    sm_step (on_par_run _ (set_handle t2 (set_handle t1 s)) _ _ Ev). exact E3. }
  sm_step E4. done.
Qed.

Lemma extract_all_run fuel prefix fs hs s r tr :
  reader s (concat (zip_with (fun h f => h ++ padded (f_contents f)) hs fs) ++ replicate (2 * T_BLOCKSIZE) 0 ++ r) tr ->
  Forall2 (member_of getpwuid getgrgid) hs fs -> Forall stored fs -> Forall (target_ok prefix) fs ->
  (length fs < fuel)%nat ->
  exists s' trs, extract_all_loop getpwnam getgrnam getpwuid getgrgid basename dirname timetext euid os fuel prefix s =
      Some (0, s') /\
    reader s' r (tr ++ concat trs) /\ Forall2 (extracts prefix) fs trs.
Proof.
  revert hs s tr fuel. induction fs as [|f fs IH]; intros hs s tr fuel R M S T Hf.
  - apply Forall2_nil_inv_r in M as ->. cbn [zip_with concat app] in R.
    destruct fuel as [|fuel]; [cbn in Hf; lia|].
    assert (E1 : th_read (handle s) = Some (1, got (handle s) (replicate T_BLOCKSIZE 0) r)).
    { apply th_read_eof; [apply R..|]. by rewrite (rd_options _ _ _ R). }
    eexists _, []. split; [cbn [extract_all_loop]; by sm_step (on_par_run _ s _ _ E1)|]. split; [|done].
    rewrite app_nil_r. eapply reader_got; [exact R|apply no_ptrs_zero|apply length_replicate].
  - apply Forall2_cons_inv_r in M as (h & hs' & Mh & M & ->). cbn [zip_with concat] in R.
    apply Forall_cons in S as [Sf S]. apply Forall_cons in T as [Tf T].
    destruct fuel as [|fuel]; [lia|]. rewrite <- !app_assoc in R.
    destruct (extract_round_run fuel prefix f h s _ tr R Mh Sf Tf) as (s1 & tr1 & E1 & R1 & X1).
    destruct (IH hs' s1 (tr ++ tr1) fuel R1 M S T) as (s2 & trs & E2 & R2 & X2); [cbn in Hf; lia|].
    exists s2, (tr1 :: trs). split; [by rewrite E1|]. split; [|by constructor].
    cbn [concat]. by rewrite app_assoc.
Qed.
End Extract.
End ParArchive.
