(* ===== verification/ParUtil.v ===== *)
(** * par: the archiver (util/parutil.c)

    Creating, listing and extracting an archive: opening, the members, closing,
    with the messages left out.  zlib is what the second stream of a handle
    does: bytes in, bytes out. *)
From S2P Require Import Prelude CLib Compat LibtarList LibtarHash Quid ParHeader ParBlock ParFile ParExtract ParAppend.
From S2P Require Import ParHandle ParArchive.

Module ParUtil.
Export ParHandle ParArchive.

(** The handle [par_open] made, with its streams; [a] are the addresses the
    next allocations return. *)
Definition par_of (t : PAR) (fd gz : stream) (a : list Z) : par :=
  mk_par (replicate T_BLOCKSIZE 0) (PAR_options t) (PAR_use_gz t) fd gz None ∅ a 0 [].

Definition writer_of (t : PAR) (fd gz : stream) (a : list Z) : option appender :=
  match PAR_h t with
  | Devices h hh i => Some (mk_appender (mk_opened (par_of t fd gz a) h hh) i)
  | Paths _ _ => None
  end.
Definition reader_of (t : PAR) (fd gz : stream) (a : list Z) : option (opened (list Z)) :=
  match PAR_h t with
  | Paths h hh => Some (mk_opened (par_of t fd gz a) h hh)
  | Devices _ _ _ => None
  end.

(** The handle to close, with its table as it is then. *)
Definition with_h (h : handle_table) (t : PAR) : PAR :=
  mk_PAR (pathname t) (PAR_fd t) (PAR_gzfd t) (oflags t) (PAR_options t) (PAR_use_gz t) h.
Definition closing_writer (a : appender) (t : PAR) : PAR :=
  with_h (Devices (t_h (a_open a)) (t_heap (a_open a)) (inos a)) t.
Definition closing_reader (s : opened (list Z)) (t : PAR) : PAR := with_h (Paths (t_h s) (t_heap s)) t.

Section Util.
Context (getpwnam getgrnam : list Z -> option Z) (getpwuid getgrgid : Z -> option (list Z)).
Context (basename : list Z -> list Z) (dirname : list Z -> list Z * list Z).
Context (timetext : Z -> list Z) (euid : Z) (os : list syscall -> syscall -> Z).
Context (lstat : list Z -> option stat) (readlink : list Z -> option (list Z)).
Context (open_read : list Z -> option stream) (junk : mem).
Context (opendir : list Z -> Z + list (list Z)).
Context (strcmp_dev : dev_data -> dev_data -> Z) (strcmp_ino : ino_data -> ino_data -> Z).
Context (str_hash : ino_data -> Z -> Z) (strhash_path : list Z -> Z -> Z) (strhash_dev : dev_data -> Z -> Z).
Context (env : list handle_call -> handle_call -> Z).

Notation append_tree := (par_append_tree getpwnam getgrnam getpwuid getgrgid timetext lstat readlink open_read junk
  opendir strcmp_dev strcmp_ino str_hash).
Notation open := (par_open basename strhash_path strhash_dev env).
Notation close := (par_close env).
Notation extract_all := (par_extract_all getpwnam getgrnam getpwuid getgrgid basename dirname timetext euid os).
Notation long_ls := (th_print_long_ls getpwnam getgrnam getpwuid getgrgid timetext).

(** Where a named file is; the buffer has [MAXPATHLEN] bytes. *)
Definition source (rootdir : option (list Z)) (pathname : list Z) : list Z :=
  match rootdir with
  | Some r => if Compat.at_ (pathname ++ [0]) 0 =? slash then take (Compat.MAXPATHLEN - 1) pathname
              else take (Compat.MAXPATHLEN - 1) (r ++ [slash] ++ pathname)
  | None => take (Compat.MAXPATHLEN - 1) pathname
  end.

(** The names in turn; [depth] bounds that of the directories. *)
Fixpoint create_loop (depth : nat) (rootdir : option (list Z)) (names : list (list Z)) : SM appender Z :=
  match names with
  | [] => mret 0
  | pathname :: rest =>
      r ← append_tree depth (source rootdir pathname) (Some pathname);
      if negb (r =? 0) then mret (-1) else create_loop depth rootdir rest
  end.

Definition create_members (depth : nat) (quid : Quid.quid_t) (junk_options : Z) (junk_meta : list Z)
    (rootdir : option (list Z)) (names : list (list Z)) : SM appender Z :=
  r ← on_handle (par_write_header quid junk_options junk_meta);
  if r =? -1 then mret (-1)
  else
    r ← create_loop depth rootdir names;
    if negb (r =? 0) then mret (-1)
    else r ← on_handle par_append_eof; if negb (r =? 0) then mret (-1) else mret 0.

(** The result, and the handle as it was closed. *)
Definition par_create (depth : nat) (quid : Quid.quid_t) (junk_options : Z) (junk_meta : list Z)
    (fd0 gz0 : stream) (a0 : list Z) (file : list Z) (rootdir : option (list Z)) (names : list (list Z)) :
    SM process (Z * option par) :=
  '(r, o) ← open file true (Z.lor O_WRONLY O_CREAT) 0x1a4 0;
  if r =? -1 then mret (-1, None)
  else
    t ← sm_lift o;
    a ← sm_lift (writer_of t fd0 gz0 a0);
    '(r, a) ← sm_lift (create_members depth quid junk_options junk_meta rootdir names a);
    i ← close (closing_writer a t);
    mret (if negb (r =? 0) then -1 else if negb (i =? 0) then -1 else 0, Some (handle (a_open a))).

(** Members are printed, and skipped; what [th_read] returned at the end is
    not looked at. *)
Fixpoint list_loop (fuel : nat) : SM par Z :=
  match fuel with
  | O => sm_undef
  | S f =>
      i ← th_read;
      if negb (i =? 0) then mret 0
      else
        long_ls;;
        reg ← on_buf TH_ISREG;
        r ← (if reg : bool then par_skip_regfile else mret 0);
        if negb (r =? 0) then mret (-1) else list_loop f
  end.

Definition list_members (file : option stream) (junk_header : mem) : SM par Z :=
  r ← par_read_header file junk_header;
  if negb (r =? 0) then mret (-2)
  else k ← rounds; list_loop k.

(** [-2] stands for the failure that closes the archive, [-1] for the one that
    does not. *)
Definition par_list (fd0 : option stream) (junk_header : mem) (gz0 : stream) (a0 : list Z) (file : list Z) :
    SM process (Z * option par) :=
  '(r, o) ← open file true O_RDONLY 0 0;
  if r =? -1 then mret (-1, None)
  else
    t ← sm_lift o;
    s ← sm_lift (reader_of t (default (mk_stream [] [] []) fd0) gz0 a0);
    '(r, p) ← sm_lift (list_members fd0 junk_header (handle s));
    if r =? -1 then mret (-1, Some p)
    else
      i ← close (closing_reader (set_handle p s) t);
      mret (if negb (r =? 0) then -1 else if negb (i =? 0) then -1 else 0, Some p).

Definition extract_members (file : option stream) (junk_header : mem) (rootdir : option (list Z)) :
    SM (opened (list Z)) Z :=
  r ← on_par (par_read_header file junk_header);
  if negb (r =? 0) then mret (-1)
  else r ← extract_all rootdir; if negb (r =? 0) then mret (-1) else mret 0.

Definition par_extract (fd0 : option stream) (junk_header : mem) (gz0 : stream) (a0 : list Z)
    (file : list Z) (rootdir : option (list Z)) : SM process (Z * option par) :=
  '(r, o) ← open file true O_RDONLY 0 0;
  if r =? -1 then mret (-1, None)
  else
    t ← sm_lift o;
    s ← sm_lift (reader_of t (default (mk_stream [] [] []) fd0) gz0 a0);
    '(r, s) ← sm_lift (extract_members fd0 junk_header rootdir s);
    i ← close (closing_reader s t);
    mret (if negb (r =? 0) then -1 else if negb (i =? 0) then -1 else 0, Some (handle s)).

(** ** Creating *)
Section Create.
Context (Hpw : database_ok getpwnam getpwuid) (Hgr : database_ok getgrnam getgrgid).
Context (Hjunk : length junk = T_BLOCKSIZE) (Henv : healthy env).

Notation archivable := (archivable lstat open_read).
Notation writer := (writer strcmp_dev strcmp_ino).
Notation members hs fs := (concat (zip_with (fun h f => h ++ padded (f_contents f)) hs fs)).

(** The identity a file is known by. *)
Definition file_id (f : file) : Z * Z := (st_dev (f_stat f), st_ino (f_stat f)).

(** A regular file on the command line. *)
Definition listed (rootdir : option (list Z)) (f : file) : Prop :=
  archivable f /\ source rootdir (f_save f) = f_real f /\ opendir (f_real f) = inl ENOTDIR.

Lemma append_tree_run depth f f0 a seen out :
  writer f0 a seen out -> archivable f -> opendir (f_real f) = inl ENOTDIR -> seen !! file_id f = None ->
  exists a' h nm, append_tree (S depth) (f_real f) (Some (f_save f)) a = Some (0, a') /\
    writer f0 a' (<[file_id f := nm]> seen) (out ++ h ++ padded (f_contents f)) /\ member_of getpwuid getgrgid h f.
Proof.
  intros W A Hd Hs.
  destruct (append_file_run getpwnam getgrnam getpwuid getgrgid Hpw Hgr timetext lstat readlink open_read junk Hjunk
    strcmp_dev strcmp_ino str_hash f f0 a seen out W A Hs) as (a' & h & nm & E & W' & M).
  exists a', h, nm. split; [|by split]. cbn [par_append_tree]. sm_step E. cbn [Z.eqb negb]. by rewrite Hd.
Qed.

Lemma create_loop_run depth rootdir fs f0 a seen out :
  writer f0 a seen out -> Forall (listed rootdir) fs -> NoDup (file_id <$> fs) ->
  Forall (fun f => seen !! file_id f = None) fs ->
  exists a' seen' hs, create_loop (S depth) rootdir (f_save <$> fs) a = Some (0, a') /\
    writer f0 a' seen' (out ++ members hs fs) /\ Forall2 (member_of getpwuid getgrgid) hs fs.
Proof.
  revert a seen out. induction fs as [|f fs IH]; intros a seen out W Ha Hnd Hs.
  - exists a, seen, []. rewrite app_nil_r. by split.
  - apply Forall_cons in Ha as [(Af & Hsrc & Hdir) Ha]. apply Forall_cons in Hs as [Sf Hs].
    apply NoDup_cons in Hnd as [Hf Hnd].
    destruct (append_tree_run depth f f0 a seen out W Af Hdir Sf) as (a1 & h & nm & E & W1 & M).
    destruct (IH a1 _ _ W1 Ha Hnd) as (a2 & seen2 & hs & E2 & W2 & M2).
    { apply Forall_forall. intros g Hg. rewrite lookup_insert_ne.
      - by eapply Forall_forall in Hs.
      - intros Eq. apply Hf. rewrite Eq. by apply (list_elem_of_fmap_2 file_id). }
    exists a2, seen2, (h :: hs). split; [|split; [|by constructor]].
    + cbn [fmap list_fmap create_loop]. rewrite Hsrc. sm_step E. cbn [Z.eqb negb]. exact E2.
    + cbn [zip_with concat]. rewrite <- !app_assoc in W2. rewrite <- !app_assoc. exact W2.
Qed.

(** The state of a new archive. *)
Definition new_writer (fd gz : stream) (a : list Z) : appender :=
  mk_appender (mk_opened (mk_par (replicate T_BLOCKSIZE 0) 0 true fd gz None ∅ a 0 [])
    (empty_table 16 (fun d _ => dev_hash (dev_of d))) (LibtarList.mk_heap ∅ ∅ [] 0)) ∅.

Lemma new_writer_caches fd gz a : caches strcmp_dev strcmp_ino (new_writer fd gz a) ∅.
Proof.
  exists (replicate 16 []).
  assert (E : LibtarHash.elements (D := dev_data) (replicate 16 []) = []) by reflexivity.
  split; try done.
  - exact (LibtarHash.new_hash_ok strcmp_dev _ 16 _ ltac:(lia)).
  - intros d Hd. rewrite E in Hd. by apply elem_of_nil in Hd.
  - intros d1 h1 d2 h2 H1. rewrite E in H1. by apply elem_of_nil in H1.
Qed.

Lemma create_members_run depth quid jo jm rootdir fs a0 :
  Forall (listed rootdir) fs -> NoDup (file_id <$> fs) -> length (Quid.quid_bytes quid) = 20%nat -> length jm = 64%nat ->
  exists a b hs seen, create_members (S depth) quid jo jm rootdir (f_save <$> fs)
      (new_writer (mk_stream [] [] []) (mk_stream [] [] []) a0) = Some (0, a) /\
    s_out (fd (handle (a_open a))) = b /\ length b = sizeof_header /\ take 8 b = PACKAGE_MAGIC ++ [0] /\
    s_out (gzfd (handle (a_open a))) = members hs fs ++ replicate (2 * T_BLOCKSIZE) 0 /\
    Forall2 (member_of getpwuid getgrgid) hs fs /\ caches strcmp_dev strcmp_ino a seen.
Proof.
  intros Hl Hnd Hq Hj. set (a1 := new_writer (mk_stream [] [] []) (mk_stream [] [] []) a0).
  destruct (write_header_run quid jo jm (handle (a_open a1)) eq_refl) as (b & E1 & Hb & Hm).
  set (f0 := mk_stream [] b []). set (a2 := new_writer f0 (mk_stream [] [] []) a0).
  assert (W : writer f0 a2 ∅ []) by (split; [done..|apply new_writer_caches]).
  destruct (create_loop_run depth rootdir fs f0 a2 ∅ [] W Hl Hnd) as (a3 & seen & hs & E2 & W3 & M).
  { apply Forall_forall. intros f _. apply lookup_empty. }
  destruct W3 as [[Hgz Hfd] Hio Hout Ho C].
  set (t4 := wrote (handle (a_open a3)) (replicate (2 * T_BLOCKSIZE) 0)).
  exists (with_handle t4 a3), b, hs, seen. split; [|split; [|split; [|split; [|split; [|split]]]]].
  - unfold create_members.
    assert (E1' : on_handle (par_write_header quid jo jm) a1 = Some (0, a2)) by exact (on_handle_run _ a1 _ _ E1).
    sm_step E1'. cbn [Z.eqb]. sm_step E2. cbn [Z.eqb negb].
    by sm_step (on_handle_run _ a3 _ _ (append_eof_run (handle (a_open a3)) Hio)).
  - change (handle (a_open (with_handle t4 a3))) with t4. unfold t4. by rewrite wrote_fd, Hfd.
  - rewrite Hb. unfold header_bytes, sizeof_header. rewrite !length_app. cbn [meta ah_quid magic]. rewrite Hq, Hj. done.
  - exact Hm.
  - change (handle (a_open (with_handle t4 a3))) with t4.
    assert (Ea : gzfd t4 = archive t4) by (unfold archive, t4; by rewrite wrote_gz, Hgz).
    rewrite Ea. unfold t4. by rewrite wrote_out, Hout.
  - exact M.
  - by apply caches_with_handle.
Qed.
End Create.

(** ** Closing *)
Lemma devices_free (strcmp_i : ino_data -> ino_data -> Z) a ct seen :
  devices_ok strcmp_dev strcmp_i a ct seen ->
  Forall (LibtarList.frees (Some (tar_dev_free (inos a)))) ct.
Proof.
  intros C. apply Forall_forall. intros l Hl. apply Forall_forall. intros [q d] Hx hh.
  assert (Hd : d ∈ LibtarHash.elements ct).
  { apply list_elem_of_bind. exists l. split; [|done]. by apply (list_elem_of_fmap_2 snd) in Hx. }
  destruct (do_tables _ _ _ _ _ C d Hd) as (dev & h & [t h0] & -> & _ & Hh & (cti & Ok & _)).
  destruct (LibtarHash.hash_free_run strcmp_i h0 t cti (Some free_block) Ok) as (h1 & E & _).
  { apply Forall_forall. intros k _. apply Forall_forall. by intros x _ h2. }
  cbn [tar_dev_free snd]. unfold LibtarList.lift, ino_table in *. rewrite Hh. cbn [mbind option_bind fst snd] in *.
  by rewrite E.
Qed.

Lemma close_call t p : healthy env -> exists p',
  call env (if PAR_use_gz t then Call_gzclose (PAR_fd t) else Call_close (PAR_fd t)) p = Some (0, p').
Proof.
  intros He. eexists. rewrite call_run. do 2 f_equal.
  destruct (PAR_use_gz t); [exact (He _ (Call_gzclose _))|exact (He _ (Call_close _))].
Qed.

Lemma close_writer_run a t seen p :
  healthy env -> caches strcmp_dev strcmp_ino a seen -> exists p', close (closing_writer a t) p = Some (0, p').
Proof.
  intros He [ct C]. destruct (close_call (closing_writer a t) p He) as [p' Ec].
  destruct (LibtarHash.hash_free_run strcmp_dev _ _ _ _ (do_hash _ _ _ _ _ C) (devices_free _ _ _ _ C)) as (h1 & E & _).
  exists p'. unfold par_close. sm_step Ec. cbn [closing_writer with_h PAR_h]. by rewrite E.
Qed.

Lemma close_reader_run s t ct p :
  healthy env -> LibtarHash.hash_ok strcmp (t_heap s) (t_h s) ct -> exists p', close (closing_reader s t) p = Some (0, p').
Proof.
  intros He Ok. destruct (close_call (closing_reader s t) p He) as [p' Ec].
  destruct (LibtarHash.hash_free_run strcmp _ _ _ (Some free_block) Ok) as (h1 & E & _).
  { apply Forall_forall. intros k _. apply Forall_forall. by intros x _ h2. }
  exists p'. unfold par_close. sm_step Ec. cbn [closing_reader with_h PAR_h]. by rewrite E.
Qed.

(** ** There and back *)
Section Roundtrip.
Context (Hpw : database_ok getpwnam getpwuid) (Hgr : database_ok getgrnam getgrgid).
Context (Hjunk : length junk = T_BLOCKSIZE) (Henv : healthy env) (Hos : forall tr e, 0 <= os tr e).

Notation members hs fs := (concat (zip_with (fun h f => h ++ padded (f_contents f)) hs fs)).
Notation no_stream := (mk_stream [] [] []).
Notation extracts := (extracts euid).

Lemma create_run depth quid jo jm rootdir fs a0 file p :
  Forall (listed rootdir) fs -> NoDup (file_id <$> fs) -> length (Quid.quid_bytes quid) = 20%nat -> length jm = 64%nat ->
  p_oom p = [] ->
  exists t p' hs, par_create (S depth) quid jo jm no_stream no_stream a0 file rootdir (f_save <$> fs) p =
      Some ((0, Some t), p') /\
    length (s_out (fd t)) = sizeof_header /\ take 8 (s_out (fd t)) = PACKAGE_MAGIC ++ [0] /\
    s_out (gzfd t) = members hs fs ++ replicate (2 * T_BLOCKSIZE) 0 /\
    Forall2 (member_of getpwuid getgrgid) hs fs.
Proof.
  intros Hl Hnd Hq Hj Hp.
  destruct (open_run basename strhash_path strhash_dev env file (Z.lor O_WRONLY O_CREAT) 0x1a4 p Henv Hp)
    as (n & p1 & E1); [by left|].
  destruct (create_members_run Hpw Hgr Hjunk depth quid jo jm rootdir fs a0 Hl Hnd Hq Hj)
    as (a & b & hs & seen & E2 & Eb & Hb & Hm & Eo & M & C).
  set (tr := mk_PAR _ _ _ _ _ _ _) in E1. destruct (close_writer_run a tr seen p1 Henv C) as [p2 E3].
  exists (handle (a_open a)), p2, hs. split; [|rewrite Eb; done].
  unfold par_create. sm_step E1. cbn [Z.eqb]. sm_step (sm_lift_run (Some tr) tr p1 eq_refl).
  sm_step (sm_lift_run (writer_of tr no_stream no_stream a0) _ p1 eq_refl).
  sm_step (sm_lift_run _ _ p1 E2). sm_step E3. done.
Qed.

Lemma members_length hs fs : Forall2 (member_of getpwuid getgrgid) hs fs -> (length fs <= length (members hs fs))%nat.
Proof.
  induction 1 as [|h f hs fs M _ IH]; [done|]. cbn [zip_with concat length]. rewrite !length_app.
  pose proof (ho_length _ (mo_ok _ _ _ _ M)) as Hl. rewrite Hl. unfold T_BLOCKSIZE. lia.
Qed.

Lemma archivable_stored f : archivable lstat open_read f -> stored f.
Proof. intros A. split; apply A. Qed.

(** A handle that was opened for reading, behind the header. *)
Definition new_reader (fd gz : stream) (a : list Z) : opened (list Z) :=
  mk_opened (mk_par (replicate T_BLOCKSIZE 0) 0 true fd gz None ∅ a 0 [])
    (empty_table 256 (path_hash basename)) (LibtarList.mk_heap ∅ ∅ [] 0).

Lemma new_reader_reads fd l o a r : a <> 0 -> reader basename (new_reader fd (mk_stream l o []) (a :: r)) l [].
Proof.
  intros Ha. split; try done; cbn [handle new_reader th_buf t_h t_heap].
  - split; [apply no_ptrs_zero|apply length_replicate].
  - right. by exists a, r.
  - exists (replicate 256 []). exact (LibtarHash.new_hash_ok strcmp _ 256 _ ltac:(lia)).
Qed.

Lemma extract_run prefix fs hs b z o o' a l jh file q :
  Forall2 (member_of getpwuid getgrgid) hs fs -> Forall stored fs -> Forall (target_ok prefix) fs ->
  length b = sizeof_header -> take 8 b = PACKAGE_MAGIC ++ [0] -> a <> 0 -> length jh = sizeof_header -> p_oom q = [] ->
  exists u q' trs, par_extract (Some (mk_stream (b ++ z) o [])) jh
      (mk_stream (members hs fs ++ replicate (2 * T_BLOCKSIZE) 0) o' []) (a :: l) file prefix q =
      Some ((0, Some u), q') /\
    trace u = concat trs /\ Forall2 (extracts prefix) fs trs.
Proof.
  intros M Hs Ht Hb Hm Ha Hjh Hq.
  destruct (open_run basename strhash_path strhash_dev env file O_RDONLY 0 q Henv Hq) as (n & q1 & E1); [by right|].
  set (tr := mk_PAR _ _ _ _ _ _ _) in E1.
  set (f0 := mk_stream (b ++ z) o []) in *. set (g0 := mk_stream _ o' []).
  set (f1 := mk_stream z o []).
  pose proof (read_header_run b o z jh (handle (new_reader f0 g0 (a :: l))) Hb Hjh Hm) as E2.
  destruct (extract_all_run getpwnam getgrnam getpwuid getgrgid Hpw Hgr basename dirname timetext euid os Hos
    (S (length (s_in g0))) prefix fs hs (new_reader f1 g0 (a :: l)) [] []) as (s & trs & E3 & R & X);
    [rewrite app_nil_r; by apply new_reader_reads|done..| |].
  { pose proof (members_length _ _ M). cbn [s_in g0]. rewrite length_app. lia. }
  destruct (rd_hash _ _ _ _ R) as [ct Ok]. destruct (close_reader_run s tr ct q1 Henv Ok) as [q2 E4].
  exists (handle s), q2, trs. split; [|split; [exact (rd_trace _ _ _ _ R)|exact X]].
  unfold par_extract. sm_step E1. cbn [Z.eqb]. sm_step (sm_lift_run (Some tr) tr q1 eq_refl).
  sm_step (sm_lift_run (reader_of tr f0 g0 (a :: l)) _ q1 eq_refl).
  assert (E5 : extract_members (Some f0) jh prefix (new_reader f0 g0 (a :: l)) = Some (0, s)).
  { unfold extract_members. sm_step (on_par_run _ _ _ _ E2). cbn [Z.eqb negb].
    change (set_handle _ _) with (new_reader f1 g0 (a :: l)). unfold par_extract_all.
    assert (E6 : (k ← on_par rounds; extract_all_loop getpwnam getgrnam getpwuid getgrgid basename dirname timetext euid os k prefix)
      (new_reader f1 g0 (a :: l)) = Some (0, s)) by (by sm_step (on_par_run _ (new_reader f1 g0 (a :: l)) _ _ (eq_refl (rounds _)))).
    by sm_step E6. }
  sm_step (sm_lift_run _ _ q1 E5). by sm_step E4.
Qed.

(** An archive made of regular files, on a system in which nothing fails, is
    extracted by a process that finds behind the header what zlib makes of the
    bytes written to it: each file is made in its directory, in turn, with its
    contents, its owner, its times and its mode. *)
Theorem create_extract_roundtrip depth quid jo jm rootdir prefix fs a0 file p :
  Forall (listed rootdir) fs -> NoDup (file_id <$> fs) -> Forall (target_ok prefix) fs ->
  length (Quid.quid_bytes quid) = 20%nat -> length jm = 64%nat -> p_oom p = [] ->
  exists t p', par_create (S depth) quid jo jm no_stream no_stream a0 file rootdir (f_save <$> fs) p =
      Some ((0, Some t), p') /\
    forall deflated o o' a l jh q, a <> 0 -> length jh = sizeof_header -> p_oom q = [] ->
    exists u q' trs, par_extract (Some (mk_stream (s_out (fd t) ++ deflated) o [])) jh
        (mk_stream (s_out (gzfd t)) o' []) (a :: l) file prefix q = Some ((0, Some u), q') /\
      trace u = concat trs /\ Forall2 (extracts prefix) fs trs.
Proof.
  intros Hl Hnd Ht Hq Hj Hp.
  destruct (create_run depth quid jo jm rootdir fs a0 file p Hl Hnd Hq Hj Hp) as (t & p' & hs & E & Hb & Hm & Eo & M).
  exists t, p'. split; [exact E|]. intros z o o' a l jh q Ha Hjh Hoom. rewrite Eo.
  apply (extract_run prefix fs hs); try done.
  eapply Forall_impl; [exact Hl|]. intros f (A & _). by apply archivable_stored.
Qed.
End Roundtrip.
End Util.

(** ** Two files *)
Definition demo_env (_ : list handle_call) (e : handle_call) : Z := match e with Call_gzdopen _ _ => 1 | _ => 0 end.
Definition demo_files : list file :=
  [mk_file (bs "r/f") (bs "f") (mk_stat 5 7 0x81a4 1000 100 3 10) (bs "abc");
   mk_file (bs "r/d/g") (bs "d/g") (mk_stat 5 8 0x8180 0 0 2 20) (bs "xy")].
Definition demo_file (p : list Z) : option file := find (fun f => bool_decide (f_real f = p)) demo_files.
Definition demo_lstat (p : list Z) : option stat := f_stat <$> demo_file p.
Definition demo_read (p : list Z) : option stream := (fun f => mk_stream (f_contents f) [] []) <$> demo_file p.
Definition demo_quid : Quid.quid_t := Quid.mk_quid 1 2 3 4 5 (replicate 6 0).
Definition not_directory (_ : list Z) : Z + list (list Z) := inl ENOTDIR.

Notation demo_create := (par_create no_name no_name no_id no_id (fun p => p) (fun _ => []) demo_lstat (fun _ => None)
  demo_read (replicate T_BLOCKSIZE 7) not_directory no_order no_order no_hash no_hash no_hash demo_env).
Notation demo_extract := (par_extract no_name no_name no_id no_id (fun p => p) (fun p => (p, p)) (fun _ => []) 0
  (fun _ _ => 0) no_hash no_hash demo_env).

Lemma demo_archivable : Forall (listed demo_lstat demo_read not_directory (Some (bs "r"))) demo_files.
Proof.
  repeat apply Forall_cons_2; [| |constructor].
  all: split; [|split; [vm_compute; reflexivity|reflexivity]].
  all: split; [vm_compute; reflexivity|..|reflexivity|reflexivity|by exists []| | |
    apply (bool_decide_unpack _); vm_compute; exact I|].
  all: try (vm_compute; split; congruence).
  - split; [by left|vm_compute; split; congruence..].
  - eexists [], _. split; [apply layout_name; apply Nat.ltb_lt; reflexivity|discriminate].
  - split; [by left|vm_compute; split; congruence..].
  - eexists [], _. split; [apply layout_name; apply Nat.ltb_lt; reflexivity|discriminate].
Qed.

Lemma create_extract_roundtrip_witness :
  exists t p', demo_create 1%nat demo_quid 0 (replicate 64 0) (mk_stream [] [] []) (mk_stream [] [] []) []
      (bs "a.par") (Some (bs "r")) [bs "f"; bs "d/g"] (mk_process [] 0 []) = Some ((0, Some t), p') /\
    exists u q' tr1 tr2, demo_extract (Some (mk_stream (s_out (fd t)) [] [])) (replicate sizeof_header 0)
        (mk_stream (s_out (gzfd t)) [] []) [4096] (bs "a.par") (Some (bs "x")) (mk_process [] 0 []) =
        Some ((0, Some u), q') /\
      trace u = tr1 ++ tr2 /\
      Forall2 (extracts 0 (Some (bs "x"))) demo_files [tr1; tr2].
Proof.
  destruct (create_extract_roundtrip no_name no_name no_id no_id (fun p => p) (fun p => (p, p)) (fun _ => []) 0
    (fun _ _ => 0) demo_lstat (fun _ => None) demo_read (replicate T_BLOCKSIZE 7) not_directory no_order no_order
    no_hash no_hash no_hash demo_env no_database no_database (length_replicate _ _)) with
    (depth := 0%nat) (quid := demo_quid) (jo := 0) (jm := replicate 64 0) (rootdir := Some (bs "r"))
    (prefix := Some (bs "x")) (fs := demo_files) (a0 := @nil Z) (file := bs "a.par") (p := mk_process [] 0 [])
    as (t & p' & E & H).
  - intros tr e. destruct e; cbn; lia.
  - intros tr e. lia.
  - exact demo_archivable.
  - apply (bool_decide_unpack _). vm_compute. exact I.
  - repeat apply Forall_cons_2; [| |constructor].
    all: eexists; split; [vm_compute; reflexivity|split; [apply (bool_decide_unpack _); vm_compute; exact I|apply Nat.ltb_lt; reflexivity]].
  - reflexivity.
  - reflexivity.
  - reflexivity.
  - exists t, p'. split; [exact E|].
    destruct (H [] [] [] 4096 [] (replicate sizeof_header 0) (mk_process [] 0 [])) as (u & q' & trs & E2 & Ht & X);
      [lia|reflexivity|reflexivity|].
    rewrite app_nil_r in E2. destruct trs as [|tr1 [|tr2 [|tr3 trs]]].
    1,2,4: exfalso; apply Forall2_length in X; discriminate X.
    exists u, q', tr1, tr2. split; [exact E2|]. split; [|exact X].
    cbn [concat] in Ht. rewrite app_nil_r in Ht. exact Ht.
Defined.
End ParUtil.
