(* ===== verification/CFile.v ===== *)
(** * Files of the C library

    A stream that reads and writes a file: its bytes and its position.  A write
    behind the end fills the gap with zeros.  The sources ignore what these
    calls return; the disk takes what is written. *)
From S2P Require Import Prelude CLib.

Module CFile.

Record FILE := mk_FILE { f_bytes : list Z; f_pos : Z }.

Inductive whence := SEEK_SET | SEEK_CUR | SEEK_END.

Definition ftell (f : FILE) : Z := f_pos f.

(** A negative position is refused. *)
Definition fseek (off : Z) (w : whence) (f : FILE) : FILE :=
  let pos := off + match w with
    | SEEK_SET => 0
    | SEEK_CUR => f_pos f
    | SEEK_END => Z.of_nat (length (f_bytes f))
    end in
  if pos <? 0 then f else mk_FILE (f_bytes f) pos.

Definition rewind (f : FILE) : FILE := mk_FILE (f_bytes f) 0.

(** The bytes [d] at offset [off] of a file. *)
Definition pwrite (l : list Z) (off : nat) (d : list Z) : list Z :=
  match d with
  | [] => l
  | _ => take off l ++ replicate (off - length l) 0 ++ d ++ drop (off + length d) l
  end.

Definition fwrite (d : list Z) (f : FILE) : FILE :=
  mk_FILE (pwrite (f_bytes f) (Z.to_nat (f_pos f)) d) (f_pos f + Z.of_nat (length d)).

(** At most [n] bytes. *)
Definition fread (n : nat) (f : FILE) : list Z * FILE :=
  let d := take n (drop (Z.to_nat (f_pos f)) (f_bytes f)) in
  (d, mk_FILE (f_bytes f) (f_pos f + Z.of_nat (length d))).

(** An object into which a read went. *)
Definition overwrite (m d : list Z) : list Z := d ++ drop (length d) m.

(** ** What a write changes *)
Lemma pwrite_lookup l off d i :
  pwrite l off d !! i =
    if decide (off <= i < off + length d)%nat then d !! (i - off)%nat
    else match l !! i with
         | Some c => Some c
         | None => if decide (i < off /\ d <> [])%nat then Some 0 else None
         end.
Proof.
  destruct d as [|x d]; [cbn; rewrite decide_False by lia; destruct (l !! i); [done|by rewrite decide_False by (by intros [_ ?])]|].
  unfold pwrite. set (y := x :: d). assert (Hy : y <> []) by done. clearbody y.
  destruct (decide (i < off)%nat) as [Hi|Hi].
  - rewrite (decide_False (P := (off <= i < _)%nat)) by lia. destruct (decide (i < length l)%nat) as [Hl|Hl].
    + rewrite lookup_app_l by len. rewrite lookup_take_lt by done. by destruct (lookup_lt_is_Some_2 _ _ Hl) as [c ->].
    + rewrite (lookup_ge_None_2 l i) by lia. rewrite decide_True by done.
      rewrite lookup_app_r by len. rewrite lookup_app_l by len. apply lookup_replicate_2. len.
  - rewrite lookup_app_r, lookup_app_r by len. rewrite length_take, length_replicate.
    replace (i - off `min` length l - (off - length l))%nat with (i - off)%nat by lia. case_decide as Hd.
    + rewrite lookup_app_l by lia. done.
    + rewrite lookup_app_r, lookup_drop by lia. replace (off + length y + (i - off - length y))%nat with i by lia.
      destruct (l !! i); [done|]. by rewrite decide_False by lia.
Qed.

Lemma bytes_at_pwrite l off d : bytes_at (pwrite l off d) off d.
Proof.
  intros i c Hi. apply lookup_lt_Some in Hi as Hl. rewrite pwrite_lookup, decide_True by lia.
  rewrite <- Hi. f_equal. lia.
Qed.

Lemma bytes_at_pwrite_other l off d o x :
  bytes_at l o x -> (o + length x <= off \/ off + length d <= o)%nat -> bytes_at (pwrite l off d) o x.
Proof.
  intros H Hd i c Hi. apply lookup_lt_Some in Hi as Hl. rewrite pwrite_lookup, decide_False by lia. by rewrite (H i c Hi).
Qed.

Lemma bytes_at_read l off d : bytes_at l off d -> take (length d) (drop off l) = d.
Proof. intros H. rewrite (bytes_at_drop _ _ _ H). apply take_app_length. Qed.

Lemma bytes_at_app l off a b : bytes_at l off (a ++ b) <-> bytes_at l off a /\ bytes_at l (off + length a) b.
Proof.
  split.
  - intros H. split; intros i c Hi.
    + apply H. by apply lookup_app_l_Some.
    + specialize (H (length a + i)%nat c). rewrite lookup_app_r in H by lia.
      replace (length a + i - length a)%nat with i in H by lia. rewrite <- H by done. f_equal. lia.
  - intros [Ha Hb] i c Hi. apply lookup_app_Some in Hi as [Hi|[Hl Hi]]; [by apply Ha|].
    rewrite <- (Hb _ _ Hi). f_equal. lia.
Qed.

Lemma pwrite_length l off d :
  (length l <= length (pwrite l off d))%nat /\ (d <> [] -> (off + length d <= length (pwrite l off d))%nat).
Proof.
  destruct d as [|x d]; [done|]. unfold pwrite. set (y := x :: d). clearbody y.
  rewrite !length_app, length_take, length_replicate, length_drop. split; [|intros _]; lia.
Qed.

Lemma overwrite_all m d : (length m <= length d)%nat -> overwrite m d = d.
Proof. intros H. unfold overwrite. rewrite drop_ge by done. apply app_nil_r. Qed.

Lemma fread_at n f d : bytes_at (f_bytes f) (Z.to_nat (f_pos f)) d -> length d = n ->
  fread n f = (d, mk_FILE (f_bytes f) (f_pos f + Z.of_nat n)).
Proof. intros H <-. unfold fread. by rewrite (bytes_at_read _ _ _ H). Qed.
(** ** The members of a structure *)
Definition field (off n : nat) (m : mem) : Z := le_val (take n (drop off m)).

Lemma field_at off n m x : bytes_at m off (le_bytes n x) -> field off n m = x `mod` 256 ^ Z.of_nat n.
Proof.
  intros H. unfold field. rewrite <- (le_bytes_length n x) at 1. rewrite (bytes_at_read _ _ _ H). apply le_val_bytes.
Qed.

End CFile.
