(* ===== verification/Filepage.v ===== *)
(** * cynder: file pages (filepage.cpp, filepage.h)

    A page is a file of items with an index in front: a header, then blocks of
    index entries, each with a pointer to the next, and the items' data in
    between.  The object keeps the positions and a map from names to data. *)
From S2P Require Import Prelude CLib CFile.

Module Filepage.
Export CFile.

Definition PAGE_MAGIC : list Z := bs "LFBX01E".
Definition PAGE_FLAG_NIL : Z := 0x0.
Definition PAGE_FLAG_FULL : Z := 0x10.
Definition INDEX_FLAG_DEL : Z := 0x1.
Definition INDEX_NEXT_EMPTY : Z := 0x11.
Definition UINT_MAX : Z := 2 ^ 32 - 1.
Definition ITEM_SIZE : Z := 8 * 1024 * 1024.
Definition DEFAULT_PAGE_ALLOC : Z := 16.

Record page := mk_page {
  m_Elements : Z; m_FirstFree : Z; m_Grow : Z; m_LastIndex : Z; m_ItemSize : Z;
  m_pFile : option FILE;
  contents : gmap (list Z) (Z * Z);
  m_pageFull : bool }.

Definition set_elements (x : Z) (p : page) : page :=
  mk_page x (m_FirstFree p) (m_Grow p) (m_LastIndex p) (m_ItemSize p) (m_pFile p) (contents p) (m_pageFull p).
Definition set_first_free (x : Z) (p : page) : page :=
  mk_page (m_Elements p) x (m_Grow p) (m_LastIndex p) (m_ItemSize p) (m_pFile p) (contents p) (m_pageFull p).
Definition set_last_index (x : Z) (p : page) : page :=
  mk_page (m_Elements p) (m_FirstFree p) (m_Grow p) x (m_ItemSize p) (m_pFile p) (contents p) (m_pageFull p).
Definition set_file (x : option FILE) (p : page) : page :=
  mk_page (m_Elements p) (m_FirstFree p) (m_Grow p) (m_LastIndex p) (m_ItemSize p) x (contents p) (m_pageFull p).
Definition set_contents (x : gmap (list Z) (Z * Z)) (p : page) : page :=
  mk_page (m_Elements p) (m_FirstFree p) (m_Grow p) (m_LastIndex p) (m_ItemSize p) (m_pFile p) x (m_pageFull p).
Definition set_full (x : bool) (p : page) : page :=
  mk_page (m_Elements p) (m_FirstFree p) (m_Grow p) (m_LastIndex p) (m_ItemSize p) (m_pFile p) (contents p) x.
(** The four members that [create] and [open] set last. *)
Definition set_members (elements first_free grow item_size : Z) (p : page) : page :=
  mk_page elements first_free grow (m_LastIndex p) item_size (m_pFile p) (contents p) (m_pageFull p).

Definition isOpen (p : page) : bool := match m_pFile p with Some _ => true | None => false end.

Notation P := (SM page) (only parsing).

(** A call on the open file. *)
Definition io {A} (f : FILE -> A * FILE) : P A := fun p =>
  h ← m_pFile p; let '(x, h) := f h in Some (x, set_file (Some h) p).
Definition seek (off : Z) (w : whence) : P unit := io (fun f => (tt, fseek off w f)).
Definition write (d : list Z) : P unit := io (fun f => (tt, fwrite d f)).
Definition read (n : nat) : P (list Z) := io (fread n).
Definition tell : P Z := io (fun f => (ftell f, f)).

(** ** The structures on disk

    The layouts of the LP64 target.  What the padding and the members without
    a value hold is given. *)
Definition sizeof_pageHeader : Z := 28.
Definition sizeof_pageIndexItem : Z := 48.

Section Page.
Context (junk_magic junk_pad junk_item : list Z).
Context (Hmagic : length junk_magic = 8%nat) (Hpad : length junk_pad = 2%nat) (Hitem : length junk_item = 48%nat).

Definition header_with (magic : list Z) (elements first_free grow_items item_size flags : Z) : list Z :=
  magic ++ le_bytes 2 elements ++ junk_pad ++ le_bytes 4 first_free ++ le_bytes 4 grow_items ++
  le_bytes 4 item_size ++ le_bytes 4 flags.
Definition pageHeader := header_with (PAGE_MAGIC ++ [0]).

Definition h_elements := field 8 2.
Definition h_first_free := field 12 4.
Definition h_grow_items := field 16 4.
Definition h_item_size := field 20 4.
Definition h_flags := field 24 4.

(** [pageIndexItem item;] *)
Definition item0 : mem := take 40 junk_item ++ le_bytes 4 0 ++ [PAGE_FLAG_NIL] ++ drop 45 junk_item.
Definition i_name (m : mem) : list Z := take 36 m.
Definition i_size := field 36 4.
Definition i_item := field 40 4.
Definition i_flags := field 44 1.

(** ** The operations *)
Definition create (alloc size : Z) : P unit :=
  o ← sm_gets isOpen;
  if o : bool then mret tt
  else
    sm_modify (set_file (Some (mk_FILE [] 0)));;
    let first_free := u32 (sizeof_pageHeader + sizeof_pageIndexItem * alloc + 4) in
    write (pageHeader 0 first_free alloc size PAGE_FLAG_NIL);;
    sm_modify (set_last_index sizeof_pageHeader);;
    seek (sizeof_pageIndexItem * alloc) SEEK_CUR;;
    write (le_bytes 4 INDEX_NEXT_EMPTY);;
    seek (u32 (size * alloc)) SEEK_END;;
    write [0];;
    sm_modify (set_members 0 first_free alloc size).

(** The pointer to the next index block, when the position is at it. *)
Definition next_index (pointer grow : Z) : P Z :=
  pos ← tell;
  if pointer + sizeof_pageIndexItem * grow =? u32 pos then
    d ← read 4;
    let pointer := le_val (overwrite (le_bytes 4 pointer) d) in
    seek pointer SEEK_SET;;
    mret pointer
  else mret pointer.

Definition read_item : P mem := d ← read 48; mret (overwrite item0 d).

Fixpoint open_loop (n : nat) (grow : Z) : P unit :=
  match n with
  | O => mret tt
  | S n =>
      last ← sm_gets m_LastIndex;
      last ← next_index last grow;
      sm_modify (set_last_index last);;
      item ← read_item;
      (if negb (Z.land (i_flags item) INDEX_FLAG_DEL =? 0) then mret tt
       else sm_modify (fun p => set_contents (<[i_name item := (i_item item, i_size item)]> (contents p)) p));;
      open_loop n grow
  end.

Definition open (disk : list Z) : P unit :=
  o ← sm_gets isOpen;
  if o : bool then mret tt
  else
    sm_modify (set_file (Some (mk_FILE disk 0)));;
    d ← read 28;
    let header := overwrite (header_with junk_magic 0 0 0 0 PAGE_FLAG_NIL) d in
    if negb (bool_decide (take 8 header = PAGE_MAGIC ++ [0])) then mret tt
    else
      (if negb (Z.land (h_flags header) PAGE_FLAG_FULL =? 0) then sm_modify (set_full true) else mret tt);;
      sm_modify (set_last_index sizeof_pageHeader);;
      open_loop (Z.to_nat (h_elements header)) (h_grow_items header);;
      sm_modify (set_members (h_elements header) (h_first_free header) (h_grow_items header) (h_item_size header)).

Definition writeHeader : P unit :=
  o ← sm_gets isOpen;
  if negb o then mret tt
  else
    seek 0 SEEK_SET;;
    p ← sm_gets (fun p => p);
    write (pageHeader (m_Elements p) (m_FirstFree p) (m_Grow p) (m_ItemSize p)
      (if m_pageFull p then PAGE_FLAG_FULL else PAGE_FLAG_NIL)).

Definition growPage : P unit :=
  new_index ← sm_gets m_FirstFree;
  grow ← sm_gets m_Grow;
  let first_free := u32 (new_index + sizeof_pageIndexItem * grow) in
  seek first_free SEEK_SET;;
  write (le_bytes 4 INDEX_NEXT_EMPTY);;
  let first_free := u32 (first_free + 4) in
  sm_modify (set_first_free first_free);;
  last ← sm_gets m_LastIndex;
  seek (last + sizeof_pageIndexItem * grow) SEEK_SET;;
  sm_modify (set_last_index new_index);;
  write (le_bytes 4 new_index);;
  size ← sm_gets m_ItemSize;
  seek (u32 (first_free + u32 (size * grow))) SEEK_CUR;;
  write [0];;
  writeHeader.

Definition shouldClose : P unit :=
  o ← sm_gets isOpen;
  if negb o then mret tt
  else
    p ← sm_gets (fun p => p);
    if UINT_MAX <? u32 (m_FirstFree p + m_ItemSize p) then sm_modify (set_full true) else mret tt.

(** The index entry of a new item. *)
Definition new_item (name : list Z) (size item : Z) : option mem :=
  m ← mstore item0 0 (until_nul name ++ [0]);
  m ← mstore m 36 (le_bytes 4 size);
  mstore m 40 (le_bytes 4 item).

Definition storeItem (name data : list Z) : P unit :=
  o ← sm_gets isOpen;
  if negb o then mret tt
  else if (40 <? length name)%nat then mret tt
  else
    elements ← sm_gets m_Elements;
    grow ← sm_gets m_Grow;
    if grow =? 0 then sm_undef
    else
      (if (elements `mod` grow =? 0) && (1 <? elements) then growPage else mret tt);;
      last ← sm_gets m_LastIndex;
      first_free ← sm_gets m_FirstFree;
      seek (last + sizeof_pageIndexItem * (elements `mod` grow)) SEEK_SET;;
      let size := u32 (Z.of_nat (length data)) in
      item ← sm_lift (new_item name size first_free);
      write item;;
      seek first_free SEEK_SET;;
      write data;;
      sm_modify (set_first_free (u32 (first_free + Z.of_nat (length data))));;
      sm_modify (fun p => set_contents (<[name := (first_free, size)]> (contents p)) p);;
      sm_modify (set_elements (u16 (elements + 1)));;
      shouldClose;;
      writeHeader.

Definition retrieveItem (name : list Z) : P (option (list Z)) :=
  o ← sm_gets isOpen;
  if negb o then mret None
  else
    c ← sm_gets contents;
    match c !! name with
    | None => mret None
    | Some (first, second) =>
        seek first SEEK_SET;;
        d ← read (Z.to_nat second);
        mret (Some (overwrite (replicate (Z.to_nat second) 0) d))
    end.

(** [strcmp] of an entry's name, which need not end, and a name. *)
Definition same_name (item name : list Z) : bool :=
  bool_decide (take (S (length (until_nul name))) item = until_nul name ++ [0]).

Definition mark_deleted (item : mem) : P unit :=
  seek (- sizeof_pageIndexItem) SEEK_CUR;;
  item ← sm_lift (mstore item 44 [u8 (Z.lor (i_flags item) INDEX_FLAG_DEL)]);
  write item.

Fixpoint remove_loop (n : nat) (grow indexPointer : Z) (name : list Z) : P unit :=
  match n with
  | O => mret tt
  | S n =>
      indexPointer ← next_index indexPointer grow;
      item ← read_item;
      (if same_name item name then mark_deleted item else mret tt);;
      remove_loop n grow indexPointer name
  end.

Definition removeItem (name : list Z) : P unit :=
  o ← sm_gets isOpen;
  if negb o then mret tt
  else
    c ← sm_gets contents;
    match c !! name with
    | None => mret tt
    | Some _ =>
        seek sizeof_pageHeader SEEK_SET;;
        p ← sm_gets (fun p => p);
        remove_loop (Z.to_nat (m_Elements p)) (m_Grow p) sizeof_pageHeader name
    end.

(** ** Construction and destruction

    [new] has the members before they are set; [disk] is the file if it
    exists, as it is left in the end. *)
Definition Filepage_new (new : page) (disk : option (list Z)) : option page :=
  snd <$> match disk with
          | None => create DEFAULT_PAGE_ALLOC ITEM_SIZE
          | Some d => open d
          end (set_full false (set_contents ∅ (set_file None new))).

Definition Filepage_delete (p : page) : option (list Z) :=
  '(_, p) ← writeHeader p; f_bytes <$> m_pFile p.

(** ** What is on the disk

    An item, with the place of its data. *)
Record entry := mk_entry { e_name : list Z; e_data : list Z; e_off : Z }.

Definition e_size (e : entry) : Z := Z.of_nat (length (e_data e)).
Definition e_slot (e : entry) : list Z := e_name e ++ le_bytes 4 (e_size e) ++ le_bytes 4 (e_off e) ++ [PAGE_FLAG_NIL].

(** Names are the texts of identifiers: they fill the member. *)
Definition name_ok (n : list Z) : Prop := length n = 36%nat /\ Forall (fun c => c <> 0) n.

Section Layout.
Context (G : nat).
Notation width := (48 * Z.of_nat G + 4).

(** Where the [i]-th entry is, in the index blocks at [idx]. *)
Definition slot_at (idx : list Z) (i : nat) : option Z :=
  (fun o => o + 48 * Z.of_nat (i `mod` G)%nat) <$> idx !! (i / G)%nat.

(** The bytes that have to stay: links, entries and data. *)
Inductive holds (es : list entry) (idx : list Z) : Z -> list Z -> Prop :=
| holds_link j o o' : idx !! j = Some o -> idx !! S j = Some o' -> holds es idx (o + 48 * Z.of_nat G) (le_bytes 4 o')
| holds_slot i e o : es !! i = Some e -> slot_at idx i = Some o -> holds es idx o (e_slot e)
| holds_data i e : es !! i = Some e -> holds es idx (e_off e) (e_data e).

(** The places: index blocks in order, data outside of them, everything
    between the header and the free space. *)
Record placed (es : list entry) (idx : list Z) (ff : Z) : Prop := {
  pl_grow : (1 < G)%nat;
  pl_first : idx !! 0%nat = Some 28;
  pl_enough : (length es <= G * length idx)%nat;
  pl_index : forall j o, idx !! j = Some o -> 28 <= o /\ o + width <= ff;
  pl_apart : forall j j' o o', idx !! j = Some o -> idx !! j' = Some o' -> (j < j')%nat -> o + width <= o';
  pl_data : forall i e, es !! i = Some e -> 28 <= e_off e /\ e_off e + e_size e <= ff /\
    forall j o, idx !! j = Some o -> e_off e + e_size e <= o \/ o + width <= e_off e;
  pl_name : forall i e, es !! i = Some e -> name_ok (e_name e);
  pl_free : ff < 2 ^ 32 }.

Definition holds_all (l : list Z) (es : list entry) (idx : list Z) : Prop :=
  forall o x, holds es idx o x -> bytes_at l (Z.to_nat o) x.

Lemma slot_length e : name_ok (e_name e) -> length (e_slot e) = 45%nat.
Proof. intros [Hn _]. unfold e_slot. rewrite !length_app, !le_bytes_length, Hn. done. Qed.

(** A write that leaves the places that count alone. *)
Lemma holds_all_write l es idx off d :
  holds_all l es idx -> 0 <= off ->
  (forall o x, holds es idx o x -> 0 <= o /\ (o + Z.of_nat (length x) <= off \/ off + Z.of_nat (length d) <= o)) ->
  holds_all (pwrite l (Z.to_nat off) d) es idx.
Proof.
  intros H Hoff Hd o x Hx. apply bytes_at_pwrite_other; [by apply H|]. destruct (Hd o x Hx). lia.
Qed.

(** All of it lies behind the header and before the free space. *)
Lemma holds_bounds es idx ff o x :
  placed es idx ff -> holds es idx o x -> 28 <= o /\ o + Z.of_nat (length x) <= ff.
Proof.
  intros Pl [j o1 o2 H1 H2|i e o1 H1 H2|i e H1].
  - destruct (pl_index _ _ _ Pl _ _ H1). rewrite le_bytes_length. lia.
  - unfold slot_at in H2. apply fmap_Some in H2 as (o2 & H2 & ->). destruct (pl_index _ _ _ Pl _ _ H2).
    rewrite slot_length by (by eapply pl_name). pose proof (Nat.mod_upper_bound i G).
    pose proof (pl_grow _ _ _ Pl). lia.
  - destruct (pl_data _ _ _ Pl _ _ H1) as (? & ? & _). unfold e_size in *. lia.
Qed.

(** The entry at a position that is not taken yet can be written. *)
Lemma holds_new_slot es idx ff o o' x :
  placed es idx ff -> slot_at idx (length es) = Some o -> holds es idx o' x ->
  0 <= o' /\ (o' + Z.of_nat (length x) <= o \/ o + 48 <= o').
Proof.
  intros Pl Ho Hx. pose proof (holds_bounds _ _ _ _ _ Pl Hx) as [H0 _]. split; [lia|].
  pose proof (pl_grow _ _ _ Pl) as Hg. unfold slot_at in Ho. apply fmap_Some in Ho as (b & Hb & ->).
  pose proof (Nat.mod_upper_bound (length es) G ltac:(lia)) as Hm.
  destruct Hx as [j o1 o2 H1 H2|i e o1 H1 H2|i e H1].
  - rewrite le_bytes_length. destruct (Nat.lt_trichotomy j (length es / G)) as [Hj|[->|Hj]].
    + pose proof (pl_apart _ _ _ Pl _ _ _ _ H1 Hb Hj). lia.
    + rewrite Hb in H1. injection H1 as <-. lia.
    + pose proof (pl_apart _ _ _ Pl _ _ _ _ Hb H1 Hj). lia.
  - apply lookup_lt_Some in H1 as Hi. rewrite slot_length by (by eapply pl_name).
    unfold slot_at in H2. apply fmap_Some in H2 as (b' & H2 & ->). pose proof (Nat.mod_upper_bound i G ltac:(lia)).
    destruct (Nat.lt_trichotomy (i / G) (length es / G)) as [Hj|[Hj|Hj]].
    + pose proof (pl_apart _ _ _ Pl _ _ _ _ H2 Hb Hj). lia.
    + rewrite Hj in H2. rewrite Hb in H2. injection H2 as <-.
      pose proof (Nat.div_mod_eq i G). pose proof (Nat.div_mod_eq (length es) G). rewrite Hj in *. nia.
    + pose proof (Nat.Div0.div_le_mono i (length es) G). lia.
  - destruct (pl_data _ _ _ Pl _ _ H1) as (_ & _ & Hd). unfold e_size in Hd. specialize (Hd _ _ Hb). lia.
Qed.

(** So can the link of the last index block. *)
Lemma holds_new_link es idx ff o x b :
  placed es idx ff -> idx !! (length idx - 1)%nat = Some b -> holds es idx o x ->
  0 <= o /\ (o + Z.of_nat (length x) <= b + 48 * Z.of_nat G \/ b + 48 * Z.of_nat G + 4 <= o).
Proof.
  intros Pl Hb Hx. pose proof (holds_bounds _ _ _ _ _ Pl Hx) as [H0 _]. split; [lia|].
  pose proof (pl_grow _ _ _ Pl) as Hg. destruct Hx as [j o1 o2 H1 H2|i e o1 H1 H2|i e H1].
  - rewrite le_bytes_length. apply lookup_lt_Some in H2.
    pose proof (pl_apart _ _ _ Pl _ _ _ _ H1 Hb ltac:(lia)). lia.
  - rewrite slot_length by (by eapply pl_name). unfold slot_at in H2. apply fmap_Some in H2 as (b' & H2 & ->).
    pose proof (Nat.mod_upper_bound i G ltac:(lia)). apply lookup_lt_Some in H2 as Hl.
    destruct (decide (i / G = length idx - 1)%nat) as [Hj|Hj].
    + rewrite Hj, Hb in H2. injection H2 as <-. lia.
    + pose proof (pl_apart _ _ _ Pl _ _ _ _ H2 Hb ltac:(lia)). lia.
  - destruct (pl_data _ _ _ Pl _ _ H1) as (_ & _ & Hd). unfold e_size in Hd. specialize (Hd _ _ Hb). lia.
Qed.

(** ** The object and its file *)
Definition contents_of (es : list entry) : gmap (list Z) (Z * Z) :=
  foldl (fun m e => <[e_name e := (e_off e, e_size e)]> m) ∅ es.

(** The items a page stands for. *)
Definition items (es : list entry) : gmap (list Z) (list Z) :=
  foldl (fun m e => <[e_name e := e_data e]> m) ∅ es.

Definition header_of (p : page) : list Z :=
  pageHeader (m_Elements p) (m_FirstFree p) (m_Grow p) (m_ItemSize p)
    (if m_pageFull p then PAGE_FLAG_FULL else PAGE_FLAG_NIL).

Definition at_file (l : list Z) (pos : Z) (p : page) : page := set_file (Some (mk_FILE l pos)) p.

(** The members; [l] is the file without the header. *)
Record members_ok (p : page) (l : list Z) (es : list entry) (idx : list Z) : Prop := {
  mb_placed : placed es idx (m_FirstFree p);
  mb_elements : m_Elements p = Z.of_nat (length es);
  mb_few : Z.of_nat (length es) < 2 ^ 16;
  mb_grow : m_Grow p = Z.of_nat G;
  mb_last : idx !! (length idx - 1)%nat = Some (m_LastIndex p);
  mb_full : m_pageFull p = false;
  mb_contents : contents p = contents_of es;
  mb_size : 0 <= m_ItemSize p < 2 ^ 32;
  mb_holds : holds_all l es idx;
  mb_long : Forall (fun o => o + width <= Z.of_nat (length l)) idx }.

(** Between two operations. *)
Record page_ok (p : page) (es : list entry) : Prop := {
  pg_ok : exists l pos idx, m_pFile p = Some (mk_FILE l pos) /\ members_ok p l es idx /\
    (length idx = 1%nat \/ (G * (length idx - 1) < length es)%nat) /\ bytes_at l 0 (header_of p) }.

Lemma header_length e ff g sz fl : length (pageHeader e ff g sz fl) = 28%nat.
Proof. unfold pageHeader, header_with. rewrite !length_app, !le_bytes_length, Hpad. done. Qed.

Lemma seek_run off l pos p : 0 <= off -> seek off SEEK_SET (at_file l pos p) = Some (tt, at_file l off p).
Proof.
  intros H. unfold seek, io, fseek. cbn [at_file set_file m_pFile mbind option_bind f_bytes].
  rewrite Z.add_0_r. by rewrite (proj2 (Z.ltb_ge _ _)).
Qed.

Lemma write_run d l pos p :
  write d (at_file l pos p) = Some (tt, at_file (pwrite l (Z.to_nat pos) d) (pos + Z.of_nat (length d)) p).
Proof. done. Qed.

Lemma writeHeader_run l pos p : writeHeader (at_file l pos p) = Some (tt, at_file (pwrite l 0 (header_of p)) 28 p).
Proof.
  unfold writeHeader. sm_step (eq_refl (Some (true, at_file l pos p))). cbn [negb].
  sm_step (seek_run 0 l pos p (Z.le_refl 0)). sm_step (eq_refl (Some (at_file l 0 p, at_file l 0 p))).
  rewrite write_run. cbn [at_file set_file m_Elements m_FirstFree m_Grow m_ItemSize m_pageFull].
  rewrite header_length. done.
Qed.

Lemma long_write l off d idx :
  Forall (fun o => o + width <= Z.of_nat (length l)) idx ->
  Forall (fun o => o + width <= Z.of_nat (length (pwrite l off d))) idx.
Proof. intros H. eapply Forall_impl; [exact H|]. intros o Ho. pose proof (proj1 (pwrite_length l off d)). cbn in Ho. lia. Qed.

(** Writing the header leaves everything else alone. *)
Lemma header_write_ok p l es idx d :
  members_ok p l es idx -> length d = 28%nat -> members_ok p (pwrite l 0 d) es idx /\ bytes_at (pwrite l 0 d) 0 d.
Proof.
  intros [Pl M2 M3 M4 M5 M6 M7 M8 H Hlen] Hd. split; [|apply bytes_at_pwrite].
  split; try done; [|by apply long_write]. apply (holds_all_write _ _ _ 0); [done|lia|]. intros o x Hx.
  pose proof (holds_bounds _ _ _ _ _ Pl Hx). lia.
Qed.

(** Writing into the free space, too. *)
Lemma free_write_ok p l es idx off d :
  members_ok p l es idx -> m_FirstFree p <= off -> members_ok p (pwrite l (Z.to_nat off) d) es idx.
Proof.
  intros [Pl M2 M3 M4 M5 M6 M7 M8 H Hlen] Hd. destruct (pl_index _ _ _ Pl _ _ (pl_first _ _ _ Pl)).
  split; try done; [|by apply long_write]. apply holds_all_write; [done|lia|]. intros o x Hx.
  pose proof (holds_bounds _ _ _ _ _ Pl Hx). lia.
Qed.

Lemma seek_cur_run off l pos p : 0 <= off + pos -> seek off SEEK_CUR (at_file l pos p) = Some (tt, at_file l (off + pos) p).
Proof.
  intros H. unfold seek, io, fseek. cbn [at_file set_file m_pFile mbind option_bind f_bytes f_pos].
  by rewrite (proj2 (Z.ltb_ge _ _)).
Qed.

(** ** Growing: a new index block at the end *)
Lemma slot_at_app idx b i o : slot_at idx i = Some o -> slot_at (idx ++ [b]) i = Some o.
Proof.
  unfold slot_at. intros (x & Hx & ->)%fmap_Some. rewrite lookup_app_l by (by eapply lookup_lt_Some). by rewrite Hx.
Qed.

Lemma slot_at_is_Some idx i : (1 < G)%nat -> (i < G * length idx)%nat -> exists o, slot_at idx i = Some o.
Proof.
  intros Hg Hi. unfold slot_at. destruct (lookup_lt_is_Some_2 idx (i / G)) as [o ->]; [|by eexists].
  apply Nat.Div0.div_lt_upper_bound. lia.
Qed.

Lemma placed_grown es idx ff :
  placed es idx ff -> ff + width < 2 ^ 32 -> placed es (idx ++ [ff]) (ff + width).
Proof.
  intros [P1 P2 P3 P5 P6 P7 P8 P9] Hff. split; try done.
  - rewrite lookup_app_l; [done|by eapply lookup_lt_Some].
  - rewrite length_app. nia.
  - intros j o [Hj|[Hj [Hj0 ->]%list_lookup_singleton_Some]]%lookup_app_Some.
    + destruct (P5 _ _ Hj). lia.
    + destruct (P5 _ _ P2). lia.
  - intros j j' o o' [Hj|[Hj [Hj0 ->]%list_lookup_singleton_Some]]%lookup_app_Some
      [Hj'|[Hj' [Hj1 ->]%list_lookup_singleton_Some]]%lookup_app_Some Hlt.
    + by eapply P6.
    + destruct (P5 _ _ Hj). lia.
    + apply lookup_lt_Some in Hj'. lia.
    + lia.
  - intros i e Hi. destruct (P7 _ _ Hi) as (H1 & H2 & H3). split; [done|]. split; [lia|].
    intros j o [Hj|[Hj [Hj0 ->]%list_lookup_singleton_Some]]%lookup_app_Some; [by eapply H3|lia].
Qed.

Lemma holds_grown es idx ff o x b :
  placed es idx ff -> idx !! (length idx - 1)%nat = Some b -> holds es (idx ++ [ff]) o x ->
  holds es idx o x \/ (o = b + 48 * Z.of_nat G /\ x = le_bytes 4 ff).
Proof.
  intros Pl Hb [j o1 o2 H1 H2|i e o1 H1 H2|i e H1].
  - apply lookup_app_Some in H2 as [H2|[Hl [Hj ->]%list_lookup_singleton_Some]].
    + left. apply lookup_app_Some in H1 as [H1|[Hl _]]; [by eapply holds_link|].
      apply lookup_lt_Some in H2. lia.
    + right. apply lookup_app_Some in H1 as [H1|[Hl' _]]; [|lia].
      replace j with (length idx - 1)%nat in H1 by lia. rewrite Hb in H1. by injection H1 as <-.
  - left. destruct (slot_at_is_Some idx i) as [o3 H3]; [apply Pl| |].
    { apply lookup_lt_Some in H1. pose proof (pl_enough _ _ _ Pl). lia. }
    pose proof (slot_at_app _ ff _ _ H3) as E. rewrite H2 in E. injection E as ->. by eapply holds_slot.
  - left. by eapply holds_data.
Qed.

Lemma grow_run l pos p es idx :
  members_ok p l es idx -> m_FirstFree p + width + u32 (m_ItemSize p * Z.of_nat G) < 2 ^ 32 ->
  exists l' p', growPage (at_file l pos p) = Some (tt, at_file l' 28 p') /\
    members_ok p' l' es (idx ++ [m_FirstFree p]) /\
    m_FirstFree p' = m_FirstFree p + width /\ m_ItemSize p' = m_ItemSize p.
Proof.
  intros M Hroom. pose proof M as [Pl M2 M3 M4 M5 M6 M7 M8 H Hlen]. set (ff := m_FirstFree p) in *.
  set (b := m_LastIndex p) in *. destruct (pl_index _ _ _ Pl _ _ M5) as [Hb1 Hb2].
  pose proof (u32_range (m_ItemSize p * Z.of_nat G)) as Hu.
  set (p' := set_last_index ff (set_first_free (ff + width) p)).
  set (l1 := pwrite l (Z.to_nat (ff + 48 * Z.of_nat G)) (le_bytes 4 INDEX_NEXT_EMPTY)).
  set (l2 := pwrite l1 (Z.to_nat (b + 48 * Z.of_nat G)) (le_bytes 4 ff)).
  assert (M1 : members_ok p l1 es idx) by (apply free_write_ok; [done|fold ff; lia]).
  assert (Pl' : placed es (idx ++ [ff]) (ff + width)) by (apply placed_grown; [done|lia]).
  assert (M2' : members_ok p' l2 es (idx ++ [ff])).
  { split; try done.
    - rewrite length_app. cbn [length]. rewrite lookup_app_r by lia. by replace (_ + 1 - 1 - _)%nat with 0%nat by lia.
    - intros o x Hx. destruct (holds_grown _ _ _ _ _ _ Pl M5 Hx) as [Hx'|[-> ->]]; [|apply bytes_at_pwrite].
      apply bytes_at_pwrite_other; [by apply M1|].
      destruct (holds_new_link _ _ _ _ _ _ Pl M5 Hx') as [? ?]. rewrite le_bytes_length. lia.
    - apply long_write, Forall_app. split; [by apply long_write|]. apply Forall_singleton.
      pose proof (proj2 (pwrite_length l (Z.to_nat (ff + 48 * Z.of_nat G)) (le_bytes 4 INDEX_NEXT_EMPTY)) ltac:(done)) as Hn.
      fold l1 in Hn. rewrite le_bytes_length in Hn. lia. }
  set (pos3 := u32 (ff + width + u32 (m_ItemSize p * Z.of_nat G)) + (b + 48 * Z.of_nat G + 4)).
  assert (Hpos3 : ff + width <= pos3) by (unfold pos3; rewrite u32_small by lia; lia).
  assert (M3' : members_ok p' (pwrite l2 (Z.to_nat pos3) [0]) es (idx ++ [ff])) by (apply free_write_ok; [done|exact Hpos3]).
  exists (pwrite (pwrite l2 (Z.to_nat pos3) [0]) 0 (header_of p')), p'.
  split; [|split; [apply header_write_ok; [done|apply header_length]|done]].
  unfold growPage. sm_step (eq_refl (Some (ff, at_file l pos p))). sm_step (eq_refl (Some (m_Grow p, at_file l pos p))).
  rewrite M4. unfold sizeof_pageIndexItem. rewrite (u32_small (ff + 48 * Z.of_nat G)) by lia.
  rewrite (u32_small (ff + 48 * Z.of_nat G + 4)) by lia.
  sm_step (seek_run (ff + 48 * Z.of_nat G) l pos p ltac:(lia)).
  sm_step (write_run (le_bytes 4 INDEX_NEXT_EMPTY) l (ff + 48 * Z.of_nat G) p). fold l1.
  set (pos1 := _ + Z.of_nat _). set (p1 := set_first_free (ff + width) p).
  replace (ff + 48 * Z.of_nat G + 4) with (ff + width) by lia.
  sm_step (eq_refl (Some (tt, at_file l1 pos1 p1))). sm_step (eq_refl (Some (b, at_file l1 pos1 p1))).
  sm_step (seek_run (b + 48 * Z.of_nat G) l1 pos1 p1 ltac:(lia)).
  sm_step (eq_refl (Some (tt, at_file l1 (b + 48 * Z.of_nat G) p'))).
  sm_step (write_run (le_bytes 4 ff) l1 (b + 48 * Z.of_nat G) p'). fold l2. rewrite le_bytes_length.
  sm_step (eq_refl (Some (m_ItemSize p, at_file l2 (b + 48 * Z.of_nat G + Z.of_nat 4) p'))).
  sm_step (seek_cur_run (u32 (ff + width + u32 (m_ItemSize p * Z.of_nat G))) l2 (b + 48 * Z.of_nat G + Z.of_nat 4) p').
  { pose proof (u32_range (ff + width + u32 (m_ItemSize p * Z.of_nat G))). lia. }
  change (Z.of_nat 4) with 4. fold pos3. sm_step (write_run [0] l2 pos3 p'). apply writeHeader_run.
Qed.

(** ** Storing: an entry, the data at the end *)
Lemma le_bytes_u32 x : le_bytes 4 (u32 x) = le_bytes 4 x.
Proof.
  assert (H : forall n y z, y `mod` 256 ^ Z.of_nat n = z `mod` 256 ^ Z.of_nat n -> le_bytes n y = le_bytes n z).
  { induction n as [|n IH]; [done|]. intros y z E. cbn [le_bytes].
    assert (E0 : y `mod` 256 = z `mod` 256).
    { rewrite <- (Z.mod_mod_divide y (256 ^ Z.of_nat (S n))), E, Z.mod_mod_divide; [done|..];
        exists (256 ^ Z.of_nat n); rewrite Nat2Z.inj_succ, Z.pow_succ_r; lia. }
    f_equal; [exact E0|]. apply IH.
    rewrite Nat2Z.inj_succ, Z.pow_succ_r in E by lia.
    rewrite !Z.rem_mul_r in E by lia. lia. }
  apply H. change (256 ^ Z.of_nat 4) with (2 ^ 32). unfold u32. apply Z.mod_mod. lia.
Qed.

Lemma item0_length : length item0 = 48%nat.
Proof. unfold item0. rewrite !length_app, length_take, length_drop, le_bytes_length, Hitem. done. Qed.

Lemma item0_flags : bytes_at item0 44 [PAGE_FLAG_NIL].
Proof.
  intros i c [-> <-]%list_lookup_singleton_Some. unfold item0.
  rewrite lookup_app_r by (rewrite length_take, Hitem; lia). rewrite length_take, Hitem. reflexivity.
Qed.

Lemma new_item_ok name data ff : name_ok name ->
  exists item, new_item name (u32 (Z.of_nat (length data))) ff = Some item /\ length item = 48%nat /\
    bytes_at item 0 (e_slot (mk_entry name data ff)).
Proof.
  intros [Hn Hz]. unfold new_item. rewrite until_nul_id by done. pose proof item0_length as H0.
  assert (Hl : length (name ++ [0]) = 37%nat) by (rewrite length_app, Hn; done).
  destruct (mstore_is_Some item0 0 (name ++ [0])) as [m1 E1]; [lia|].
  pose proof (mstore_length _ _ _ _ E1) as L1. rewrite E1. cbn [mbind option_bind].
  rewrite le_bytes_u32. set (sz := Z.of_nat (length data)).
  destruct (mstore_is_Some m1 36 (le_bytes 4 sz)) as [m2 E2]; [rewrite le_bytes_length; lia|].
  pose proof (mstore_length _ _ _ _ E2) as L2. rewrite E2. cbn [mbind option_bind].
  destruct (mstore_is_Some m2 40 (le_bytes 4 ff)) as [m3 E3]; [rewrite le_bytes_length; lia|].
  pose proof (mstore_length _ _ _ _ E3) as L3.
  exists m3. split; [exact E3|]. split; [lia|]. unfold e_slot. cbn [e_name e_size e_data e_off].
  rewrite !bytes_at_app, Hn, !le_bytes_length. cbn [plus].
  assert (B1 : bytes_at m1 0 name) by exact (proj1 (proj1 (bytes_at_app _ _ _ _) (bytes_at_store _ _ _ _ E1))).
  split; [|split; [|split]].
  - eapply bytes_at_other; [exact E3| |lia]. eapply bytes_at_other; [exact E2|done|lia].
  - eapply bytes_at_other; [exact E3|by eapply bytes_at_store|rewrite !le_bytes_length; lia].
  - by eapply bytes_at_store.
  - eapply bytes_at_other; [exact E3| |rewrite le_bytes_length; cbn; lia].
    eapply bytes_at_other; [exact E2| |rewrite le_bytes_length; cbn; lia].
    eapply bytes_at_other; [exact E1|exact item0_flags|cbn; lia].
Qed.

Lemma bytes_at_trans l off m x : bytes_at l off m -> bytes_at m 0 x -> bytes_at l off x.
Proof. intros H1 H2 i c Hi. apply H1. exact (H2 i c Hi). Qed.

Lemma placed_stored es idx ff name data :
  placed es idx ff -> (length es < G * length idx)%nat -> name_ok name -> ff + Z.of_nat (length data) < 2 ^ 32 ->
  placed (es ++ [mk_entry name data ff]) idx (ff + Z.of_nat (length data)).
Proof.
  intros [P1 P2 P3 P5 P6 P7 P8 P9] Hlt Hn Hff. destruct (P5 _ _ P2) as [Q1 Q2]. split; try done.
  - rewrite length_app. cbn [length]. lia.
  - intros j o Hj. destruct (P5 _ _ Hj). lia.
  - intros i e [Hi|[_ [_ <-]%list_lookup_singleton_Some]]%lookup_app_Some.
    + destruct (P7 _ _ Hi) as (? & ? & ?). split; [done|]. split; [lia|done].
    + cbn [e_off e_size e_data]. unfold e_size. cbn [e_data]. split; [lia|]. split; [lia|].
      intros j o Hj. destruct (P5 _ _ Hj). lia.
  - intros i e [Hi|[_ [_ <-]%list_lookup_singleton_Some]]%lookup_app_Some; [by eapply P8|exact Hn].
Qed.

Lemma holds_stored es idx e o x so :
  slot_at idx (length es) = Some so -> holds (es ++ [e]) idx o x ->
  holds es idx o x \/ (o = so /\ x = e_slot e) \/ (o = e_off e /\ x = e_data e).
Proof.
  intros Hso [j o1 o2 H1 H2|i e1 o1 H1 H2|i e1 H1].
  - left. by eapply holds_link.
  - apply lookup_app_Some in H1 as [H1|[Hl [Hi <-]%list_lookup_singleton_Some]]; [left; by eapply holds_slot|].
    right. left. replace i with (length es) in H2 by lia. rewrite Hso in H2. by injection H2 as ->.
  - apply lookup_app_Some in H1 as [H1|[Hl [Hi <-]%list_lookup_singleton_Some]]; [left; by eapply holds_data|].
    right. right. done.
Qed.

Lemma contents_stored es e :
  contents_of (es ++ [e]) = <[e_name e := (e_off e, e_size e)]> (contents_of es).
Proof. unfold contents_of. by rewrite foldl_app. Qed.

(** The members after an item was stored. *)
Definition with_item (name data : list Z) (p : page) : page :=
  set_elements (u16 (m_Elements p + 1)) (set_contents (<[name := (m_FirstFree p, u32 (Z.of_nat (length data)))]> (contents p))
    (set_first_free (u32 (m_FirstFree p + Z.of_nat (length data))) p)).

Lemma members_stored p l es idx name data item o :
  members_ok p l es idx -> (length es < G * length idx)%nat -> name_ok name ->
  m_FirstFree p + Z.of_nat (length data) < 2 ^ 32 -> Z.of_nat (length es) + 1 < 2 ^ 16 ->
  slot_at idx (length es) = Some o -> length item = 48%nat ->
  bytes_at item 0 (e_slot (mk_entry name data (m_FirstFree p))) ->
  members_ok (with_item name data p) (pwrite (pwrite l (Z.to_nat o) item) (Z.to_nat (m_FirstFree p)) data)
    (es ++ [mk_entry name data (m_FirstFree p)]) idx.
Proof.
  intros [Pl M2 M3 M4 M5 M6 M7 M8 H Hlen] Hlt Hn Hff Hes Ho Hil Hib.
  set (ff := m_FirstFree p) in *. set (e := mk_entry name data ff) in *.
  destruct (pl_index _ _ _ Pl _ _ (pl_first _ _ _ Pl)) as [_ Hff0].
  assert (Hs : 0 <= o /\ o + 48 <= ff).
  { unfold slot_at in Ho. apply fmap_Some in Ho as (b & Hb & ->). destruct (pl_index _ _ _ Pl _ _ Hb).
    pose proof (pl_grow _ _ _ Pl). pose proof (Nat.mod_upper_bound (length es) G). lia. }
  assert (Esz : u32 (Z.of_nat (length data)) = e_size e) by (unfold e_size; cbn; apply u32_small; lia).
  unfold with_item. fold ff. rewrite Esz, M2. wrap_small.
  split; try done; cbn [set_elements set_contents set_first_free m_FirstFree m_Elements contents].
  - by apply placed_stored.
  - rewrite length_app. cbn [length]. lia.
  - rewrite length_app. cbn [length]. lia.
  - by rewrite contents_stored, M7.
  - intros o1 x Hx. destruct (holds_stored _ _ _ _ _ _ Ho Hx) as [Hx'|[[-> ->]|[-> ->]]].
    + pose proof (holds_bounds _ _ _ _ _ Pl Hx') as [_ Hb].
      destruct (holds_new_slot _ _ _ _ _ _ Pl Ho Hx') as [H0 Hd].
      apply bytes_at_pwrite_other; [|lia]. apply bytes_at_pwrite_other; [by apply H|]. rewrite Hil. lia.
    + apply bytes_at_pwrite_other; [|rewrite slot_length by done; lia].
      eapply bytes_at_trans; [apply bytes_at_pwrite|exact Hib].
    + apply bytes_at_pwrite.
  - by apply long_write, long_write.
Qed.

Lemma store_tail l pos p :
  m_pageFull p = false -> (shouldClose;; writeHeader) (at_file l pos p) = Some (tt, at_file (pwrite l 0 (header_of p)) 28 p).
Proof.
  intros Hf. assert (E : shouldClose (at_file l pos p) = Some (tt, at_file l pos p)).
  { unfold shouldClose. sm_step (eq_refl (Some (true, at_file l pos p))). cbn [negb].
    sm_step (eq_refl (Some (at_file l pos p, at_file l pos p))).
    cbn [at_file set_file m_FirstFree m_ItemSize].
    pose proof (u32_range (m_FirstFree p + m_ItemSize p)). unfold UINT_MAX. rewrite (proj2 (Z.ltb_ge _ _)) by lia. done. }
  sm_step E. apply writeHeader_run.
Qed.

Lemma members_at_file p l pos l' es idx : members_ok p l' es idx <-> members_ok (at_file l pos p) l' es idx.
Proof. split; by intros []. Qed.

Lemma at_file_id p l pos : m_pFile p = Some (mk_FILE l pos) -> at_file l pos p = p.
Proof. destruct p. cbn. by intros ->. Qed.

(** A full index is followed by a new one. *)
Lemma make_room l pos p es idx :
  members_ok p l es idx -> (length idx = 1%nat \/ (G * (length idx - 1) < length es)%nat) ->
  m_FirstFree p + width + u32 (m_ItemSize p * Z.of_nat G) < 2 ^ 32 ->
  exists l1 pos1 p1 idx1,
    (if (m_Elements p `mod` m_Grow p =? 0) && (1 <? m_Elements p) then growPage else mret tt) (at_file l pos p) =
      Some (tt, at_file l1 pos1 p1) /\ members_ok p1 l1 es idx1 /\
    (G * (length idx1 - 1) <= length es < G * length idx1)%nat /\
    m_FirstFree p1 <= m_FirstFree p + width /\ m_ItemSize p1 = m_ItemSize p.
Proof.
  intros M Hneed Hroom. pose proof M as [Pl M2 M3 M4 M5 M6 M7 M8 H Hlen]. pose proof (pl_grow _ _ _ Pl) as Hg.
  pose proof (pl_enough _ _ _ Pl) as Hen. rewrite M2, M4.
  assert (Hm : Z.of_nat (length es) `mod` Z.of_nat G = Z.of_nat (length es `mod` G)%nat) by (by rewrite Nat2Z.inj_mod).
  pose proof (Nat.div_mod_eq (length es) G) as Hdm. rewrite Hm.
  assert (Hidx : (0 < length idx)%nat) by (pose proof (lookup_lt_Some _ _ _ (pl_first _ _ _ Pl)); lia).
  destruct ((Z.of_nat (length es `mod` G) =? 0) && (1 <? Z.of_nat (length es))) eqn:Ec.
  - apply andb_true_iff in Ec as [E1%Z.eqb_eq E2%Z.ltb_lt].
    destruct (grow_run l pos p es idx M Hroom) as (l' & p' & E & M' & Hff & Hsz).
    exists l', 28, p', (idx ++ [m_FirstFree p]). split; [exact E|]. split; [exact M'|]. split; [|split; [lia|done]].
    rewrite length_app. cbn [length].
    assert (length es = G * length idx)%nat; [|nia].
    apply Nat.le_antisymm; [exact Hen|].
    assert (length idx <= length es / G)%nat; [|nia].
    destruct Hneed as [Hn|Hn]; [rewrite Hn; nia|nia].
  - exists l, pos, p, idx. split; [done|]. split; [exact M|]. split; [|lia].
    apply andb_false_iff in Ec. split.
    + destruct Hneed as [Hn|Hn]; [rewrite Hn; lia|lia].
    + apply Nat.le_neq. split; [exact Hen|]. intros E. rewrite E, Nat.mul_comm, Nat.Div0.mod_mul in Ec.
      destruct Ec as [Ec|Ec%Z.ltb_ge]; [by apply Z.eqb_neq in Ec|nia].
Qed.

Lemma slot_at_last idx b (es : list entry) : idx !! (length idx - 1)%nat = Some b -> (1 < G)%nat ->
  (G * (length idx - 1) <= length es < G * length idx)%nat ->
  slot_at idx (length es) = Some (b + 48 * Z.of_nat (length es `mod` G)%nat).
Proof.
  intros Hb Hg Hl. unfold slot_at.
  replace (length es / G)%nat with (length idx - 1)%nat; [by rewrite Hb|].
  apply (Nat.div_unique _ _ _ (length es - G * (length idx - 1))); nia.
Qed.

(** The bytes that have to be free for an item. *)
Definition room (p : page) (data : list Z) : Prop :=
  m_FirstFree p + width + u32 (m_ItemSize p * Z.of_nat G) + Z.of_nat (length data) < 2 ^ 32.

Lemma page_store_run p es name data :
  page_ok p es -> name_ok name -> room p data -> Z.of_nat (length es) + 1 < 2 ^ 16 ->
  exists p' off, storeItem name data p = Some (tt, p') /\ page_ok p' (es ++ [mk_entry name data off]) /\
    m_FirstFree p' <= m_FirstFree p + width + Z.of_nat (length data) /\ m_ItemSize p' = m_ItemSize p.
Proof.
  intros [(l & pos & idx & Hf & M & Hneed & _)] Hn Hroom Hes. unfold room in Hroom.
  pose proof (u32_range (m_ItemSize p * Z.of_nat G)) as Hu.
  destruct (make_room l pos p es idx M Hneed) as (l1 & pos1 & p1 & idx1 & E1 & M1 & Hl & Hff & Hsz); [lia|].
  set (ff := m_FirstFree p1). set (o := m_LastIndex p1 + 48 * Z.of_nat (length es `mod` G)).
  assert (Hg : (1 < G)%nat) by apply M. assert (Hso : slot_at idx1 (length es) = Some o) by (apply slot_at_last; [apply M1|done..]).
  destruct (new_item_ok name data ff Hn) as (item & Ei & Hil & Hib).
  assert (M2 : members_ok (with_item name data p1) (pwrite (pwrite l1 (Z.to_nat o) item) (Z.to_nat ff) data)
    (es ++ [mk_entry name data ff]) idx1) by (apply members_stored; try done; [lia|fold ff; lia]).
  set (p2 := with_item name data p1) in *. set (l2 := pwrite (pwrite _ _ _) _ _) in *.
  destruct (header_write_ok _ _ _ _ (header_of p2) M2 (header_length _ _ _ _ _)) as [M3 Hb3].
  destruct (pl_index _ _ _ (mb_placed _ _ _ _ M1) _ _ (mb_last _ _ _ _ M1)) as [Hi1 Hi2].
  exists (at_file (pwrite l2 0 (header_of p2)) 28 p2), ff. split; [|split; [|split; [|exact Hsz]]].
  - rewrite <- (at_file_id p l pos Hf) at 1. unfold storeItem.
    sm_step (eq_refl (Some (true, at_file l pos p))). cbn [negb].
    rewrite (proj2 (Nat.ltb_ge _ _)) by (rewrite (proj1 Hn); lia).
    sm_step (eq_refl (Some (m_Elements p, at_file l pos p))). sm_step (eq_refl (Some (m_Grow p, at_file l pos p))).
    rewrite (proj2 (Z.eqb_neq (m_Grow p) 0)) by (rewrite (mb_grow _ _ _ _ M); lia).
    sm_step E1. sm_step (eq_refl (Some (m_LastIndex p1, at_file l1 pos1 p1))). sm_step (eq_refl (Some (ff, at_file l1 pos1 p1))).
    rewrite (mb_elements _ _ _ _ M), (mb_grow _ _ _ _ M), <- Nat2Z.inj_mod. fold o.
    sm_step (seek_run o l1 pos1 p1 ltac:(unfold o; lia)).
    sm_step (sm_lift_run _ item (at_file l1 o p1) Ei). sm_step (write_run item l1 o p1).
    sm_step (seek_run ff (pwrite l1 (Z.to_nat o) item) (o + Z.of_nat (length item)) p1 ltac:(lia)).
    sm_step (write_run data (pwrite l1 (Z.to_nat o) item) ff p1). fold l2.
    set (pos2 := ff + Z.of_nat (length data)).
    rewrite <- (mb_elements _ _ _ _ M1).
    do 3 sm_go. exact (store_tail l2 pos2 p2 (mb_full _ _ _ _ M2)).
  - constructor. exists (pwrite l2 0 (header_of p2)), 28, idx1. split; [done|]. split.
    + by apply members_at_file.
    + split; [|exact Hb3]. right. rewrite length_app. cbn [length]. lia.
  - change (u32 (m_FirstFree p1 + Z.of_nat (length data)) <= m_FirstFree p + width + Z.of_nat (length data)).
    rewrite u32_small by (fold ff; lia). lia.
Qed.

(** ** Retrieving *)
Lemma contents_items es n :
  match contents_of es !! n with
  | Some (off, sz) => exists i e, es !! i = Some e /\ e_name e = n /\ off = e_off e /\ sz = e_size e /\
      items es !! n = Some (e_data e)
  | None => items es !! n = None
  end.
Proof.
  induction es as [|e es IH] using rev_ind; [done|]. rewrite contents_stored. unfold items in *. rewrite foldl_app.
  cbn [foldl]. destruct (decide (e_name e = n)) as [<-|Hne].
  - rewrite !lookup_insert_eq. exists (length es), e. by rewrite lookup_app_r, Nat.sub_diag by lia.
  - rewrite !lookup_insert_ne by done. destruct (contents_of es !! n) as [[off sz]|]; [|exact IH].
    destruct IH as (i & e' & Hi & H). exists i, e'. split; [by apply lookup_app_l_Some|exact H].
Qed.

Lemma page_ok_at p l es idx pos pos' :
  members_ok p l es idx -> (length idx = 1%nat \/ (G * (length idx - 1) < length es)%nat) ->
  bytes_at l 0 (header_of p) -> m_pFile p = Some (mk_FILE l pos) -> page_ok (at_file l pos' p) es.
Proof.
  intros M Hn Hb Hf. constructor. exists l, pos', idx. split; [done|]. split; [by apply members_at_file|]. by split.
Qed.

Lemma read_at l pos p d n : bytes_at l (Z.to_nat pos) d -> length d = n ->
  read n (at_file l pos p) = Some (d, at_file l (pos + Z.of_nat n) p).
Proof. intros Hb Hl. unfold read, io. cbn [at_file set_file m_pFile mbind option_bind]. by rewrite (fread_at n _ d). Qed.

Lemma retrieve_run p es name :
  page_ok p es -> exists p', retrieveItem name p = Some (items es !! name, p') /\ page_ok p' es /\
    m_FirstFree p' = m_FirstFree p /\ m_ItemSize p' = m_ItemSize p.
Proof.
  intros Ok. pose proof Ok as [(l & pos & idx & Hf & M & Hneed & Hh)]. pose proof (contents_items es name) as Hc.
  assert (E : forall r p', match contents_of es !! name with
      | None => mret None
      | Some (first, second) =>
          seek first SEEK_SET;; d ← read (Z.to_nat second); mret (Some (overwrite (replicate (Z.to_nat second) 0) d))
      end (at_file l pos p) = Some (r, p') -> retrieveItem name p = Some (r, p')).
  { intros r p' E. rewrite <- (at_file_id p l pos Hf) at 1. unfold retrieveItem.
    sm_step (eq_refl (Some (true, at_file l pos p))). cbn [negb].
    sm_step (eq_refl (Some (contents p, at_file l pos p))). rewrite (mb_contents _ _ _ _ M). exact E. }
  destruct (contents_of es !! name) as [[off sz]|].
  - destruct Hc as (i & e & Hi & _ & -> & -> & ->). destruct (pl_data _ _ _ (mb_placed _ _ _ _ M) _ _ Hi) as (H0 & _ & _).
    exists (at_file l (e_off e + Z.of_nat (length (e_data e))) p). split; [|split; [by eapply page_ok_at|done]].
    apply E. sm_step (seek_run (e_off e) l pos p ltac:(lia)). unfold e_size. rewrite Nat2Z.id.
    sm_step (read_at l (e_off e) p (e_data e) (length (e_data e))); [by apply M; eapply holds_data|done|].
    by rewrite overwrite_all by (rewrite length_replicate; lia).
  - exists p. split; [|done]. rewrite Hc. apply E. by rewrite (at_file_id p l pos Hf).
Qed.

(** ** Creating *)
Definition fresh_page (p : page) : Prop := m_pFile p = None /\ contents p = ∅ /\ m_pageFull p = false.

Lemma page_create_run p size :
  fresh_page p -> (1 < G)%nat -> 28 + width < 2 ^ 32 -> 0 <= size < 2 ^ 32 ->
  exists p', create (Z.of_nat G) size p = Some (tt, p') /\ page_ok p' [] /\
    m_FirstFree p' = 28 + width /\ m_ItemSize p' = size.
Proof.
  intros (Hf & Hc & Hfull) Hg Hff Hsz. set (ff := 28 + width).
  set (hd := pageHeader 0 ff (Z.of_nat G) size PAGE_FLAG_NIL). assert (Hhd : length hd = 28%nat) by apply header_length.
  set (l1 := pwrite [] 0 hd). set (l2 := pwrite l1 (Z.to_nat (48 * Z.of_nat G + 28)) (le_bytes 4 INDEX_NEXT_EMPTY)).
  set (pos3 := u32 (size * Z.of_nat G) + Z.of_nat (length l2)). set (l3 := pwrite l2 (Z.to_nat pos3) [0]).
  pose proof (u32_range (size * Z.of_nat G)) as Hu.
  assert (Hl1 : (28 <= length l1 <= length l2)%nat).
  { pose proof (proj1 (pwrite_length l1 (Z.to_nat (48 * Z.of_nat G + 28)) (le_bytes 4 INDEX_NEXT_EMPTY))).
    pose proof (proj2 (pwrite_length [] 0 hd)) as H2. rewrite Hhd in H2. unfold l2. fold l1 in H2.
    assert (hd <> []) as Hne by (intros E; rewrite E in Hhd; done). specialize (H2 Hne). lia. }
  set (p' := set_members 0 ff (Z.of_nat G) size (at_file l3 (pos3 + 1) (set_last_index 28 p))).
  exists p'. split; [|split; [|done]].
  - unfold create. sm_step (eq_refl (Some (isOpen p, p))). unfold isOpen. rewrite Hf. cbn iota.
    sm_step (eq_refl (Some (tt, at_file [] 0 p))). unfold sizeof_pageHeader, sizeof_pageIndexItem.
    rewrite (u32_small (28 + 48 * Z.of_nat G + 4)) by lia. replace (28 + 48 * Z.of_nat G + 4) with ff by (unfold ff; lia).
    sm_step (write_run hd [] 0 p). fold l1. rewrite Hhd.
    sm_step (eq_refl (Some (tt, at_file l1 28 (set_last_index 28 p)))).
    sm_step (seek_cur_run (48 * Z.of_nat G) l1 28 (set_last_index 28 p) ltac:(lia)).
    sm_step (write_run (le_bytes 4 INDEX_NEXT_EMPTY) l1 (48 * Z.of_nat G + 28) (set_last_index 28 p)). fold l2.
    set (pos2 := _ + Z.of_nat (length (le_bytes _ _))).
    assert (E : seek (u32 (size * Z.of_nat G)) SEEK_END (at_file l2 pos2 (set_last_index 28 p)) =
      Some (tt, at_file l2 pos3 (set_last_index 28 p))).
    { unfold seek, io, fseek. cbn [at_file set_file m_pFile mbind option_bind f_bytes]. fold pos3.
      rewrite (proj2 (Z.ltb_ge pos3 0)) by (unfold pos3; lia). done. }
    sm_step E. sm_step (write_run [0] l2 pos3 (set_last_index 28 p)). done.
  - constructor. exists l3, (pos3 + 1), [28]. split; [done|]. split; [|split; [by left|]].
    + split; try done.
      * split; try done.
        -- cbn. lia.
        -- intros j o [-> <-]%list_lookup_singleton_Some. change (m_FirstFree p') with ff. unfold ff. lia.
        -- intros j j' o o' [-> _]%list_lookup_singleton_Some [-> _]%list_lookup_singleton_Some. lia.
      * intros o x [j o1 o2 H1 H2|i e o1 H1 H2|i e H1]; done.
      * apply Forall_singleton. pose proof (proj1 (pwrite_length l2 (Z.to_nat pos3) [0])) as H3. fold l3 in H3.
        pose proof (proj2 (pwrite_length l1 (Z.to_nat (48 * Z.of_nat G + 28)) (le_bytes 4 INDEX_NEXT_EMPTY)) ltac:(done)) as Hn.
        fold l2 in Hn. rewrite le_bytes_length in Hn. lia.
    + assert (Eh : header_of p' = hd) by (unfold header_of; cbn; by rewrite Hfull). rewrite Eh.
      apply bytes_at_pwrite_other; [|rewrite Hhd; unfold pos3; lia].
      apply bytes_at_pwrite_other; [|rewrite Hhd; lia]. apply bytes_at_pwrite.
Qed.

(** ** Walking over the index *)
(** In front of the entry [i], behind the one before it. *)
Definition cursor (idx : list Z) (i : nat) (last pos : Z) : Prop :=
  idx !! (pred i / G)%nat = Some last /\
  pos = last + 48 * (match i with O => 0 | S j => Z.of_nat (j `mod` G) + 1 end).

Lemma cursor_start es idx ff : placed es idx ff -> cursor idx 0 28 28.
Proof. intros Pl. split; [|done]. cbn [pred]. rewrite Nat.Div0.div_0_l. apply Pl. Qed.

Lemma next_slot i : (1 < G)%nat ->
  ((S i / G = S (i / G) /\ (S i `mod` G) = 0 /\ (i `mod` G) + 1 = G) \/
   (S i / G = i / G /\ (S i `mod` G) = (i `mod` G) + 1 /\ (i `mod` G) + 1 < G))%nat.
Proof.
  intros Hg. pose proof (Nat.div_mod_eq i G) as E. pose proof (Nat.mod_upper_bound i G ltac:(lia)) as Hm.
  destruct (decide (i `mod` G + 1 = G)%nat) as [Hl|Hl].
  - left. assert (E1 : (S i = G * S (i / G) + 0)%nat) by nia.
    rewrite <- (Nat.div_unique (S i) G (S (i / G)) 0), <- (Nat.mod_unique (S i) G (S (i / G)) 0); try done; lia.
  - right. assert (E1 : (S i = G * (i / G) + (i `mod` G + 1))%nat) by lia.
    rewrite <- (Nat.div_unique (S i) G (i / G) (i `mod` G + 1)), <- (Nat.mod_unique (S i) G (i / G) (i `mod` G + 1)); try done; lia.
Qed.

Lemma next_index_run l pos q p es idx i last :
  members_ok p l es idx -> (i < length es)%nat -> cursor idx i last pos ->
  exists o so, next_index last (Z.of_nat G) (at_file l pos q) = Some (o, at_file l so q) /\
    idx !! (i / G)%nat = Some o /\ slot_at idx i = Some so.
Proof.
  intros [Pl M2 M3 M4 M5 M6 M7 M8 H Hlen] Hi [Hlast ->]. pose proof (pl_grow _ _ _ Pl) as Hg.
  pose proof (pl_enough _ _ _ Pl) as Hen. pose proof (pl_free _ _ _ Pl) as Hfr.
  destruct (pl_index _ _ _ Pl _ _ Hlast) as [Hl1 Hl2]. unfold next_index, sizeof_pageIndexItem.
  assert (Hstay : forall k, 0 <= k < Z.of_nat G -> idx !! (i / G)%nat = Some last -> k = Z.of_nat (i `mod` G) ->
    exists o so, (pos ← tell; if last + 48 * Z.of_nat G =? u32 pos then
        d ← read 4; (let pointer := le_val (overwrite (le_bytes 4 last) d) in seek pointer SEEK_SET;; mret pointer)
      else mret last) (at_file l (last + 48 * k) q) = Some (o, at_file l so q) /\
      idx !! (i / G)%nat = Some o /\ slot_at idx i = Some so).
  { intros k Hk Hidx ->. exists last, (last + 48 * Z.of_nat (i `mod` G)). split; [|split; [done|unfold slot_at; by rewrite Hidx]].
    sm_go. cbn [ftell f_pos]. rewrite u32_small by lia. by rewrite (proj2 (Z.eqb_neq _ _)) by lia. }
  destruct i as [|j].
  - apply Hstay; [lia|exact Hlast|by rewrite Nat.Div0.mod_0_l].
  - cbn [pred] in Hlast. destruct (next_slot j Hg) as [(E1 & E2 & E3)|(E1 & E2 & E3)].
    + destruct (lookup_lt_is_Some_2 idx (S j / G)) as [o Ho]; [apply Nat.Div0.div_lt_upper_bound; lia|].
      destruct (pl_index _ _ _ Pl _ _ Ho) as [Ho1 Ho2].
      exists o, o. split; [|split; [done|unfold slot_at; rewrite Ho, E2; cbn; f_equal; lia]].
      replace (Z.of_nat (j `mod` G) + 1) with (Z.of_nat G) by lia.
      sm_go. cbn [ftell f_pos]. rewrite u32_small by lia. rewrite Z.eqb_refl.
      sm_step (read_at l (last + 48 * Z.of_nat G) q (le_bytes 4 o) 4); [|apply le_bytes_length|].
      { apply H. rewrite E1 in Ho. by eapply holds_link. }
      cbv zeta. rewrite overwrite_all, le_val_bytes by (by rewrite !le_bytes_length).
      rewrite (Z.mod_small o) by (change (256 ^ Z.of_nat 4) with (2 ^ 32); lia). by sm_step (seek_run o l (last + 48 * Z.of_nat G + Z.of_nat 4) q ltac:(lia)).
    + apply Hstay; [lia|by rewrite E1|lia].
Qed.

Lemma cursor_next idx i o so : idx !! (i / G)%nat = Some o -> slot_at idx i = Some so -> cursor idx (S i) o (so + 48).
Proof.
  intros Ho Hso. split; [done|]. unfold slot_at in Hso. rewrite Ho in Hso. injection Hso as <-. lia.
Qed.

Lemma read_item_run l q p es idx i e so :
  members_ok p l es idx -> es !! i = Some e -> slot_at idx i = Some so ->
  exists item, read_item (at_file l so q) = Some (item, at_file l (so + 48) q) /\ length item = 48%nat /\
    bytes_at item 0 (e_slot e) /\ bytes_at l (Z.to_nat so) item.
Proof.
  intros [Pl M2 M3 M4 M5 M6 M7 M8 H Hlen] He Hso. set (item := take 48 (drop (Z.to_nat so) l)).
  assert (Hl : length item = 48%nat).
  { unfold item. rewrite length_take, length_drop. unfold slot_at in Hso. apply fmap_Some in Hso as (o & Ho & ->).
    destruct (pl_index _ _ _ Pl _ _ Ho). pose proof (pl_grow _ _ _ Pl). pose proof (Nat.mod_upper_bound i G ltac:(lia)).
    rewrite Forall_lookup in Hlen. specialize (Hlen _ _ Ho). cbn in Hlen. lia. }
  assert (Hb : bytes_at l (Z.to_nat so) item).
  { intros k c Hk. unfold item in Hk. apply lookup_take_Some in Hk as [Hk _]. by rewrite lookup_drop in Hk. }
  exists item. split; [|split; [done|split; [|done]]].
  - unfold read_item. sm_step (read_at l so q item 48); [done..|]. by rewrite overwrite_all by (rewrite item0_length; lia).
  - intros k c Hk. apply lookup_lt_Some in Hk as Hkl. rewrite slot_length in Hkl by (by eapply pl_name).
    unfold item. rewrite lookup_take_lt, lookup_drop by lia. exact (H _ _ (holds_slot _ _ _ _ _ He Hso) k c Hk).
Qed.

(** The members of an entry that was read. *)
Lemma item_fields es idx ff i e item :
  placed es idx ff -> es !! i = Some e -> bytes_at item 0 (e_slot e) ->
  i_name item = e_name e /\ i_item item = e_off e /\ i_size item = e_size e /\ i_flags item = 0.
Proof.
  intros Pl He Hb. destruct (pl_data _ _ _ Pl _ _ He) as (H1 & H2 & _). pose proof (pl_free _ _ _ Pl).
  destruct (pl_name _ _ _ Pl _ _ He) as [Hn _]. unfold e_slot in Hb.
  rewrite !bytes_at_app, Hn, !le_bytes_length in Hb. destruct Hb as (B1 & B2 & B3 & B4).
  assert (0 <= e_size e) by (unfold e_size; lia).
  split; [|split; [|split]].
  - unfold i_name. rewrite <- Hn. rewrite <- (drop_0 item). by rewrite (bytes_at_read item 0 (e_name e) B1).
  - unfold i_item. rewrite (field_at 40 4 item (e_off e) B3). apply Z.mod_small. change (256 ^ Z.of_nat 4) with (2 ^ 32). lia.
  - unfold i_size. rewrite (field_at 36 4 item (e_size e) B2). apply Z.mod_small. change (256 ^ Z.of_nat 4) with (2 ^ 32). lia.
  - unfold i_flags. exact (field_at 44 1 item 0 B4).
Qed.

(** ** Opening *)
Lemma open_loop_run n l pos q p es idx i :
  members_ok p l es idx -> (length es = i + n)%nat -> cursor idx i (m_LastIndex q) pos ->
  contents q = contents_of (take i es) ->
  exists pos' q', open_loop n (Z.of_nat G) (at_file l pos q) = Some (tt, at_file l pos' q') /\
    cursor idx (length es) (m_LastIndex q') pos' /\ contents q' = contents_of es /\ m_pageFull q' = m_pageFull q.
Proof.
  intros M. revert i pos q. induction n as [|n IH]; intros i pos q Hi Hc Hco.
  - assert (i = length es) as -> by lia. rewrite firstn_all in Hco. exists pos, q. split; [done|]. by split.
  - destruct (lookup_lt_is_Some_2 es i) as [e He]; [lia|].
    destruct (next_index_run l pos q p es idx i _ M ltac:(lia) Hc) as (o & so & E1 & Ho & Hso).
    set (q1 := set_last_index o q).
    destruct (read_item_run l q1 p es idx i e so M He Hso) as (item & E2 & _ & Hb & _).
    destruct (item_fields es idx _ i e item (mb_placed _ _ _ _ M) He Hb) as (F1 & F2 & F3 & F4).
    set (q2 := set_contents (<[e_name e := (e_off e, e_size e)]> (contents q1)) q1).
    destruct (IH (S i) (so + 48) q2) as (pos' & q' & E & C1 & C2 & C3); [lia|by eapply cursor_next| |].
    { cbn [q2 set_contents contents]. rewrite (take_S_r _ _ _ He), contents_stored. by rewrite <- Hco. }
    exists pos', q'. split; [|by split]. cbn [open_loop]. sm_step (eq_refl (Some (m_LastIndex q, at_file l pos q))).
    sm_step E1. sm_step (eq_refl (Some (tt, at_file l so q1))). sm_step E2. rewrite F4. cbn [Z.land Z.eqb negb].
    rewrite F1, F2, F3. sm_step (eq_refl (Some (tt, at_file l (so + 48) q2))). exact E.
Qed.

(** The fields of the header. *)
Lemma header_fields e ff g sz fl :
  let h := pageHeader e ff g sz fl in
  take 8 h = PAGE_MAGIC ++ [0] /\ h_elements h = e `mod` 2 ^ 16 /\ h_first_free h = ff `mod` 2 ^ 32 /\
  h_grow_items h = g `mod` 2 ^ 32 /\ h_item_size h = sz `mod` 2 ^ 32 /\ h_flags h = fl `mod` 2 ^ 32.
Proof.
  intros h. assert (H : bytes_at h 0 h) by (intros i c Hi; exact Hi). unfold h at 2, pageHeader, header_with in H.
  rewrite !bytes_at_app, !le_bytes_length, Hpad in H. destruct H as ((_ & _) & B1 & _ & B2 & B3 & B4 & B5).
  split; [done|]. split; [|split; [|split; [|split]]].
  - exact (field_at 8 2 h e B1).
  - exact (field_at 12 4 h ff B2).
  - exact (field_at 16 4 h g B3).
  - exact (field_at 20 4 h sz B4).
  - exact (field_at 24 4 h fl B5).
Qed.

Lemma cursor_last idx (es : list entry) last pos b :
  cursor idx (length es) last pos -> (1 < G)%nat -> (length es <= G * length idx)%nat ->
  (length idx = 1%nat \/ (G * (length idx - 1) < length es)%nat) -> idx !! (length idx - 1)%nat = Some b -> last = b.
Proof.
  intros [Hl _] Hg Hen Hn Hb. enough (pred (length es) / G = length idx - 1)%nat as E by (rewrite E in Hl; congruence).
  symmetry. apply (Nat.div_unique _ _ _ (pred (length es) - G * (length idx - 1))); destruct Hn as [Hn|Hn]; try rewrite Hn; nia.
Qed.

(** The file of a page makes the same page again. *)
Lemma page_open_run p es f q :
  page_ok p es -> m_pFile p = Some f -> fresh_page q ->
  exists q', open (f_bytes f) q = Some (tt, q') /\ page_ok q' es /\
    m_FirstFree q' = m_FirstFree p /\ m_ItemSize q' = m_ItemSize p.
Proof.
  intros [(l & pos & idx & Hf & M & Hneed & Hh)] Ef (Hq & Hqc & Hqf). rewrite Hf in Ef. injection Ef as <-. cbn [f_bytes].
  pose proof M as [Pl M2 M3 M4 M5 M6 M7 M8 H Hlen]. destruct (pl_index _ _ _ Pl _ _ M5) as [_ Hff].
  pose proof (pl_free _ _ _ Pl) as Hfr. destruct (pl_index _ _ _ Pl _ _ (pl_first _ _ _ Pl)) as [_ Hff0].
  destruct (header_fields (m_Elements p) (m_FirstFree p) (m_Grow p) (m_ItemSize p) PAGE_FLAG_NIL) as (F1 & F2 & F3 & F4 & F5 & F6).
  assert (Eh : header_of p = pageHeader (m_Elements p) (m_FirstFree p) (m_Grow p) (m_ItemSize p) PAGE_FLAG_NIL)
    by (unfold header_of; by rewrite M6).
  rewrite M2 in F2 at 2. rewrite M4 in F4 at 2. rewrite Z.mod_small in F2 by lia. rewrite Z.mod_small in F3 by lia.
  rewrite Z.mod_small in F4 by lia. rewrite Z.mod_small in F5 by lia. rewrite <- Eh in *.
  set (q1 := set_last_index 28 q).
  destruct (open_loop_run (length es) l 28 q1 p es idx 0 M) as (pos' & q' & E & C1 & C2 & C3);
    [done|by eapply cursor_start|exact Hqc|].
  set (q2 := set_members (Z.of_nat (length es)) (m_FirstFree p) (Z.of_nat G) (m_ItemSize p) q').
  exists (at_file l pos' q2). split; [|split; [|done]].
  - unfold open. sm_step (eq_refl (Some (isOpen q, q))). unfold isOpen. rewrite Hq. cbn iota.
    sm_step (eq_refl (Some (tt, at_file l 0 q))).
    sm_step (read_at l 0 q (header_of p) 28); [exact Hh|apply header_length|].
    rewrite overwrite_all; [|rewrite Eh, header_length; unfold header_with; rewrite !length_app, !le_bytes_length, Hmagic, Hpad; cbn; lia].
    cbv zeta. rewrite F1, bool_decide_eq_true_2 by done. cbn [negb].
    rewrite F6. cbn [Z.land Z.eqb negb]. sm_step (eq_refl (Some (tt, at_file l 28 q))).
    sm_step (eq_refl (Some (tt, at_file l 28 q1))). rewrite F2, F4, Nat2Z.id. sm_step E. rewrite F3, F5. done.
  - constructor. exists l, pos', idx. split; [done|]. split; [apply members_at_file|split; [exact Hneed|]].
    + split; try done; cbn [q2 set_members m_LastIndex m_pageFull contents]; [|by rewrite C3].
      rewrite (cursor_last _ es _ _ (m_LastIndex p) C1); [exact M5|apply Pl..|exact Hneed|exact M5].
    + replace (header_of (at_file l pos' q2)) with (header_of p); [exact Hh|].
      unfold header_of. cbn [at_file set_file q2 set_members m_Elements m_FirstFree m_Grow m_ItemSize m_pageFull].
      rewrite C3, M2, M4, M6. cbn [q1 set_last_index m_pageFull]. by rewrite Hqf.
Qed.

(** ** Closing *)
Lemma delete_run p es :
  page_ok p es -> exists l p', Filepage_delete p = Some l /\ m_pFile p' = Some (mk_FILE l 28) /\ page_ok p' es /\
    m_FirstFree p' = m_FirstFree p /\ m_ItemSize p' = m_ItemSize p.
Proof.
  intros [(l & pos & idx & Hf & M & Hneed & _)].
  destruct (header_write_ok p l es idx (header_of p) M (header_length _ _ _ _ _)) as [M' Hh].
  set (l' := pwrite l 0 (header_of p)) in *. exists l', (at_file l' 28 p). split; [|split; [done|split; [|done]]].
  - unfold Filepage_delete. rewrite <- (at_file_id p l pos Hf). by rewrite writeHeader_run.
  - constructor. exists l', 28, idx. split; [done|]. split; [by apply members_at_file|]. by split.
Qed.

(** ** Sequences of operations *)
Inductive operation := Store (name data : list Z) | Retrieve (name : list Z) | Reopen.

(** [new] is the object in which the file is opened again. *)
Definition operate (new : page) (o : operation) : P (option (list Z)) :=
  match o with
  | Store name data => storeItem name data;; mret None
  | Retrieve name => retrieveItem name
  | Reopen => fun p => l ← Filepage_delete p; '(_, q) ← open l new; Some (None, q)
  end.

Fixpoint operate_all (new : page) (os : list operation) : P (list (option (list Z))) :=
  match os with
  | [] => mret []
  | o :: os => r ← operate new o; rs ← operate_all new os; mret (r :: rs)
  end.

(** What a map of names to data answers. *)
Fixpoint answers (m : gmap (list Z) (list Z)) (os : list operation) : list (option (list Z)) :=
  match os with
  | [] => []
  | Store name data :: os => None :: answers (<[name := data]> m) os
  | Retrieve name :: os => m !! name :: answers m os
  | Reopen :: os => None :: answers m os
  end.

(** The bytes and the entries the stores need. *)
Fixpoint space (os : list operation) : Z :=
  match os with
  | [] => 0
  | Store _ data :: os => width + Z.of_nat (length data) + space os
  | _ :: os => space os
  end.
Fixpoint stores (os : list operation) : Z :=
  match os with [] => 0 | Store _ _ :: os => 1 + stores os | _ :: os => stores os end.

Definition named_ok (o : operation) : Prop := match o with Store name _ => name_ok name | _ => True end.

Lemma page_space_nonneg os : 0 <= space os.
Proof. induction os as [|[] os IH]; cbn [space]; lia. Qed.
Lemma stores_nonneg os : 0 <= stores os.
Proof. induction os as [|[] os IH]; cbn [stores]; lia. Qed.

Lemma items_stored es e : items (es ++ [e]) = <[e_name e := e_data e]> (items es).
Proof. unfold items. by rewrite foldl_app. Qed.

Lemma operate_all_run new os p es :
  fresh_page new -> page_ok p es -> Forall named_ok os ->
  m_FirstFree p + space os + u32 (m_ItemSize p * Z.of_nat G) < 2 ^ 32 ->
  Z.of_nat (length es) + stores os < 2 ^ 16 ->
  exists p' es', operate_all new os p = Some (answers (items es) os, p') /\ page_ok p' es'.
Proof.
  intros Hnew. revert p es. induction os as [|o os IH]; intros p es Ok Hn Hs Hc; [by exists p, es|].
  apply Forall_cons in Hn as [Ho Hn]. pose proof (page_space_nonneg os). pose proof (stores_nonneg os).
  destruct o as [name data|name|]; cbn [space stores] in Hs, Hc.
  - destruct (page_store_run p es name data Ok Ho) as (p1 & off & E1 & Ok1 & Hff & Hsz); [unfold room; lia|lia|].
    destruct (IH p1 _ Ok1 Hn) as (p2 & es2 & E2 & Ok2); [rewrite Hsz; lia|rewrite length_app; cbn [length]; lia|].
    exists p2, es2. split; [|exact Ok2]. cbn [operate_all answers operate]. rewrite items_stored in E2. cbn [e_name e_data] in E2.
    assert (E1' : (storeItem name data;; mret (None : option (list Z))) p = Some (None, p1)) by (by sm_step E1).
    sm_step E1'. by sm_step E2.
  - destruct (retrieve_run p es name Ok) as (p1 & E1 & Ok1 & Hff & Hsz).
    destruct (IH p1 _ Ok1 Hn) as (p2 & es2 & E2 & Ok2); [rewrite Hff, Hsz; lia|lia|].
    exists p2, es2. split; [|exact Ok2]. cbn [operate_all answers operate]. sm_step E1. by sm_step E2.
  - destruct (delete_run p es Ok) as (l & pd & Ed & Hfd & Okd & Hffd & Hszd).
    destruct (page_open_run pd es _ new Okd Hfd Hnew) as (p1 & E1 & Ok1 & Hff & Hsz).
    destruct (IH p1 _ Ok1 Hn) as (p2 & es2 & E2 & Ok2); [rewrite Hff, Hsz, Hffd, Hszd; lia|lia|].
    exists p2, es2. split; [|exact Ok2]. cbn [operate_all answers].
    assert (E1' : operate new Reopen p = Some (None, p1)) by (cbn [operate]; rewrite Ed; cbn [mbind option_bind]; cbn [f_bytes] in E1; by rewrite E1).
    sm_step E1'. by sm_step E2.
Qed.

(** C8: A new page answers like a map of names to data, whatever is stored,
    retrieved and in between closed and opened, as long as names are
    identifiers and positions fit 32 bits. *)
Theorem page_refines_map new size os :
  fresh_page new -> (1 < G)%nat -> 0 <= size < 2 ^ 32 -> Forall named_ok os ->
  28 + width + space os + u32 (size * Z.of_nat G) < 2 ^ 32 -> stores os < 2 ^ 16 ->
  exists p p', create (Z.of_nat G) size new = Some (tt, p) /\ operate_all new os p = Some (answers ∅ os, p').
Proof.
  intros Hnew Hg Hsz Hn Hs Hc. pose proof (page_space_nonneg os). pose proof (u32_range (size * Z.of_nat G)).
  destruct (page_create_run new size Hnew Hg) as (p & E & Ok & Hff & Hsz'); [lia|done|].
  destruct (operate_all_run new os p [] Hnew Ok Hn) as (p' & es' & E' & _); [rewrite Hff, Hsz'; lia|cbn; lia|].
  exists p, p'. by split.
Qed.

(** ** Removing *)
Lemma same_name_slot item e name :
  length item = 48%nat -> bytes_at item 0 (e_slot e) -> name_ok (e_name e) -> name_ok name ->
  same_name item name = true -> e_name e = name /\ e_size e `mod` 256 = 0.
Proof.
  intros Hl Hb [He _] [Hn Hz] Hs. unfold same_name in Hs. rewrite until_nul_id in Hs by done.
  apply bool_decide_eq_true in Hs. rewrite Hn in Hs. unfold e_slot in Hb.
  assert (Ht : take 37 item = e_name e ++ [e_size e `mod` 256]).
  { change (le_bytes 4 (e_size e)) with ([e_size e `mod` 256] ++ le_bytes 3 (e_size e / 256)) in Hb.
    rewrite <- !app_assoc, (app_assoc (e_name e)) in Hb. apply bytes_at_app in Hb as [Hb _].
    rewrite <- (drop_0 item). rewrite <- (bytes_at_read _ _ _ Hb). f_equal. rewrite length_app, He. done. }
  rewrite Ht in Hs. apply app_inj_1 in Hs as [H1 H2]; [|by rewrite He, Hn]. split; [done|by injection H2].
Qed.

Lemma remove_loop_run n l pos q p es idx i last name :
  members_ok p l es idx -> (length es = i + n)%nat -> cursor idx i last pos -> name_ok name ->
  (forall e, e ∈ es -> e_name e = name -> e_size e `mod` 256 <> 0) ->
  exists pos', remove_loop n (Z.of_nat G) last name (at_file l pos q) = Some (tt, at_file l pos' q).
Proof.
  intros M. revert i pos last. induction n as [|n IH]; intros i pos last Hi Hc Hn Hd; [by exists pos|].
  destruct (lookup_lt_is_Some_2 es i) as [e He]; [lia|].
  destruct (next_index_run l pos q p es idx i _ M ltac:(lia) Hc) as (o & so & E1 & Ho & Hso).
  destruct (read_item_run l q p es idx i e so M He Hso) as (item & E2 & Hil & Hb & _).
  destruct (IH (S i) (so + 48) o) as (pos' & E); [lia|by eapply cursor_next|done|done|].
  exists pos'. cbn [remove_loop]. sm_step E1. sm_step E2.
  destruct (same_name item name) eqn:Es.
  - apply (same_name_slot item e) in Es as [H1 H2]; [|done|done|by eapply pl_name; [apply M|]|done].
    exfalso. by apply (Hd e); [eapply list_elem_of_lookup_2|..].
  - sm_go. exact E.
Qed.

(** An item whose size is not a multiple of 256 is never removed: the name of
    its entry has no end, and the object keeps the item anyway. *)
Theorem removed_item_stays p es name :
  page_ok p es -> name_ok name -> (forall e, e ∈ es -> e_name e = name -> e_size e `mod` 256 <> 0) ->
  exists p', removeItem name p = Some (tt, p') /\ f_bytes <$> m_pFile p' = f_bytes <$> m_pFile p /\ page_ok p' es.
Proof.
  intros Ok Hn Hd. pose proof Ok as [(l & pos & idx & Hf & M & Hneed & Hh)].
  assert (E : forall p', match contents p !! name with
      | None => mret tt
      | Some _ =>
          seek sizeof_pageHeader SEEK_SET;; p ← sm_gets (fun p => p);
          remove_loop (Z.to_nat (m_Elements p)) (m_Grow p) sizeof_pageHeader name
      end (at_file l pos p) = Some (tt, p') -> removeItem name p = Some (tt, p')).
  { intros p' E. rewrite <- (at_file_id p l pos Hf) at 1. unfold removeItem.
    sm_step (eq_refl (Some (true, at_file l pos p))). cbn [negb].
    sm_step (eq_refl (Some (contents p, at_file l pos p))). exact E. }
  destruct (contents p !! name).
  - destruct (remove_loop_run (length es) l 28 p p es idx 0 28 name M) as [pos' E']; [done| |done|done|].
    { eapply cursor_start, M. }
    exists (at_file l pos' p). split; [|split; [by rewrite Hf|by eapply page_ok_at]].
    apply E. sm_step (seek_run sizeof_pageHeader l pos p ltac:(done)).
    sm_step (eq_refl (Some (at_file l 28 p, at_file l 28 p))).
    cbn [at_file set_file m_Elements m_Grow]. rewrite (mb_elements _ _ _ _ M), (mb_grow _ _ _ _ M), Nat2Z.id. exact E'.
  - exists p. split; [|done]. apply E. by rewrite (at_file_id p l pos Hf).
Qed.
End Layout.

(** ** A page is never full *)
Lemma io_keeps_full {A} (f : FILE -> A * FILE) : sm_keeps m_pageFull (io f).
Proof.
  intros p x p' E. unfold io in E. destruct (m_pFile p) as [h|]; [|done]. cbn [mbind option_bind] in E.
  destruct (f h). by injection E as _ <-.
Qed.

Lemma shouldClose_keeps_full : sm_keeps m_pageFull shouldClose.
Proof.
  unfold shouldClose. apply sm_keeps_bind; [auto with keeps|]. intros [|]; cbn [negb]; [|auto with keeps].
  apply sm_keeps_bind; [auto with keeps|]. intros q. rewrite (proj2 (Z.ltb_ge _ _)); [auto with keeps|].
  pose proof (u32_range (m_FirstFree q + m_ItemSize q)). unfold UINT_MAX. lia.
Qed.

Ltac keeps_full :=
  repeat first
    [ apply io_keeps_full | apply shouldClose_keeps_full | apply sm_keeps_bind; [|intros] | case_match | solve [auto with keeps] ].

(** The test for the last position of a file is an unsigned comparison with
    the largest number: storing never marks a page as full. *)
Theorem page_never_full name data p p' :
  storeItem name data p = Some (tt, p') -> m_pageFull p' = m_pageFull p.
Proof.
  assert (H : sm_keeps m_pageFull (storeItem name data)); [|exact (H p tt p')].
  unfold storeItem, seek, write. keeps_full.
Qed.
End Page.

(** ** A small page *)
Notation with_junk f := (f (replicate 8 7) (replicate 2 7) (replicate 48 7) (length_replicate _ _)
  (length_replicate _ _) (length_replicate _ _)).
Definition demo_new : page := mk_page 7 7 7 7 7 None ∅ false.
Definition demo_name (c : Z) : list Z := replicate 36 c.
Definition demo_ops : list operation :=
  [Store (demo_name 97) (bs "one"); Store (demo_name 98) (bs "two"); Retrieve (demo_name 97);
   Store (demo_name 99) []; Reopen; Retrieve (demo_name 98); Store (demo_name 97) (bs "four");
   Retrieve (demo_name 97); Retrieve (demo_name 100)].

Lemma demo_name_ok c : c <> 0 -> name_ok (demo_name c).
Proof. intros Hc. split; [apply length_replicate|]. by apply Forall_replicate. Qed.

Lemma page_refines_map_witness :
  exists p p', create (replicate 2 7) 2 10 demo_new = Some (tt, p) /\
    operate_all (replicate 8 7) (replicate 2 7) (replicate 48 7) demo_new demo_ops p =
      Some ([None; None; Some (bs "one"); None; None; Some (bs "two"); None; Some (bs "four"); None], p').
Proof.
  apply (with_junk page_refines_map 2 demo_new 10 demo_ops).
  - by split.
  - lia.
  - lia.
  - repeat apply Forall_cons_2; try exact I; try apply Forall_nil_2; apply demo_name_ok; lia.
  - apply Z.ltb_lt. vm_compute. reflexivity.
  - apply Z.ltb_lt. vm_compute. reflexivity.
Defined.

Lemma removed_item_stays_witness :
  exists p p1 p2 p3, create (replicate 2 7) 2 10 demo_new = Some (tt, p) /\
    storeItem (replicate 2 7) (replicate 48 7) (demo_name 97) (bs "one") p = Some (tt, p1) /\
    removeItem (replicate 48 7) (demo_name 97) p1 = Some (tt, p2) /\
    retrieveItem (demo_name 97) p2 = Some (Some (bs "one"), p3).
Proof.
  destruct (with_junk page_create_run 2 demo_new 10) as (p & E & Ok & Hff & Hsz);
    [by split|lia|lia|lia|].
  destruct (with_junk page_store_run 2 p [] (demo_name 97) (bs "one") Ok)
    as (p1 & off & E1 & Ok1 & _); [apply demo_name_ok; lia| |cbn; lia|].
  { unfold room. rewrite Hff, Hsz. apply Z.ltb_lt. vm_compute. reflexivity. }
  destruct (with_junk removed_item_stays 2 p1 _ (demo_name 97) Ok1)
    as (p2 & E2 & _ & Ok2); [apply demo_name_ok; lia| |].
  { intros e He _. apply list_elem_of_singleton in He as ->. vm_compute. discriminate. }
  destruct (with_junk retrieve_run 2 p2 _ (demo_name 97) Ok2) as (p3 & E3 & _).
  exists p, p1, p2, p3. split; [exact E|]. split; [exact E1|]. split; [exact E2|]. rewrite E3. reflexivity.
Defined.

Lemma page_never_full_witness :
  exists p p1, create (replicate 2 7) 2 10 demo_new = Some (tt, p) /\
    storeItem (replicate 2 7) (replicate 48 7) (demo_name 97) (bs "one") p = Some (tt, p1) /\
    m_pageFull p1 = m_pageFull p.
Proof.
  destruct (with_junk page_create_run 2 demo_new 10) as (p & E & Ok & Hff & Hsz);
    [by split|lia|lia|lia|].
  destruct (with_junk page_store_run 2 p [] (demo_name 97) (bs "one") Ok)
    as (p1 & off & E1 & Ok1 & _); [apply demo_name_ok; lia| |cbn; lia|].
  { unfold room. rewrite Hff, Hsz. apply Z.ltb_lt. vm_compute. reflexivity. }
  exists p, p1. split; [exact E|]. split; [exact E1|].
  exact (with_junk page_never_full (demo_name 97) (bs "one") p p1 E1).
Defined.
End Filepage.
