(* ===== verification/Crc32.v ===== *)
(** * common: checksums of strings (crc32.h, sdbm_hash.h)

    The two hash functors the programs use, and that the table of the first
    is that of the reflected CRC-32 polynomial. *)
From S2P Require Import Prelude CLib.

Module Crc32.

Definition kCrc32Table : list Z := [
    0x00000000; 0x77073096; 0xee0e612c; 0x990951ba; 0x076dc419; 0x706af48f; 0xe963a535; 0x9e6495a3;
    0x0edb8832; 0x79dcb8a4; 0xe0d5e91e; 0x97d2d988; 0x09b64c2b; 0x7eb17cbd; 0xe7b82d07; 0x90bf1d91;
    0x1db71064; 0x6ab020f2; 0xf3b97148; 0x84be41de; 0x1adad47d; 0x6ddde4eb; 0xf4d4b551; 0x83d385c7;
    0x136c9856; 0x646ba8c0; 0xfd62f97a; 0x8a65c9ec; 0x14015c4f; 0x63066cd9; 0xfa0f3d63; 0x8d080df5;
    0x3b6e20c8; 0x4c69105e; 0xd56041e4; 0xa2677172; 0x3c03e4d1; 0x4b04d447; 0xd20d85fd; 0xa50ab56b;
    0x35b5a8fa; 0x42b2986c; 0xdbbbc9d6; 0xacbcf940; 0x32d86ce3; 0x45df5c75; 0xdcd60dcf; 0xabd13d59;
    0x26d930ac; 0x51de003a; 0xc8d75180; 0xbfd06116; 0x21b4f4b5; 0x56b3c423; 0xcfba9599; 0xb8bda50f;
    0x2802b89e; 0x5f058808; 0xc60cd9b2; 0xb10be924; 0x2f6f7c87; 0x58684c11; 0xc1611dab; 0xb6662d3d;
    0x76dc4190; 0x01db7106; 0x98d220bc; 0xefd5102a; 0x71b18589; 0x06b6b51f; 0x9fbfe4a5; 0xe8b8d433;
    0x7807c9a2; 0x0f00f934; 0x9609a88e; 0xe10e9818; 0x7f6a0dbb; 0x086d3d2d; 0x91646c97; 0xe6635c01;
    0x6b6b51f4; 0x1c6c6162; 0x856530d8; 0xf262004e; 0x6c0695ed; 0x1b01a57b; 0x8208f4c1; 0xf50fc457;
    0x65b0d9c6; 0x12b7e950; 0x8bbeb8ea; 0xfcb9887c; 0x62dd1ddf; 0x15da2d49; 0x8cd37cf3; 0xfbd44c65;
    0x4db26158; 0x3ab551ce; 0xa3bc0074; 0xd4bb30e2; 0x4adfa541; 0x3dd895d7; 0xa4d1c46d; 0xd3d6f4fb;
    0x4369e96a; 0x346ed9fc; 0xad678846; 0xda60b8d0; 0x44042d73; 0x33031de5; 0xaa0a4c5f; 0xdd0d7cc9;
    0x5005713c; 0x270241aa; 0xbe0b1010; 0xc90c2086; 0x5768b525; 0x206f85b3; 0xb966d409; 0xce61e49f;
    0x5edef90e; 0x29d9c998; 0xb0d09822; 0xc7d7a8b4; 0x59b33d17; 0x2eb40d81; 0xb7bd5c3b; 0xc0ba6cad;
    0xedb88320; 0x9abfb3b6; 0x03b6e20c; 0x74b1d29a; 0xead54739; 0x9dd277af; 0x04db2615; 0x73dc1683;
    0xe3630b12; 0x94643b84; 0x0d6d6a3e; 0x7a6a5aa8; 0xe40ecf0b; 0x9309ff9d; 0x0a00ae27; 0x7d079eb1;
    0xf00f9344; 0x8708a3d2; 0x1e01f268; 0x6906c2fe; 0xf762575d; 0x806567cb; 0x196c3671; 0x6e6b06e7;
    0xfed41b76; 0x89d32be0; 0x10da7a5a; 0x67dd4acc; 0xf9b9df6f; 0x8ebeeff9; 0x17b7be43; 0x60b08ed5;
    0xd6d6a3e8; 0xa1d1937e; 0x38d8c2c4; 0x4fdff252; 0xd1bb67f1; 0xa6bc5767; 0x3fb506dd; 0x48b2364b;
    0xd80d2bda; 0xaf0a1b4c; 0x36034af6; 0x41047a60; 0xdf60efc3; 0xa867df55; 0x316e8eef; 0x4669be79;
    0xcb61b38c; 0xbc66831a; 0x256fd2a0; 0x5268e236; 0xcc0c7795; 0xbb0b4703; 0x220216b9; 0x5505262f;
    0xc5ba3bbe; 0xb2bd0b28; 0x2bb45a92; 0x5cb36a04; 0xc2d7ffa7; 0xb5d0cf31; 0x2cd99e8b; 0x5bdeae1d;
    0x9b64c2b0; 0xec63f226; 0x756aa39c; 0x026d930a; 0x9c0906a9; 0xeb0e363f; 0x72076785; 0x05005713;
    0x95bf4a82; 0xe2b87a14; 0x7bb12bae; 0x0cb61b38; 0x92d28e9b; 0xe5d5be0d; 0x7cdcefb7; 0x0bdbdf21;
    0x86d3d2d4; 0xf1d4e242; 0x68ddb3f8; 0x1fda836e; 0x81be16cd; 0xf6b9265b; 0x6fb077e1; 0x18b74777;
    0x88085ae6; 0xff0f6a70; 0x66063bca; 0x11010b5c; 0x8f659eff; 0xf862ae69; 0x616bffd3; 0x166ccf45;
    0xa00ae278; 0xd70dd2ee; 0x4e048354; 0x3903b3c2; 0xa7672661; 0xd06016f7; 0x4969474d; 0x3e6e77db;
    0xaed16a4a; 0xd9d65adc; 0x40df0b66; 0x37d83bf0; 0xa9bcae53; 0xdebb9ec5; 0x47b2cf7f; 0x30b5ffe9;
    0xbdbdf21c; 0xcabac28a; 0x53b39330; 0x24b4a3a6; 0xbad03605; 0xcdd70693; 0x54de5729; 0x23d967bf;
    0xb3667a2e; 0xc4614ab8; 0x5d681b02; 0x2a6f2b94; 0xb40bbe37; 0xc30c8ea1; 0x5a05df1b; 0x2d02ef8d ].

(** One byte: [(_crc ^ *pCur) & 0xff] is an index below 256. *)
Definition crc_round (_crc c : Z) : Z :=
  Z.lxor (Z.shiftr _crc 8) (nth (Z.to_nat (Z.land (Z.lxor _crc (u8 c)) 0xff)) kCrc32Table 0).

(** The number of bytes left is kept in 32 bits. *)
Definition crc_loop (remaining : nat) (_crc : Z) (cur : list Z) : Z := foldl crc_round _crc (take remaining cur).

(** [operator()]: the string at the beginning of the memory [m]. *)
Definition crc32 (m : mem) : option Z :=
  str ← cstr m;
  let remaining := u32 (Z.of_nat (length str)) in
  Some (u32 (Z.lnot (crc_loop (Z.to_nat remaining) (u32 (Z.lnot 0)) str))).

(** [c] is a signed character, the arithmetic that of [size_t]. *)
Definition sdbm_round (hash c : Z) : Z := u64 (i8 c + u64 (Z.shiftl hash 6) + u64 (Z.shiftl hash 16) - hash).
Definition sdbm_hash (m : mem) : option Z := str ← cstr m; Some (foldl sdbm_round 0 str).

(** ** The checksum bit by bit *)
Definition POLYNOMIAL : Z := 0xedb88320.

(** A step of the shift register, and [k] of them. *)
Definition bit_step (x : Z) : Z := Z.lxor (Z.shiftr x 1) (if Z.odd x then POLYNOMIAL else 0).
Fixpoint bit_steps (k : nat) (x : Z) : Z := match k with O => x | S k => bit_step (bit_steps k x) end.

(** The reference: each byte is added at the low end and shifted through. *)
Definition crc_reference (str : list Z) : Z :=
  Z.lxor (2 ^ 32 - 1) (foldl (fun x c => bit_steps 8 (Z.lxor x c)) (2 ^ 32 - 1) str).

Lemma table_entries : forall i, 0 <= i < 256 -> nth (Z.to_nat i) kCrc32Table 0 = bit_steps 8 i.
Proof.
  intros i Hi. apply Z.eqb_eq.
  apply (range_forallb (fun i => nth (Z.to_nat i) kCrc32Table 0 =? bit_steps 8 i) 256); [vm_compute; reflexivity|lia].
Qed.

(** High bits that are still to be shifted in stay out of the way. *)
Lemma bit_steps_high k lo hi : (k <= 8)%nat ->
  bit_steps k (Z.lxor lo (Z.shiftl hi 8)) = Z.lxor (bit_steps k lo) (Z.shiftl hi (8 - Z.of_nat k)).
Proof.
  induction k as [|k IH]; intros Hk; [done|]. cbn [bit_steps]. rewrite IH by lia.
  set (x := bit_steps k lo). set (y := Z.shiftl hi (8 - Z.of_nat k)).
  assert (Hy : Z.odd y = false).
  { unfold y. rewrite <- Z.bit0_odd, Z.shiftl_spec by lia. apply Z.testbit_neg_r. lia. }
  assert (Ho : Z.odd (Z.lxor x y) = Z.odd x).
  { rewrite <- !Z.bit0_odd, Z.lxor_spec, (Z.bit0_odd y), Hy. apply xorb_false_r. }
  unfold bit_step. rewrite Ho, Z.shiftr_lxor.
  replace (Z.shiftr y 1) with (Z.shiftl hi (8 - Z.of_nat (S k))).
  - rewrite !Z.lxor_assoc. f_equal. apply Z.lxor_comm.
  - unfold y. rewrite Z.shiftr_shiftl_l by lia. f_equal. lia.
Qed.

Lemma split_byte x : 0 <= x -> x = Z.lxor (Z.land x 0xff) (Z.shiftl (Z.shiftr x 8) 8).
Proof.
  intros Hx. apply Z.bits_inj'. intros i Hi. rewrite Z.lxor_spec, Z.land_spec. change 0xff with (Z.ones 8).
  destruct (decide (i < 8)).
  - rewrite Z.ones_spec_low, Z.shiftl_spec_low, andb_true_r by lia. by rewrite xorb_false_r.
  - rewrite Z.ones_spec_high, Z.shiftl_spec, Z.shiftr_spec by lia. rewrite andb_false_r, xorb_false_l. f_equal. lia.
Qed.

Lemma crc_round_steps x c : 0 <= x -> byte_ok c -> crc_round x c = bit_steps 8 (Z.lxor x c).
Proof.
  intros Hx Hc. unfold byte_ok in Hc. unfold crc_round. rewrite u8_small by lia. set (y := Z.lxor x c).
  assert (Hy : 0 <= y) by (apply Z.lxor_nonneg; lia).
  assert (Hlow : 0 <= Z.land y 0xff < 256).
  { change 0xff with (Z.ones 8). rewrite Z.land_ones by lia. change 256 with (2 ^ 8). apply Z.mod_pos_bound. lia. }
  rewrite table_entries by done. rewrite (split_byte y) at 2 by done. rewrite bit_steps_high by lia.
  rewrite Z.lxor_comm. f_equal. change (8 - Z.of_nat 8) with 0. rewrite Z.shiftl_0_r.
  unfold y. rewrite Z.shiftr_lxor. replace (Z.shiftr c 8) with 0; [by rewrite Z.lxor_0_r|].
  rewrite Z.shiftr_div_pow2 by lia. symmetry. apply Z.div_small. lia.
Qed.

Lemma lxor_range a b w : 0 <= w -> 0 <= a < 2 ^ w -> 0 <= b < 2 ^ w -> 0 <= Z.lxor a b < 2 ^ w.
Proof.
  intros Hw Ha Hb. assert (Z.lxor a b = Z.lxor a b `mod` 2 ^ w) as ->; [|apply Z.mod_pos_bound; lia].
  rewrite <- Z.land_ones by lia. apply Z.bits_inj'. intros i Hi. rewrite Z.land_spec, Z.lxor_spec.
  destruct (decide (i < w)).
  - by rewrite Z.ones_spec_low, andb_true_r by lia.
  - rewrite (testbit_above a w), (testbit_above b w) by lia. by rewrite andb_false_l.
Qed.

Lemma bit_step_range x : 0 <= x < 2 ^ 32 -> 0 <= bit_step x < 2 ^ 32.
Proof.
  intros Hx. unfold bit_step. apply lxor_range; [lia|..].
  - rewrite Z.shiftr_div_pow2 by lia. split; [apply Z.div_pos; lia|]. apply Z.div_lt_upper_bound; lia.
  - unfold POLYNOMIAL. destruct (Z.odd x); lia.
Qed.

Lemma bit_steps_range k x : 0 <= x < 2 ^ 32 -> 0 <= bit_steps k x < 2 ^ 32.
Proof. intros Hx. induction k; [done|]. by apply bit_step_range. Qed.

Lemma crc_loop_reference str x : 0 <= x < 2 ^ 32 -> Forall byte_ok str ->
  foldl crc_round x str = foldl (fun x c => bit_steps 8 (Z.lxor x c)) x str /\
  0 <= foldl crc_round x str < 2 ^ 32.
Proof.
  intros Hx Hs. revert x Hx. induction Hs as [|c str Hc _ IH]; intros x Hx; [done|]. cbn [foldl].
  rewrite (crc_round_steps x c) by (done || lia). apply IH, bit_steps_range, lxor_range; unfold byte_ok in Hc; lia.
Qed.

Lemma lnot_u32 x : 0 <= x < 2 ^ 32 -> u32 (Z.lnot x) = Z.lxor (2 ^ 32 - 1) x.
Proof.
  intros Hx. change (2 ^ 32 - 1) with (Z.ones 32). unfold u32. rewrite <- Z.land_ones by lia. apply Z.bits_inj'. intros i Hi.
  rewrite Z.land_spec, Z.lxor_spec, Z.lnot_spec by lia. destruct (decide (i < 32)).
  - rewrite Z.ones_spec_low by lia. by destruct (Z.testbit x i).
  - rewrite Z.ones_spec_high, (testbit_above x 32) by lia. done.
Qed.

(** C40: The table computes the reflected CRC-32 of a string. *)
Theorem crc32_correct str r :
  Forall (fun c => 0 < c < 256) str -> Z.of_nat (length str) < 2 ^ 32 ->
  crc32 (str ++ 0 :: r) = Some (crc_reference str) /\ 0 <= crc_reference str < 2 ^ 32.
Proof.
  intros Hs Hl. unfold crc32. rewrite cstr_app_nul by (eapply Forall_impl; [exact Hs|]; intros c Hc; cbn in Hc; lia).
  cbn [mbind option_bind]. rewrite (u32_small (Z.of_nat (length str))) by lia. rewrite Nat2Z.id. unfold crc_loop. rewrite firstn_all.
  destruct (crc_loop_reference str (2 ^ 32 - 1)) as [E Hr]; [lia| |].
  { eapply Forall_impl; [exact Hs|]. intros c Hc. unfold byte_ok. cbn in Hc. lia. }
  change (u32 (Z.lnot 0)) with (2 ^ 32 - 1). rewrite lnot_u32 by done. unfold crc_reference. rewrite E in *.
  split; [done|]. apply lxor_range; lia.
Qed.

(** The check value of the polynomial. *)
Lemma crc32_correct_witness : crc32 (bs "123456789" ++ [0]) = Some 0xcbf43926.
Proof.
  destruct (crc32_correct (bs "123456789") []) as [E _].
  - apply (bool_decide_unpack _). vm_compute. exact I.
  - vm_compute. reflexivity.
  - rewrite E. vm_compute. reflexivity.
Defined.
End Crc32.
