(* ===== verification/Ring.v ===== *)
(** * cynder: the ring of nodes (consistent_hash.h)

    Each node has several points on the ring of hash values; a key belongs to
    the node of the first point at or behind its hash, around the end. *)
From S2P Require Import Prelude CLib Crc32.

Module Ring.

Section HashRing.
Context {Node Key : Type} (node_str : Node -> list Z) (key_str : Key -> list Z).
(** The hash of a C string. *)
Context (hash_ : list Z -> Z).

Record ring := mk_ring { ring_ : gmap Z Node; m_spread : nat }.

Definition setSpread (spread : nat) (r : ring) : ring := mk_ring (ring_ r) spread.

(** [hash_((nodestr + Stringify(r)).c_str())] *)
Definition point (node : Node) (r : nat) : Z := hash_ (until_nul (node_str node ++ fmt_int (Z.of_nat r))).

Definition add_points (node : Node) (spread : nat) (m : gmap Z Node) : gmap Z Node :=
  foldl (fun m i => <[point node i := node]> m) m (seq 0 spread).
Definition remove_points (node : Node) (spread : nat) (m : gmap Z Node) : gmap Z Node :=
  foldl (fun m i => delete (point node i) m) m (seq 0 spread).

(** The last hash; it has no value when there is no point. *)
Definition addNode (node : Node) (r : ring) : option Z * ring :=
  (point node <$> last (seq 0 (m_spread r)),
   mk_ring (add_points node (m_spread r) (ring_ r)) (m_spread r)).

Definition removeNode (node : Node) (r : ring) : ring :=
  mk_ring (remove_points node (m_spread r) (ring_ r)) (m_spread r).

Definition keys (m : gmap Z Node) : list Z := (map_to_list m).*1.
Definition lower_bound (hash : Z) (m : gmap Z Node) : option Z := least (filter (fun k => hash <= k) (keys m)).
Definition begin (m : gmap Z Node) : option Z := least (keys m).

(** [None] is the exception for an empty ring. *)
Definition getNode (key : Key) (r : ring) : option Node :=
  match begin (ring_ r) with
  | None => None
  | Some first =>
      let hash := hash_ (until_nul (key_str key)) in
      ring_ r !! default first (lower_bound hash (ring_ r))
  end.

(** ** Around the ring *)
Context (Hhash : forall s, 0 <= hash_ s < 2 ^ 64).

Definition points_ok (m : gmap Z Node) : Prop := forall p n, m !! p = Some n -> 0 <= p < 2 ^ 64.

(** How far the point [p] is behind [h]. *)
Definition distance (h p : Z) : Z := (p - h) `mod` 2 ^ 64.

(** The node of the nearest point. *)
Definition nearest (h : Z) (m : gmap Z Node) (n : Node) : Prop :=
  exists p, m !! p = Some n /\ forall p' n', m !! p' = Some n' -> distance h p <= distance h p'.

Lemma distance_eq h p : 0 <= h < 2 ^ 64 -> 0 <= p < 2 ^ 64 -> distance h p = if h <=? p then p - h else p - h + 2 ^ 64.
Proof.
  intros Hh Hp. unfold distance. destruct (Z.leb_spec h p).
  - apply Z.mod_small. lia.
  - rewrite <- (Z.mod_add _ 1) by lia. rewrite Z.mod_small; lia.
Qed.

Lemma nearest_unique h m n n' : 0 <= h < 2 ^ 64 -> points_ok m -> nearest h m n -> nearest h m n' -> n = n'.
Proof.
  intros Hh Hm (p & Hp & Hn) (p' & Hp' & Hn'). enough (p = p') by congruence.
  pose proof (Hn _ _ Hp') as H1. pose proof (Hn' _ _ Hp) as H2. pose proof (Hm _ _ Hp). pose proof (Hm _ _ Hp').
  rewrite !distance_eq in H1, H2 by done. destruct (Z.leb_spec h p), (Z.leb_spec h p'); lia.
Qed.

Lemma elem_of_keys m p : p ∈ keys m <-> exists n, m !! p = Some n.
Proof.
  unfold keys. rewrite list_elem_of_fmap. split.
  - intros ([p' n] & -> & H%elem_of_map_to_list). by exists n.
  - intros [n H]. exists (p, n). split; [done|]. by apply elem_of_map_to_list.
Qed.

Lemma getNode_spec key r : points_ok (ring_ r) ->
  match getNode key r with
  | Some n => nearest (hash_ (until_nul (key_str key))) (ring_ r) n
  | None => ring_ r = ∅
  end.
Proof.
  intros Hm. unfold getNode. set (h := hash_ _). pose proof (Hhash (until_nul (key_str key))) as Hh. fold h in Hh.
  pose proof (least_spec (keys (ring_ r))) as Hb. fold (begin (ring_ r)) in Hb. destruct (begin (ring_ r)) as [first|].
  2:{ apply map_empty. intros p. apply eq_None_not_Some. intros [n Hn].
      assert (p ∈ keys (ring_ r)) as Hin by (apply elem_of_keys; by exists n). rewrite Hb in Hin. by apply elem_of_nil in Hin. }
  destruct Hb as [[nf Hf]%elem_of_keys Hmin].
  pose proof (least_spec (filter (fun k => h <= k) (keys (ring_ r)))) as Hl. fold (lower_bound h (ring_ r)) in Hl.
  destruct (lower_bound h (ring_ r)) as [k|]; cbn [default].
  - destruct Hl as [[Hk [n Hn]%elem_of_keys]%list_elem_of_filter Hl]. unfold id. rewrite Hn. exists k. split; [done|].
    intros p' n' Hp'. rewrite !distance_eq by (done || by eapply Hm). pose proof (Hm _ _ Hp'). pose proof (Hm _ _ Hn).
    rewrite (proj2 (Z.leb_le _ _)) by done. destruct (Z.leb_spec h p'); [|lia].
    assert (k <= p'); [|lia]. apply Hl, list_elem_of_filter. split; [done|]. apply elem_of_keys. by exists n'.
  - rewrite Hf. exists first. split; [done|]. intros p' n' Hp'. rewrite !distance_eq by (done || by eapply Hm).
    assert (Hlow : forall q nq, ring_ r !! q = Some nq -> q < h).
    { intros q nq Hq. apply Z.nle_gt. intros Hle. assert (q ∈ filter (fun k => h <= k) (keys (ring_ r))) as Hin.
      { apply list_elem_of_filter. split; [done|]. apply elem_of_keys. by exists nq. }
      rewrite Hl in Hin. by apply elem_of_nil in Hin. }
    rewrite !(proj2 (Z.leb_gt _ _)) by (by eapply Hlow). pose proof (Hmin p' ltac:(apply elem_of_keys; by exists n')). lia.
Qed.

Lemma getNode_nearest key r n : points_ok (ring_ r) ->
  getNode key r = Some n <-> nearest (hash_ (until_nul (key_str key))) (ring_ r) n.
Proof.
  intros Hm. pose proof (getNode_spec key r Hm) as H. destruct (getNode key r) as [n'|].
  - split; [by intros [= <-]|]. intros Hn. f_equal. eapply nearest_unique; [apply Hhash|exact Hm|exact H|exact Hn].
  - split; [done|]. intros (p & Hp & _). by rewrite H, lookup_empty in Hp.
Qed.

(** ** Adding and removing *)
Definition point_of (node : Node) (spread : nat) (p : Z) : Prop := exists i, (i < spread)%nat /\ p = point node i.

Lemma added_lookup node spread m p :
  add_points node spread m !! p = Some node /\ point_of node spread p \/
  add_points node spread m !! p = m !! p /\ ~ point_of node spread p.
Proof.
  induction spread as [|k IH]; [right; split; [done|]; intros (i & Hi & _); lia|].
  unfold add_points in *. rewrite seq_S, foldl_app. cbn [foldl plus].
  destruct (decide (point node k = p)) as [<-|Hne].
  - left. rewrite lookup_insert_eq. split; [done|]. exists k. split; [lia|done].
  - rewrite lookup_insert_ne by done. destruct IH as [[E (i & Hi & Ei)]|[E Hn]].
    + left. split; [done|]. exists i. split; [lia|done].
    + right. split; [done|]. intros (i & Hi & ->). apply Hn. exists i.
      destruct (decide (i = k)) as [->|]; [done|]. split; [lia|done].
Qed.

Lemma removed_lookup node spread m p :
  remove_points node spread m !! p = None /\ point_of node spread p \/
  remove_points node spread m !! p = m !! p /\ ~ point_of node spread p.
Proof.
  induction spread as [|k IH]; [right; split; [done|]; intros (i & Hi & _); lia|].
  unfold remove_points in *. rewrite seq_S, foldl_app. cbn [foldl plus].
  destruct (decide (point node k = p)) as [<-|Hne].
  - left. rewrite lookup_delete_eq. split; [done|]. exists k. split; [lia|done].
  - rewrite lookup_delete_ne by done. destruct IH as [[E (i & Hi & Ei)]|[E Hn]].
    + left. split; [done|]. exists i. split; [lia|done].
    + right. split; [done|]. intros (i & Hi & ->). apply Hn. exists i.
      destruct (decide (i = k)) as [->|]; [done|]. split; [lia|done].
Qed.

Lemma added_points node r : points_ok (ring_ r) -> points_ok (ring_ (addNode node r).2).
Proof.
  intros Hm p n Hp. cbn [addNode snd ring_] in Hp.
  destruct (added_lookup node (m_spread r) (ring_ r) p) as [[_ (i & _ & ->)]|[E _]]; [apply Hhash|].
  rewrite E in Hp. by eapply Hm.
Qed.

Lemma removed_points node r : points_ok (ring_ r) -> points_ok (ring_ (removeNode node r)).
Proof.
  intros Hm p n Hp. cbn [removeNode ring_] in Hp.
  destruct (removed_lookup node (m_spread r) (ring_ r) p) as [[E _]|[E _]]; rewrite E in Hp; [done|by eapply Hm].
Qed.

(** A node that joins takes keys, and no key moves between two others. *)
Lemma joining_takes_keys node key r :
  points_ok (ring_ r) ->
  getNode key (addNode node r).2 = Some node \/ getNode key (addNode node r).2 = getNode key r.
Proof.
  intros Hm. pose proof (added_points node r Hm) as Hm'.
  pose proof (getNode_spec key _ Hm') as H. destruct (getNode key (addNode node r).2) as [n|] eqn:E.
  - destruct H as (p & Hp & Hmin). cbn [addNode snd ring_] in Hp, Hmin.
    destruct (added_lookup node (m_spread r) (ring_ r) p) as [[Ep _]|[Ep Hno]]; [left; congruence|].
    right. symmetry. apply getNode_nearest; [done|]. exists p. split; [congruence|]. intros p' n' Hp'.
    destruct (added_lookup node (m_spread r) (ring_ r) p') as [[E' _]|[E' _]]; [by eapply Hmin|].
    eapply Hmin. rewrite E'. exact Hp'.
  - right. symmetry. pose proof (getNode_spec key r Hm) as H0. destruct (getNode key r) as [n|]; [|done].
    destruct H0 as (p & Hp & _). exfalso. cbn [addNode snd ring_] in H.
    destruct (added_lookup node (m_spread r) (ring_ r) p) as [[E' _]|[E' _]]; rewrite H, lookup_empty in E'; congruence.
Qed.

(** A node that leaves gives its keys away, and no other key moves, provided
    that its points are its own. *)
Lemma leaving_gives_keys node key r n :
  points_ok (ring_ r) -> (forall p n', point_of node (m_spread r) p -> ring_ r !! p = Some n' -> n' = node) ->
  getNode key r = Some n -> n <> node -> getNode key (removeNode node r) = Some n.
Proof.
  intros Hm Hown E Hne. apply getNode_nearest; [by apply removed_points|]. apply getNode_nearest in E; [|done].
  destruct E as (p & Hp & Hmin). exists p. cbn [removeNode ring_]. split.
  - destruct (removed_lookup node (m_spread r) (ring_ r) p) as [[_ Hpt]|[E _]]; [|congruence].
    exfalso. apply Hne. by eapply Hown.
  - intros p' n' Hp'. destruct (removed_lookup node (m_spread r) (ring_ r) p') as [[E _]|[E _]]; [congruence|].
    eapply Hmin. by rewrite <- E.
Qed.

(** C39: Only the keys of the node that joins or leaves change their node: a node
    that joins takes keys and moves none between two others; one that leaves,
    when the hashes of its points are its own, gives its keys away and moves no
    other. *)
Theorem membership_moves_few_keys node r :
  points_ok (ring_ r) ->
  (forall key, getNode key (addNode node r).2 = Some node \/ getNode key (addNode node r).2 = getNode key r) /\
  ((forall p n, point_of node (m_spread r) p -> ring_ r !! p = Some n -> n = node) ->
   forall key n, n <> node -> getNode key r = Some n -> getNode key (removeNode node r) = Some n).
Proof.
  intros Hm. split; [intros key; by apply joining_takes_keys|]. intros Hown key n Hne E. by apply leaving_gives_keys.
Qed.

(** The node of a key is that of the first point at or behind the key's hash,
    going around the ring. *)
Theorem getNode_first_clockwise key r n : points_ok (ring_ r) ->
  getNode key r = Some n <->
  exists p, ring_ r !! p = Some n /\ forall p' n', ring_ r !! p' = Some n' ->
    (p - hash_ (until_nul (key_str key))) `mod` 2 ^ 64 <= (p' - hash_ (until_nul (key_str key))) `mod` 2 ^ 64.
Proof. exact (getNode_nearest key r n). Qed.
End HashRing.

(** ** cynder's ring: names of workers, the text of an identifier, CRC-32 *)
Definition crc_hash (s : list Z) : Z := default 0 (Crc32.crc32 (s ++ [0])).

Lemma crc_hash_range s : 0 <= crc_hash s < 2 ^ 64.
Proof.
  unfold crc_hash, Crc32.crc32. destruct (cstr (s ++ [0])) as [t|]; [|done].
  pose proof (u32_range (Z.lnot (Crc32.crc_loop (Z.to_nat (u32 (Z.of_nat (length t)))) (u32 (Z.lnot 0)) t))) as H.
  split; [apply H|]. eapply Z.lt_trans; [apply H|reflexivity].
Qed.

Definition SHARDING_SPREAD : nat := 10.
Definition text (s : list Z) : list Z := s.
Definition nodeRing (workers : list (list Z)) : ring :=
  foldl (fun r w => (addNode text crc_hash w r).2) (mk_ring ∅ SHARDING_SPREAD) workers.

Lemma nodeRing_points workers : points_ok (ring_ (nodeRing workers)).
Proof.
  unfold nodeRing. apply (foldl_inv (fun r => points_ok (ring_ r))).
  - intros r w H. apply added_points; [exact crc_hash_range|exact H].
  - intros p n Hp. cbn in Hp. by rewrite lookup_empty in Hp.
Qed.

Definition demo_key : list Z := bs "{0000aaaa-bbbb-ac00-8011-223344556600}".
Definition demo_ring : ring := nodeRing [bs "10.0.0.1:5522"; bs "10.0.0.2:5522"].

Lemma membership_moves_few_keys_witness :
  getNode text crc_hash demo_key demo_ring = Some (bs "10.0.0.2:5522") /\
  getNode text crc_hash demo_key (removeNode text crc_hash (bs "10.0.0.1:5522") demo_ring) = Some (bs "10.0.0.2:5522").
Proof.
  split; [vm_compute; reflexivity|].
  apply (proj2 (membership_moves_few_keys text text crc_hash crc_hash_range (bs "10.0.0.1:5522") demo_ring (nodeRing_points _))).
  - intros p n (i & Hi & ->) Hp.
    assert (H : Forall (fun i => ring_ demo_ring !! point text crc_hash (bs "10.0.0.1:5522") i = Some (bs "10.0.0.1:5522"))
      (seq 0 SHARDING_SPREAD)) by (apply (bool_decide_unpack _); vm_compute; exact I).
    rewrite Forall_forall in H. rewrite (H i) in Hp; [by injection Hp as <-|]. apply elem_of_seq. cbn in Hi. lia.
  - vm_compute. discriminate.
  - vm_compute. reflexivity.
Defined.

Lemma getNode_first_clockwise_witness :
  exists p, ring_ demo_ring !! p = Some (bs "10.0.0.2:5522").
Proof.
  destruct (proj1 (getNode_first_clockwise text crc_hash crc_hash_range demo_key demo_ring (bs "10.0.0.2:5522")
    (nodeRing_points _))) as (p & Hp & _); [vm_compute; reflexivity|]. by exists p.
Defined.
End Ring.
