(* ===== verification/Engine.v ===== *)
(** * cynder: engines and additional indexes (engine.cpp, key_index.cpp, text_index.cpp, catalogus.h)

    The databases are upscaledb's, behind interfaces that state what its
    documentation promises: one without and one with duplicate keys. *)
From S2P Require Import Prelude CLib.

(** ** The interface of a database *)
Definition UPS_KEY_NOT_FOUND : Z := -11.
Definition UPS_DUPLICATE_KEY : Z := -12.

(** [db_insert] with the flag [UPS_OVERWRITE] or none, and the error it throws
    if it does. *)
Class Database (S : Type) := {
  db_insert : list Z -> list Z -> bool -> S -> option Z * S;
  db_find : list Z -> S -> option (list Z);
  db_erase : list Z -> S -> option Z * S;
  db_insert_ok : forall k r o s, db_find k s = None \/ o = true ->
    (db_insert k r o s).1 = None /\
    forall k', db_find k' (db_insert k r o s).2 = if decide (k' = k) then Some r else db_find k' s;
  db_insert_duplicate : forall k r s, db_find k s <> None ->
    (db_insert k r false s).1 = Some UPS_DUPLICATE_KEY /\
    forall k', db_find k' (db_insert k r false s).2 = db_find k' s;
  db_erase_find : forall k s k',
    db_find k' (db_erase k s).2 = if decide (k' = k) then None else db_find k' s;
  db_erase_error : forall k s,
    (db_erase k s).1 = match db_find k s with Some _ => None | None => Some UPS_KEY_NOT_FOUND end }.

(** A map is such a database. *)
#[export, refine] Instance map_database : Database (gmap (list Z) (list Z)) := {|
  db_insert k r o m := match m !! k with
                       | Some _ => if o : bool then (None, <[k := r]> m) else (Some UPS_DUPLICATE_KEY, m)
                       | None => (None, <[k := r]> m)
                       end;
  db_find k m := m !! k;
  db_erase k m := (match m !! k with Some _ => None | None => Some UPS_KEY_NOT_FOUND end, delete k m) |}.
Proof.
  - intros k r o m Ho. assert (E : (match m !! k with
        | Some _ => if o then (None, <[k := r]> m) else (Some UPS_DUPLICATE_KEY, m)
        | None => (None, <[k := r]> m) end) = (None, <[k := r]> m)).
    { destruct Ho as [-> | ->]; [done|]. by destruct (m !! k). }
    rewrite E. split; [done|]. intros k'. case_decide as Hk; [subst; apply lookup_insert_eq|by apply lookup_insert_ne].
  - intros k r m Hk. by destruct (m !! k).
  - intros k m k'. cbn [snd]. case_decide as Hk; [subst; apply lookup_delete_eq|by apply lookup_delete_ne].
  - done.
Defined.

(** ** The interface of a database with duplicate keys

    The records of a key in the order of the cursor; whether there is an entry
    behind the last of them. *)
Fixpoint key_lt (a b : list Z) : bool :=
  match a, b with
  | _, [] => false
  | [], _ :: _ => true
  | x :: a, y :: b => if x <? y then true else if x =? y then key_lt a b else false
  end.

Class Duplicates (S : Type) := {
  dup_insert : list Z -> list Z -> S -> S;
  dup_records : list Z -> S -> list (list Z);
  dup_follows : list Z -> S -> bool;
  dup_insert_records : forall k r s k',
    dup_records k' (dup_insert k r s) = if decide (k' = k) then dup_records k s ++ [r] else dup_records k' s;
  dup_follows_spec : forall k s, dup_follows k s = true <-> exists k', key_lt k k' = true /\ dup_records k' s <> [] }.

(** A map to lists is such a database. *)
#[export, refine] Instance map_duplicates : Duplicates (gmap (list Z) (list (list Z))) := {|
  dup_insert k r m := <[k := default [] (m !! k) ++ [r]]> m;
  dup_records k m := default [] (m !! k);
  dup_follows k m := existsb (fun '(k', rs) => key_lt k k' && negb (bool_decide (rs = []))) (map_to_list m) |}.
Proof.
  - intros k r m k'. case_decide as Hk; [subst; by rewrite lookup_insert_eq|by rewrite lookup_insert_ne].
  - intros k m. rewrite existsb_exists. split.
    + intros ([k' rs] & Hin%list_elem_of_In%elem_of_map_to_list & [Hk Hn]%andb_true_iff).
      exists k'. split; [done|]. rewrite Hin. apply negb_true_iff, bool_decide_eq_false in Hn. exact Hn.
    + intros (k' & Hk & Hn). destruct (m !! k') as [rs|] eqn:Em; [|done]. exists (k', rs).
      split; [by apply list_elem_of_In, elem_of_map_to_list|]. rewrite Hk. apply negb_true_iff, bool_decide_eq_false. exact Hn.
Defined.

Module Engine.

(** ** Identifiers as keys *)
Definition UNPACKED_LENGTH : nat := 36.

(** [quidpp::Quid::crop] *)
Definition crop (s : list Z) : list Z :=
  if (length s =? UNPACKED_LENGTH + 2)%nat && (s !!! 0%nat =? ch "{") && (s !!! (UNPACKED_LENGTH + 1)%nat =? ch "}")
  then take UNPACKED_LENGTH (drop 1 s) else [].

(** The key of an identifier; [None] when it is neither form. *)
Definition quid_key (quid : list Z) : option (list Z) :=
  if (length quid =? UNPACKED_LENGTH)%nat then Some quid
  else match crop quid with [] => None | q => Some q end.

(** ** [AbstractEngine] *)
Definition dbname (dir prefix : list Z) (counter : Z) : list Z :=
  dir ++ bs "/" ++ prefix ++ fmt_prec 10 4 counter ++ bs "cidb".

(** The constructor opens the file of the counter, which counts on. *)
Definition engine_open (dir prefix : list Z) (counter : Z) : list Z * Z := (dbname dir prefix counter, u32 (counter + 1)).
Definition dbcount (counter : Z) : Z := u32 (counter - 1).

(** ** [Catalogus] *)
Section Catalogue.
Context {St : Type} `{Database St}.

Definition count_key (prefix : list Z) : list Z := prefix ++ bs "_count".

(** With the error of the database. *)
Definition putVersionCount (prefix : list Z) (i : Z) (s : St) : option Z * St := db_insert (count_key prefix) (fmt_int i) true s.
Definition getVersionCount (prefix : list Z) (s : St) : Z :=
  match db_find (count_key prefix) s with
  | None => 0
  | Some version => u32 (atoi version)
  end.

Lemma version_count prefix i s : 0 <= i < 2 ^ 32 -> getVersionCount prefix (putVersionCount prefix i s).2 = i.
Proof.
  intros Hi. unfold getVersionCount, putVersionCount.
  destruct (db_insert_ok (count_key prefix) (fmt_int i) true s) as [_ E]; [by right|].
  rewrite E. rewrite decide_True by done. rewrite atoi_fmt_int by lia. unfold u32, i32.
  rewrite Zminus_mod, Zmod_mod, <- Zminus_mod. rewrite Z.add_simpl_r. apply Z.mod_small. lia.
Qed.

(** An engine whose count is saved at the end opens the same file at the next
    start, and the counts of other engines do not matter. *)
Theorem restart_opens_same_file dir prefix prefix' counter i s :
  0 <= counter < 2 ^ 32 -> prefix' <> prefix ->
  let '(file, counter') := engine_open dir prefix counter in
  let s' := (putVersionCount prefix' i (putVersionCount prefix (dbcount counter') s).2).2 in
  engine_open dir prefix (getVersionCount prefix s') = (file, counter').
Proof.
  intros Hc Hp. cbn [engine_open]. cbv zeta. f_equal. unfold dbcount.
  assert (E : u32 (u32 (counter + 1) - 1) = counter).
  { unfold u32. rewrite Zminus_mod_idemp_l, Z.add_simpl_r. apply Z.mod_small. lia. }
  rewrite E. set (s1 := (putVersionCount prefix counter s).2).
  assert (E1 : getVersionCount prefix (putVersionCount prefix' i s1).2 = getVersionCount prefix s1).
  { unfold getVersionCount, putVersionCount at 1.
    destruct (db_insert_ok (count_key prefix') (fmt_int i) true s1) as [_ ->]; [by right|].
    rewrite decide_False; [done|]. by intros ?%app_inv_tail. }
  rewrite E1. unfold s1. rewrite version_count by done. done.
Qed.
End Catalogue.

Lemma restart_opens_same_file_witness :
  let '(file, counter') := engine_open (bs "data") (bs "ari") 3 in
  let s' := (putVersionCount (bs "adi") 7 (putVersionCount (bs "ari") (dbcount counter') (∅ : gmap (list Z) (list Z))).2).2 in
  engine_open (bs "data") (bs "ari") (getVersionCount (bs "ari") s') = (bs "data/ari0003cidb", 4).
Proof. apply (restart_opens_same_file (bs "data") (bs "ari") (bs "adi") 3 7 (∅ : gmap (list Z) (list Z))); [lia|done]. Defined.

Section Multi.
Context {St : Type} `{Duplicates St}.

(** The records from the cursor on, and whether an entry is behind them.  A
    record that is there already does not move the cursor. *)
Fixpoint multi_loop (n : nat) (records : list (list Z)) (follows : bool) (list_ : list (list Z)) : option Z * list (list Z) :=
  match n, records with
  | S n, content :: records' =>
      let quid := take UNPACKED_LENGTH content in
      if existsb (fun q => bool_decide (q = quid)) list_ then multi_loop n records follows list_
      else match records', follows with
           | [], false => (Some UPS_KEY_NOT_FOUND, list_ ++ [quid])
           | _, _ => multi_loop n records' follows (list_ ++ [quid])
           end
  | _, _ => (None, list_)
  end.

(** The error it throws, if any, and the list. *)
Definition getMulti (key : list Z) (list_ : list (list Z)) (s : St) : option Z * list (list Z) :=
  match dup_records key s with
  | [] => (None, list_)
  | records => multi_loop (length records) records (dup_follows key s) list_
  end.

(** ** The additional indexes *)
Definition normalize (s : list Z) : list Z := tolower <$> s.

Definition commonIndexKeywords : list (list Z) :=
  bs <$> ["name"; "author"; "owner"; "user"; "username"; "date"; "datetime"; "timestamp"; "locale";
    "age"; "type"; "classification"; "category"; "group"; "set"; "rating"; "result"; "status";
    "location"; "language"; "place"; "target"; "url"; "address"; "path"; "description";
    "remark"; "subject"; "comment"; "note"; "tag"; "color"; "file"; "width"; "height"; "time"; "shape";
    "size"; "texture"; "source"; "title"; "domain"; "standard"; "setting"; "protocol"]%string.

Definition matchKeyword (keyword : list Z) : bool := existsb (fun k => bool_decide (k = keyword)) commonIndexKeywords.

(** [KeyIndex::put] and [TextIndex::put] *)
Definition uki_put (quid key value : list Z) (s : St) : St :=
  match quid_key quid with
  | None => s
  | Some q => let key := normalize key in if matchKeyword key then dup_insert key (q ++ value) s else s
  end.
Definition fti_put (quid key value : list Z) (s : St) : St :=
  match quid_key quid with
  | None => s
  | Some q => let value := normalize value in if matchKeyword value then dup_insert key (q ++ value) s else s
  end.

(** ** What is found

    The identifiers up to the first that is known. *)
Fixpoint unknown_prefix (known qs : list (list Z)) : list (list Z) :=
  match qs with
  | [] => []
  | q :: qs => if decide (q ∈ known) then [] else q :: unknown_prefix (known ++ [q]) qs
  end.

Lemma existsb_elem (q : list Z) l : existsb (fun q' => bool_decide (q' = q)) l = bool_decide (q ∈ l).
Proof.
  apply eq_true_iff_eq. rewrite existsb_exists, bool_decide_eq_true. split.
  - intros (x & Hx & ->%bool_decide_eq_true). by apply list_elem_of_In.
  - intros Hq. exists q. split; [by apply list_elem_of_In|]. by apply bool_decide_eq_true.
Qed.

Lemma multi_loop_stuck n c rs follows l : take UNPACKED_LENGTH c ∈ l -> multi_loop n (c :: rs) follows l = (None, l).
Proof.
  intros Hin. induction n as [|n IH]; [done|]. cbn [multi_loop]. rewrite existsb_elem, bool_decide_eq_true_2 by done. exact IH.
Qed.

Lemma multi_loop_run records follows l : records <> [] ->
  let qs := take UNPACKED_LENGTH <$> records in
  let found := unknown_prefix l qs in
  multi_loop (length records) records follows l =
    (if bool_decide (found = qs) && negb follows then Some UPS_KEY_NOT_FOUND else None, l ++ found).
Proof.
  cbv zeta. revert l. induction records as [|c rs IH]; intros l Hne; [done|].
  cbn [length multi_loop fmap list_fmap unknown_prefix]. rewrite existsb_elem. set (q := take UNPACKED_LENGTH c).
  case_decide as Hq.
  - rewrite (bool_decide_eq_true_2 (q ∈ l)), multi_loop_stuck, app_nil_r by done. by rewrite bool_decide_eq_false_2 by done.
  - rewrite (bool_decide_eq_false_2 (q ∈ l)) by done.
    destruct rs as [|c' rs]; [by rewrite bool_decide_eq_true_2 by done; destruct follows|].
    rewrite IH, <- app_assoc by done. cbn [app]. f_equal.
    set (qs := take UNPACKED_LENGTH <$> c' :: rs). set (found := unknown_prefix (l ++ [q]) qs).
    rewrite (bool_decide_ext (q :: found = q :: qs) (found = qs)); [done|]. split; [by intros [= ->]|by intros ->].
Qed.

(** Looking a key up adds the identifiers of its records up to the first one
    that is in the list already, where the cursor stops moving; if it gets
    through all of them and no other key follows, stepping behind the last one
    throws. *)
Theorem getMulti_stops_at_known key l s :
  let qs := take UNPACKED_LENGTH <$> dup_records key s in
  let found := unknown_prefix l qs in
  getMulti key l s =
    (if bool_decide (qs <> [] /\ found = qs) && negb (dup_follows key s) then Some UPS_KEY_NOT_FOUND else None, l ++ found).
Proof.
  cbv zeta. unfold getMulti. destruct (dup_records key s) as [|c rs]; [by rewrite app_nil_r|].
  rewrite multi_loop_run by done. set (qs := _ <$> _). set (found := unknown_prefix l qs).
  rewrite (bool_decide_ext (qs <> [] /\ found = qs) (found = qs)); [done|]. split; [by intros [_ ?]|done].
Qed.
End Multi.
End Engine.
