(* ===== verification/DataIndex.v ===== *)
(** * cynder: file bases and the data index (filebase.h, engine.cpp, data_index.cpp)

    A file base is a row of pages; the data index keeps small values in the
    database and large ones in a file base. *)
From S2P Require Import Prelude CLib Engine Filepage.

Module DataIndex.
Export Engine Filepage.

(** ** Names of page files *)
Definition name_prefix : list Z := bs "lfb".

Definition dbname (dir : list Z) (counter : Z) : list Z :=
  dir ++ bs "/" ++ name_prefix ++ fmt_prec 10 4 counter ++ bs "dxdb".

(** [path.substr(path.find_last_of("/") + 1)] *)
Fixpoint after_slash (path : list Z) : list Z :=
  match path with
  | [] => []
  | c :: rest => if existsb (Z.eqb (ch "/")) rest then after_slash rest else if c =? ch "/" then rest else path
  end.

Definition pagecounter (path : list Z) : Z :=
  u32 (atoi (take 4 (drop 3 (after_slash path)))).

Lemma after_slash_app d r : existsb (Z.eqb (ch "/")) r = false -> after_slash (d ++ ch "/" :: r) = r.
Proof.
  intros Hr. induction d as [|c d IH]; cbn [app after_slash]; [by rewrite Hr|].
  assert (E : existsb (Z.eqb (ch "/")) (d ++ ch "/" :: r) = true).
  { apply existsb_exists. exists (ch "/"). split; [|done]. apply in_or_app. right. by left. }
  by rewrite E.
Qed.

Lemma digits_no_slash ds : digits_ok 10 ds -> existsb (Z.eqb (ch "/")) (digit_char <$> ds) = false.
Proof.
  intros H. induction H as [|d ds Hd _ IH]; [done|]. cbn [fmap list_fmap existsb]. rewrite IH.
  assert (Hc : forallb (fun d => negb (ch "/" =? digit_char d)) (seqZ 0 10) = true) by reflexivity.
  rewrite forallb_forall in Hc. specialize (Hc d). rewrite negb_true_iff in Hc.
  rewrite Hc; [done|]. apply list_elem_of_In, elem_of_seqZ. lia.
Qed.

Lemma pagecounter_digits dir ds : digits_ok 10 ds ->
  pagecounter (dir ++ bs "/" ++ name_prefix ++ (digit_char <$> ds) ++ bs "dxdb") =
  u32 (atoi (take 4 ((digit_char <$> ds) ++ bs "dxdb"))).
Proof.
  intros Hds. unfold pagecounter. set (r := name_prefix ++ _). change (bs "/" ++ r) with (ch "/" :: r).
  rewrite after_slash_app; subst r.
  - by change (drop 3 (name_prefix ++ (digit_char <$> ds) ++ bs "dxdb")) with ((digit_char <$> ds) ++ bs "dxdb").
  - rewrite !existsb_app, (digits_no_slash ds Hds). reflexivity.
Qed.

Lemma pagecounter_small dir counter : 0 <= counter < 10000 -> pagecounter (dbname dir counter) = counter.
Proof.
  intros Hc. unfold dbname. destruct (fmt_prec_digits 10 4 counter) as (ds & -> & Hds & Hl & Hv); [lia..|].
  rewrite (pagecounter_digits dir ds Hds). rewrite take_app_length' by (by rewrite length_fmap).
  rewrite atoi_digits by (done || lia). rewrite Hv. wrap_small. done.
Qed.

(** The number of a page is read back from the name of its file as long as it
    has four digits; the next page gets the number of another one. *)
Theorem page_number_roundtrip dir counter :
  (0 <= counter < 10000 -> pagecounter (dbname dir counter) = counter) /\
  pagecounter (dbname dir 10000) = pagecounter (dbname dir 1000).
Proof.
  split; [apply pagecounter_small|]. rewrite (pagecounter_small dir 1000) by lia. unfold dbname.
  change (fmt_prec 10 4 10000) with (digit_char <$> [1; 0; 0; 0; 0]).
  rewrite pagecounter_digits; [reflexivity|]. repeat constructor; lia.
Qed.

Section Filebase.
(** The files that exist when the program starts; what is not initialised. *)
Context (junk_magic junk_pad junk_item : list Z) (new : page).
Context (disk : list Z -> option (list Z)).

Record filebase := mk_filebase { counter : Z; filepages : gmap Z page }.

Definition acquirePage (file : list Z) (b : filebase) : option (Z * filebase) :=
  p ← Filepage_new junk_magic junk_pad junk_item new (disk file);
  let pageNum := pagecounter file in
  Some (pageNum, mk_filebase (counter b) (<[pageNum := p]> (filepages b))).

(** [acquirePage(dbname(dir))] *)
Definition next_page (dir : list Z) (b : filebase) : option (Z * filebase) :=
  acquirePage (dbname dir (counter b)) (mk_filebase (u32 (counter b + 1)) (filepages b)).

Definition applicablePage (dir : list Z) (b : filebase) : option (Z * filebase) :=
  match least ((map_to_list (filter (fun '(_, p) => m_pageFull p = false) (filepages b))).*1) with
  | Some n => Some (n, b)
  | None => next_page dir b
  end.

Definition Filebase_new (cnt : nat) (dir : list Z) : option filebase :=
  '(_, b) ← next_page dir (mk_filebase 0 ∅);
  foldl (fun b _ => b ← b; snd <$> next_page dir b) (Some b) (seq 1 (cnt - 1)).

(** An operation on the page with a number; another number is a null pointer. *)
Definition on_page {A} (n : Z) (m : SM page A) (b : filebase) : option (A * filebase) :=
  p ← filepages b !! n; '(x, p) ← m p; Some (x, mk_filebase (counter b) (<[n := p]> (filepages b))).

Definition put (dir name data : list Z) (b : filebase) : option (Z * filebase) :=
  '(n, b) ← applicablePage dir b;
  '(_, b) ← on_page n (storeItem junk_pad junk_item name data) b;
  Some (n, b).

Definition get (n : Z) (name : list Z) : filebase -> option (option (list Z) * filebase) := on_page n (retrieveItem name).
Definition remove (n : Z) (name : list Z) : filebase -> option (unit * filebase) := on_page n (removeItem junk_item name).
End Filebase.

(** ** The data index *)
Definition DATA_MAGIC : Z := 72.
Definition DATA_FLAG_ADI : Z := 0x1.
Definition DATA_FLAG_LFB : Z := 0x2.
Definition LFB_MINIMUM_SIZE : Z := 1024 * 1024 * 8.
Definition sizeof_StorageType : nat := 12.

Section Index.
Context {S : Type} `{Database S}.
Context (junk_magic junk_pad junk_item : list Z) (new : page) (disk : list Z -> option (list Z)).
(** The padding of [StorageType], [std::string::max_size()], the directory. *)
Context (pad1 pad2 : list Z) (Hpad1 : length pad1 = 2%nat) (Hpad2 : length pad2 = 2%nat).
Context (max_size : Z) (dir : list Z).

Record index := mk_index { env : S; lfb : filebase }.

Definition storage_type (page flags : Z) : list Z :=
  le_bytes 2 page ++ pad1 ++ le_bytes 4 0 ++ [DATA_MAGIC; flags] ++ pad2.
Definition t_page (m : mem) : Z := field 0 2 m.
Definition t_magic (m : mem) : Z := field 8 1 m.
Definition t_flags (m : mem) : Z := field 9 1 m.

(** A computation that may throw an error of the database. *)
Definition dx_put (quid value : list Z) (override : bool) (s : index) : option (option Z * index) :=
  match quid_key quid with
  | None => Some (None, s)
  | Some q =>
      '(record, b) ← (if (LFB_MINIMUM_SIZE <? Z.of_nat (length value)) && (Z.of_nat (length value) <? max_size) then
          '(n, b) ← put junk_magic junk_pad junk_item new disk dir q value (lfb s);
          Some (storage_type (u16 n) DATA_FLAG_LFB, b)
        else Some (value ++ storage_type 0 DATA_FLAG_ADI, lfb s));
      let '(e, d) := db_insert q record override (env s) in
      Some (e, mk_index d b)
  end.

(** The error or the value; a record that is too short throws
    [std::out_of_range]. *)
Definition OUT_OF_RANGE : Z := 1.
Definition dx_get (quid : list Z) (s : index) : option ((Z + list Z) * index) :=
  match quid_key quid with
  | None => Some (inr [], s)
  | Some q =>
      match db_find q (env s) with
      | None => Some (inl UPS_KEY_NOT_FOUND, s)
      | Some data =>
          if (length data <? sizeof_StorageType)%nat then Some (inl OUT_OF_RANGE, s)
          else
            let data_end := (length data - sizeof_StorageType)%nat in
            let type := drop data_end data in
            if negb (t_magic type =? DATA_MAGIC) then Some (inr [], s)
            else if t_flags type =? DATA_FLAG_LFB then
              '(value, b) ← get (t_page type) q (lfb s);
              v ← value;
              Some (inr v, mk_index (env s) b)
            else Some (inr (take data_end data), s)
      end
  end.

(** [AbstractEngine::remove]: the key as it is given. *)
Definition dx_remove (quid : list Z) (s : index) : option Z * index :=
  let '(e, d) := db_erase quid (env s) in (e, mk_index d (lfb s)).

(** ** The index stands for a map *)
Section Refinement.
Context (Hmagic : length junk_magic = 8%nat) (Hpad : length junk_pad = 2%nat) (Hitem : length junk_item = 48%nat).
Context (G : nat).

Notation page_ok := (page_ok junk_pad G).

(** The record of a value: the value itself, or a reference to the first page,
    which has it. *)
Definition record_of (q record v : list Z) (es : list entry) : Prop :=
  record = v ++ storage_type 0 DATA_FLAG_ADI \/
  record = storage_type 0 DATA_FLAG_LFB /\ items es !! q = Some v.

Record stands_for (s : index) (p : page) (es : list entry) (m : gmap (list Z) (list Z)) : Prop := {
  sf_page : filepages (lfb s) !! 0 = Some p;
  sf_pages : forall n p', filepages (lfb s) !! n = Some p' -> 0 <= n;
  sf_ok : page_ok p es;
  sf_records : forall q, match db_find q (env s) with
    | None => m !! q = None
    | Some record => exists v, m !! q = Some v /\ record_of q record v es
    end }.

Lemma storage_length page fl : length (storage_type page fl) = 12%nat.
Proof. unfold storage_type. rewrite !length_app, !le_bytes_length, Hpad1, Hpad2. done. Qed.

Lemma storage_fields page fl : 0 <= page < 2 ^ 16 -> byte_ok fl ->
  t_page (storage_type page fl) = page /\ t_magic (storage_type page fl) = DATA_MAGIC /\ t_flags (storage_type page fl) = fl.
Proof.
  intros Hp Hf. set (t := storage_type page fl). assert (Ht : bytes_at t 0 t) by (intros i c Hi; exact Hi).
  unfold t at 2, storage_type in Ht.
  change [DATA_MAGIC; fl] with ([DATA_MAGIC] ++ [fl]) in Ht.
  rewrite !bytes_at_app, !le_bytes_length, Hpad1 in Ht. destruct Ht as (B1 & _ & _ & (B2 & B3) & _).
  unfold byte_ok in Hf. split; [|split].
  - unfold t_page. rewrite (field_at 0 2 t page B1). apply Z.mod_small. exact Hp.
  - unfold t_magic. change [DATA_MAGIC] with (le_bytes 1 DATA_MAGIC) in B2. exact (field_at 8 1 t DATA_MAGIC B2).
  - unfold t_flags. assert (E : [fl] = le_bytes 1 fl) by (cbn; by rewrite Z.mod_small by lia).
    rewrite E in B3. rewrite (field_at 9 1 t fl B3). apply Z.mod_small. exact Hf.
Qed.

Lemma on_page_run {A} n (m : SM page A) b p x p' :
  filepages b !! n = Some p -> m p = Some (x, p') ->
  on_page n m b = Some (x, mk_filebase (counter b) (<[n := p']> (filepages b))).
Proof. intros Hp E. unfold on_page. rewrite Hp. cbn [mbind option_bind]. by rewrite E. Qed.

(** As no page is ever full the first is always the one. *)
Lemma applicable_first b p : filepages b !! 0 = Some p -> m_pageFull p = false ->
  (forall n p', filepages b !! n = Some p' -> 0 <= n) ->
  applicablePage junk_magic junk_pad junk_item new disk dir b = Some (0, b).
Proof.
  intros Hp Hf Hpos. unfold applicablePage. set (f := filter _ (filepages b)).
  pose proof (least_spec (map_to_list f).*1) as Hl.
  assert (H0 : 0 ∈ (map_to_list f).*1).
  { apply list_elem_of_fmap. exists (0, p). split; [done|]. apply elem_of_map_to_list.
    unfold f. apply map_lookup_filter_Some. done. }
  destruct (least _) as [k|]; [|rewrite Hl in H0; by apply elem_of_nil in H0]. destruct Hl as [Hk Hmin].
  apply list_elem_of_fmap in Hk as ([k' pk] & -> & Hk%elem_of_map_to_list).
  unfold f in Hk. apply map_lookup_filter_Some in Hk as [Hk _]. specialize (Hpos _ _ Hk). specialize (Hmin _ H0).
  cbn [fst] in *. by replace k' with 0 by lia.
Qed.

Lemma page_not_full p es : page_ok p es -> m_pageFull p = false.
Proof. intros [(l & pos & idx & _ & M & _)]. apply M. Qed.

(** What an operation does to the room of a page. *)
Definition grown (value : list Z) (p p' : page) : Prop :=
  m_FirstFree p' <= m_FirstFree p + (48 * Z.of_nat G + 4) + Z.of_nat (length value) /\ m_ItemSize p' = m_ItemSize p.

Lemma grown_refl value p : grown value p p.
Proof. unfold grown. lia. Qed.

(** A file base stores on its first page. *)
Lemma put_run b p es q value :
  filepages b !! 0 = Some p -> (forall n p', filepages b !! n = Some p' -> 0 <= n) -> page_ok p es ->
  name_ok q -> room G p value -> Z.of_nat (length es) + 1 < 2 ^ 16 ->
  exists p' off, put junk_magic junk_pad junk_item new disk dir q value b =
      Some (0, mk_filebase (counter b) (<[0 := p']> (filepages b))) /\
    page_ok p' (es ++ [mk_entry q value off]) /\ grown value p p'.
Proof.
  intros Hp Hpos Ok Hq Hr Hc.
  destruct (page_store_run junk_magic junk_pad junk_item Hmagic Hpad Hitem G p es q value Ok Hq Hr Hc) as (p' & off & E & Ok' & Hg).
  exists p', off. split; [|split; [exact Ok'|exact Hg]]. unfold put.
  rewrite (applicable_first b p Hp (page_not_full _ _ Ok) Hpos). cbn [mbind option_bind].
  by rewrite (on_page_run 0 _ b p tt p' Hp E).
Qed.

(** What the page has for other names stays. *)
Lemma record_kept q q' record v es value off : q' <> q -> record_of q' record v es ->
  record_of q' record v (es ++ [mk_entry q value off]).
Proof.
  intros Hne [->|[-> Hi]]; [by left|]. right. split; [done|]. rewrite items_stored. cbn [e_name e_data].
  by rewrite lookup_insert_ne.
Qed.

Definition large (value : list Z) : bool :=
  (LFB_MINIMUM_SIZE <? Z.of_nat (length value)) && (Z.of_nat (length value) <? max_size).

(** The next state stands for [m], and the page had to grow for [value] only. *)
Definition leads_to (value : list Z) (p : page) (es : list entry) (s' : index) (m : gmap (list Z) (list Z)) : Prop :=
  exists p' es', stands_for s' p' es' m /\ grown value p p' /\ (length es' <= length es + 1)%nat.

Lemma stands_for_same s p es m d m' :
  stands_for s p es m ->
  (forall q, match db_find q d with
    | None => m' !! q = None
    | Some record => exists v, m' !! q = Some v /\ record_of q record v es
    end) ->
  stands_for (mk_index d (lfb s)) p es m'.
Proof. intros [Hp Hpos Ok _] Hrec. by split. Qed.

(** Storing the value alone: the base has it from then on. *)
Lemma lfb_put_run s p es m q value :
  stands_for s p es m -> name_ok q -> room G p value -> Z.of_nat (length es) + 1 < 2 ^ 16 ->
  exists b p' off, put junk_magic junk_pad junk_item new disk dir q value (lfb s) = Some (0, b) /\ grown value p p' /\
    forall d m', (forall q', match db_find q' d with
      | None => m' !! q' = None
      | Some record => exists v, m' !! q' = Some v /\ record_of q' record v (es ++ [mk_entry q value off])
      end) -> stands_for (mk_index d b) p' (es ++ [mk_entry q value off]) m'.
Proof.
  intros [Hp Hpos Ok _] Hq Hr Hc.
  destruct (put_run (lfb s) p es q value Hp Hpos Ok Hq Hr Hc) as (p' & off & E & Ok' & Hg).
  eexists _, p', off. split; [exact E|]. split; [exact Hg|]. intros d m' Hrec. split; cbn [lfb filepages env]; try done.
  - apply lookup_insert_eq.
  - intros n p1. destruct (decide (n = 0)) as [->|Hn]; [done|]. rewrite lookup_insert_ne by done. apply Hpos.
Qed.

(** A record of the page has the value that was stored last. *)
Lemma record_stored q value es off : record_of q (storage_type 0 DATA_FLAG_LFB) value (es ++ [mk_entry q value off]).
Proof. right. split; [done|]. rewrite items_stored. cbn [e_name e_data]. apply lookup_insert_eq. Qed.

Lemma dx_put_run s p es m quid q value o :
  stands_for s p es m -> quid_key quid = Some q -> name_ok q -> room G p value -> Z.of_nat (length es) + 1 < 2 ^ 16 ->
  m !! q = None \/ o = true ->
  exists s', dx_put quid value o s = Some (None, s') /\ leads_to value p es s' (<[q := value]> m) /\
    db_find q (env s') = Some (if large value then storage_type 0 DATA_FLAG_LFB else value ++ storage_type 0 DATA_FLAG_ADI).
Proof.
  intros St Hk Hq Hr Hc Ho. pose proof (sf_records _ _ _ _ St) as Hrec. unfold dx_put. rewrite Hk. fold (large value).
  assert (Hins : db_find q (env s) = None \/ o = true).
  { destruct Ho as [Hm|]; [|by right]. left. specialize (Hrec q). destruct (db_find q (env s)); [|done].
    destruct Hrec as (v & Hv & _). congruence. }
  destruct (large value).
  - destruct (lfb_put_run s p es m q value St Hq Hr Hc) as (b & p' & off & E & Hg & Hst).
    rewrite E. cbn [mbind option_bind]. change (u16 0) with 0. set (record := storage_type 0 DATA_FLAG_LFB).
    destruct (db_insert_ok q record o (env s) Hins) as [E1 E2].
    destruct (db_insert q record o (env s)) as [e d]. cbn [fst snd] in E1, E2. subst e.
    eexists. split; [done|]. split; [|cbn [env]; rewrite E2; by case_decide]. exists p', (es ++ [mk_entry q value off]).
    split; [|split; [exact Hg|rewrite length_app; cbn [length]; lia]]. apply Hst. intros q'.
    rewrite E2. case_decide as Hqq.
    + subst q'. exists value. rewrite lookup_insert_eq. split; [done|]. apply record_stored.
    + specialize (Hrec q'). destruct (db_find q' (env s)) as [r|]; rewrite lookup_insert_ne by done; [|exact Hrec].
      destruct Hrec as (v & Hv & Hr'). exists v. split; [done|]. by apply record_kept.
  - cbn [mbind option_bind]. set (record := value ++ storage_type 0 DATA_FLAG_ADI).
    destruct (db_insert_ok q record o (env s) Hins) as [E1 E2].
    destruct (db_insert q record o (env s)) as [e d]. cbn [fst snd] in E1, E2. subst e.
    eexists. split; [done|]. split; [|cbn [env]; rewrite E2; by case_decide].
    exists p, es. split; [|split; [apply grown_refl|lia]].
    apply (stands_for_same s p es m d _ St). intros q'. rewrite E2. case_decide as Hqq.
    + subst q'. exists value. rewrite lookup_insert_eq. split; [done|]. by left.
    + specialize (Hrec q'). destruct (db_find q' (env s)); rewrite lookup_insert_ne by done; exact Hrec.
Qed.

(** A small value of a key that is there is refused. *)
Lemma dx_put_duplicate_run s p es m quid q value :
  stands_for s p es m -> quid_key quid = Some q -> m !! q <> None -> large value = false ->
  exists s', dx_put quid value false s = Some (Some UPS_DUPLICATE_KEY, s') /\ leads_to value p es s' m.
Proof.
  intros St Hk Hm Hl. pose proof (sf_records _ _ _ _ St) as Hrec. unfold dx_put. rewrite Hk. fold (large value). rewrite Hl.
  cbn [mbind option_bind]. set (record := value ++ storage_type 0 DATA_FLAG_ADI).
  assert (Hf : db_find q (env s) <> None) by (intros E; specialize (Hrec q); by rewrite E in Hrec).
  destruct (db_insert_duplicate q record (env s) Hf) as [E1 E2].
  destruct (db_insert q record false (env s)) as [e d]. cbn [fst snd] in E1, E2. subst e.
  eexists. split; [done|]. exists p, es. split; [|split; [apply grown_refl|lia]].
  apply (stands_for_same s p es m d _ St). intros q'. rewrite E2. apply Hrec.
Qed.

Lemma dx_get_run s p es m quid q :
  stands_for s p es m -> quid_key quid = Some q ->
  exists s' p', dx_get quid s =
      Some (match m !! q with Some v => inr v | None => inl UPS_KEY_NOT_FOUND end, s') /\
    stands_for s' p' es m /\ m_FirstFree p' = m_FirstFree p /\ m_ItemSize p' = m_ItemSize p.
Proof.
  intros St Hk. pose proof St as [Hp Hpos Ok Hrec]. unfold dx_get. rewrite Hk. specialize (Hrec q) as Hq.
  destruct (db_find q (env s)) as [record|] eqn:Ef; [|rewrite Hq; by exists s, p].
  destruct Hq as (v & Hv & Hr). rewrite Hv.
  assert (Hsplit : forall a fl, record = a ++ storage_type 0 fl -> byte_ok fl ->
    (length record <? sizeof_StorageType)%nat = false /\ (length record - sizeof_StorageType)%nat = length a /\
    drop (length a) record = storage_type 0 fl).
  { intros a fl -> Hfl. rewrite length_app, storage_length. unfold sizeof_StorageType.
    split; [apply Nat.ltb_ge; lia|]. split; [lia|]. by rewrite drop_app_length. }
  destruct Hr as [Er|[Er Hi]].
  - destruct (Hsplit v DATA_FLAG_ADI Er) as (H1 & H2 & H3); [done|].
    destruct (storage_fields 0 DATA_FLAG_ADI) as (F1 & F2 & F3); [done|done|].
    exists s, p. split; [|done]. rewrite H1. cbv zeta. rewrite H2, H3, F2, F3. cbn [Z.eqb negb].
    rewrite Er. by rewrite take_app_length.
  - destruct (Hsplit [] DATA_FLAG_LFB Er) as (H1 & H2 & H3); [done|].
    destruct (storage_fields 0 DATA_FLAG_LFB) as (F1 & F2 & F3); [done|done|].
    destruct (retrieve_run junk_magic junk_pad junk_item Hmagic Hpad Hitem G p es q Ok) as (p' & E & Ok' & Hff & Hsz).
    eexists _, p'. split; [|split; [|done]].
    + rewrite H1. cbv zeta. rewrite H2, H3, F1, F2, F3. cbn [Z.eqb negb].
      change (DATA_MAGIC =? DATA_MAGIC) with true. cbn [negb]. change (DATA_FLAG_LFB =? DATA_FLAG_LFB) with true. cbn iota.
      unfold get. rewrite (on_page_run 0 _ (lfb s) p _ p' Hp E). cbn [mbind option_bind]. by rewrite Hi.
    + split; cbn [lfb filepages env]; [apply lookup_insert_eq| |exact Ok'|exact Hrec].
      intros n p1. destruct (decide (n = 0)) as [->|Hn]; [done|]. rewrite lookup_insert_ne by done. apply Hpos.
Qed.

Lemma dx_remove_run s p es m q :
  stands_for s p es m ->
  exists s', dx_remove q s = (match m !! q with Some _ => None | None => Some UPS_KEY_NOT_FOUND end, s') /\
    stands_for s' p es (delete q m).
Proof.
  intros St. pose proof (sf_records _ _ _ _ St) as Hrec. unfold dx_remove.
  pose proof (db_erase_find q (env s)) as E2. pose proof (db_erase_error q (env s)) as E1.
  destruct (db_erase q (env s)) as [e d]. cbn [fst snd] in E1, E2. subst e. eexists. split.
  - f_equal. specialize (Hrec q). destruct (db_find q (env s)); [|by rewrite Hrec]. by destruct Hrec as (v & -> & _).
  - apply (stands_for_same s p es m d _ St). intros q'. rewrite E2. case_decide as Hq.
    + subst q'. apply lookup_delete_eq.
    + specialize (Hrec q'). destruct (db_find q' (env s)); rewrite lookup_delete_ne by done; exact Hrec.
Qed.

(** Sequences of operations. *)
Inductive operation := Put (quid value : list Z) (override : bool) | Get (quid : list Z).
Inductive result := Done (error : option Z) | Got (value : Z + list Z).

Definition operate (o : operation) (s : index) : option (result * index) :=
  match o with
  | Put quid value override => '(e, s) ← dx_put quid value override s; Some (Done e, s)
  | Get quid => '(v, s) ← dx_get quid s; Some (Got v, s)
  end.

Fixpoint operate_all (os : list operation) (s : index) : option (list result * index) :=
  match os with
  | [] => Some ([], s)
  | o :: os => '(r, s) ← operate o s; '(rs, s) ← operate_all os s; Some (r :: rs, s)
  end.

(** What a map answers and what it becomes. *)
Definition answer (m : gmap (list Z) (list Z)) (o : operation) : result * gmap (list Z) (list Z) :=
  match o with
  | Put quid value override =>
      match quid_key quid with
      | None => (Done None, m)
      | Some q =>
          match m !! q, override with
          | Some _, false => (Done (Some UPS_DUPLICATE_KEY), m)
          | _, _ => (Done None, <[q := value]> m)
          end
      end
  | Get quid =>
      (Got (match quid_key quid with
            | None => inr []
            | Some q => match m !! q with Some v => inr v | None => inl UPS_KEY_NOT_FOUND end
            end), m)
  end.

(** The identifiers have 36 characters and no NUL.  What is left out is a
    large value that is inserted twice. *)
Definition admissible (m : gmap (list Z) (list Z)) (o : operation) : Prop :=
  match o with
  | Put quid value override =>
      forall q, quid_key quid = Some q ->
        name_ok q /\ (m !! q = None \/ override = true \/ large value = false)
  | Get _ => True
  end.

Definition need (o : operation) : Z :=
  match o with Put _ value _ => 48 * Z.of_nat G + 4 + Z.of_nat (length value) | Get _ => 0 end.

Fixpoint answers (m : gmap (list Z) (list Z)) (os : list operation) : list result :=
  match os with [] => [] | o :: os => (answer m o).1 :: answers (answer m o).2 os end.
Fixpoint all_admissible (m : gmap (list Z) (list Z)) (os : list operation) : Prop :=
  match os with [] => True | o :: os => admissible m o /\ all_admissible (answer m o).2 os end.
Fixpoint space (os : list operation) : Z := match os with [] => 0 | o :: os => need o + space os end.

Lemma need_nonneg o : 0 <= need o.
Proof. destruct o; cbn [need]; lia. Qed.
Lemma space_nonneg os : 0 <= space os.
Proof. induction os as [|o os IH]; cbn [space]; [lia|]. pose proof (need_nonneg o). lia. Qed.

(** One operation answers like the map. *)
Definition answered (m : gmap (list Z) (list Z)) (o : operation) (s : index) (p : page) (es : list entry) : Prop :=
  exists s' p' es', operate o s = Some ((answer m o).1, s') /\ stands_for s' p' es' (answer m o).2 /\
    m_FirstFree p' <= m_FirstFree p + need o /\ m_ItemSize p' = m_ItemSize p /\ (length es' <= length es + 1)%nat.

Lemma put_answered s p es m quid value o e m' s' :
  dx_put quid value o s = Some (e, s') -> leads_to value p es s' m' ->
  answer m (Put quid value o) = (Done e, m') -> answered m (Put quid value o) s p es.
Proof.
  intros E (p' & es' & St & [Hg1 Hg2] & Hl) Ha. exists s', p', es'. rewrite Ha. cbn [operate fst snd need].
  rewrite E. split; [done|]. split; [exact St|]. split; [lia|]. by split.
Qed.

Lemma operate_run s p es m o :
  stands_for s p es m -> admissible m o -> m_FirstFree p + need o + u32 (m_ItemSize p * Z.of_nat G) < 2 ^ 32 ->
  Z.of_nat (length es) + 1 < 2 ^ 16 -> answered m o s p es.
Proof.
  intros St Ha Hs Hc. destruct o as [quid value o|quid]; cbn [admissible need] in *.
  - destruct (quid_key quid) as [q|] eqn:Ek.
    + destruct (Ha q eq_refl) as [Hq Ho]. assert (Hr : room G p value) by (unfold room; lia).
      assert (Hput : m !! q = None \/ o = true -> answer m (Put quid value o) = (Done None, <[q := value]> m) ->
        answered m (Put quid value o) s p es).
      { intros Ho' Han. destruct (dx_put_run s p es m quid q value o St Ek Hq Hr Hc Ho') as (s' & E & L & _). by eapply put_answered. }
      cbn [answer] in Hput. rewrite Ek in Hput. destruct (m !! q) as [v|] eqn:Em; [|apply Hput; [by left|done]].
      destruct o; [apply Hput; [by right|done]|]. destruct Ho as [|[|Hl]]; [done..|].
      destruct (dx_put_duplicate_run s p es m quid q value St Ek) as (s' & E & L); [by rewrite Em|done|].
      eapply put_answered; [exact E|exact L|]. cbn [answer]. by rewrite Ek, Em.
    + exists s, p, es. cbn [operate answer need]. unfold dx_put. rewrite Ek. cbn [mbind option_bind fst snd].
      split; [done|]. split; [exact St|]. lia.
  - destruct (quid_key quid) as [q|] eqn:Ek.
    + destruct (dx_get_run s p es m quid q St Ek) as (s' & p' & E & St' & H1 & H2).
      exists s', p', es. cbn [operate answer need]. rewrite Ek, E. cbn [mbind option_bind fst snd].
      split; [done|]. split; [exact St'|]. lia.
    + exists s, p, es. cbn [operate answer need]. unfold dx_get. rewrite Ek. cbn [mbind option_bind fst snd].
      split; [done|]. split; [exact St|]. lia.
Qed.

(** C7: The data index answers like a map of identifiers to values, whether they
    are kept in the database or in the page: a value put is the value got until
    it is overridden, a key without one is not found, and inserting a present
    key is refused, as long as the page has room. *)
Theorem data_index_refines_map s p es m os :
  stands_for s p es m -> all_admissible m os ->
  m_FirstFree p + space os + u32 (m_ItemSize p * Z.of_nat G) < 2 ^ 32 ->
  Z.of_nat (length es) + Z.of_nat (length os) < 2 ^ 16 ->
  exists s', operate_all os s = Some (answers m os, s').
Proof.
  revert s p es m. induction os as [|o os IH]; intros s p es m St Ha Hs Hc; [by exists s|].
  destruct Ha as [Ha Has]. cbn [space length] in Hs, Hc. pose proof (space_nonneg os) as Hsp.
  destruct (operate_run s p es m o St Ha) as (s1 & p1 & es1 & E & St1 & H1 & H2 & H3); [lia..|].
  destruct (IH s1 p1 es1 _ St1 Has) as [s2 E2]; [rewrite H2; lia|lia|].
  exists s2. cbn [operate_all answers]. rewrite E. cbn [mbind option_bind]. by rewrite E2.
Qed.

(** Inserting a large value under a key that refers to one is refused with an
    error, and yet the value is replaced. *)
Theorem duplicate_insert_replaces s p es m quid q value :
  stands_for s p es m -> quid_key quid = Some q -> name_ok q -> room G p value -> Z.of_nat (length es) + 1 < 2 ^ 16 ->
  db_find q (env s) = Some (storage_type 0 DATA_FLAG_LFB) -> large value = true ->
  exists s' p' es', dx_put quid value false s = Some (Some UPS_DUPLICATE_KEY, s') /\
    stands_for s' p' es' (<[q := value]> m).
Proof.
  intros St Hk Hq Hr Hc Hf Hl. pose proof (sf_records _ _ _ _ St) as Hrec.
  destruct (lfb_put_run s p es m q value St Hq Hr Hc) as (b & p' & off & E & Hg & Hst).
  unfold dx_put. rewrite Hk. fold (large value). rewrite Hl, E. cbn [mbind option_bind]. change (u16 0) with 0.
  set (record := storage_type 0 DATA_FLAG_LFB) in *.
  destruct (db_insert_duplicate q record (env s)) as [E1 E2]; [by rewrite Hf|].
  destruct (db_insert q record false (env s)) as [e d]. cbn [fst snd] in E1, E2. subst e.
  eexists _, p', _. split; [done|]. apply Hst. intros q'. rewrite E2. destruct (decide (q' = q)) as [->|Hqq].
  - rewrite Hf. exists value. rewrite lookup_insert_eq. split; [done|]. apply record_stored.
  - specialize (Hrec q'). destruct (db_find q' (env s)) as [r|]; rewrite lookup_insert_ne by done; [|exact Hrec].
    destruct Hrec as (v & Hv & Hr'). exists v. split; [done|]. by apply record_kept.
Qed.
End Refinement.

(** An empty database with a new file base stands for the empty map. *)
Lemma start_run d :
  length junk_magic = 8%nat -> length junk_pad = 2%nat -> length junk_item = 48%nat ->
  disk (dbname dir 0) = None -> (forall k, db_find k d = None) ->
  exists b p, Filebase_new junk_magic junk_pad junk_item new disk 0 dir = Some b /\
    stands_for 16 (mk_index d b) p [] ∅ /\ m_FirstFree p = 800 /\ m_ItemSize p = ITEM_SIZE.
Proof.
  intros Hmagic Hpad Hitem Hdisk Hd. set (p0 := set_full false (set_contents ∅ (set_file None new))).
  destruct (page_create_run junk_magic junk_pad junk_item Hmagic Hpad Hitem 16 p0 ITEM_SIZE) as (p & E & Ok & Hff & Hsz);
    [by split|lia|lia|unfold ITEM_SIZE; lia|].
  unfold Filebase_new, next_page, acquirePage. cbn [counter]. rewrite Hdisk. cbn [Nat.sub seq foldl].
  unfold Filepage_new. change DEFAULT_PAGE_ALLOC with (Z.of_nat 16). fold p0. rewrite E.
  rewrite (pagecounter_small dir 0) by lia. cbn [fmap option_fmap option_map mbind option_bind snd].
  eexists _, p. split; [done|]. split; [|by rewrite Hff].
  split; cbn [lfb filepages env].
  - apply lookup_insert_eq.
  - intros n p' Hn. apply lookup_insert_Some in Hn as [[<- _]|[_ Hn]]; [lia|done].
  - exact Ok.
  - intros q. by rewrite Hd.
Qed.
End Index.

(** ** A small index *)
Definition demo_quid (c : Z) : list Z := ch "{" :: demo_name c ++ [ch "}"].
Definition demo_large (c : Z) : list Z := replicate (Z.to_nat 8388609) c.
Definition demo_operations (big big' : list Z) : list operation :=
  [Put (demo_name 97) (bs "one") false; Get (demo_quid 97); Put (demo_quid 98) big false; Put (demo_name 97) (bs "two") false;
   Put (demo_name 97) big' true; Get (demo_name 98); Get (demo_name 97); Get (demo_name 99); Get (bs "none")].

Lemma demo_large_length c : Z.of_nat (length (demo_large c)) = 8388609.
Proof. unfold demo_large. rewrite length_replicate, Z2Nat.id; [done|lia]. Qed.

Lemma demo_large_large c : large (2 ^ 62) (demo_large c) = true.
Proof. unfold large. rewrite demo_large_length. reflexivity. Qed.

Notation demo_index f := (f (gmap (list Z) (list Z)) map_database (replicate 8 7) (replicate 2 7) (replicate 48 7) demo_new
  (fun _ => None) [7; 7] [7; 7]) (only parsing).
Notation demo_law f := (demo_index f eq_refl eq_refl (2 ^ 62) (bs "data") eq_refl eq_refl eq_refl 16%nat) (only parsing).
Notation demo_stands := (@stands_for (gmap (list Z) (list Z)) map_database (replicate 2 7) [7; 7] [7; 7] 16).

Lemma demo_start : exists s p, demo_stands s p [] ∅ /\ m_FirstFree p = 800 /\ m_ItemSize p = ITEM_SIZE.
Proof.
  destruct (demo_index (@start_run) eq_refl eq_refl (bs "data") ∅) as (b & p & _ & St & Hff & Hsz); try done.
  eexists _, p. split; [exact St|]. by split.
Qed.

Lemma data_index_refines_map_witness :
  exists s s', demo_index (@operate_all) (2 ^ 62) (bs "data") (demo_operations (demo_large 7) (demo_large 8)) s = Some (
    [Done None; Got (inr (bs "one")); Done None; Done (Some UPS_DUPLICATE_KEY); Done None;
     Got (inr (demo_large 7)); Got (inr (demo_large 8)); Got (inl UPS_KEY_NOT_FOUND); Got (inr [])], s').
Proof.
  destruct demo_start as (s & p & St & Hff & Hsz).
  destruct (demo_law (@data_index_refines_map) s p [] ∅ (demo_operations (demo_large 7) (demo_large 8)) St) as [s' E].
  - refine (conj _ (conj I (conj _ (conj _ (conj _ (conj I (conj I (conj I (conj I I)))))))));
      intros q [= <-]; (split; [apply demo_name_ok; lia|]).
    + by left.
    + by left.
    + by right; right.
    + by right; left.
  - rewrite Hff, Hsz. unfold demo_operations. cbn [space need]. rewrite !demo_large_length. reflexivity.
  - reflexivity.
  - exists s, s'. rewrite E. reflexivity.
Defined.

(** The first value, then the refused one. *)
Lemma duplicate_insert_replaces_witness :
  exists s s1 s2 s3, demo_index (@dx_put) (2 ^ 62) (bs "data") (demo_name 97) (demo_large 7) false s = Some (None, s1) /\
    demo_index (@dx_put) (2 ^ 62) (bs "data") (demo_name 97) (demo_large 8) false s1 = Some (Some UPS_DUPLICATE_KEY, s2) /\
    dx_get (demo_name 97) s2 = Some (inr (demo_large 8), s3).
Proof.
  destruct demo_start as (s & p & St & Hff & Hsz). assert (Hq : name_ok (demo_name 97)) by (apply demo_name_ok; lia).
  destruct (demo_law (@dx_put_run) s p [] ∅ (demo_name 97) (demo_name 97) (demo_large 7) false St eq_refl Hq)
    as (s1 & E1 & (p1 & es1 & St1 & [Hg1 Hg2] & Hl1) & Hf).
  { unfold room. rewrite Hff, Hsz, demo_large_length. reflexivity. }
  { reflexivity. }
  { by left. }
  rewrite demo_large_large in Hf. rewrite demo_large_length, Hff in Hg1. rewrite Hsz in Hg2. cbn [length] in Hl1.
  destruct (demo_law (@duplicate_insert_replaces) s1 p1 es1 _ (demo_name 97) (demo_name 97) (demo_large 8) St1 eq_refl Hq)
    as (s2 & p2 & es2 & E2 & St2); [| |exact Hf|apply demo_large_large|].
  { unfold room. rewrite Hg2, demo_large_length. change (u32 (ITEM_SIZE * Z.of_nat 16)) with (2 ^ 27). lia. }
  { lia. }
  destruct (dx_get_run (replicate 8 7) (replicate 2 7) (replicate 48 7) [7; 7] [7; 7] eq_refl eq_refl eq_refl eq_refl eq_refl
    16 s2 p2 es2 _ (demo_name 97) (demo_name 97) St2 eq_refl) as (s3 & p3 & E3 & _).
  exists s, s1, s2, s3. split; [exact E1|]. split; [exact E2|]. rewrite E3. reflexivity.
Defined.
End DataIndex.
