(* ===== verification/Cynder.v ===== *)
(** * cynder: the worker (cynder.cpp, record_index.h)

    The worker answers a query on the indexes of its node.  Messages are
    protobuf's: what their generated code does is given, with the promise that
    what was serialized is parsed. *)
From S2P Require Import Prelude CLib Engine Filepage DataIndex.

Module Cynder.
Export DataIndex.

(** ** Messages (storagequery.proto, scrapedata.proto) *)
Inductive MetaEntry := mk_meta { key : list Z; value : option (list Z); meta : list MetaEntry }.

Inductive QueryAction := SELECT | INSERT | UPDATE | DELETE | SEARCH.
Inductive QueryResult := SUCCESS | NOTFOUND | DUPLICATE | UNKNOWN.

Inductive StorageQuery := mk_query {
  name : list Z; id : Z; quid : list Z; content : option (list Z); queryaction : QueryAction;
  queryresult : QueryResult; q_meta : list MetaEntry; q_next : list StorageQuery }.

Record ScrapeData := mk_scrape { sd_name : list Z; sd_id : Z; sd_quid : list Z; sd_payload : list Z; sd_meta : list MetaEntry }.

Definition set_content (x : option (list Z)) (q : StorageQuery) : StorageQuery :=
  mk_query (name q) (id q) (quid q) x (queryaction q) (queryresult q) (q_meta q) (q_next q).
Definition set_result (x : QueryResult) (q : StorageQuery) : StorageQuery :=
  mk_query (name q) (id q) (quid q) (content q) (queryaction q) x (q_meta q) (q_next q).
Definition set_next (x : list StorageQuery) (q : StorageQuery) : StorageQuery :=
  mk_query (name q) (id q) (quid q) (content q) (queryaction q) (queryresult q) (q_meta q) x.

(** A field that is not set reads as empty. *)
Definition text (x : option (list Z)) : list Z := default [] x.

Section Node.
Context {D : Type} `{Database D} {I : Type} `{Duplicates I}.
Context (serialize : StorageQuery -> list Z) (parse : list Z -> StorageQuery).
Context (junk_magic junk_pad junk_item : list Z) (new : page) (disk : list Z -> option (list Z)).
Context (pad1 pad2 : list Z) (max_size : Z) (dir : list Z).

(** The indexes of a node; the file base is in the data index. *)
Record node := mk_node { ari : D; adi : index (S := D); uki : I; fti : I }.

Notation adi_put := (dx_put junk_magic junk_pad junk_item new disk pad1 pad2 max_size dir).

(** [RecordIndex::put]; the error it throws. *)
Definition ari_put (quid value : list Z) (override : bool) (s : D) : option Z * D :=
  match quid_key quid with
  | None => (None, s)
  | Some q => db_insert q value override s
  end.

(** ** The worker *)
Definition traverse_meta (quid : list Z) : MetaEntry -> I * I -> I * I :=
  fix traverse (k : MetaEntry) (s : I * I) {struct k} : I * I :=
    match meta k with
    | [] => (uki_put quid (key k) (text (value k)) s.1, fti_put quid (text (value k)) (key k) s.2)
    | ms => (fix each (ms : list MetaEntry) (s : I * I) : I * I :=
               match ms with [] => s | m :: ms => each ms (traverse m s) end) ms s
    end.

Definition store_meta (q : StorageQuery) (n : node) : node :=
  let '(u, f) := foldl (fun s k => traverse_meta (quid q) k s) (uki n, fti n) (q_meta q) in
  mk_node (ari n) (adi n) u f.

(** What a computation of the worker ends with: the query and the node, with
    the error of the database it throws, if any.  [None] is any other
    exception, which nothing catches. *)
Definition outcome : Type := option (option Z * StorageQuery * node).

Definition select (q : StorageQuery) (n : node) : outcome :=
  match db_find (quid q) (ari n) with
  | None => Some (Some UPS_KEY_NOT_FOUND, q, n)
  | Some serialized =>
      let q := parse serialized in
      '(r, a) ← dx_get (quid q) (adi n);
      let n := mk_node (ari n) a (uki n) (fti n) in
      match r with
      | inr c => Some (None, set_content (Some c) q, n)
      | inl e => if e =? OUT_OF_RANGE then None else Some (Some e, q, n)
      end
  end.

(** [INSERT], and [UPDATE] with [override]. *)
Definition store (override : bool) (q : StorageQuery) (n : node) : outcome :=
  '(e, a) ← adi_put (quid q) (text (content q)) override (adi n);
  let n := mk_node (ari n) a (uki n) (fti n) in
  match e with
  | Some e => Some (Some e, q, n)
  | None =>
      let q := set_content None q in
      let '(e, r) := ari_put (quid q) (serialize q) override (ari n) in
      let n := mk_node r (adi n) (uki n) (fti n) in
      match e with
      | Some e => Some (Some e, q, n)
      | None => Some (None, q, store_meta q n)
      end
  end.

Definition erase (q : StorageQuery) (n : node) : outcome :=
  let '(e, a) := dx_remove (quid q) (adi n) in
  let n := mk_node (ari n) a (uki n) (fti n) in
  match e with
  | Some e => Some (Some e, q, n)
  | None =>
      let '(e, r) := db_erase (quid q) (ari n) in
      Some (e, q, mk_node r (adi n) (uki n) (fti n))
  end.

(** The loop over the found keys: their queries are added to the reply; a
    database error goes on with the next one. *)
Fixpoint restore (keys : list (list Z)) (next : list StorageQuery) (a : index (S := D)) (r : D) : option (list StorageQuery * index) :=
  match keys with
  | [] => Some (next, a)
  | value :: keys =>
      match db_find value r with
      | None => restore keys next a r
      | Some serialized =>
          let q := parse serialized in
          '(x, a) ← dx_get value a;
          match x with
          | inr c => restore keys (next ++ [set_content (Some c) q]) a r
          | inl e => if e =? OUT_OF_RANGE then None else restore keys (next ++ [q]) a r
          end
      end
  end.

Definition search (q : StorageQuery) (n : node) : outcome :=
  let '(e, keyList) := getMulti (text (content q)) [] (uki n) in
  match e with
  | Some e => Some (Some e, q, n)
  | None =>
      let '(e, keyList) := getMulti (text (content q)) keyList (fti n) in
      match e with
      | Some e => Some (Some e, q, n)
      | None =>
          '(next, a) ← restore keyList (q_next q) (adi n) (ari n);
          Some (None, set_next next q, mk_node (ari n) a (uki n) (fti n))
      end
  end.

Definition perform (q : StorageQuery) (n : node) : outcome :=
  match queryaction q with
  | SELECT => select q n
  | INSERT => store false q n
  | UPDATE => store true q n
  | DELETE => erase q n
  | SEARCH => search q n
  end.

(** What the error makes of the result: others than two are only printed. *)
Definition caught (e : option Z) (q : StorageQuery) : StorageQuery :=
  match e with
  | Some e => if e =? UPS_KEY_NOT_FOUND then set_result NOTFOUND q
              else if e =? UPS_DUPLICATE_KEY then set_result DUPLICATE q else q
  | None => q
  end.

(** One round of the worker's loop, from the query to the reply. *)
Definition answer_query (q : StorageQuery) (n : node) : option (StorageQuery * node) :=
  '(e, q, n) ← perform (set_result SUCCESS q) n; Some (caught e q, n).

Definition worker (request : list Z) (n : node) : option (list Z * node) :=
  '(q, n) ← answer_query (parse request) n; Some (serialize q, n).
(** ** The worker stands for a map

    From identifiers to what was stored: the query without its content, and
    the content. *)
Context (Hparse : forall q, parse (serialize q) = q).
Context (Hmagic : length junk_magic = 8%nat) (Hpad : length junk_pad = 2%nat) (Hitem : length junk_item = 48%nat).
Context (Hpad1 : length pad1 = 2%nat) (Hpad2 : length pad2 = 2%nat) (G : nat).

Notation store_map := (gmap (list Z) (StorageQuery * list Z)).
Notation stands_for := (stands_for junk_pad pad1 pad2 G).
Notation leads_to := (leads_to junk_pad pad1 pad2 G).

Record node_stands (n : node) (p : page) (es : list entry) (m : store_map) : Prop := {
  ns_data : stands_for (adi n) p es (snd <$> m);
  ns_records : forall k, db_find k (ari n) = (fun x => serialize x.1) <$> m !! k;
  ns_quid : forall k x, m !! k = Some x -> quid_key (quid x.1) = Some k }.

(** What the map answers and becomes; a search is not among its operations. *)
Definition kept (q : StorageQuery) : StorageQuery := set_content None (set_result SUCCESS q).
Definition reply (m : store_map) (q : StorageQuery) : StorageQuery * store_map :=
  let ok := set_result SUCCESS q in
  match queryaction q with
  | SELECT => match m !! quid q with Some (x, c) => (set_content (Some c) x, m) | None => (set_result NOTFOUND ok, m) end
  | DELETE => match m !! quid q with Some _ => (ok, delete (quid q) m) | None => (set_result NOTFOUND ok, m) end
  | INSERT => match quid_key (quid q) with
              | None => (kept q, m)
              | Some k => match m !! k with
                          | Some _ => (set_result DUPLICATE ok, m)
                          | None => (kept q, <[k := (kept q, text (content q))]> m)
                          end
              end
  | UPDATE => match quid_key (quid q) with
              | None => (kept q, m)
              | Some k => (kept q, <[k := (kept q, text (content q))]> m)
              end
  | SEARCH => (ok, m)
  end.

(** Identifiers have no NUL; a large content is not inserted twice. *)
Definition query_ok (m : store_map) (q : StorageQuery) : Prop :=
  queryaction q <> SEARCH /\
  forall k, quid_key (quid q) = Some k -> (queryaction q = INSERT \/ queryaction q = UPDATE) ->
    name_ok k /\ (m !! k = None \/ queryaction q = UPDATE \/ large max_size (text (content q)) = false).

Definition query_need (q : StorageQuery) : Z := 48 * Z.of_nat G + 4 + Z.of_nat (length (text (content q))).

(** The next state, and that the page grew for the content only. *)
Definition becomes (q : StorageQuery) (p : page) (es : list entry) (n : node) (m : store_map) : Prop :=
  exists p' es', node_stands n p' es' m /\ grown G (text (content q)) p p' /\ (length es' <= length es + 1)%nat.

Lemma becomes_same q p es n m p' :
  node_stands n p' es m -> m_FirstFree p' = m_FirstFree p -> m_ItemSize p' = m_ItemSize p -> becomes q p es n m.
Proof. intros St H1 H2. exists p', es. split; [exact St|]. split; [|lia]. unfold grown. rewrite H1. split; [lia|done]. Qed.

Lemma select_run q n p es m :
  node_stands n p es m ->
  exists n', select q n = Some (match m !! quid q with Some (x, c) => (None, set_content (Some c) x, n')
    | None => (Some UPS_KEY_NOT_FOUND, q, n') end) /\ becomes q p es n' m.
Proof.
  intros [Hd Hr Hq]. unfold select. rewrite Hr. destruct (m !! quid q) as [[x c]|] eqn:Em; cbn [fmap option_fmap option_map fst].
  - rewrite Hparse. specialize (Hq _ _ Em) as Hk. cbn [fst] in Hk.
    destruct (dx_get_run junk_magic junk_pad junk_item pad1 pad2 Hpad1 Hpad2 Hmagic Hpad Hitem G (adi n) p es _ (quid x) (quid q) Hd Hk)
      as (a & p' & E & St & H1 & H2).
    rewrite E, lookup_fmap, Em. cbn [mbind option_bind fmap option_fmap option_map snd].
    eexists. split; [done|]. by apply (becomes_same _ _ _ _ _ p').
  - eexists. split; [done|]. by apply (becomes_same _ _ _ _ _ p).
Qed.

Lemma store_meta_keeps q n p es m : node_stands n p es m -> node_stands (store_meta q n) p es m.
Proof. intros [Hd Hr Hq]. unfold store_meta. destruct (foldl _ _ _) as [u f]. by split. Qed.

Lemma stored_quid (m : store_map) q k : quid_key (quid q) = Some k ->
  (forall k x, m !! k = Some x -> quid_key (quid x.1) = Some k) ->
  forall k' x, <[k := (set_content None q, text (content q))]> m !! k' = Some x -> quid_key (quid x.1) = Some k'.
Proof. intros Hk Hm k' x [[<- <-]|[_ Hx]]%lookup_insert_Some; [done|by apply Hm]. Qed.

(** Storing a content that is new, overrides or is small. *)
Lemma worker_store_run q n p es m k o :
  node_stands n p es m -> quid_key (quid q) = Some k -> name_ok k -> room G p (text (content q)) ->
  Z.of_nat (length es) + 1 < 2 ^ 16 -> m !! k = None \/ o = true ->
  exists n', store o q n = Some (None, set_content None q, n') /\
    becomes q p es n' (<[k := (set_content None q, text (content q))]> m).
Proof.
  intros [Hd Hr Hq] Hk Hn Hroom Hc Ho. set (c := text (content q)) in *. set (x := set_content None q).
  assert (Hm : (snd <$> m) !! k = None \/ o = true) by (destruct Ho as [E|]; [left; by rewrite lookup_fmap, E|by right]).
  destruct (dx_put_run junk_magic junk_pad junk_item new disk pad1 pad2 Hpad1 Hpad2 max_size dir Hmagic Hpad Hitem G
    (adi n) p es _ (quid q) k c o Hd Hk Hn Hroom Hc Hm) as (a & E & (p' & es' & St & Hg & Hl) & _).
  unfold store. fold c. rewrite E. cbn [mbind option_bind]. fold x. unfold ari_put. cbn [ari].
  change (quid x) with (quid q). rewrite Hk.
  destruct (db_insert_ok k (serialize x) o (ari n)) as [E1 E2].
  { destruct Ho as [Em|]; [left; by rewrite Hr, Em|by right]. }
  destruct (db_insert k (serialize x) o (ari n)) as [e r]. cbn [fst snd] in E1, E2. subst e.
  eexists. split; [done|]. exists p', es'. split; [|by split]. apply store_meta_keeps. split; cbn [adi ari].
  - by rewrite fmap_insert.
  - intros k'. rewrite E2. case_decide as Hkk; [subst; by rewrite lookup_insert_eq|by rewrite lookup_insert_ne].
  - by apply stored_quid.
Qed.

Lemma store_duplicate_run q n p es m k :
  node_stands n p es m -> quid_key (quid q) = Some k -> m !! k <> None -> large max_size (text (content q)) = false ->
  exists n', store false q n = Some (Some UPS_DUPLICATE_KEY, q, n') /\ becomes q p es n' m.
Proof.
  intros [Hd Hr Hq] Hk Hm Hl. set (c := text (content q)) in *.
  assert (Hm' : (snd <$> m) !! k <> None) by (rewrite lookup_fmap; by destruct (m !! k)).
  destruct (dx_put_duplicate_run junk_magic junk_pad junk_item new disk pad1 pad2 Hpad1 Hpad2 max_size dir Hmagic Hpad Hitem G
    (adi n) p es _ (quid q) k c Hd Hk Hm' Hl) as (a & E & (p' & es' & St & Hg)).
  unfold store. fold c. rewrite E. cbn [mbind option_bind]. eexists. split; [done|]. exists p', es'. split; [|exact Hg]. by split.
Qed.

(** An identifier of neither form is answered as if it was stored. *)
Lemma store_unnamed_run q n p es m o :
  node_stands n p es m -> quid_key (quid q) = None ->
  exists n', store o q n = Some (None, set_content None q, n') /\ becomes q p es n' m.
Proof.
  intros St Hk. unfold store, dx_put, ari_put. change (quid (set_content None q)) with (quid q). rewrite Hk. cbn [mbind option_bind].
  eexists. split; [done|]. apply (becomes_same _ _ _ _ _ p); [|done..]. apply store_meta_keeps. by destruct St.
Qed.

Lemma erase_run q n p es m :
  node_stands n p es m ->
  exists n', erase q n = Some (match m !! quid q with Some _ => None | None => Some UPS_KEY_NOT_FOUND end, q, n') /\
    becomes q p es n' (delete (quid q) m).
Proof.
  intros [Hd Hr Hq]. unfold erase.
  destruct (dx_remove_run junk_pad pad1 pad2 G (adi n) p es _ (quid q) Hd) as (a & E & St). rewrite E, lookup_fmap. cbn [ari adi uki fti].
  assert (St' : forall r, (forall k, db_find k r = (fun x => serialize x.1) <$> delete (quid q) m !! k) ->
    node_stands (mk_node r a (uki n) (fti n)) p es (delete (quid q) m)).
  { intros r Hr'. split; [by rewrite fmap_delete|exact Hr'|].
    intros k x [_ Hx]%lookup_delete_Some. by apply Hq. }
  destruct (m !! quid q) as [x|] eqn:Em; cbn [fmap option_fmap option_map].
  - pose proof (db_erase_find (quid q) (ari n)) as E2. pose proof (db_erase_error (quid q) (ari n)) as E1.
    destruct (db_erase (quid q) (ari n)) as [e r]. cbn [fst snd ari] in *. rewrite Hr, Em in E1. cbn in E1. subst e.
    eexists. split; [done|]. apply (becomes_same _ _ _ _ _ p); [|done..]. apply St'. intros k. rewrite E2.
    case_decide as Hk; [subst; by rewrite lookup_delete_eq|rewrite lookup_delete_ne by done; apply Hr].
  - eexists. split; [done|]. apply (becomes_same _ _ _ _ _ p); [|done..]. apply St'. intros k. cbn [ari]. rewrite Hr.
    by rewrite delete_id.
Qed.

(** One query. *)
Lemma answer_query_run q n p es m :
  node_stands n p es m -> query_ok m q -> room G p (text (content q)) -> Z.of_nat (length es) + 1 < 2 ^ 16 ->
  exists n', answer_query q n = Some ((reply m q).1, n') /\ becomes q p es n' (reply m q).2.
Proof.
  intros St [Hns Hok] Hroom Hc. unfold answer_query, perform, reply. set (ok := set_result SUCCESS q).
  change (queryaction ok) with (queryaction q). destruct (queryaction q) eqn:Ea; [| | | |done].
  - destruct (select_run ok n p es m St) as (n' & E & B). exists n'. rewrite E. change (quid ok) with (quid q).
    by destruct (m !! quid q) as [[x c]|].
  - destruct (quid_key (quid q)) as [k|] eqn:Hk.
    + destruct (Hok k eq_refl) as [Hn Hl]; [by left|]. destruct (m !! k) as [x|] eqn:Em.
      * destruct Hl as [|[|Hl]]; [done..|].
        destruct (store_duplicate_run ok n p es m k St Hk) as (n' & E & B); [by rewrite Em|done|]. exists n'. by rewrite E.
      * destruct (worker_store_run ok n p es m k false St Hk Hn Hroom Hc) as (n' & E & B); [by left|]. exists n'. by rewrite E.
    + destruct (store_unnamed_run ok n p es m false St Hk) as (n' & E & B). exists n'. by rewrite E.
  - destruct (quid_key (quid q)) as [k|] eqn:Hk.
    + destruct (Hok k eq_refl) as [Hn Hl]; [by right|].
      destruct (worker_store_run ok n p es m k true St Hk Hn Hroom Hc) as (n' & E & B); [by right|]. exists n'. by rewrite E.
    + destruct (store_unnamed_run ok n p es m true St Hk) as (n' & E & B). exists n'. by rewrite E.
  - destruct (erase_run ok n p es m St) as (n' & E & B). exists n'. rewrite E. change (quid ok) with (quid q) in *.
    destruct (m !! quid q) eqn:Em; [done|]. by rewrite delete_id in B.
Qed.

(** ** Searching *)
Lemma quid_key_again q k : quid_key q = Some k -> quid_key k = Some k.
Proof.
  assert (Hl : forall k, length k = UNPACKED_LENGTH -> quid_key k = Some k) by (intros k' Hk'; unfold quid_key; by rewrite Hk').
  unfold quid_key at 1. destruct (Nat.eqb_spec (length q) UNPACKED_LENGTH) as [Hq|_]; [intros [= <-]; by apply Hl|].
  unfold crop. destruct (Nat.eqb_spec (length q) (UNPACKED_LENGTH + 2)) as [Hq|_]; [|done]. cbn [andb].
  destruct (_ && _); [|done]. assert (length (take UNPACKED_LENGTH (drop 1 q)) = UNPACKED_LENGTH) as Ht.
  { rewrite length_take, length_drop, Hq. reflexivity. }
  destruct (take UNPACKED_LENGTH (drop 1 q)); [done|]. intros [= <-]. by apply Hl.
Qed.

Definition found (m : store_map) (keys : list (list Z)) : list StorageQuery :=
  omap (fun k => '(x, c) ← m !! k; Some (set_content (Some c) x)) keys.

Lemma restore_run keys next n p es m :
  node_stands n p es m ->
  exists a p', restore keys next (adi n) (ari n) = Some (next ++ found m keys, a) /\
    node_stands (mk_node (ari n) a (uki n) (fti n)) p' es m /\ m_FirstFree p' = m_FirstFree p /\ m_ItemSize p' = m_ItemSize p.
Proof.
  revert next n p. induction keys as [|k keys IH]; intros next n p St; cbn [restore found omap list_omap].
  { exists (adi n), p. rewrite app_nil_r. split; [done|]. split; [by destruct St|done]. }
  pose proof St as [Hd Hr Hq]. rewrite Hr. destruct (m !! k) as [[x c]|] eqn:Em; cbn [fmap option_fmap option_map fst mbind option_bind].
  - rewrite Hparse. pose proof (quid_key_again _ _ (Hq _ _ Em)) as Hk.
    destruct (dx_get_run junk_magic junk_pad junk_item pad1 pad2 Hpad1 Hpad2 Hmagic Hpad Hitem G (adi n) p es _ k k Hd Hk)
      as (a & p' & E & St' & H1 & H2).
    rewrite E, lookup_fmap, Em. cbn [mbind option_bind fmap option_fmap option_map snd].
    destruct (IH (next ++ [set_content (Some c) x]) (mk_node (ari n) a (uki n) (fti n)) p') as (a2 & p2 & E2 & St2 & H3 & H4);
      [by split|]. cbn [ari adi uki fti] in *.
    exists a2, p2. rewrite E2, <- app_assoc. split; [done|]. split; [exact St2|]. lia.
  - apply IH. exact St.
Qed.

(** A search collects the identifiers both additional indexes have for the
    text, and answers with the stored record and content of each that is still
    there; an error of either index ends it without any. *)
Theorem search_answers_stored q n p es m :
  node_stands n p es m -> queryaction q = SEARCH ->
  let '(e1, l1) := getMulti (text (content q)) [] (uki n) in
  let '(e2, l2) := getMulti (text (content q)) l1 (fti n) in
  let ok := set_result SUCCESS q in
  exists n' p', answer_query q n = Some (
      match e1, e2 with
      | None, None => set_next (q_next q ++ found m l2) ok
      | Some e, _ | None, Some e => caught (Some e) ok
      end, n') /\
    node_stands n' p' es m.
Proof.
  intros St Ha. destruct (getMulti _ [] (uki n)) as [e1 l1] eqn:E1. destruct (getMulti _ l1 (fti n)) as [e2 l2] eqn:E2. cbv zeta.
  unfold answer_query, perform, search. change (queryaction (set_result SUCCESS q)) with (queryaction q).
  change (content (set_result SUCCESS q)) with (content q). rewrite Ha, E1.
  destruct e1 as [e|]; [by exists n, p|]. rewrite E2. destruct e2 as [e|]; [by exists n, p|].
  destruct (restore_run l2 (q_next q) n p es m St) as (a & p' & E & St' & _).
  change (q_next (set_result SUCCESS q)) with (q_next q). rewrite E. eexists _, p'. by split.
Qed.

(** Sequences of requests, as bytes. *)
Fixpoint work (requests : list (list Z)) (n : node) : option (list (list Z) * node) :=
  match requests with
  | [] => Some ([], n)
  | r :: rs => '(x, n) ← worker r n; '(xs, n) ← work rs n; Some (x :: xs, n)
  end.
Fixpoint replies (m : store_map) (qs : list StorageQuery) : list StorageQuery :=
  match qs with [] => [] | q :: qs => (reply m q).1 :: replies (reply m q).2 qs end.
Fixpoint queries_ok (m : store_map) (qs : list StorageQuery) : Prop :=
  match qs with [] => True | q :: qs => query_ok m q /\ queries_ok (reply m q).2 qs end.
Fixpoint queries_need (qs : list StorageQuery) : Z := match qs with [] => 0 | q :: qs => query_need q + queries_need qs end.

Lemma queries_need_nonneg qs : 0 <= queries_need qs.
Proof. induction qs as [|q qs IH]; cbn [queries_need]; [lia|]. unfold query_need. lia. Qed.

(** C2: A worker answers the requests it gets like a map from identifiers to
    records: what was inserted or updated is selected with its content until it
    is deleted, an insertion under a known identifier is answered as duplicate
    and changes nothing, and what is not there is answered as not found. *)
Theorem worker_refines_map n p es m qs :
  node_stands n p es m -> queries_ok m qs ->
  m_FirstFree p + queries_need qs + u32 (m_ItemSize p * Z.of_nat G) < 2 ^ 32 ->
  Z.of_nat (length es) + Z.of_nat (length qs) < 2 ^ 16 ->
  exists n', work (serialize <$> qs) n = Some (serialize <$> replies m qs, n').
Proof.
  revert n p es m. induction qs as [|q qs IH]; intros n p es m St Hok Hs Hc; [by exists n|].
  destruct Hok as [Hq Hqs]. cbn [queries_need length] in Hs, Hc. pose proof (queries_need_nonneg qs). unfold query_need in Hs.
  destruct (answer_query_run q n p es m St Hq) as (n1 & E & p1 & es1 & St1 & [Hg1 Hg2] & Hl); [unfold room; lia|lia|].
  destruct (IH n1 p1 es1 _ St1 Hqs) as [n2 E2]; [rewrite Hg2; lia|lia|].
  exists n2. cbn [fmap list_fmap work replies]. unfold worker at 1. rewrite Hparse, E. cbn [mbind option_bind].
  change (list_fmap _ _ serialize qs) with (serialize <$> qs). by rewrite E2.
Qed.
End Node.

(** ** An encoding of messages

    Messages are countable: a number is an encoding with the promised law. *)
Lemma meta_nested (P : MetaEntry -> Prop) :
  (forall k v ms, Forall P ms -> P (mk_meta k v ms)) -> forall m, P m.
Proof.
  intros Hm. fix IH 1. intros [k v ms]. apply Hm. induction ms as [|m ms IHms]; constructor; [apply IH|exact IHms].
Qed.

Lemma query_nested (P : StorageQuery -> Prop) :
  (forall a b c d e f g qs, Forall P qs -> P (mk_query a b c d e f g qs)) -> forall q, P q.
Proof.
  intros Hq. fix IH 1. intros [a b c d e f g qs]. apply Hq. induction qs as [|q qs IHqs]; constructor; [apply IH|exact IHqs].
Qed.

Fixpoint meta_tree (m : MetaEntry) : gen_tree (list Z * option (list Z)) :=
  GenNode 0 (GenLeaf (key m, value m) :: (meta_tree <$> meta m)).
Fixpoint tree_meta (t : gen_tree (list Z * option (list Z))) : MetaEntry :=
  match t with
  | GenNode _ (GenLeaf (k, v) :: ts) => mk_meta k v (tree_meta <$> ts)
  | _ => mk_meta [] None []
  end.

Lemma fmap_inverse {A B} (f : A -> B) (g : B -> A) l : Forall (fun x => g (f x) = x) l -> g <$> (f <$> l) = l.
Proof. induction 1 as [|x l Hx _ IH]; [done|]. cbn [fmap list_fmap]. rewrite Hx. by f_equal. Qed.

Lemma tree_meta_tree m : tree_meta (meta_tree m) = m.
Proof.
  induction m as [k v ms IH] using meta_nested. cbn [meta_tree tree_meta key value meta]. f_equal. by apply fmap_inverse.
Qed.

Definition action_number (a : QueryAction) : nat :=
  match a with SELECT => 0 | INSERT => 1 | UPDATE => 2 | DELETE => 3 | SEARCH => 4 end.
Definition number_action (n : nat) : QueryAction :=
  match n with 0 => SELECT | 1 => INSERT | 2 => UPDATE | 3 => DELETE | _ => SEARCH end%nat.
Definition result_number (r : QueryResult) : nat :=
  match r with SUCCESS => 0 | NOTFOUND => 1 | DUPLICATE => 2 | UNKNOWN => 3 end.
Definition number_result (n : nat) : QueryResult :=
  match n with 0 => SUCCESS | 1 => NOTFOUND | 2 => DUPLICATE | _ => UNKNOWN end%nat.

Notation fields := (list Z * Z * list Z * option (list Z) * nat * nat * list (gen_tree (list Z * option (list Z))))%type.

Fixpoint query_tree (q : StorageQuery) : gen_tree fields :=
  GenNode 0 (GenLeaf (name q, id q, quid q, content q, action_number (queryaction q), result_number (queryresult q),
    meta_tree <$> q_meta q) :: (query_tree <$> q_next q)).
Fixpoint tree_query (t : gen_tree fields) : StorageQuery :=
  match t with
  | GenNode _ (GenLeaf (a, b, c, d, e, f, g) :: ts) =>
      mk_query a b c d (number_action e) (number_result f) (tree_meta <$> g) (tree_query <$> ts)
  | _ => mk_query [] 0 [] None SELECT SUCCESS [] []
  end.

Lemma tree_query_tree q : tree_query (query_tree q) = q.
Proof.
  induction q as [a b c d e f g qs IH] using query_nested.
  cbn [query_tree tree_query name id quid content queryaction queryresult q_meta q_next].
  rewrite (fmap_inverse meta_tree tree_meta g) by (apply Forall_forall; intros; apply tree_meta_tree).
  rewrite (fmap_inverse query_tree tree_query qs IH). by destruct e, f.
Qed.

Definition encode_query (q : StorageQuery) : list Z := [Zpos (encode (query_tree q))].
Definition decode_query (l : list Z) : StorageQuery :=
  match l with
  | Zpos p :: _ => default (mk_query [] 0 [] None SELECT SUCCESS [] []) (tree_query <$> decode p)
  | _ => mk_query [] 0 [] None SELECT SUCCESS [] []
  end.

Lemma decode_encode_query q : decode_query (encode_query q) = q.
Proof. unfold decode_query, encode_query. rewrite decode_encode. cbn. apply tree_query_tree. Qed.

(** ** A small worker *)
Definition demo_query (a : QueryAction) (q : list Z) (c : option (list Z)) : StorageQuery :=
  mk_query (bs "demo") 1 q c a UNKNOWN
    [mk_meta (bs "Color") (Some (bs "red")) []; mk_meta [] None [mk_meta (bs "Title") (Some (bs "zebra")) []]] [].
Definition demo_queries : list StorageQuery :=
  let a := demo_name 97 in
  [demo_query INSERT a (Some (bs "one")); demo_query INSERT a (Some (bs "two")); demo_query SELECT a None;
   demo_query UPDATE a (Some (bs "three")); demo_query SELECT a None; demo_query DELETE a None; demo_query SELECT a None;
   demo_query INSERT (demo_quid 98) None; demo_query SELECT (demo_quid 98) None; demo_query SELECT (demo_name 98) None].

Notation demo_node := (node (D := gmap (list Z) (list Z)) (I := gmap (list Z) (list (list Z)))).
Notation demo_worker f := (f encode_query decode_query (replicate 8 7) (replicate 2 7) (replicate 48 7) demo_new (fun _ => None)
  [7; 7] [7; 7] (2 ^ 62) (bs "data")) (only parsing).
Notation demo_worker_law f := (demo_worker f decode_encode_query eq_refl eq_refl eq_refl eq_refl eq_refl 16%nat) (only parsing).
Notation demo_node_stands := (node_stands encode_query (replicate 2 7) [7; 7] [7; 7] 16).

Lemma demo_node_start : exists (n : demo_node) p, demo_node_stands n p [] ∅ /\ m_FirstFree p = 800 /\ m_ItemSize p = ITEM_SIZE.
Proof.
  destruct demo_start as (a & p & St & Hff & Hsz). exists (mk_node ∅ a ∅ ∅), p. split; [|done].
  split; cbn [adi ari]; [|by intros k|by intros k x]. by rewrite fmap_empty.
Qed.

(** The record of the first text is found; the last one is not, as the cursor
    runs off the end. *)
Lemma search_answers_stored_witness :
  exists (n n1 n2 : demo_node) found,
    demo_worker answer_query (demo_query SEARCH [] (Some (bs "red"))) n = Some (found, n1) /\
    queryresult found = SUCCESS /\ content <$> q_next found = [Some (bs "one")] /\
    demo_worker answer_query (demo_query SEARCH [] (Some (bs "zebra"))) n =
      Some (set_result NOTFOUND (demo_query SEARCH [] (Some (bs "zebra"))), n2).
Proof.
  destruct demo_node_start as (n0 & p & St & Hff & Hsz).
  set (q := demo_query INSERT (demo_name 97) (Some (bs "one"))).
  destruct (demo_worker_law answer_query_run q n0 p [] ∅ St) as (n1 & _ & p1 & es1 & St1 & _).
  { split; [done|]. intros k [= <-] _. split; [apply demo_name_ok; lia|by left]. }
  { unfold room. rewrite Hff, Hsz. reflexivity. }
  { reflexivity. }
  set (n := store_meta q (mk_node (ari n1) (adi n1) (∅ : gmap (list Z) (list (list Z))) ∅)).
  assert (St2 : demo_node_stands n p1 es1 (reply ∅ q).2) by (apply store_meta_keeps; by destruct St1).
  pose proof (demo_worker_law search_answers_stored (demo_query SEARCH [] (Some (bs "red"))) n p1 es1 _ St2 eq_refl) as H1.
  assert (E1 : getMulti (bs "red") [] (uki n) = (None, [])) by reflexivity.
  assert (E2 : getMulti (bs "red") [] (fti n) = (None, [demo_name 97])) by reflexivity.
  change (text (content (demo_query SEARCH [] (Some (bs "red"))))) with (bs "red") in H1. rewrite E1, E2 in H1.
  pose proof (demo_worker_law search_answers_stored (demo_query SEARCH [] (Some (bs "zebra"))) n p1 es1 _ St2 eq_refl) as H2.
  assert (E3 : getMulti (bs "zebra") [] (uki n) = (None, [])) by reflexivity.
  assert (E4 : getMulti (bs "zebra") [] (fti n) = (Some UPS_KEY_NOT_FOUND, [demo_name 97])) by reflexivity.
  change (text (content (demo_query SEARCH [] (Some (bs "zebra"))))) with (bs "zebra") in H2. rewrite E3, E4 in H2.
  destruct H1 as (r1 & _ & R1 & _), H2 as (r2 & _ & R2 & _).
  exists n, r1, r2. eexists. split; [exact R1|]. split; [reflexivity|]. split; [reflexivity|]. exact R2.
Defined.

Lemma worker_refines_map_witness :
  exists (n n' : demo_node) rs,
    demo_worker work (encode_query <$> demo_queries) n = Some (encode_query <$> rs, n') /\
    (fun r => (queryresult r, content r)) <$> rs =
      [(SUCCESS, None); (DUPLICATE, Some (bs "two")); (SUCCESS, Some (bs "one")); (SUCCESS, None); (SUCCESS, Some (bs "three"));
       (SUCCESS, None); (NOTFOUND, None); (SUCCESS, None); (NOTFOUND, None); (SUCCESS, Some [])].
Proof.
  destruct demo_node_start as (n & p & St & Hff & Hsz).
  destruct (demo_worker_law worker_refines_map n p [] ∅ demo_queries St)
    as [n' E].
  - unfold demo_queries. cbn [queries_ok].
    refine (conj _ (conj _ (conj _ (conj _ (conj _ (conj _ (conj _ (conj _ (conj _ (conj _ I))))))))));
      (split; [done|]); intros k [= <-] Ha; (split; [apply demo_name_ok; lia|]);
      first [by right; right | by destruct Ha].
  - rewrite Hff, Hsz. reflexivity.
  - reflexivity.
  - exists n, n', (replies ∅ demo_queries). split; [exact E|]. reflexivity.
Defined.
End Cynder.
