(* ===== verification/Master.v ===== *)
(** * cynder: the master (cynder.cpp, quidpp.h)

    The master makes a query of the scraped data and sends it to the worker
    the ring tells for the identifier. *)
From S2P Require Import Prelude CLib Quid QuidText Crc32 Ring Engine Cynder.

Module Master.
Export Cynder.

(** ** [copyMeta]: the destination is given and changed *)
Definition new_meta : MetaEntry := mk_meta [] None [].

Definition copyMeta : MetaEntry -> MetaEntry -> MetaEntry :=
  fix copy (source dest : MetaEntry) {struct source} : MetaEntry :=
    match meta source with
    | [] => mk_meta (key source) (Some (text (value source))) (meta dest)
    | ms => mk_meta (key source) (value dest)
              (meta dest ++ [(fix each (ms : list MetaEntry) (dest : MetaEntry) : MetaEntry :=
                                match ms with [] => dest | m :: ms => each ms (copy m dest) end) ms new_meta])
    end.

Definition query_of (data : ScrapeData) : StorageQuery :=
  mk_query (sd_name data) (sd_id data) (sd_quid data) (Some (sd_payload data)) INSERT SUCCESS
    ((fun m => copyMeta m new_meta) <$> sd_meta data) [].

(** A chain of entries, with a value at its end. *)
Inductive chain : MetaEntry -> Prop :=
| chain_value k v : chain (mk_meta k (Some v) [])
| chain_entry k m : chain m -> chain (mk_meta k None [m]).

Lemma copy_chain m : chain m -> copyMeta m new_meta = m.
Proof. induction 1 as [k v|k m _ IH]; [done|]. cbn. cbn in IH. by rewrite IH. Qed.

Lemma copy_leaves ms k v dest : Forall (fun m => meta m = []) ms ->
  (fix each (ms : list MetaEntry) (dest : MetaEntry) : MetaEntry :=
     match ms with [] => dest | m :: ms => each ms (copyMeta m dest) end) (ms ++ [mk_meta k v []]) dest =
  mk_meta k (Some (text v)) (meta dest).
Proof.
  intros H. revert dest. induction H as [|m ms Hm _ IH]; intros dest; [done|]. cbn [app]. rewrite IH.
  destruct m as [k' v' ms']. cbn in Hm. by subst ms'.
Qed.

(** An entry that has at most one entry below it at each level is copied; of
    several entries at one level below only the last one gets into the query. *)
Theorem copyMeta_last_entry :
  (forall m, chain m -> copyMeta m new_meta = m) /\
  (forall k v ms k' v', Forall (fun m => meta m = []) ms ->
    copyMeta (mk_meta k v (ms ++ [mk_meta k' v' []])) new_meta = mk_meta k None [mk_meta k' (Some (text v')) []]).
Proof.
  split; [exact copy_chain|]. intros k v ms k' v' H. pose proof (copy_leaves ms k' v' new_meta H) as E.
  destruct ms as [|m ms]; [done|]. cbn [copyMeta meta app new_meta key value] in *. f_equal. by rewrite <- E.
Qed.

(** ** The identifier of a query (quidpp.h)

    [object] is the memory of the identifier before, [behind] the memory that
    follows it: the scanner clears three bytes of it. *)
Definition quid_of_bytes (m : mem) : Quid.quid_t :=
  Quid.mk_quid (le_val (take 8 m)) (le_val (take 2 (drop 8 m))) (le_val (take 2 (drop 10 m)))
    (le_val (take 1 (drop 12 m))) (le_val (take 1 (drop 13 m))) (take 6 (drop 14 m)).

(** [Quid(const std::string&)]; [None]: the exception [InvalidQuid], or a
    store outside the memory. *)
Definition Quid_new (object behind : mem) (s : list Z) : option (Quid.quid_t * mem) :=
  let s := until_nul s in
  if Quid.strquid_format s =? 0 then None
  else m ← Quid.strtoquid s (object ++ behind); Some (quid_of_bytes (take Quid.sizeof_quid m), drop Quid.sizeof_quid m).

(** [toString()] *)
Definition toString (q : Quid.quid_t) : list Z := until_nul (Quid.quidtostr q).

Lemma quid_of_quid_bytes q : Quid.quid_ok q -> quid_of_bytes (Quid.quid_bytes q) = q.
Proof.
  destruct q as [lo mid hi chi clo n]. intros (Hlo & Hmid & Hhi & _ & _ & Hn & _). cbn in Hlo, Hmid, Hhi, Hn.
  change (Quid.mk_quid (le_val (le_bytes 8 lo)) (le_val (le_bytes 2 mid)) (le_val (le_bytes 2 hi)) (chi + 256 * 0) (clo + 256 * 0)
    (take 6 n) = Quid.mk_quid lo mid hi chi clo n).
  rewrite !le_val_bytes, !Z.mod_small, !Z.mul_0_r, !Z.add_0_r, take_ge by (rewrite ?Hn; lia). done.
Qed.

Lemma quid_chars_nonzero q : Quid.quid_ok q -> Forall (fun c => c <> 0) (Quid.quid_chars q).
Proof.
  intros H. destruct (QuidText.quid_chars_blocks q H) as (b1 & b2 & b3 & b4 & b5 & -> & _ & _ & _ & _ & _ & F).
  rewrite !Forall_app in F. destruct F as (F1 & F2 & F3 & F4 & F5).
  assert (Hp : forall b, Forall QuidText.plain b -> Forall (fun c => c <> 0) b).
  { intros b Hb. eapply Forall_impl; [exact Hb|]. by intros c (_ & Hc & _). }
  repeat apply Forall_app_2; try (by apply Hp); apply (bool_decide_unpack _); vm_compute; exact I.
Qed.

(** An identifier that is printed is read back from its text as the same one;
    the constructor clears the three bytes behind the object. *)
Theorem quidpp_roundtrip q object behind :
  Quid.quid_ok q -> length object = Quid.sizeof_quid -> (3 <= length behind)%nat ->
  Quid_new object behind (toString q) = Some (q, replicate 3 0 ++ drop 3 behind).
Proof.
  intros H Ho Hb. destruct (QuidText.quidtostr_recognised q H) as (E & _ & Ef). unfold Quid_new, toString.
  rewrite E, until_nul_app, until_nul_id, Ef by by apply quid_chars_nonzero. change (1 =? 0) with false. cbv iota.
  rewrite QuidText.strtoquid_quidtostr by (done || (rewrite length_app, Ho; unfold Quid.sizeof_quid; lia)).
  cbn [mbind option_bind]. assert (Hl : length (Quid.quid_bytes q) = Quid.sizeof_quid).
  { destruct H as (_ & _ & _ & _ & _ & Hn & _). unfold Quid.quid_bytes. rewrite !length_app, !le_bytes_length, Hn. reflexivity. }
  rewrite take_app_length', drop_app_length' by done. rewrite quid_of_quid_bytes by done.
  do 2 f_equal. f_equal. rewrite drop_app, Ho. unfold Quid.sizeof_quid.
  rewrite drop_ge by (rewrite Ho; unfold Quid.sizeof_quid; lia). done.
Qed.

(** ** The master *)
Section Cluster.
Context {D : Type} `{Database D} {I : Type} `{Duplicates I}.
Context (serialize : StorageQuery -> list Z) (parse : list Z -> StorageQuery).
Context (junk_magic junk_pad junk_item : list Z) (new : page) (disk : list Z -> option (list Z)).
Context (pad1 pad2 : list Z) (max_size : Z) (dir : list Z).
(** The memory for the identifier; the hosts of the configuration. *)
Context (object behind : mem) (workers : list (list Z)).

Notation node := (node (D := D) (I := I)).
Notation worker := (worker serialize parse junk_magic junk_pad junk_item new disk pad1 pad2 max_size dir).

(** The host of the worker for an identifier; [None]: an exception. *)
Definition host_of (quid : list Z) : option (list Z) :=
  '(k, _) ← Quid_new object behind quid; Ring.getNode toString Ring.crc_hash k (Ring.nodeRing workers).

(** [None] is an exception, or a wait for a worker that does not answer. *)
Definition performQueryRequest (q : StorageQuery) (cluster : gmap (list Z) node) : option (StorageQuery * gmap (list Z) node) :=
  host ← host_of (quid q);
  n ← cluster !! host;
  '(r, n) ← worker (serialize q) n;
  Some (parse r, <[host := n]> cluster).

Definition is_success (r : QueryResult) : bool := match r with SUCCESS => true | _ => false end.

(** One round of the master's loop, from the data to the reply. *)
Definition master (data : ScrapeData) (cluster : gmap (list Z) node) : option (list Z * gmap (list Z) node) :=
  '(q, cluster) ← performQueryRequest (query_of data) cluster;
  Some ((if is_success (queryresult q) then bs "DONE" else bs "FAIL") ++ [0], cluster).

Context (Hparse : forall q, parse (serialize q) = q).
Context (Hmagic : length junk_magic = 8%nat) (Hpad : length junk_pad = 2%nat) (Hitem : length junk_item = 48%nat).
Context (Hpad1 : length pad1 = 2%nat) (Hpad2 : length pad2 = 2%nat) (G : nat).
Notation node_stands := (node_stands serialize junk_pad pad1 pad2 G).

(** C9: The data is stored by the worker the ring tells and by no other: it is
    acknowledged exactly when the identifier is new to this worker or of a
    form that is not stored. *)
Theorem master_stores_on_owner data host n p es m cluster :
  host_of (sd_quid data) = Some host -> cluster !! host = Some n -> node_stands n p es m ->
  query_ok max_size m (query_of data) -> room G p (sd_payload data) -> Z.of_nat (length es) + 1 < 2 ^ 16 ->
  exists n' p' es' (ok : bool), master data cluster = Some ((if ok then bs "DONE" else bs "FAIL") ++ [0], <[host := n']> cluster) /\
    node_stands n' p' es' (if ok then (reply m (query_of data)).2 else m) /\
    (ok = true <-> forall k, quid_key (sd_quid data) = Some k -> m !! k = None).
Proof.
  intros Hh Hn St Hok Hr Hc. set (q := query_of data) in *.
  destruct (answer_query_run serialize parse junk_magic junk_pad junk_item new disk pad1 pad2 max_size dir Hparse Hmagic Hpad Hitem
    Hpad1 Hpad2 G q n p es m St Hok Hr Hc) as (n' & E & p' & es' & St' & _).
  unfold master, performQueryRequest. fold q. change (quid q) with (sd_quid data). rewrite Hh. cbn [mbind option_bind]. rewrite Hn.
  cbn [mbind option_bind]. unfold Cynder.worker. rewrite Hparse, E. cbn [mbind option_bind]. rewrite Hparse. exists n', p', es', (is_success (queryresult (reply m q).1)).
  split; [done|]. unfold reply in *. change (queryaction q) with INSERT in *. cbv iota in *. change (quid q) with (sd_quid data) in *.
  destruct (quid_key (sd_quid data)) as [k|]; [destruct (m !! k) eqn:Em|]; cbn [fst snd] in *; (split; [exact St'|]).
  - split; [done|]. intros Hk. specialize (Hk k eq_refl). congruence.
  - split; [|done]. by intros _ k' [= <-].
  - split; [|done]. by intros _ k' [=].
Qed.
End Cluster.

(** ** A small cluster *)
Definition demo_id : Quid.quid_t := Quid.mk_quid 1 2 3 4 5 [6; 7; 8; 9; 10; 11].
Definition demo_hosts : list (list Z) := [bs "10.0.0.1:5522"; bs "10.0.0.2:5522"].
Definition demo_data : ScrapeData :=
  mk_scrape (bs "page") 1 (toString demo_id) (bs "text") [mk_meta (bs "title") (Some (bs "A page")) []].

Lemma demo_id_ok : Quid.quid_ok demo_id.
Proof. unfold Quid.quid_ok, demo_id, byte_ok. cbn. repeat split; try lia. repeat constructor; unfold byte_ok; lia. Qed.

Lemma quidpp_roundtrip_witness :
  Quid_new (replicate 20 7) [8; 8; 8; 9] (toString demo_id) = Some (demo_id, [0; 0; 0; 9]).
Proof. apply (quidpp_roundtrip demo_id (replicate 20 7) [8; 8; 8; 9] demo_id_ok); [done|cbn; lia]. Defined.

Lemma master_stores_on_owner_witness :
  exists host (n : demo_node) cluster,
    host_of (replicate 20 7) (replicate 8 8) demo_hosts (sd_quid demo_data) = Some host /\
    demo_worker master (replicate 20 7) (replicate 8 8) demo_hosts demo_data {[ host := n ]} = Some (bs "DONE" ++ [0], cluster).
Proof.
  destruct demo_node_start as (n & p & St & Hff & Hsz).
  assert (Hh : exists host, host_of (replicate 20 7) (replicate 8 8) demo_hosts (sd_quid demo_data) = Some host).
  { assert (Hs : is_Some (host_of (replicate 20 7) (replicate 8 8) demo_hosts (sd_quid demo_data))).
    { apply (bool_decide_unpack _). vm_compute. exact I. }
    exact Hs. }
  destruct Hh as [host Hh].
  destruct (master_stores_on_owner encode_query decode_query (replicate 8 7) (replicate 2 7) (replicate 48 7) demo_new (fun _ => None)
    [7; 7] [7; 7] (2 ^ 62) (bs "data") (replicate 20 7) (replicate 8 8) demo_hosts decode_encode_query eq_refl eq_refl eq_refl eq_refl
    eq_refl 16%nat demo_data host n p [] ∅ {[ host := n ]} Hh (lookup_singleton_eq _ _) St) as (n' & p' & es' & ok & E & _ & Hok).
  - split; [done|]. intros k [= <-] _. split; [split; [reflexivity|]|by left].
    apply (bool_decide_unpack _). vm_compute. exact I.
  - unfold room. rewrite Hff, Hsz. reflexivity.
  - reflexivity.
  - rewrite (proj2 Hok) in E by done. exists host, n. eexists. split; [exact Hh|exact E].
Defined.
End Master.
