(* ===== verification/Wal.v ===== *)
(** * chella: the write-ahead log of a job (wal.h, wal.cpp)

    A worker logs the job it runs and how far it got; when it starts, it reads
    the logs it finds and runs their jobs again. *)
From S2P Require Import Prelude CLib CFile.

Module Wal.
Export CFile.

Definition LOG_MAGIC : list Z := bs "WALU41Q".
Definition WALDIR : list Z := bs "var/wald".

Definition NIL : Z := 0.
Definition INIT : Z := 1.
Definition LOAD : Z := 2.
Definition INJECT : Z := 3.
Definition SETUP_ONCE : Z := 4.
Definition SETUP : Z := 5.
Definition RUN : Z := 6.
Definition TEARDOWN : Z := 7.
Definition TEARDOWN_ONCE : Z := 8.
Definition PULLCHAIN : Z := 9.

(** [Callback::JobState] *)
Definition SPAWN : Z := 0.
Definition PARTITION : Z := 1.
Definition FUNNEL : Z := 2.

Record parameter := mk_param {
  jobid : Z; jobpartition : Z; jobpartition_count : Z; jobname : list Z; jobquid : list Z; jobparent : list Z;
  jobdata : list Z; jobstate : Z }.

(** The stream, what of it is on the disk for certain, and the members. *)
Record wal := mk_wal {
  m_pFile : FILE; on_disk : list Z; module : list Z; jobparameters : parameter; checkpoint : Z }.

Definition walname (id : Z) (quid : list Z) : list Z :=
  WALDIR ++ bs "/" ++ quid ++ fmt_prec 10 6 id ++ bs ".wlog".

(** ** Writing

    The layout of [struct pageHeader] on the LP64 target, all zero before its
    members are set. *)
Definition sizeof_pageHeader : nat := 152.
Definition pageHeader (module : list Z) (p : parameter) (checkpoint : Z) (isDone : bool) (time : Z) : list Z :=
  LOG_MAGIC ++ [0] ++ strncpy_out 40 (until_nul module) ++ strncpy_out 36 (until_nul (jobquid p)) ++
  strncpy_out 36 (until_nul (jobparent p)) ++ [0] ++ [if isDone then 1 else 0] ++ [0; 0] ++
  le_bytes 4 (jobid p) ++ le_bytes 4 (jobpartition p) ++ le_bytes 4 (jobpartition_count p) ++
  le_bytes 4 (jobstate p) ++ le_bytes 4 (Z.of_nat (length (jobname p))) ++ le_bytes 4 time ++ le_bytes 4 checkpoint.

(** The buffer of a stream, and how much of [n] bytes that are put into an empty
    one is written out: what fills the buffer goes, and of the rest all whole
    buffers. *)
Definition BUFSIZ : nat := 4096.
Definition written_out (n : nat) : nat := if (n <=? BUFSIZ)%nat then 0%nat else (n - n mod BUFSIZ)%nat.

(** [time] is the clock.  Going back to the start writes out what is pending;
    what is written now stays pending if it fits the buffer. *)
Definition commit (isDone : bool) (time : Z) (w : wal) : wal :=
  let f := rewind (m_pFile w) in
  let header := pageHeader (module w) (jobparameters w) (checkpoint w) isDone time in
  let size := (length header + length (jobname (jobparameters w)))%nat in
  let disk := pwrite (f_bytes f) 0 (take (written_out size) (header ++ jobname (jobparameters w))) in
  let f := fwrite header f in
  let f := fwrite (jobname (jobparameters w)) f in
  mk_wal f disk (module w) (jobparameters w) (checkpoint w).

(** [None]: an assertion fails. *)
Definition Wal_new (name : list Z) (param : parameter) (time : Z) : option wal :=
  if (length name =? 40)%nat && (length (jobquid param) =? 36)%nat
  then Some (commit false time (mk_wal (mk_FILE [] 0) [] name param NIL)) else None.

Definition setCheckpoint (c time : Z) (w : wal) : wal :=
  commit false time (mk_wal (m_pFile w) (on_disk w) (module w) (jobparameters w) c).
Definition markDone (time : Z) (w : wal) : wal := commit true time w.

(** Closing writes everything out. *)
Definition Wal_delete (w : wal) : list Z := f_bytes (m_pFile w).

(** ** Reading *)
Definition h_magic (m : mem) : list Z := until_nul m.
Definition h_module (m : mem) : list Z := take 40 (drop 8 m).
Definition h_quid (m : mem) : list Z := take 36 (drop 48 m).
Definition h_parent_quid (m : mem) : list Z := take 36 (drop 84 m).
Definition h_failcount := field 120 1.
Definition h_done := field 121 1.
Definition h_jobid := field 124 4.
Definition h_jobpartition := field 128 4.
Definition h_jobpartition_count := field 132 4.
Definition h_jobstate (m : mem) : Z := i32 (field 136 4 m).
Definition h_jobname_size (m : mem) : Z := i32 (field 140 4 m).
Definition h_checkpoint := field 148 4.

Definition checkpoint_score (c : Z) : Z :=
  if c =? NIL then 30 else if c =? INIT then 20 else if c =? LOAD then 10 else if c =? INJECT then 20
  else if c =? SETUP_ONCE then 15 else if c =? SETUP then 10 else if c =? RUN then 5 else if c =? TEARDOWN then 20
  else if c =? TEARDOWN_ONCE then 25 else if c =? PULLCHAIN then 30 else 0.
Definition jobstate_score (s : Z) : Z :=
  if s =? SPAWN then 15 else if s =? PARTITION then 20 else if s =? FUNNEL then 10 else 0.

Definition recovery_likeliness (failcount : Z) (cached : bool) (checkpoint jobstate : Z) : Z :=
  50 - failcount * -10 - (if cached then 0 else 75) + checkpoint_score checkpoint + jobstate_score jobstate.

(** What becomes of a log; the log goes away in one case only. *)
Inductive outcome := CannotRead | MagicError | Removed | GivenUp (score : Z) | Recovered (name : list Z) (param : parameter).

(** [file] is the log if it can be opened, [cached] tells whether a module is
    there, [junk] what is in the new buffer for the name.  [None]: a size that
    cannot be allocated. *)
Definition rollback (file : option (list Z)) (cached : list Z -> bool) (junk : list Z) : option outcome :=
  match file with
  | None => Some CannotRead
  | Some bytes =>
      let '(d, f) := fread sizeof_pageHeader (mk_FILE bytes 0) in
      let header := overwrite (replicate sizeof_pageHeader 0) d in
      if negb (bool_decide (h_magic header = LOG_MAGIC)) then Some MagicError
      else if negb (h_done header =? 0) then Some Removed
      else if h_jobname_size header <? 0 then None
      else
        let score := recovery_likeliness (h_failcount header) (cached (until_nul (h_module header)))
          (h_checkpoint header) (h_jobstate header) in
        let size := Z.to_nat (h_jobname_size header) in
        let '(d, f) := fread size f in
        let namebuf := overwrite (take size junk) d ++ [0] in
        if score <? 40 then Some (GivenUp score)
        else Some (Recovered (h_module header)
          (mk_param (h_jobid header) (h_jobpartition header) (h_jobpartition_count header) (until_nul namebuf)
            (h_quid header) (h_parent_quid header) [] (h_jobstate header)))
  end.

(** ** What a log tells *)
Record param_ok (p : parameter) : Prop := {
  ok_quid : length (jobquid p) = 36%nat /\ Forall (fun c => c <> 0) (jobquid p);
  ok_name : Z.of_nat (length (jobname p)) < 2 ^ 31 /\ Forall (fun c => c <> 0) (jobname p);
  ok_numbers : 0 <= jobid p < 2 ^ 32 /\ 0 <= jobpartition p < 2 ^ 32 /\ 0 <= jobpartition_count p < 2 ^ 32;
  ok_state : jobstate p = SPAWN \/ jobstate p = PARTITION \/ jobstate p = FUNNEL }.

Definition module_ok (m : list Z) : Prop := length m = 40%nat /\ Forall (fun c => c <> 0) m.
Definition checkpoint_ok (c : Z) : Prop := 0 <= c <= 9.

(** The parent as the header has it: 36 characters, filled up with NULs. *)
Definition parent36 (p : parameter) : list Z := strncpy_out 36 (until_nul (jobparent p)).

(** What is left of the parameters: the parent is cut or filled up, and the
    data, which is not in the log, is lost. *)
Definition logged (p : parameter) : parameter :=
  mk_param (jobid p) (jobpartition p) (jobpartition_count p) (jobname p) (jobquid p) (parent36 p) [] (jobstate p).

(** The log of a job fits the buffer of its stream. *)
Definition fits (p : parameter) : Prop := (sizeof_pageHeader + length (jobname p) <= BUFSIZ)%nat.

Lemma strncpy_out_length n s : length (strncpy_out n s) = n.
Proof. unfold strncpy_out. len. Qed.

Lemma strncpy_out_exact n s : length s = n -> strncpy_out n s = s.
Proof. intros H. unfold strncpy_out. rewrite take_ge, H, Nat.sub_diag by lia. apply app_nil_r. Qed.

Lemma log_header_length m p c d t : length (pageHeader m p c d t) = sizeof_pageHeader.
Proof. unfold pageHeader. rewrite !length_app, !strncpy_out_length, !le_bytes_length. reflexivity. Qed.

Section Header.
Context (m : list Z) (p : parameter) (c t : Z) (done_ : bool).
Context (Hm : module_ok m) (Hp : param_ok p) (Hc : checkpoint_ok c).
Notation h := (pageHeader m p c done_ t).

Lemma log_header_fields :
  h_magic h = LOG_MAGIC /\ h_module h = m /\ h_quid h = jobquid p /\ h_parent_quid h = parent36 p /\
  h_failcount h = 0 /\ h_done h = (if done_ then 1 else 0) /\ h_jobid h = jobid p /\ h_jobpartition h = jobpartition p /\
  h_jobpartition_count h = jobpartition_count p /\ h_jobstate h = jobstate p /\
  h_jobname_size h = Z.of_nat (length (jobname p)) /\ h_checkpoint h = c.
Proof.
  destruct Hm as [Hml Hmz], Hp as [[Hql Hqz] [Hnl _] (N1 & N2 & N3) Hs], Hc as [Hc1 Hc2].
  assert (Hb : bytes_at h 0 h) by (intros i x Hi; exact Hi).
  unfold pageHeader at 2 in Hb. rewrite (until_nul_id m), (until_nul_id (jobquid p)) in Hb by done. fold (parent36 p) in Hb.
  rewrite (strncpy_out_exact 40 m), (strncpy_out_exact 36 (jobquid p)) in Hb by done.
  assert (Hpl : length (parent36 p) = 36%nat) by apply strncpy_out_length.
  rewrite !bytes_at_app, !le_bytes_length, Hpl, Hml, Hql in Hb.
  destruct Hb as (_ & _ & B1 & B2 & B3 & B4 & B5 & _ & B6 & B7 & B8 & B9 & B10 & _ & B11).
  assert (Hf : forall off n x, bytes_at h off (le_bytes n x) -> 0 <= x < 256 ^ Z.of_nat n -> field off n h = x).
  { intros off n x B Hx. rewrite (field_at off n h x B). by apply Z.mod_small. }
  assert (Hr : forall off n x, bytes_at h off x -> length x = n -> take n (drop off h) = x).
  { intros off n x B <-. exact (bytes_at_read _ _ _ B). }
  assert (Hst : 0 <= jobstate p < 3) by (unfold SPAWN, PARTITION, FUNNEL in Hs; lia).
  split; [unfold h_magic, pageHeader; apply until_nul_app; repeat constructor; discriminate|].
  split; [exact (Hr 8%nat 40%nat _ B1 Hml)|].
  split; [exact (Hr 48%nat 36%nat _ B2 Hql)|].
  split; [exact (Hr 84%nat 36%nat _ B3 Hpl)|].
  split; [exact (Hf 120%nat 1%nat 0 B4 ltac:(lia))|].
  split; [destruct done_; [exact (Hf 121%nat 1%nat 1 B5 ltac:(lia))|exact (Hf 121%nat 1%nat 0 B5 ltac:(lia))]|].
  split; [exact (Hf 124%nat 4%nat _ B6 N1)|]. split; [exact (Hf 128%nat 4%nat _ B7 N2)|].
  split; [exact (Hf 132%nat 4%nat _ B8 N3)|].
  split; [unfold h_jobstate; rewrite (Hf 136%nat 4%nat _ B9) by lia; apply i32_small; lia|].
  split; [unfold h_jobname_size; rewrite (Hf 140%nat 4%nat _ B10) by lia; apply i32_small; lia|].
  exact (Hf 148%nat 4%nat _ B11 ltac:(lia)).
Qed.
End Header.

(** Reading a log that was written: done, or by whether the module is there. *)
Definition verdict (cached done_ : bool) (m : list Z) (p : parameter) (c : Z) : outcome :=
  if done_ then Removed else if cached then Recovered m (logged p) else GivenUp (recovery_likeliness 0 false c (jobstate p)).

Lemma scores c s : checkpoint_ok c -> s = SPAWN \/ s = PARTITION \/ s = FUNNEL ->
  40 <= recovery_likeliness 0 true c s /\ recovery_likeliness 0 false c s < 40.
Proof.
  intros [H1 H2] Hs. pose proof (range_forallb (fun c => forallb (fun s => (40 <=? recovery_likeliness 0 true c s) &&
    (recovery_likeliness 0 false c s <? 40)) [0; 1; 2]) 10 ltac:(vm_compute; reflexivity) c ltac:(lia)) as H.
  rewrite forallb_forall in H. specialize (H s). rewrite andb_true_iff, Z.leb_le, Z.ltb_lt in H. apply H.
  destruct Hs as [-> | [-> | ->]]; cbn; auto.
Qed.

Lemma rollback_run m p c t d cached junk :
  module_ok m -> param_ok p -> checkpoint_ok c ->
  rollback (Some (pageHeader m p c d t ++ jobname p)) cached junk = Some (verdict (cached m) d m p c).
Proof.
  intros Hm Hp Hc. pose proof Hp as [_ [Hnl Hnz] _ Hs]. set (h := pageHeader m p c d t).
  assert (Hl : length h = sizeof_pageHeader) by apply log_header_length.
  pose proof (log_header_fields m p c t d Hm Hp Hc) as F. fold h in F.
  destruct F as (F1 & F2 & F3 & F4 & F5 & F6 & F7 & F8 & F9 & F10 & F11 & F12).
  unfold rollback. rewrite (fread_at sizeof_pageHeader _ h); cbn [f_bytes f_pos].
  2:{ intros i x Hi. by apply lookup_app_l_Some. }
  2:{ exact Hl. }
  rewrite overwrite_all by (rewrite length_replicate, Hl; lia).
  rewrite F1, bool_decide_eq_true_2, F6 by done. cbn [negb]. unfold verdict. destruct d; [done|]. cbn [Z.eqb negb].
  rewrite F11, (proj2 (Z.ltb_ge _ 0)), Nat2Z.id by lia. rewrite F2, F5, F12, F10. destruct Hm as [Hml Hmz]. rewrite until_nul_id by done.
  rewrite (fread_at (length (jobname p)) _ (jobname p)); cbn [f_bytes f_pos].
  2:{ intros i x Hi. rewrite lookup_app_r by (rewrite Hl; unfold sizeof_pageHeader; lia). rewrite <- Hi, Hl. f_equal. lia. }
  2:{ done. }
  rewrite overwrite_all by (rewrite length_take; lia). rewrite until_nul_app by done.
  destruct (scores c (jobstate p) Hc Hs) as [S1 S2]. destruct (cached m).
  - rewrite (proj2 (Z.ltb_ge _ _)) by done. unfold logged. by rewrite F3, F4, F7, F8, F9.
  - by rewrite (proj2 (Z.ltb_lt _ _)) by done.
Qed.

(** ** What the stream holds *)
Definition holds (w : wal) (m : list Z) (p : parameter) (c : Z) (d : bool) : Prop :=
  module w = m /\ jobparameters w = p /\ exists t, f_bytes (m_pFile w) = pageHeader m p c d t ++ jobname p.

Lemma pwrite_front a a' b : length a = length a' -> pwrite (a ++ b) 0 a' = a' ++ b.
Proof. intros H. destruct a' as [|x a']; [by destruct a|]. unfold pwrite. cbn [take Nat.sub replicate app Nat.add]. by rewrite <- H, drop_app_length. Qed.

Lemma pwrite_back a b : pwrite (a ++ b) (length a) b = a ++ b.
Proof.
  destruct b as [|x b]; [done|]. set (y := x :: b). unfold pwrite. fold y. change (match y with [] => _ | _ => ?z end) with z.
  rewrite take_app_length, length_app, (drop_ge (a ++ y)) by (rewrite length_app; lia).
  replace (length a - (length a + length y))%nat with 0%nat by lia. cbn [replicate app]. by rewrite app_nil_r.
Qed.

Lemma commit_run w m p c d0 d t :
  (f_bytes (m_pFile w) = [] \/ holds w m p d0 false) -> module w = m -> jobparameters w = p -> checkpoint w = c ->
  holds (commit d t w) m p c d /\ (fits p -> on_disk (commit d t w) = f_bytes (m_pFile w)).
Proof.
  intros Hw Em Ep Ec. split.
  2:{ intros Hf. unfold commit. cbn [on_disk rewind f_bytes]. rewrite log_header_length, Ep. unfold written_out.
      rewrite (proj2 (Nat.leb_le _ _)) by exact Hf. done. } split; [done|]. split; [done|]. exists t.
  unfold commit. cbn [m_pFile rewind fwrite f_bytes f_pos]. rewrite Em, Ep, Ec. set (h := pageHeader m p c d t).
  assert (Hl : length h = sizeof_pageHeader) by apply log_header_length.
  change (Z.to_nat 0) with 0%nat. replace (Z.to_nat (0 + Z.of_nat (length h))) with (length h) by lia.
  destruct Hw as [->|(_ & _ & t0 & ->)].
  - assert (E : pwrite [] 0 h = h ++ []) by (destruct h; [done|reflexivity]). rewrite E.
    assert (E2 : pwrite (h ++ []) (length h) (jobname p) = h ++ jobname p).
    { destruct (jobname p) as [|x n]; [done|]. unfold pwrite. rewrite app_nil_r, take_ge, Nat.sub_diag by lia.
      rewrite drop_ge by lia. by rewrite app_nil_r. }
    exact E2.
  - rewrite pwrite_front by (rewrite log_header_length, Hl; done). apply pwrite_back.
Qed.

Definition setCheckpoints (cs : list (Z * Z)) (w : wal) : wal := foldl (fun w '(c, t) => setCheckpoint c t w) w cs.

Lemma setCheckpoints_run cs w m p c :
  holds w m p c false -> checkpoint w = c ->
  exists c', holds (setCheckpoints cs w) m p c' false /\ checkpoint (setCheckpoints cs w) = c' /\
    (c' = c \/ c' ∈ cs.*1) /\
    (fits p -> cs = [] \/ exists c0 t0, (c0 = c \/ c0 ∈ cs.*1) /\ on_disk (setCheckpoints cs w) = pageHeader m p c0 false t0 ++ jobname p).
Proof.
  revert w c. induction cs as [|[c1 t1] cs IH]; intros w c Hw Hcw.
  { exists c. split; [done|]. split; [done|]. split; [by left|]. intros _. by left. }
  pose proof Hw as (Em & Ep & t & Ef).
  destruct (commit_run (mk_wal (m_pFile w) (on_disk w) (module w) (jobparameters w) c1) m p c1 c false t1) as [H1 H2]; try done.
  { right. split; [done|]. split; [done|]. by exists t. }
  change (setCheckpoints ((c1, t1) :: cs) w) with (setCheckpoints cs (setCheckpoint c1 t1 w)).
  destruct (IH _ _ H1 eq_refl) as (c' & Hc & Hcc & Hin & Hd). exists c'. split; [exact Hc|]. split; [exact Hcc|]. cbn [fmap list_fmap fst]. split.
  - right. destruct Hin as [->|Hin]; [by left|by right].
  - intros Hf. right. destruct (Hd Hf) as [->|(c0 & t0 & Hc0 & E)].
    + exists c, t. split; [by left|]. cbn [setCheckpoints foldl]. unfold setCheckpoint. rewrite (H2 Hf). exact Ef.
    + exists c0, t0. split; [|exact E]. right. destruct Hc0 as [->|Hc0]; [by left|by right].
Qed.

Lemma Wal_new_run m p t : module_ok m -> param_ok p ->
  exists w, Wal_new m p t = Some w /\ holds w m p NIL false /\ checkpoint w = NIL /\ (fits p -> on_disk w = []).
Proof.
  intros [Hm _] [[Hq _] _ _ _]. unfold Wal_new. rewrite Hm, Hq. eexists. split; [done|].
  destruct (commit_run (mk_wal (mk_FILE [] 0) [] m p NIL) m p NIL NIL false t) as [H1 H2]; [by left|done..|].
  split; [exact H1|]. by split.
Qed.

Lemma checkpoints_ok (cs : list (Z * Z)) c : Forall (fun '(c, _) => checkpoint_ok c) cs -> c = NIL \/ c ∈ cs.*1 -> checkpoint_ok c.
Proof.
  intros H [->|Hin]; [by split|]. apply list_elem_of_fmap in Hin as ([c0 t0] & -> & Hin).
  rewrite Forall_forall in H. exact (H _ Hin).
Qed.

Lemma until_nul_nonzero s : Forall (fun c => c <> 0) (until_nul s).
Proof. induction s as [|c s IH]; cbn [until_nul]; [constructor|]. destruct (Z.eqb_spec c 0); by constructor. Qed.

Lemma strncpy_nul_idem s : strncpy_out 36 (until_nul (strncpy_out 36 (until_nul s))) = strncpy_out 36 (until_nul s).
Proof.
  set (u := until_nul s). assert (Hu : Forall (fun c => c <> 0) u) by apply until_nul_nonzero. clearbody u.
  assert (E : until_nul (strncpy_out 36 u) = take 36 u).
  { assert (Hv : Forall (fun c => c <> 0) (take 36 u)) by by apply Forall_take. unfold strncpy_out.
    cbv zeta. destruct (36 - length (take 36 u))%nat as [|k]; [cbn [replicate]; rewrite app_nil_r; by apply until_nul_id|by apply until_nul_app]. }
  rewrite E. unfold strncpy_out. cbv zeta. by rewrite take_take, Nat.min_id.
Qed.

(** Once more the same is left. *)
Lemma logged_ok p : param_ok p -> param_ok (logged p) /\ logged (logged p) = logged p.
Proof.
  intros [H1 H2 H3 H4]. split; [by split|]. unfold logged, parent36. cbn [jobid jobpartition jobpartition_count jobname jobquid jobparent jobdata jobstate].
  by rewrite strncpy_nul_idem.
Qed.

Lemma log_closed m p t cs cached junk :
  module_ok m -> param_ok p -> Forall (fun '(c, _) => checkpoint_ok c) cs ->
  exists w score, Wal_new m p t = Some w /\
    rollback (Some (Wal_delete (setCheckpoints cs w))) cached junk =
      Some (if cached m then Recovered m (logged p) else GivenUp score) /\
    forall t', rollback (Some (Wal_delete (markDone t' (setCheckpoints cs w)))) cached junk = Some Removed.
Proof.
  intros Hm Hp Hcs. destruct (Wal_new_run m p t Hm Hp) as (w & E & Hw & Hcw & _).
  destruct (setCheckpoints_run cs w m p NIL Hw Hcw) as (c & Hc & Hcc & Hin & _). pose proof (checkpoints_ok cs c Hcs Hin) as Hok.
  eexists w, _. split; [exact E|]. pose proof Hc as (Em & Ep & t0 & Ef). split.
  - unfold Wal_delete. rewrite Ef, rollback_run by done. reflexivity.
  - intros t'. destruct (commit_run (setCheckpoints cs w) m p c c true t') as [(_ & _ & t1 & E1) _]; [by right|done..|].
    unfold Wal_delete, markDone. by rewrite E1, rollback_run.
Qed.

(** C17: What is read back of a job's log that is written out, at whatever checkpoint:
    the log of a job that is done goes away; of another, if its module is still
    there, the numbers, the name, the identifier and the state of the job are
    recovered, the parent as 36 characters and the data not at all, and
    otherwise the log is given up.  That goes on without end: the log of a job
    that was recovered is recovered again, however often it was tried - the
    count of failures that wal.cpp looks at ("Only try so many times") is
    always zero. *)
Theorem log_recovered m p t cs t' cached junk :
  module_ok m -> param_ok p -> Forall (fun '(c, _) => checkpoint_ok c) cs ->
  exists w q score, Wal_new m p t = Some w /\
    (jobid q = jobid p /\ jobpartition q = jobpartition p /\ jobpartition_count q = jobpartition_count p /\
     jobname q = jobname p /\ jobquid q = jobquid p /\ jobstate q = jobstate p) /\
    jobparent q = strncpy_out 36 (until_nul (jobparent p)) /\ jobdata q = [] /\
    rollback (Some (Wal_delete (setCheckpoints cs w))) cached junk = Some (if cached m then Recovered m q else GivenUp score) /\
    rollback (Some (Wal_delete (markDone t' (setCheckpoints cs w)))) cached junk = Some Removed /\
    forall t2 cs2, Forall (fun '(c, _) => checkpoint_ok c) cs2 -> exists w2 score2, Wal_new m q t2 = Some w2 /\
      rollback (Some (Wal_delete (setCheckpoints cs2 w2))) cached junk = Some (if cached m then Recovered m q else GivenUp score2).
Proof.
  intros Hm Hp Hcs. destruct (log_closed m p t cs cached junk Hm Hp Hcs) as (w & score & E & H1 & H2).
  exists w, (logged p), score. split; [done|]. split; [done|]. split; [done|]. split; [done|]. split; [done|]. split; [done|].
  intros t2 cs2 Hcs2. destruct (logged_ok p Hp) as [Hq Eq]. destruct (log_closed m (logged p) t2 cs2 cached junk Hm Hq Hcs2) as (w2 & score2 & E2 & H3 & _).
  exists w2, score2. rewrite Eq in H3. by split.
Qed.

(** C24: What is read back after a worker died, of a log that fits the buffer of its
    stream: what the last checkpoint wrote is still pending, so that a job
    whose module is still there is recovered once it has passed a first
    checkpoint, without its data as from a closed log; the log of a job that
    has not is refused, and without the module the log is given up. *)
Theorem crash_recovered m p t cs cached junk :
  module_ok m -> param_ok p -> fits p -> Forall (fun '(c, _) => checkpoint_ok c) cs ->
  exists w score, Wal_new m p t = Some w /\
    rollback (Some (on_disk (setCheckpoints cs w))) cached junk =
      Some (match cs with
            | [] => MagicError
            | _ => if cached m then Recovered m (logged p) else GivenUp score
            end).
Proof.
  intros Hm Hp Hf Hcs. destruct (Wal_new_run m p t Hm Hp) as (w & E & Hw & Hcw & Hd).
  destruct cs as [|[c1 t1] cs]; [exists w, 0; split; [exact E|]; cbn [setCheckpoints foldl]; by rewrite Hd|].
  destruct (setCheckpoints_run ((c1, t1) :: cs) w m p NIL Hw Hcw) as (c & _ & _ & _ & Hdisk). destruct (Hdisk Hf) as [|(c0 & t0 & Hin & Ef)]; [done|].
  pose proof (checkpoints_ok _ c0 Hcs Hin) as Hok. eexists w, _. split; [exact E|]. by rewrite Ef, rollback_run.
Qed.

(** ** A small log *)
Definition demo_param : parameter :=
  mk_param 7 1 4 (bs "count words") (replicate 36 97) [] (bs "data") PARTITION.
Definition demo_module : list Z := replicate 40 98.

Lemma demo_param_ok : param_ok demo_param.
Proof.
  split; cbn; try (split; [lia|]); try (split; [done|]); try (repeat constructor; discriminate); try lia.
Qed.

Lemma demo_module_ok : module_ok demo_module.
Proof. split; [done|]. by apply Forall_replicate. Qed.

Definition demo_checkpoints : list (Z * Z) := [(INIT, 1001); (LOAD, 1002); (RUN, 1005)].
Lemma demo_checkpoints_ok : Forall (fun '(c, _) => checkpoint_ok c) demo_checkpoints.
Proof. repeat constructor; discriminate. Qed.

Lemma log_recovered_witness :
  exists w q, Wal_new demo_module demo_param 1000 = Some w /\ jobid q = 7 /\ jobdata q = [] /\
    rollback (Some (Wal_delete (setCheckpoints demo_checkpoints w))) (fun _ => true) [] = Some (Recovered demo_module q).
Proof.
  destruct (log_recovered demo_module demo_param 1000 demo_checkpoints 1010 (fun _ => true) [] demo_module_ok demo_param_ok
    demo_checkpoints_ok) as (w & q & score & E & (Hid & _) & _ & Hd & H & _).
  exists w, q. split; [exact E|]. split; [exact Hid|]. split; [exact Hd|exact H].
Defined.

Lemma demo_fits : fits demo_param.
Proof. unfold fits. apply Nat.leb_le. vm_compute. reflexivity. Qed.

Lemma crash_recovered_witness :
  exists w, Wal_new demo_module demo_param 1000 = Some w /\
    rollback (Some (on_disk (setCheckpoints demo_checkpoints w))) (fun _ => true) [] = Some (Recovered demo_module (logged demo_param)).
Proof.
  destruct (crash_recovered demo_module demo_param 1000 demo_checkpoints (fun _ => true) [] demo_module_ok demo_param_ok
    demo_fits demo_checkpoints_ok) as (w & score & E & H).
  exists w. split; [exact E|exact H].
Defined.
End Wal.
