(* ===== verification/Fnmatch.v ===== *)
(** * compat: matching of file names (fnmatch.c)

    The matcher walks over the pattern and the string; it is compared with the
    language of the pattern. *)
From S2P Require Import Prelude CLib.

Module Fnmatch.

(** The bits of [flags]. *)
Record flags := mk_flags { NOESCAPE : bool; PATHNAME : bool; PERIOD : bool; LEADING_DIR : bool; CASEFOLD : bool }.
(** [flags & ~FNM_PERIOD] *)
Definition no_period (f : flags) : flags := mk_flags (NOESCAPE f) (PATHNAME f) false (LEADING_DIR f) (CASEFOLD f).

Definition is_slash (c : Z) : bool := c =? ch "/".
Definition fold_case (f : flags) (c : Z) : Z := if CASEFOLD f then tolower c else c.

(** A character of a pattern behind a backslash, and the rest. *)
Definition escaped (f : flags) (c : Z) (p : list Z) : option (Z * list Z) :=
  if (c =? ch "\") && negb (NOESCAPE f) then match p with [] => None | c :: p => Some (c, p) end else Some (c, p).

(** ** [rangematch]

    Strings end where the list does.  Characters are signed. *)
Inductive range_result := RANGE_ERROR | RANGE_NOMATCH | RANGE_MATCH (rest : list Z).

Fixpoint range_loop (n : nat) (f : flags) (test : Z) (negate ok : bool) (p : list Z) : range_result :=
  match n, p with
  | S n, c :: p =>
      match escaped f c p with
      | None => RANGE_ERROR
      | Some (c, p) =>
          if is_slash c && PATHNAME f then RANGE_NOMATCH
          else
            let c := fold_case f c in
            let next ok p :=
              match p with
              | d :: rest =>
                  if d =? ch "]" then (if Bool.eqb ok negate then RANGE_NOMATCH else RANGE_MATCH rest)
                  else range_loop n f test negate ok p
              | [] => RANGE_ERROR
              end in
            match p with
            | m :: c2 :: p2 =>
                if (m =? ch "-") && negb (c2 =? ch "]") then
                  match escaped f c2 p2 with
                  | None => RANGE_ERROR
                  | Some (c2, p2) => next (ok || ((i8 c <=? i8 test) && (i8 test <=? i8 (fold_case f c2)))) p2
                  end
                else next (ok || (c =? test)) p
            | _ => next (ok || (c =? test)) p
            end
      end
  | _, _ => RANGE_ERROR
  end.

Definition rangematch (p : list Z) (test : Z) (f : flags) : range_result :=
  let '(negate, p) := match p with
    | c :: p' => if (c =? ch "!") || (c =? ch "^") then (true, p') else (false, p)
    | [] => (false, p)
    end in
  range_loop (length p) f (fold_case f test) negate false p.

(** ** [fnmatch]

    [prev] is the character in front of the string; the string started here
    when there is none. *)
Definition is_period (f : flags) (prev : option Z) (s : list Z) : bool :=
  match s with
  | c :: _ => (c =? ch ".") && PERIOD f &&
      match prev with None => true | Some d => PATHNAME f && is_slash d end
  | [] => false
  end.

Fixpoint skip_stars (p : list Z) : list Z :=
  match p with c :: p' => if c =? ch "*" then skip_stars p' else p | [] => [] end.

(** From the next slash, with what is in front of it. *)
Fixpoint to_slash (prev : option Z) (s : list Z) : option (option Z * list Z) :=
  match s with
  | [] => None
  | c :: s' => if is_slash c then Some (prev, s) else to_slash (Some c) s'
  end.

(** A character of the pattern against the first one of the string. *)
Definition same_char (f : flags) (c d : Z) : bool := (c =? d) || (CASEFOLD f && (tolower c =? tolower d)).

(** Whether it matches; [n] bounds the length of the pattern. *)
Fixpoint match_loop (n : nat) (f : flags) (prev : option Z) (p s : list Z) : bool :=
  match n with
  | O => false
  | S n =>
      let normal c p :=
        match s with
        | d :: s' => if same_char f c d then match_loop n f (Some d) p s' else false
        | [] => false
        end in
      match p with
      | [] => match s with [] => true | d :: _ => LEADING_DIR f && is_slash d end
      | c :: p =>
          if c =? ch "?" then
            match s with
            | [] => false
            | d :: s' => if is_slash d && PATHNAME f then false else if is_period f prev s then false
                         else match_loop n f (Some d) p s'
            end
          else if c =? ch "*" then
            let p := skip_stars p in
            if is_period f prev s then false
            else match p with
                 | [] => if PATHNAME f then LEADING_DIR f || match to_slash prev s with None => true | Some _ => false end else true
                 | c :: _ =>
                     if is_slash c && PATHNAME f then
                       match to_slash prev s with None => false | Some (prev, s) => match_loop n f prev p s end
                     else
                       (fix star (s : list Z) : bool :=
                          match s with
                          | [] => false
                          | d :: s' => if match_loop n (no_period f) None p s then true
                                       else if is_slash d && PATHNAME f then false else star s'
                          end) s
                 end
          else if c =? ch "[" then
            match s with
            | [] => false
            | d :: s' =>
                if is_slash d && PATHNAME f then false else if is_period f prev s then false
                else match rangematch p d f with
                     | RANGE_ERROR => normal c p
                     | RANGE_MATCH rest => match_loop n f (Some d) rest s'
                     | RANGE_NOMATCH => false
                     end
            end
          else if (c =? ch "\") && negb (NOESCAPE f) then
            match p with [] => normal (ch "\") [] | c :: p => normal c p end
          else normal c p
      end
  end.

Definition fnmatch (pattern string : list Z) (f : flags) : bool :=
  match_loop (S (length pattern)) f None pattern string.

(** ** The language of a pattern *)
Inductive item := One (c : Z) | Range (lo hi : Z).
Inductive token := Any | Star | Char (c : Z) | Set_ (negate : bool) (items : list item) | Nothing.

Definition in_item (test : Z) (i : item) : bool :=
  match i with One c => c =? test | Range lo hi => (i8 lo <=? i8 test) && (i8 test <=? i8 hi) end.

(** What a bracket holds: it may not be one, or match nothing. *)
Inductive bracket_result := NoBracket | Empty | Bracket (items : list item) (rest : list Z).

Fixpoint bracket (n : nat) (f : flags) (items : list item) (p : list Z) : bracket_result :=
  match n, p with
  | S n, c :: p =>
      match escaped f c p with
      | None => NoBracket
      | Some (c, p) =>
          if is_slash c && PATHNAME f then Empty
          else
            let next i p :=
              match p with
              | d :: rest => if d =? ch "]" then Bracket (items ++ [i]) rest else bracket n f (items ++ [i]) p
              | [] => NoBracket
              end in
            match p with
            | m :: c2 :: p2 =>
                if (m =? ch "-") && negb (c2 =? ch "]") then
                  match escaped f c2 p2 with
                  | None => NoBracket
                  | Some (c2, p2) => next (Range (fold_case f c) (fold_case f c2)) p2
                  end
                else next (One (fold_case f c)) p
            | _ => next (One (fold_case f c)) p
            end
      end
  | _, _ => NoBracket
  end.

Definition is_negation (c : Z) : bool := (c =? ch "!") || (c =? ch "^").
Definition negation (p : list Z) : bool * list Z :=
  match p with c :: p' => if is_negation c then (true, p') else (false, p) | [] => (false, p) end.

Fixpoint tokens (n : nat) (f : flags) (p : list Z) : list token :=
  match n, p with
  | S n, c :: p =>
      if c =? ch "?" then Any :: tokens n f p
      else if c =? ch "*" then Star :: tokens n f (skip_stars p)
      else if c =? ch "[" then
        let '(negate, p') := negation p in
        match bracket (length p') f [] p' with
        | NoBracket => Char c :: tokens n f p
        | Empty => [Nothing]
        | Bracket items rest => Set_ negate items :: tokens n f rest
        end
      else match escaped f c p with
           | Some (c, p) => Char c :: tokens n f p
           | None => Char c :: tokens n f []
           end
  | _, _ => []
  end.

(** No slash where a path name is matched. *)
Definition inside (f : flags) (c : Z) : Prop := PATHNAME f = true -> is_slash c = false.

Fixpoint lang (f : flags) (ts : list token) (s : list Z) : Prop :=
  match ts with
  | [] => s = [] \/ LEADING_DIR f = true /\ exists s', s = ch "/" :: s'
  | Any :: ts => exists d s', s = d :: s' /\ inside f d /\ lang f ts s'
  | Star :: ts => exists s1 s2, s = s1 ++ s2 /\ Forall (inside f) s1 /\ lang f ts s2
  | Char c :: ts => exists d s', s = d :: s' /\ same_char f c d = true /\ lang f ts s'
  | Set_ negate items :: ts => exists d s', s = d :: s' /\ inside f d /\
      existsb (in_item (fold_case f d)) items = negb negate /\ lang f ts s'
  | Nothing :: _ => False
  end.

(** ** The matcher accepts the language *)
Lemma range_loop_bracket n f test negate items p :
  range_loop n f test negate (existsb (in_item test) items) p =
    match bracket n f items p with
    | NoBracket => RANGE_ERROR
    | Empty => RANGE_NOMATCH
    | Bracket items rest => if Bool.eqb (existsb (in_item test) items) negate then RANGE_NOMATCH else RANGE_MATCH rest
    end.
Proof.
  revert items p. induction n as [|n IH]; intros items p; [done|]. destruct p as [|c p]; [done|]. cbn [range_loop bracket].
  destruct (escaped f c p) as [[c' p']|]; [|done]. destruct (_ && _); [done|].
  assert (Hnext : forall i q, match q with
      | d :: rest => if d =? ch "]" then (if Bool.eqb (existsb (in_item test) items || in_item test i) negate then RANGE_NOMATCH else RANGE_MATCH rest)
                     else range_loop n f test negate (existsb (in_item test) items || in_item test i) q
      | [] => RANGE_ERROR
      end = match match q with
      | d :: rest => if d =? ch "]" then Bracket (items ++ [i]) rest else bracket n f (items ++ [i]) q
      | [] => NoBracket
      end with
      | NoBracket => RANGE_ERROR
      | Empty => RANGE_NOMATCH
      | Bracket items rest => if Bool.eqb (existsb (in_item test) items) negate then RANGE_NOMATCH else RANGE_MATCH rest
      end).
  { intros i q. assert (E : existsb (in_item test) items || in_item test i = existsb (in_item test) (items ++ [i])).
    { rewrite existsb_app. cbn [existsb]. by rewrite orb_false_r. }
    rewrite E. destruct q as [|d rest]; [done|]. destruct (d =? ch "]"); [done|]. apply IH. }
  destruct p' as [|m [|c2 p2]]; [exact (Hnext (One (fold_case f c')) [])|exact (Hnext (One (fold_case f c')) [m])|].
  destruct (_ && _); [|exact (Hnext (One (fold_case f c')) (m :: c2 :: p2))].
  destruct (escaped f c2 p2) as [[c2' p2']|]; [|done]. exact (Hnext (Range (fold_case f c') (fold_case f c2')) p2').
Qed.

Lemma rangematch_bracket p test f :
  let '(negate, p') := negation p in
  rangematch p test f = match bracket (length p') f [] p' with
    | NoBracket => RANGE_ERROR
    | Empty => RANGE_NOMATCH
    | Bracket items rest => if Bool.eqb (existsb (in_item (fold_case f test)) items) negate then RANGE_NOMATCH else RANGE_MATCH rest
    end.
Proof.
  unfold rangematch, negation, is_negation. destruct p as [|c p]; [done|].
  destruct (_ || _); exact (range_loop_bracket _ f _ _ [] _).
Qed.

Lemma escaped_length f c p c' p' : escaped f c p = Some (c', p') -> (length p' <= length p)%nat.
Proof. unfold escaped. destruct (_ && _); [|by intros [= _ <-]]. destruct p; [done|]. intros [= _ <-]. cbn. lia. Qed.

Lemma bracket_length n f items p items' rest : bracket n f items p = Bracket items' rest -> (length rest < length p)%nat.
Proof.
  revert items p. induction n as [|n IH]; intros items p; [done|]. destruct p as [|c p]; [done|]. cbn [bracket].
  destruct (escaped f c p) as [[c' p']|] eqn:Ee; [|done]. apply escaped_length in Ee. destruct (_ && _); [done|].
  assert (Hnext : forall i q, match q with
      | d :: rest => if d =? ch "]" then Bracket (items ++ [i]) rest else bracket n f (items ++ [i]) q
      | [] => NoBracket
      end = Bracket items' rest -> (length q <= length p)%nat -> (length rest < length (c :: p))%nat).
  { intros i q E Hq. destruct q as [|d q]; [done|]. cbn [length] in *. destruct (d =? ch "]"); [injection E as _ <-; lia|].
    apply IH in E. cbn [length] in E. lia. }
  destruct p' as [|m [|c2 p2]];
    [intros E; by apply (Hnext (One (fold_case f c')) []) in E|intros E; by apply (Hnext (One (fold_case f c')) [m]) in E|].
  destruct (_ && _); [|intros E; by apply (Hnext (One (fold_case f c')) (m :: c2 :: p2)) in E].
  destruct (escaped f c2 p2) as [[c2' p2']|] eqn:E2; [|done]. apply escaped_length in E2. intros E.
  apply (Hnext (Range (fold_case f c') (fold_case f c2')) p2') in E; [exact E|]. cbn [length] in *. lia.
Qed.

Lemma negation_length p : (length (negation p).2 <= length p)%nat.
Proof. unfold negation. destruct p as [|c p]; [done|]. destruct (is_negation c); cbn; lia. Qed.

Lemma skip_stars_length p : (length (skip_stars p) <= length p)%nat.
Proof. induction p as [|c p IH]; [done|]. cbn [skip_stars]. destruct (c =? ch "*"); cbn [length]; lia. Qed.

Lemma skip_stars_head p c p' : skip_stars p = c :: p' -> (c =? ch "*") = false.
Proof.
  induction p as [|d p IH]; [done|]. cbn [skip_stars]. destruct (d =? ch "*") eqn:E; [done|]. by intros [= <- _].
Qed.

Lemma inside_iff f c : inside f c <-> is_slash c && PATHNAME f = false.
Proof. unfold inside. destruct (is_slash c), (PATHNAME f); cbn; split; auto; intros H; by specialize (H eq_refl). Qed.

Lemma is_period_off f prev s : PERIOD f = false -> is_period f prev s = false.
Proof. intros H. unfold is_period. destruct s; [done|]. by rewrite H, andb_false_r. Qed.

(** A pattern that does not begin with a star matches no empty string. *)
Lemma no_match_empty n f prev c p : (c =? ch "*") = false -> match_loop n f prev (c :: p) [] = false.
Proof.
  intros Hc. destruct n as [|n]; [done|]. cbn [match_loop]. rewrite Hc. destruct (c =? ch "?"); [done|].
  destruct (c =? ch "["); [done|]. destruct (_ && _); [|done]. by destruct p.
Qed.

(** The loop behind a star tries each end of the string up to a slash. *)
Lemma star_tries (M : list Z -> bool) f s : M [] = false ->
  (fix star (s : list Z) : bool :=
     match s with
     | [] => false
     | d :: s' => if M s then true else if is_slash d && PATHNAME f then false else star s'
     end) s = true <-> exists s1 s2, s = s1 ++ s2 /\ Forall (inside f) s1 /\ M s2 = true.
Proof.
  intros HM. induction s as [|d s IH].
  - split; [done|]. intros (s1 & s2 & E & _ & H). symmetry in E. apply app_nil in E as [-> ->]. congruence.
  - destruct (M (d :: s)) eqn:Em; [split; [intros _; by exists [], (d :: s)|done]|].
    assert (Hinv : forall s1 s2, d :: s = s1 ++ s2 -> M s2 = true -> exists s1', s1 = d :: s1' /\ s = s1' ++ s2).
    { intros [|d' s1] s2 E Hm; [cbn in E; subst s2; congruence|]. injection E as <- ->. by exists s1. }
    destruct (is_slash d && PATHNAME f) eqn:Es.
    + split; [done|]. intros (s1 & s2 & E & Hin & Hm). destruct (Hinv s1 s2 E Hm) as (s1' & -> & _).
      apply Forall_cons in Hin as [Hd%inside_iff _]. congruence.
    + rewrite IH. split; intros (s1 & s2 & E & Hin & Hm).
      * exists (d :: s1), s2. split; [by rewrite E|]. split; [|done]. constructor; [by apply inside_iff|done].
      * destruct (Hinv s1 s2 E Hm) as (s1' & -> & ->). exists s1', s2. by apply Forall_cons in Hin as [_ Hin].
Qed.

Lemma to_slash_spec prev s :
  match to_slash prev s with
  | None => Forall (fun c => is_slash c = false) s
  | Some (_, s') => exists s1 r, s = s1 ++ s' /\ s' = ch "/" :: r /\ Forall (fun c => is_slash c = false) s1
  end.
Proof.
  revert prev. induction s as [|c s IH]; intros prev; [constructor|]. cbn [to_slash]. destruct (is_slash c) eqn:Ec.
  - exists [], s. split; [done|]. split; [|done]. f_equal. by apply Z.eqb_eq.
  - specialize (IH (Some c)). destruct (to_slash (Some c) s) as [[pr s']|]; [|by constructor].
    destruct IH as (s1 & r & -> & -> & H). exists (c :: s1), r. split; [done|]. split; [done|]. by constructor.
Qed.

Lemma inside_all f s : PATHNAME f = true -> Forall (inside f) s <-> Forall (fun c => is_slash c = false) s.
Proof. intros H. apply Forall_iff. intros c. unfold inside. rewrite H. split; [intros Hc; by apply Hc|done]. Qed.

Section Match.
Context (n : nat) (f : flags) (Hperiod : PERIOD f = false).
Context (IH : forall prev p s, (length p < n)%nat -> match_loop n f prev p s = true <-> lang f (tokens n f p) s).

Lemma char_lang c p s : (length p < n)%nat ->
  match s with d :: s' => if same_char f c d then match_loop n f (Some d) p s' else false | [] => false end = true <->
  lang f (Char c :: tokens n f p) s.
Proof.
  intros Hp. cbn [lang]. destruct s as [|d s]; [split; [done|by intros (? & ? & [=] & _)]|]. destruct (same_char f c d) eqn:E.
  - rewrite IH by done. split; [intros H; by exists d, s|]. by intros (d' & s' & [= <- <-] & _ & H).
  - split; [done|]. intros (d' & s' & [= <- <-] & H & _). congruence.
Qed.

Lemma slash_lang p prev s : PATHNAME f = true -> (length (ch "/" :: p) < n)%nat ->
  match to_slash prev s with None => false | Some (prev, s) => match_loop n f prev (ch "/" :: p) s end = true <->
  lang f (Star :: tokens n f (ch "/" :: p)) s.
Proof.
  intros Hpath Hp. pose proof (to_slash_spec prev s) as Hs. cbn [lang].
  assert (Hhead : forall s2, lang f (tokens n f (ch "/" :: p)) s2 -> exists r, s2 = ch "/" :: r).
  { intros s2 H. destruct n as [|k]; [cbn [length] in Hp; lia|].
    change (tokens (S k) f (ch "/" :: p)) with (Char (ch "/") :: tokens k f p) in H.
    destruct H as (d & r & -> & Hd & _). exists r. f_equal. unfold same_char in Hd. apply orb_true_iff in Hd as [Hd%Z.eqb_eq|[_ Hd%Z.eqb_eq]%andb_true_iff]; [done|].
    change (tolower (ch "/")) with (ch "/") in Hd. unfold tolower in Hd. destruct (_ && _) eqn:Eb in Hd; [|done].
    apply andb_true_iff in Eb as [Eb%Z.leb_le _]. change (ch "/") with 47 in Hd. lia. }
  destruct (to_slash prev s) as [[pr s']|].
  - destruct Hs as (s1 & r & -> & -> & Hs1). rewrite IH by done. split.
    + intros H. exists s1, (ch "/" :: r). split; [done|]. split; [by apply inside_all|done].
    + intros (t1 & t2 & E & Ht1 & H). apply (inside_all f) in Ht1; [|done]. destruct (Hhead t2 H) as [r' ->].
      assert (s1 = t1 /\ r = r') as [-> ->]; [|done]. clear H. revert t1 E Ht1.
      induction s1 as [|c s1 IHs]; intros [|c' t1] E Ht1; cbn [app] in E.
      * by injection E as ->.
      * injection E as <- _. by apply Forall_cons in Ht1 as [? _].
      * injection E as -> _. by apply Forall_cons in Hs1 as [? _].
      * injection E as <- E. apply Forall_cons in Hs1 as [_ Hs1]. apply Forall_cons in Ht1 as [_ Ht1].
        destruct (IHs Hs1 t1 E Ht1) as [-> ->]. done.
  - split; [done|]. intros (t1 & t2 & -> & _ & H). destruct (Hhead t2 H) as [r ->].
    apply Forall_app in Hs as [_ Hs]. by apply Forall_cons in Hs as [? _].
Qed.

(** A star in front of anything but a slash. *)
Lemma star_lang c p s : (c =? ch "*") = false -> (length (c :: p) < n)%nat ->
  (fix star (s : list Z) : bool :=
     match s with
     | [] => false
     | d :: s' => if match_loop n f None (c :: p) s then true else if is_slash d && PATHNAME f then false else star s'
     end) s = true <-> lang f (Star :: tokens n f (c :: p)) s.
Proof.
  intros Hc Hp. rewrite (star_tries (match_loop n f None (c :: p)) f s) by by apply no_match_empty.
  split; intros (s1 & s2 & E & Hin & H); exists s1, s2; (split; [done|]; split; [done|]); by apply IH in H || (apply IH; done).
Qed.

(** A star at the end. *)
Lemma last_star_lang prev s :
  (if PATHNAME f then LEADING_DIR f || match to_slash prev s with None => true | Some _ => false end else true) = true <->
  lang f [Star] s.
Proof.
  cbn [lang]. pose proof (to_slash_spec prev s) as Hs. destruct (PATHNAME f) eqn:Ep.
  - rewrite orb_true_iff. split.
    + intros [Hl|Hn].
      * destruct (to_slash prev s) as [[pr s']|].
        -- destruct Hs as (s1 & r & -> & -> & Hs1). exists s1, (ch "/" :: r). split; [done|]. split; [by apply inside_all|].
           right. split; [done|]. by exists r.
        -- exists s, []. rewrite app_nil_r. split; [done|]. split; [by apply inside_all|by left].
      * destruct (to_slash prev s) as [[pr s']|]; [done|]. exists s, []. rewrite app_nil_r. split; [done|].
        split; [by apply inside_all|by left].
    + intros (s1 & s2 & -> & Hs1 & [->|[Hl _]]); [|by left]. right. rewrite app_nil_r in *. apply (inside_all f) in Hs1; [|done].
      destruct (to_slash prev s1) as [[pr s']|]; [|done]. destruct Hs as (t1 & r & -> & -> & _).
      apply Forall_app in Hs1 as [_ Hs1]. by apply Forall_cons in Hs1 as [? _].
  - split; [intros _|done]. exists s, []. rewrite app_nil_r. split; [done|]. split; [|by left].
    apply Forall_forall. intros c _ H. congruence.
Qed.

(** A bracket. *)
Lemma bracket_lang p d s : (length p < n)%nat -> inside f d ->
  match rangematch p d f with
  | RANGE_ERROR => if same_char f (ch "[") d then match_loop n f (Some d) p s else false
  | RANGE_MATCH rest => match_loop n f (Some d) rest s
  | RANGE_NOMATCH => false
  end = true <->
  lang f (let '(negate, p') := negation p in
          match bracket (length p') f [] p' with
          | NoBracket => Char (ch "[") :: tokens n f p
          | Empty => [Nothing]
          | Bracket items rest => Set_ negate items :: tokens n f rest
          end) (d :: s).
Proof.
  intros Hp Hd. pose proof (rangematch_bracket p d f) as E. pose proof (negation_length p) as Hn.
  destruct (negation p) as [negate p']. cbn [snd] in Hn. rewrite E.
  destruct (bracket (length p') f [] p') as [| |items rest] eqn:Eb.
  - exact (char_lang (ch "[") p (d :: s) Hp).
  - split; [done|by intros []].
  - apply bracket_length in Eb. cbn [lang]. set (b := existsb _ items). destruct (Bool.eqb b negate) eqn:En.
    + split; [done|]. intros (d' & s' & [= <- <-] & _ & H & _). fold b in H. apply eqb_prop in En. rewrite En in H. by destruct negate.
    + rewrite IH by lia. split.
      * intros H. exists d, s. split; [done|]. split; [done|]. split; [|done]. fold b. by destruct b, negate.
      * by intros (d' & s' & [= <- <-] & _ & _ & H).
Qed.
End Match.

Lemma match_lang n f prev p s : PERIOD f = false -> (length p < n)%nat ->
  match_loop n f prev p s = true <-> lang f (tokens n f p) s.
Proof.
  intros Hf. revert prev p s. induction n as [|n IH]; intros prev p s Hp; [lia|]. destruct p as [|c p].
  { cbn [match_loop tokens lang]. destruct s as [|d s]; [split; [by left|done]|]. rewrite andb_true_iff. split.
    - intros [Hl Hd%Z.eqb_eq]. right. split; [done|]. exists s. by subst d.
    - by intros [[=]|[Hl (s' & [= -> ->])]]. }
  cbn [length] in Hp. cbn [match_loop tokens]. destruct (c =? ch "?").
  { cbn [lang]. destruct s as [|d s]; [split; [done|by intros (? & ? & [=] & _)]|]. rewrite is_period_off by done.
    destruct (is_slash d && PATHNAME f) eqn:Es.
    - split; [done|]. intros (d' & s' & [= <- <-] & Hin%inside_iff & _). congruence.
    - rewrite IH by lia. split; [intros H; exists d, s; split; [done|]; split; [by apply inside_iff|done]|].
      by intros (d' & s' & [= <- <-] & _ & H). }
  destruct (c =? ch "*").
  { rewrite is_period_off by done. pose proof (skip_stars_length p) as Hl.
    destruct (skip_stars p) as [|c' p'] eqn:Ep; [destruct n; apply last_star_lang|]. cbn [length] in Hl.
    pose proof (skip_stars_head p c' p' Ep) as Hc'. assert (E : no_period f = f) by (destruct f; cbn in Hf |- *; by rewrite Hf).
    rewrite E. destruct (is_slash c' && PATHNAME f) eqn:Es.
    - apply andb_true_iff in Es as [->%Z.eqb_eq Epath]. apply slash_lang; [exact IH|done|cbn [length]; lia].
    - apply star_lang; [exact IH|done|cbn [length]; lia]. }
  destruct (c =? ch "[") eqn:Ec.
  { apply Z.eqb_eq in Ec as ->. destruct s as [|d s].
    - split; [done|]. destruct (negation p) as [negate p']. destruct (bracket _ f [] p'); cbn [lang].
      + by intros (? & ? & [=] & _).
      + done.
      + by intros (? & ? & [=] & _).
    - rewrite is_period_off by done. destruct (is_slash d && PATHNAME f) eqn:Es.
      + split; [done|]. apply andb_true_iff in Es as [->%Z.eqb_eq Epath]. destruct (negation p) as [negate p'].
        destruct (bracket _ f [] p'); cbn [lang].
        * intros (d & s' & [= <- <-] & Hd & _). unfold same_char in Hd. by destruct (CASEFOLD f).
        * done.
        * intros (d & s' & [= <- <-] & Hd & _). by specialize (Hd Epath).
      + apply bracket_lang; [exact IH|lia|by apply inside_iff]. }
  unfold escaped. destruct ((c =? ch "\") && negb (NOESCAPE f)) eqn:Ee; [|apply char_lang; [exact IH|lia]].
  apply andb_true_iff in Ee as [->%Z.eqb_eq _].
  destruct p as [|c' p]; (apply char_lang; [exact IH|cbn [length] in *; lia]).
Qed.

(** C20: Unless periods are treated specially, the matcher accepts exactly the
    language of the pattern: question marks, stars that stop at slashes where
    path names are matched, brackets with ranges and negation, escapes, folded
    case, and a directory in front. *)
Theorem fnmatch_accepts_language pattern string f :
  PERIOD f = false ->
  fnmatch pattern string f = true <-> lang f (tokens (S (length pattern)) f pattern) string.
Proof. intros Hf. apply match_lang; [done|lia]. Qed.

(** Where periods are treated specially, a leading one is matched by a period
    of the pattern only; but a star that is not in front of a slash drops the
    flag, and behind it a star matches a period after a slash. *)
Theorem fnmatch_leading_period :
  (forall pattern s f, PERIOD f = true -> fnmatch pattern (ch "." :: s) f = true ->
     exists c ts, tokens (S (length pattern)) f pattern = Char c :: ts /\ same_char f c (ch ".") = true) /\
  let path := mk_flags false true true false false in
  fnmatch (bs "ab/*") (bs "ab/.x") path = false /\ fnmatch (bs "a*b/*") (bs "ab/.x") path = true.
Proof.
  split; [|split; reflexivity]. intros p s f Hf. unfold fnmatch.
  assert (Hperiod : is_period f None (ch "." :: s) = true) by (cbn; by rewrite Hf).
  destruct p as [|c p]; cbn [match_loop tokens]; [by rewrite andb_false_r|].
  destruct (c =? ch "?"); [by rewrite Hperiod|]. destruct (c =? ch "*"); [by rewrite Hperiod|].
  destruct (c =? ch "["); [by rewrite Hperiod|]. unfold escaped. destruct (_ && _) eqn:Ee.
  - apply andb_true_iff in Ee as [->%Z.eqb_eq _].
    destruct p as [|c' p]; (destruct (same_char f _ (ch ".")) eqn:Ec; [|done]); intros _; by eexists _, _.
  - destruct (same_char f c (ch ".")) eqn:Ec; [|done]. intros _. by eexists _, _.
Qed.

Lemma fnmatch_accepts_language_witness :
  lang (mk_flags false true false false false) (tokens 9 (mk_flags false true false false false) (bs "*.[!a-c]")) (bs "par.d").
Proof. apply (fnmatch_accepts_language (bs "*.[!a-c]") (bs "par.d")); reflexivity. Defined.
End Fnmatch.
