(* ===== verification/Config.v ===== *)
(** * common and cynder: configuration (config.h, main of cynder.cpp)

    A configuration file has a key and a value on each line; cynder's lists
    the workers of the ring. *)
From S2P Require Import Prelude CLib Crc32 Ring.

Module Config.

(** [std::string::find]; [None] is [npos]. *)
Fixpoint find_if (f : Z -> bool) (s : list Z) : option nat :=
  match s with
  | [] => None
  | c :: s => if f c then Some 0%nat else S <$> find_if f s
  end.
Definition find_ (c : Z) : list Z -> option nat := find_if (Z.eqb c).

Definition TAB : Z := 9.
Definition NL : Z := 10.
(** ["\t "] *)
Definition is_blank (c : Z) : bool := (c =? TAB) || (c =? ch " ").

(** [erase(i)] when [i] is not [npos], and [erase(0, find_first_not_of("\t "))]
    and [erase(find_last_not_of("\t ") + 1)]: what a search does not find is the
    whole string. *)
Definition erase_from (c : Z) (s : list Z) : list Z := match find_ c s with Some i => take i s | None => s end.
Definition erase_leading (s : list Z) : list Z :=
  match find_if (fun c => negb (is_blank c)) s with Some i => drop i s | None => [] end.
Definition erase_trailing (s : list Z) : list Z := reverse (erase_leading (reverse s)).

Definition removeComment (line : list Z) : list Z := erase_from (ch "#") (erase_from (ch ";") line).
Definition onlyWhitespace (line : list Z) : bool := forallb (Z.eqb (ch " ")) line.

(** A line with a separator: something in front of it, and not only blanks
    behind it. *)
Definition validLine (line : list Z) : bool :=
  let temp := erase_leading line in
  match temp with
  | c :: _ => if c =? ch "=" then false
              else existsb (fun c => negb (c =? ch " ")) (drop (match find_ (ch "=") temp with Some i => S i | None => 0%nat end) temp)
  | [] => false
  end.

Definition extractKey (sepPos : nat) (line : list Z) : list Z :=
  let key := take sepPos line in
  match find_if is_blank key with Some i => take i key | None => key end.
Definition extractValue (sepPos : nat) (line : list Z) : list Z := erase_trailing (erase_leading (drop (S sepPos) line)).

Definition extractContents (line : list Z) : option (list Z * list Z) :=
  let temp := erase_leading line in
  sepPos ← find_ (ch "=") temp; Some (extractKey sepPos temp, extractValue sepPos temp).

Inductive ConfigError := KEY_NOT_EXIST | INVALID_SYNTAX (line : Z) | INVALID_CAST | FILE_NOT_FOUND.

(** The entries in the order of the file: entries of one key keep it. *)
Definition contents : Type := list (list Z * list Z).

Definition parseLine (line : list Z) (lineNo : Z) (c : contents) : ConfigError + contents :=
  match find_ (ch "=") line with
  | None => inl (INVALID_SYNTAX lineNo)
  | Some _ =>
      if negb (validLine line) then inl (INVALID_SYNTAX lineNo)
      else match extractContents line with Some e => inr (c ++ [e]) | None => inr c end
  end.

(** [std::getline]: the lines of a file; one that is empty at the end is none. *)
Fixpoint getlines (line s : list Z) : list (list Z) :=
  match s with
  | [] => match line with [] => [] | _ => [line] end
  | c :: s => if c =? NL then line :: getlines [] s else getlines (line ++ [c]) s
  end.

Fixpoint parse_lines (lines : list (list Z)) (lineNo : Z) (c : contents) : ConfigError + contents :=
  match lines with
  | [] => inr c
  | line :: lines =>
      let lineNo := lineNo + 1 in
      match line with
      | [] => parse_lines lines lineNo c
      | _ =>
          let temp := removeComment line in
          if onlyWhitespace temp then parse_lines lines lineNo c
          else match parseLine temp lineNo c with
               | inl e => inl e
               | inr c => parse_lines lines lineNo c
               end
      end
  end.

(** The constructor, on the file if it can be opened. *)
Definition extractKeys (file : option (list Z)) : ConfigError + contents :=
  match file with None => inl FILE_NOT_FOUND | Some s => parse_lines (getlines [] s) 0 [] end.

Definition exist (key : list Z) (c : contents) : bool := existsb (fun e => bool_decide (e.1 = key)) c.
Definition size (c : contents) : nat := length c.
(** [find]: the range of a key. *)
Definition find (key : list Z) (c : contents) : list (list Z) := (filter (fun e => e.1 = key) c).*2.

(** ** cynder's [main]: the ring, or an error and exit *)
Inductive exit_ := NotRead (e : ConfigError) | NoMaster | NoWorker.

Definition configure (file : option (list Z)) : exit_ + Ring.ring :=
  match extractKeys file with
  | inl e => inl (NotRead e)
  | inr c =>
      if negb (exist (bs "cynder-master") c) then inl NoMaster
      else if negb (exist (bs "cynder-worker") c) then inl NoWorker
      else inr (Ring.nodeRing (find (bs "cynder-worker") c))
  end.

(** ** What a line says *)
Definition blanks (s : list Z) : Prop := Forall (fun c => is_blank c = true) s.
Definition no_mark (s : list Z) : Prop := Forall (fun c => c <> ch ";" /\ c <> ch "#" /\ c <> NL) s.
Definition comment (s : list Z) : Prop :=
  s = [] \/ exists c s', s = c :: s' /\ (c = ch ";" \/ c = ch "#") /\ Forall (fun c => c <> NL) s'.
Definition nonblank (o : option Z) : Prop := exists c, o = Some c /\ is_blank c = false.

Record key_ok (k : list Z) : Prop := {
  k_some : k <> [];
  k_chars : Forall (fun c => is_blank c = false /\ c <> ch "=") k;
  k_mark : no_mark k }.
Record value_ok (v : list Z) : Prop := {
  v_first : nonblank (head v);
  v_last : nonblank (last v);
  v_mark : no_mark v }.

(** An entry among blanks, with or without a comment; or nothing. *)
Inductive reads : list Z -> option (list Z * list Z) -> Prop :=
| reads_entry b1 k b2 b3 v b4 cm : blanks b1 -> key_ok k -> blanks b2 -> blanks b3 -> value_ok v -> blanks b4 -> comment cm ->
    reads (b1 ++ k ++ b2 ++ ch "=" :: b3 ++ v ++ b4 ++ cm) (Some (k, v))
| reads_nothing b cm : Forall (fun c => c = ch " ") b -> comment cm -> reads (b ++ cm) None.

Lemma find_if_none f s : Forall (fun c => f c = false) s -> find_if f s = None.
Proof. induction 1 as [|c s Hc _ IH]; [done|]. cbn [find_if]. by rewrite Hc, IH. Qed.

Lemma find_if_app f a c r : Forall (fun c => f c = false) a -> f c = true -> find_if f (a ++ c :: r) = Some (length a).
Proof. intros Ha Hc. induction Ha as [|d a Hd _ IH]; cbn [app find_if length]; [by rewrite Hc|]. by rewrite Hd, IH. Qed.

Lemma erase_from_app c a r : Forall (fun d => d <> c) a -> erase_from c (a ++ r) = a ++ erase_from c r.
Proof.
  intros Ha. unfold erase_from, find_. induction Ha as [|d a Hd _ IH]; [done|]. cbn [app find_if].
  rewrite (proj2 (Z.eqb_neq c d)) by done. destruct (find_if (Z.eqb c) (a ++ r)); cbn [fmap option_fmap option_map take] in *; by rewrite IH.
Qed.

Lemma removeComment_app a cm : no_mark a -> comment cm -> removeComment (a ++ cm) = a.
Proof.
  intros Ha Hcm. unfold removeComment.
  rewrite erase_from_app by (eapply Forall_impl; [exact Ha|]; by intros ? (? & ? & ?)).
  rewrite erase_from_app by (eapply Forall_impl; [exact Ha|]; by intros ? (? & ? & ?)).
  destruct Hcm as [->|(c & s' & -> & [->| ->] & _)]; [apply app_nil_r|apply app_nil_r|].
  unfold erase_from, find_. cbn [find_if]. change (ch ";" =? ch "#") with false. cbv iota.
  destruct (find_if (Z.eqb (ch ";")) s'); cbn; apply app_nil_r.
Qed.

Lemma erase_leading_app b s : blanks b -> nonblank (head s) -> erase_leading (b ++ s) = s.
Proof.
  intros Hb (c & Hc & Hn). destruct s as [|d s]; [done|]. injection Hc as ->. unfold erase_leading. rewrite find_if_app.
  - by rewrite drop_app_length.
  - eapply Forall_impl; [exact Hb|]. by intros x ->.
  - by rewrite Hn.
Qed.

Lemma erase_trailing_app b s : blanks b -> nonblank (last s) -> erase_trailing (s ++ b) = s.
Proof.
  intros Hb Hs. unfold erase_trailing. rewrite reverse_app, erase_leading_app; [apply reverse_involutive|by apply Forall_reverse|].
  by rewrite head_reverse.
Qed.

(** The part of a line in front of the comment. *)
Section Line.
Context (b1 k b2 b3 v b4 : list Z).
Context (H1 : blanks b1) (Hk : key_ok k) (H2 : blanks b2) (H3 : blanks b3) (Hv : value_ok v) (H4 : blanks b4).
Notation temp := (k ++ b2 ++ ch "=" :: b3 ++ v ++ b4).

Lemma key_head : nonblank (head temp).
Proof. destruct Hk as [Hne Hc _]. destruct k as [|c k']; [done|]. apply Forall_cons in Hc as [[Hc _] _]. by exists c. Qed.

Lemma separator : find_ (ch "=") temp = Some (length (k ++ b2)).
Proof.
  unfold find_. rewrite (app_assoc k). apply find_if_app; [|done]. apply Forall_app. split.
  - eapply Forall_impl; [apply (k_chars k Hk)|]. intros c [_ Hc]. by apply Z.eqb_neq.
  - eapply Forall_impl; [exact H2|]. intros c Hc. apply Z.eqb_neq. intros <-. discriminate Hc.
Qed.

Lemma blanks_mark b : blanks b -> no_mark b.
Proof. intros Hb. eapply Forall_impl; [exact Hb|]. intros c Hc. repeat split; intros ->; discriminate Hc. Qed.

Lemma body_mark : no_mark (b1 ++ temp).
Proof.
  repeat (apply Forall_app; split); try (by apply blanks_mark); [apply Hk|]. constructor; [done|].
  repeat (apply Forall_app; split); try (by apply blanks_mark). apply Hv.
Qed.

Lemma line_extracted : extractContents (b1 ++ temp) = Some (k, v).
Proof.
  unfold extractContents. rewrite erase_leading_app by (done || apply key_head). rewrite separator. cbn [mbind option_bind].
  do 2 f_equal.
  - unfold extractKey. rewrite (app_assoc k), take_app_length. destruct b2 as [|c b2'].
    + rewrite app_nil_r, find_if_none; [done|]. eapply Forall_impl; [apply (k_chars k Hk)|]. by intros c [Hc _].
    + apply Forall_cons in H2 as [Hc _]. rewrite find_if_app; [by rewrite take_app_length| |done].
      eapply Forall_impl; [apply (k_chars k Hk)|]. by intros d [Hd _].
  - unfold extractValue. rewrite (app_assoc k), drop_app_ge by lia.
    replace (S (length (k ++ b2)) - length (k ++ b2))%nat with 1%nat by lia.
    change (drop 1 (ch "=" :: b3 ++ v ++ b4)) with (b3 ++ v ++ b4).
    destruct Hv as [(c & Hc & Hn) Hlast _]. rewrite erase_leading_app; [by apply erase_trailing_app|done|].
    exists c. split; [|done]. destruct v; [done|exact Hc].
Qed.

Lemma line_valid : validLine (b1 ++ temp) = true.
Proof.
  unfold validLine. rewrite erase_leading_app by (done || apply key_head). rewrite separator.
  assert (E : drop (S (length (k ++ b2))) temp = b3 ++ v ++ b4).
  { rewrite (app_assoc k), drop_app_ge by lia. by replace (S (length (k ++ b2)) - length (k ++ b2))%nat with 1%nat by lia. }
  rewrite E. destruct Hk as [Hne Hc _]. destruct k as [|c k']; [done|]. cbn [app].
  apply Forall_cons in Hc as [[_ Hc] _]. rewrite (proj2 (Z.eqb_neq _ _)) by done.
  destruct Hv as [(d & Hd & Hn) _ _]. destruct v as [|d' v']; [done|]. injection Hd as ->. rewrite existsb_app. cbn [app existsb].
  apply orb_true_iff. right. apply orb_true_iff. left. apply negb_true_iff, Z.eqb_neq. intros ->. discriminate Hn.
Qed.

Lemma parse_entry lineNo c : parseLine (b1 ++ temp) lineNo c = inr (c ++ [(k, v)]).
Proof.
  unfold parseLine. rewrite line_valid, line_extracted. cbn [negb].
  assert (E : find_ (ch "=") (b1 ++ temp) = Some (length (b1 ++ k ++ b2))).
  { unfold find_. rewrite (app_assoc k), (app_assoc b1). apply find_if_app; [|done].
    repeat (apply Forall_app; split).
    - eapply Forall_impl; [exact H1|]. intros d Hd. apply Z.eqb_neq. intros <-. discriminate Hd.
    - eapply Forall_impl; [apply (k_chars k Hk)|]. intros d [_ Hd]. by apply Z.eqb_neq.
    - eapply Forall_impl; [exact H2|]. intros d Hd. apply Z.eqb_neq. intros <-. discriminate Hd. }
  by rewrite E.
Qed.
End Line.

(** ** What a file says *)
Definition text_of (lines : list (list Z)) : list Z := lines ≫= fun l => l ++ [NL].

Lemma getlines_text acc line rest : Forall (fun c => c <> NL) line ->
  getlines acc (line ++ NL :: rest) = (acc ++ line) :: getlines [] rest.
Proof.
  intros H. revert acc. induction H as [|c line Hc _ IH]; intros acc; cbn [app getlines].
  - by rewrite Z.eqb_refl, app_nil_r.
  - rewrite (proj2 (Z.eqb_neq _ _)) by done. by rewrite IH, <- app_assoc.
Qed.

Lemma getlines_text_of lines : Forall (Forall (fun c => c <> NL)) lines -> getlines [] (text_of lines) = lines.
Proof.
  induction 1 as [|l lines Hl _ IH]; [done|]. cbn [text_of mbind list_bind]. rewrite <- app_assoc. cbn [app].
  rewrite getlines_text by done. f_equal. exact IH.
Qed.

Lemma comment_lines cm : comment cm -> Forall (fun c => c <> NL) cm.
Proof. intros [->|(c & s & -> & [->| ->] & Hs)]; [constructor|by constructor..]. Qed.

Lemma no_mark_lines s : no_mark s -> Forall (fun c => c <> NL) s.
Proof. intros H. eapply Forall_impl; [exact H|]. by intros c (_ & _ & ?). Qed.

Lemma reads_lines l e : reads l e -> Forall (fun c => c <> NL) l.
Proof.
  intros [b1 k b2 b3 v b4 cm H1 Hk H2 H3 Hv H4 Hcm|b cm Hb Hcm].
  - replace (b1 ++ k ++ b2 ++ ch "=" :: b3 ++ v ++ b4 ++ cm) with ((b1 ++ k ++ b2 ++ ch "=" :: b3 ++ v ++ b4) ++ cm)
      by (by rewrite <- !app_assoc; cbn [app]; rewrite <- !app_assoc).
    apply Forall_app. split; [apply no_mark_lines; by apply body_mark|by apply comment_lines].
  - apply Forall_app. split; [|by apply comment_lines]. eapply Forall_impl; [exact Hb|]. by intros c ->.
Qed.

Lemma spaces_mark b : Forall (fun c => c = ch " ") b -> no_mark b /\ onlyWhitespace b = true.
Proof.
  intros H. split; [eapply Forall_impl; [exact H|]; by intros c ->|]. unfold onlyWhitespace.
  induction H as [|c b -> _ IH]; [done|exact IH].
Qed.

(** One line. *)
Lemma line_run l e lines lineNo c : reads l e ->
  parse_lines (l :: lines) lineNo c = parse_lines lines (lineNo + 1) (match e with Some x => c ++ [x] | None => c end).
Proof.
  intros [b1 k b2 b3 v b4 cm H1 Hk H2 H3 Hv H4 Hcm|b cm Hb Hcm]; cbn [parse_lines].
  - set (body := b1 ++ k ++ b2 ++ ch "=" :: b3 ++ v ++ b4).
    assert (E : b1 ++ k ++ b2 ++ ch "=" :: b3 ++ v ++ b4 ++ cm = body ++ cm)
      by (unfold body; rewrite <- !app_assoc; cbn [app]; by rewrite <- !app_assoc).
    rewrite E, removeComment_app by (done || by apply body_mark). unfold body at 3. rewrite parse_entry by done.
    assert (Hin : ch "=" ∈ body) by (unfold body; rewrite !elem_of_app; right; right; right; by left).
    assert (Hw : onlyWhitespace body = false).
    { apply not_true_iff_false. unfold onlyWhitespace. rewrite forallb_forall. intros H.
      specialize (H (ch "=") (proj1 (list_elem_of_In _ _) Hin)). discriminate H. }
    rewrite Hw. destruct (body ++ cm) eqn:Eb; [|done]. apply app_nil in Eb as [Eb _]. rewrite Eb in Hin. by apply elem_of_nil in Hin.
  - destruct (spaces_mark b Hb) as [Hm Hw]. rewrite removeComment_app, Hw by done. by destruct (b ++ cm).
Qed.

Lemma lines_run ls es lines lineNo c : Forall2 reads ls es ->
  parse_lines (ls ++ lines) lineNo c = parse_lines lines (lineNo + Z.of_nat (length ls)) (c ++ omap id es).
Proof.
  intros H. revert lineNo c. induction H as [|l e ls es Hl _ IH]; intros lineNo c; cbn [app length omap list_omap].
  - by rewrite Z.add_0_r, app_nil_r.
  - rewrite (line_run l e) by done. rewrite IH. replace (lineNo + 1 + Z.of_nat (length ls)) with (lineNo + Z.of_nat (S (length ls))) by lia.
    destruct e as [x|]; [by rewrite <- app_assoc|done].
Qed.

(** C18: A file of entries, among blanks and comments, is read as these entries in
    their order; a line behind them that has no separator outside of its
    comment stops the reading with its number. *)
Theorem config_read ls es bad rest :
  Forall2 reads ls es ->
  extractKeys (Some (text_of ls)) = inr (omap id es) /\
  (Forall (fun c => c <> NL) bad -> onlyWhitespace (removeComment bad) = false -> find_ (ch "=") (removeComment bad) = None ->
   Forall (Forall (fun c => c <> NL)) rest ->
   extractKeys (Some (text_of (ls ++ bad :: rest))) = inl (INVALID_SYNTAX (Z.of_nat (length ls) + 1))).
Proof.
  intros H. assert (Hls : Forall (Forall (fun c => c <> NL)) ls).
  { clear bad rest. induction H as [|l e ls es Hl _ IH]; constructor; [by eapply reads_lines|exact IH]. }
  unfold extractKeys. split.
  - rewrite getlines_text_of by done. rewrite <- (app_nil_r ls), (lines_run ls es) by done. done.
  - intros Hb Hw Hs Hr. rewrite getlines_text_of by (apply Forall_app; split; [done|by constructor]).
    rewrite (lines_run ls es) by done. cbn [parse_lines]. unfold parseLine. rewrite Hw, Hs.
    by destruct bad.
Qed.

(** ** The ring of the configuration *)
Lemma nodeRing_nodes ws : forall p h, Ring.ring_ (Ring.nodeRing ws) !! p = Some h -> h ∈ ws.
Proof.
  assert (H : forall (r : Ring.ring) seen, (forall p h, Ring.ring_ r !! p = Some h -> h ∈ seen) ->
    forall p h, Ring.ring_ (foldl (fun r w => (Ring.addNode Ring.text Ring.crc_hash w r).2) r ws) !! p = Some h -> h ∈ seen ++ ws).
  { induction ws as [|w ws IH]; intros r seen Hr p h Hp; [rewrite app_nil_r; by eapply Hr|]. cbn [foldl] in Hp.
    specialize (IH (Ring.addNode Ring.text Ring.crc_hash w r).2 (seen ++ [w])). rewrite <- app_assoc in IH.
    apply (IH) with p; [|done]. intros p' h' Hp'. cbn [Ring.addNode snd Ring.ring_] in Hp'.
    destruct (Ring.added_lookup Ring.text Ring.crc_hash w (Ring.m_spread r) (Ring.ring_ r) p') as [[E _]|[E _]]; rewrite E in Hp'.
    - injection Hp' as <-. apply elem_of_app. right. by left.
    - apply elem_of_app. left. by eapply Hr. }
  intros p h Hp. apply (H (Ring.mk_ring ∅ Ring.SHARDING_SPREAD) [] ltac:(intros ? ?; cbn; by rewrite lookup_empty) p h Hp).
Qed.

Lemma nodeRing_spread ws : Ring.m_spread (Ring.nodeRing ws) = Ring.SHARDING_SPREAD.
Proof. unfold Ring.nodeRing. by apply (foldl_inv (fun r => Ring.m_spread r = Ring.SHARDING_SPREAD)). Qed.

Lemma nodeRing_some ws : ws <> [] -> Ring.ring_ (Ring.nodeRing ws) <> ∅.
Proof.
  destruct ws as [|w ws _] using rev_ind; [done|]. intros _ E. unfold Ring.nodeRing in E. rewrite foldl_app in E. cbn [foldl] in E.
  fold (Ring.nodeRing ws) in E. set (r := Ring.nodeRing ws) in *. cbn [Ring.addNode snd Ring.ring_] in E.
  destruct (Ring.added_lookup Ring.text Ring.crc_hash w (Ring.m_spread r) (Ring.ring_ r) (Ring.point Ring.text Ring.crc_hash w 0))
    as [[E' _]|[_ H]]; [by rewrite E, lookup_empty in E'|].
  apply H. exists 0%nat. split; [|done]. unfold r. rewrite nodeRing_spread. unfold Ring.SHARDING_SPREAD. lia.
Qed.

(** C19: cynder either ends, or has a ring that serves every identifier by a worker
    of its configuration. *)
Theorem configured_ring_serves {Key} (key_str : Key -> list Z) file :
  match configure file with
  | inr r => exists c, extractKeys file = inr c /\ forall key, exists host,
      Ring.getNode key_str Ring.crc_hash key r = Some host /\ (bs "cynder-worker", host) ∈ c
  | inl (NotRead e) => extractKeys file = inl e
  | inl NoMaster => exists c, extractKeys file = inr c /\ find (bs "cynder-master") c = []
  | inl NoWorker => exists c, extractKeys file = inr c /\ find (bs "cynder-worker") c = []
  end.
Proof.
  unfold configure. destruct (extractKeys file) as [e|c]; [done|].
  assert (Hx : forall k, exist k c = false -> find k c = []).
  { intros k Hk. unfold find. destruct (filter (fun e => e.1 = k) c) as [|e l] eqn:E; [done|].
    assert (He : e ∈ filter (fun e => e.1 = k) c) by (rewrite E; by left). apply list_elem_of_filter in He as [Hek He].
    assert (exist k c = true) as Hkt; [|congruence]. apply existsb_exists. exists e. split; [by apply list_elem_of_In|].
    by apply bool_decide_eq_true. }
  destruct (exist (bs "cynder-master") c) eqn:Em; cbn [negb]; [|exists c; split; [done|by apply Hx]].
  destruct (exist (bs "cynder-worker") c) eqn:Ew; cbn [negb]; [|exists c; split; [done|by apply Hx]].
  exists c. split; [done|]. intros key. set (ws := find (bs "cynder-worker") c).
  assert (Hne : ws <> []).
  { apply existsb_exists in Ew as ([k h] & Hin%list_elem_of_In & Hk%bool_decide_eq_true). cbn in Hk. subst k.
    assert (h ∈ ws) as Hw; [|intros E; rewrite E in Hw; by apply elem_of_nil in Hw].
    apply list_elem_of_fmap. exists (bs "cynder-worker", h). split; [done|]. by apply list_elem_of_filter. }
  pose proof (Ring.getNode_spec key_str Ring.crc_hash Ring.crc_hash_range key _ (Ring.nodeRing_points ws)) as H.
  destruct (Ring.getNode key_str Ring.crc_hash key (Ring.nodeRing ws)) as [host|]; [|by apply nodeRing_some in H].
  exists host. split; [done|]. destruct H as (p & Hp & _). apply nodeRing_nodes in Hp. unfold ws, find in Hp.
  apply list_elem_of_fmap in Hp as ([k h] & -> & Hin). apply list_elem_of_filter in Hin as [Hk Hin]. cbn in Hk. by subst k.
Qed.

(** ** A small file *)
Definition demo_lines : list (list Z) :=
  [bs "# workers"; bs "cynder-master = 10.0.0.9:5533"; []; bs "  cynder-worker=10.0.0.1:5522 ; first"; bs "cynder-worker =  10.0.0.2:5522"].
Definition demo_entries : list (option (list Z * list Z)) :=
  [None; Some (bs "cynder-master", bs "10.0.0.9:5533"); None; Some (bs "cynder-worker", bs "10.0.0.1:5522");
   Some (bs "cynder-worker", bs "10.0.0.2:5522")].

Lemma demo_key_ok k : k = bs "cynder-master" \/ k = bs "cynder-worker" -> key_ok k.
Proof. intros [->| ->]; (split; [done| |]); repeat (constructor; [repeat split; done|]); constructor. Qed.

Lemma demo_value_ok v : v = bs "10.0.0.9:5533" \/ v = bs "10.0.0.1:5522" \/ v = bs "10.0.0.2:5522" -> value_ok v.
Proof.
  intros [->|[->| ->]]; (split; [by eexists|by eexists|]); repeat (constructor; [repeat split; done|]); constructor.
Qed.

Lemma demo_reads : Forall2 reads demo_lines demo_entries.
Proof.
  constructor; [|constructor; [|constructor; [|constructor; [|constructor; [|constructor]]]]].
  - apply (reads_nothing [] (bs "# workers")); [constructor|]. right. eexists _, _. split; [done|]. split; [by right|].
    repeat (constructor; [done|]). constructor.
  - apply (reads_entry [] (bs "cynder-master") (bs " ") (bs " ") (bs "10.0.0.9:5533") [] []);
      first [apply demo_key_ok; tauto|apply demo_value_ok; tauto|repeat constructor|by left].
  - apply (reads_nothing [] []); [constructor|by left].
  - apply (reads_entry (bs "  ") (bs "cynder-worker") [] [] (bs "10.0.0.1:5522") (bs " ") (bs "; first"));
      first [apply demo_key_ok; tauto|apply demo_value_ok; tauto|idtac]; try (by repeat constructor).
    right. eexists _, _. split; [done|]. split; [by left|]. repeat (constructor; [done|]). constructor.
  - apply (reads_entry [] (bs "cynder-worker") (bs " ") (bs "  ") (bs "10.0.0.2:5522") [] []);
      first [apply demo_key_ok; tauto|apply demo_value_ok; tauto|repeat constructor|by left].
Qed.

Lemma config_read_witness :
  extractKeys (Some (text_of demo_lines)) =
    inr [(bs "cynder-master", bs "10.0.0.9:5533"); (bs "cynder-worker", bs "10.0.0.1:5522"); (bs "cynder-worker", bs "10.0.0.2:5522")] /\
  extractKeys (Some (text_of (demo_lines ++ [bs "no separator"]))) = inl (INVALID_SYNTAX 6).
Proof.
  destruct (config_read demo_lines demo_entries (bs "no separator") [] demo_reads) as [H1 H2]. split; [exact H1|].
  apply H2; [|reflexivity|reflexivity|constructor]. repeat (constructor; [done|]). constructor.
Defined.
End Config.
