(* ===== verification/Snprintf.v ===== *)
(** * compat: formatted output (snprintf.c)

    [mutt_vsnprintf] and the state machine [dopr] it runs over the format, with
    the conversions of integers, strings and floating-point numbers.  The
    format is the list of the characters behind the read pointer, and reading
    behind its end is undefined, as are overflows of signed integers and an
    argument of another type than its conversion asks for.  long double is a
    class of its operations; strings are given by their addresses. *)
From S2P Require Import Prelude CLib.
From Stdlib Require Import QArith.
#[local] Open Scope Z_scope.

(** ** Floating-point numbers

    What the code does with a long double; every double is one. *)
Class LongDouble (F : Type) := {
  ld_of_Z : Z -> F;
  ld_opp : F -> F;
  ld_sub : F -> F -> F;
  ld_mul : F -> F -> F;
  ld_lt : F -> F -> bool;
  ld_le : F -> F -> bool;
  ld_half : F;                       (* 0.5 *)
  ld_trunc : F -> Z;                 (* towards zero *)
}.

(** Exact arithmetic is one. *)
#[export] Instance exact_double : LongDouble Q := {|
  ld_of_Z := inject_Z;
  ld_opp := Qopp;
  ld_sub := Qminus;
  ld_mul := Qmult;
  ld_lt x y := negb (Qle_bool y x);
  ld_le := Qle_bool;
  ld_half := 1 # 2;
  ld_trunc x := Qnum x ÷ Z.pos (Qden x);
|}.

Module Snprintf.

(** ** Signed integers: an overflow is undefined *)
Definition int_ (x : Z) : option Z := if bool_decide (- 2 ^ 31 <= x < 2 ^ 31) then Some x else None.
Definition long_ (x : Z) : option Z := if bool_decide (- 2 ^ 63 <= x < 2 ^ 63) then Some x else None.

(** ** States, flags *)
Inductive dp_state :=
| DP_S_DEFAULT | DP_S_FLAGS | DP_S_MIN | DP_S_DOT | DP_S_MAX | DP_S_MOD | DP_S_CONV | DP_S_DONE.

#[export] Instance dp_state_eq_dec : EqDecision dp_state.
Proof. solve_decision. Defined.

Definition DP_F_MINUS : Z := Z.shiftl 1 0.
Definition DP_F_PLUS : Z := Z.shiftl 1 1.
Definition DP_F_SPACE : Z := Z.shiftl 1 2.
Definition DP_F_NUM : Z := Z.shiftl 1 3.
Definition DP_F_ZERO : Z := Z.shiftl 1 4.
Definition DP_F_UP : Z := Z.shiftl 1 5.
Definition DP_F_UNSIGNED : Z := Z.shiftl 1 6.

Definition DP_C_SHORT : Z := 1.
Definition DP_C_LONG : Z := 2.
Definition DP_C_LDOUBLE : Z := 3.

(** [flags & f] as a condition. *)
Definition has (flags f : Z) : bool := negb (Z.land flags f =? 0).

(** ** The destination: the buffer, [currlen], and what [%n] stored where *)
Record dst := Dst { buffer : mem; currlen : nat; stored : list (Z * Z) }.

Definition dopr_outch (maxlen : nat) (c : Z) : SM dst unit := fun d =>
  if (currlen d <? maxlen)%nat then
    b ← mstore (buffer d) (currlen d) [u8 c];
    Some (tt, Dst b (S (currlen d)) (stored d))
  else Some (tt, d).

(** [while (n-- > 0) dopr_outch(c)] *)
Fixpoint out_n (maxlen : nat) (n : nat) (c : Z) : SM dst unit :=
  match n with
  | O => mret tt
  | S n' => dopr_outch maxlen c;; out_n maxlen n' c
  end.

Fixpoint out_list (maxlen : nat) (l : list Z) : SM dst unit :=
  match l with
  | [] => mret tt
  | c :: l' => dopr_outch maxlen c;; out_list maxlen l'
  end.

(** ** Strings *)

(** [while ((padlen > 0) && (cnt < max))], also of the right padding; the new
    [cnt]. *)
Fixpoint str_pad (maxlen : nat) (padlen : nat) (cnt max : Z) : SM dst Z :=
  match padlen with
  | O => mret cnt
  | S p => if cnt <? max then dopr_outch maxlen (ch " ");; str_pad maxlen p (cnt + 1) max else mret cnt
  end.

Fixpoint str_chars (maxlen : nat) (value : list Z) (cnt max : Z) : SM dst Z :=
  match value with
  | [] => mret cnt
  | c :: v => if cnt <? max then dopr_outch maxlen c;; str_chars maxlen v (cnt + 1) max else mret cnt
  end.

Definition fmtstr (maxlen : nat) (value : option (list Z)) (flags min max : Z) : SM dst unit :=
  let value := default (bs "<NULL>") value in
  let strln := Z.of_nat (length value) in
  padlen ← sm_lift (int_ (min - strln));
  let padlen := if padlen <? 0 then 0 else padlen in
  let padlen := if has flags DP_F_MINUS then - padlen else padlen in
  cnt ← str_pad maxlen (Z.to_nat padlen) 0 max;
  cnt ← str_chars maxlen value cnt max;
  str_pad maxlen (Z.to_nat (- padlen)) cnt max;;
  mret tt.

(** ** Integers *)

(** ["0123456789ABCDEF"[d]] *)
Definition convert_char (caps : bool) (d : Z) : Z := if d <? 10 then 48 + d else if caps then 55 + d else 87 + d.

(** [do { ... } while (uvalue && (place < 20))], with [20 - place] rounds
    left: the digits, least significant first. *)
Fixpoint convert (left_ : nat) (caps : bool) (base uvalue : Z) : list Z :=
  match left_ with
  | O => []
  | S l =>
      convert_char caps (uvalue `mod` base) ::
      (if uvalue / base =? 0 then [] else convert l caps base (uvalue / base))
  end.

(** [if (place == 20) place--; convert[place] = 0;] *)
Definition converted (caps : bool) (base uvalue : Z) : list Z :=
  let l := convert 20 caps base uvalue in
  if (length l =? 20)%nat then take 19 l else l.

(** [value < 0] for [-], or the flags: 0 for no sign. *)
Definition sign_of (neg : bool) (flags : Z) : Z :=
  if neg then ch "-"
  else if has flags DP_F_PLUS then ch "+"
  else if has flags DP_F_SPACE then ch " " else 0.

Definition fmtint (maxlen : nat) (value base min max flags : Z) : SM dst unit :=
  let max := if max <? 0 then 0 else max in
  let unsigned := has flags DP_F_UNSIGNED in
  let signvalue := if unsigned then 0 else sign_of (value <? 0) flags in
  uvalue ← sm_lift (if negb unsigned && (value <? 0) then u64 <$> long_ (- value) else Some (u64 value));
  let conv := converted (has flags DP_F_UP) base uvalue in
  let place := Z.of_nat (length conv) in
  let sgn := if signvalue =? 0 then 0 else 1 in
  spadlen ← sm_lift (int_ (min - Z.max max place - sgn));
  let zpadlen := if max - place <? 0 then 0 else max - place in
  let spadlen := if spadlen <? 0 then 0 else spadlen in
  let '(zpadlen, spadlen) := if has flags DP_F_ZERO then (Z.max zpadlen spadlen, 0) else (zpadlen, spadlen) in
  let spadlen := if has flags DP_F_MINUS then - spadlen else spadlen in
  out_n maxlen (Z.to_nat spadlen) (ch " ");;
  (if signvalue =? 0 then mret tt else dopr_outch maxlen signvalue);;
  out_n maxlen (Z.to_nat zpadlen) (ch "0");;
  out_list maxlen (reverse conv);;
  out_n maxlen (Z.to_nat (- spadlen)) (ch " ").

Section Format.
Context {F : Type} `{LongDouble F}.

(** The string at an address. *)
Context (strings : Z -> list Z).

(** ** Floating-point numbers *)
Definition abs_val (value : F) : F := if ld_lt value (ld_of_Z 0) then ld_opp value else value.

Fixpoint pow10_loop (exp : nat) (result : F) : F :=
  match exp with O => result | S e => pow10_loop e (ld_mul result (ld_of_Z 10)) end.
Definition pow10_ (exp : Z) : F := pow10_loop (Z.to_nat exp) (ld_of_Z 1).

Definition round_ (value : F) : option Z :=
  intpart ← long_ (ld_trunc value);
  let value := ld_sub value (ld_of_Z intpart) in
  if ld_le ld_half value then long_ (intpart + 1) else Some intpart.

(** The signs, paddings and digits around the point. *)
Definition fmtfp_out (maxlen : nat) (signvalue padlen zpadlen flags : Z) (iconvert fconvert : list Z) : SM dst unit :=
  '(signvalue, padlen) ←
    (if has flags DP_F_ZERO && (0 <? padlen) then
       '(signvalue, padlen) ←
         (if signvalue =? 0 then mret (signvalue, padlen)
          else dopr_outch maxlen signvalue;; mret (0, padlen - 1));
       out_n maxlen (Z.to_nat padlen) (ch "0");;
       mret (signvalue, Z.min padlen 0)
     else mret (signvalue, padlen));
  out_n maxlen (Z.to_nat padlen) (ch " ");;
  (if signvalue =? 0 then mret tt else dopr_outch maxlen signvalue);;
  out_list maxlen (reverse iconvert);;
  dopr_outch maxlen (ch ".");;
  out_list maxlen (reverse fconvert);;
  out_n maxlen (Z.to_nat zpadlen) (ch "0");;
  out_n maxlen (Z.to_nat (- padlen)) (ch " ").

(** The integer part and the rounded fraction of a value that is not
    negative. *)
Definition fp_parts (ufvalue : F) (max : Z) : option (Z * Z) :=
  intpart ← long_ (ld_trunc ufvalue);
  fracpart ← round_ (ld_mul (pow10_ max) (ld_sub ufvalue (ld_of_Z intpart)));
  if ld_le (pow10_ max) (ld_of_Z fracpart) then
    intpart ← long_ (intpart + 1);
    fracpart ← long_ (ld_trunc (ld_sub (ld_of_Z fracpart) (pow10_ max)));
    Some (intpart, fracpart)
  else Some (intpart, fracpart).

Definition fmtfp (maxlen : nat) (fvalue : F) (min max flags : Z) : SM dst unit :=
  let max := if max <? 0 then 6 else max in
  let signvalue := sign_of (ld_lt fvalue (ld_of_Z 0)) flags in
  let max := if 9 <? max then 9 else max in
  '(intpart, fracpart) ← sm_lift (fp_parts (abs_val fvalue) max);
  let iconvert := converted false 10 intpart in
  let fconvert := converted false 10 fracpart in
  let sgn := if signvalue =? 0 then 0 else 1 in
  padlen ← sm_lift (int_ (min - Z.of_nat (length iconvert) - max - 1 - sgn));
  let zpadlen := Z.max 0 (max - Z.of_nat (length fconvert)) in
  let padlen := if padlen <? 0 then 0 else padlen in
  let padlen := if has flags DP_F_MINUS then - padlen else padlen in
  fmtfp_out maxlen signvalue padlen zpadlen flags iconvert fconvert.

(** ** Arguments

    [va_arg] of a type takes an argument of that type, or of the signed or
    unsigned type that corresponds to it. *)
Inductive arg :=
| AInt (z : Z)
| ALong (z : Z)
| APtr (p : Z)
| ADouble (x : F)
| ALDouble (x : F).

Definition va_int (l : list arg) : option (Z * list arg) :=
  match l with AInt z :: l' => Some (i32 z, l') | _ => None end.
Definition va_uint (l : list arg) : option (Z * list arg) :=
  match l with AInt z :: l' => Some (u32 z, l') | _ => None end.
Definition va_long (l : list arg) : option (Z * list arg) :=
  match l with ALong z :: l' => Some (i64 z, l') | _ => None end.
Definition va_ulong (l : list arg) : option (Z * list arg) :=
  match l with ALong z :: l' => Some (u64 z, l') | _ => None end.
Definition va_ptr (l : list arg) : option (Z * list arg) :=
  match l with APtr p :: l' => Some (p, l') | _ => None end.
Definition va_double (l : list arg) : option (F * list arg) :=
  match l with ADouble x :: l' => Some (x, l') | _ => None end.
Definition va_ldouble (l : list arg) : option (F * list arg) :=
  match l with ALDouble x :: l' => Some (x, l') | _ => None end.

(** The value of a signed or an unsigned conversion; a long of the unsigned
    value's bits. *)
Definition va_signed (cflags : Z) (l : list arg) : option (Z * list arg) :=
  if cflags =? DP_C_LONG then va_long l else va_int l.
Definition va_unsigned (cflags : Z) (l : list arg) : option (Z * list arg) :=
  '(v, l) ← (if cflags =? DP_C_LONG then va_ulong l else va_uint l);
  Some (i64 v, l).
Definition va_fp (cflags : Z) (l : list arg) : option (F * list arg) :=
  if cflags =? DP_C_LDOUBLE then va_ldouble l else va_double l.

(** ** The machine *)

(** The locals of [dopr]; [format] is what is behind the read pointer. *)
Record dopr_st := Dopr {
  state : dp_state;
  ch_ : Z;
  format : list Z;
  args : list arg;
  min_ : Z;
  max_ : Z;
  flags_ : Z;
  cflags_ : Z;
  out : dst;
}.

(** [ch = *format++] *)
Definition next (s : dopr_st) : option dopr_st :=
  match format s with
  | c :: f => Some (Dopr (state s) c f (args s) (min_ s) (max_ s) (flags_ s) (cflags_ s) (out s))
  | [] => None
  end.

Definition set_state (x : dp_state) (s : dopr_st) : dopr_st :=
  Dopr x (ch_ s) (format s) (args s) (min_ s) (max_ s) (flags_ s) (cflags_ s) (out s).
Definition set_out (o : dst) (s : dopr_st) : dopr_st :=
  Dopr (state s) (ch_ s) (format s) (args s) (min_ s) (max_ s) (flags_ s) (cflags_ s) o.
Definition or_flag (f : Z) (s : dopr_st) : dopr_st :=
  Dopr (state s) (ch_ s) (format s) (args s) (min_ s) (max_ s) (Z.lor (flags_ s) f) (cflags_ s) (out s).
Definition set_min (m : Z) (l : list arg) (s : dopr_st) : dopr_st :=
  Dopr (state s) (ch_ s) (format s) l m (max_ s) (flags_ s) (cflags_ s) (out s).
Definition set_max (m : Z) (l : list arg) (s : dopr_st) : dopr_st :=
  Dopr (state s) (ch_ s) (format s) l (min_ s) m (flags_ s) (cflags_ s) (out s).
Definition set_cflags (c : Z) (s : dopr_st) : dopr_st :=
  Dopr (state s) (ch_ s) (format s) (args s) (min_ s) (max_ s) (flags_ s) c (out s).
Definition set_args (l : list arg) (s : dopr_st) : dopr_st :=
  Dopr (state s) (ch_ s) (format s) l (min_ s) (max_ s) (flags_ s) (cflags_ s) (out s).
(** [state = DP_S_DEFAULT; flags = cflags = min = 0; max = -1;] *)
Definition restart (s : dopr_st) : dopr_st :=
  Dopr DP_S_DEFAULT (ch_ s) (format s) (args s) 0 (- 1) 0 0 (out s).

Definition run_out (m : SM dst unit) (s : dopr_st) : option dopr_st :=
  '(_, o) ← m (out s); Some (set_out o s).

(** The flag of a character. *)
Definition flag_of (c : Z) : option Z :=
  if c =? ch "-" then Some DP_F_MINUS
  else if c =? ch "+" then Some DP_F_PLUS
  else if c =? ch " " then Some DP_F_SPACE
  else if c =? ch "#" then Some DP_F_NUM
  else if c =? ch "0" then Some DP_F_ZERO else None.

Definition cflag_of (c : Z) : option Z :=
  if c =? ch "h" then Some DP_C_SHORT
  else if c =? ch "l" then Some DP_C_LONG
  else if c =? ch "L" then Some DP_C_LDOUBLE else None.

(** [fmtint] of a signed conversion. *)
Definition conv_signed (maxlen : nat) (s : dopr_st) : option dopr_st :=
  '(value, l) ← va_signed (cflags_ s) (args s);
  run_out (fmtint maxlen value 10 (min_ s) (max_ s) (flags_ s)) (set_args l s).

Definition conv_unsigned (maxlen : nat) (base : Z) (s : dopr_st) : option dopr_st :=
  let s := or_flag DP_F_UNSIGNED s in
  '(value, l) ← va_unsigned (cflags_ s) (args s);
  run_out (fmtint maxlen value base (min_ s) (max_ s) (flags_ s)) (set_args l s).

(** What [%n] stores: [currlen] as a short, a long or an int. *)
Definition conv_n (s : dopr_st) : option dopr_st :=
  '(p, l) ← va_ptr (args s);
  let n := Z.of_nat (currlen (out s)) in
  let v := if cflags_ s =? DP_C_SHORT then (n + 2 ^ 15) `mod` 2 ^ 16 - 2 ^ 15
           else if cflags_ s =? DP_C_LONG then i64 n else i32 n in
  Some (set_out (Dst (buffer (out s)) (currlen (out s)) (stored (out s) ++ [(p, v)])) (set_args l s)).

(** The inner switch of [DP_S_CONV]. *)
Definition conv (maxlen : nat) (s : dopr_st) : option dopr_st :=
  let c := ch_ s in
  if (c =? ch "d") || (c =? ch "i") then conv_signed maxlen s
  else if c =? ch "o" then conv_unsigned maxlen 8 s
  else if c =? ch "u" then conv_unsigned maxlen 10 s
  else if c =? ch "X" then conv_unsigned maxlen 16 (or_flag DP_F_UP s)
  else if c =? ch "x" then conv_unsigned maxlen 16 s
  else if c =? ch "f" then
    '(x, l) ← va_fp (cflags_ s) (args s);
    run_out (fmtfp maxlen x (min_ s) (max_ s) (flags_ s)) (set_args l s)
  else if (c =? ch "E") || (c =? ch "e") || (c =? ch "G") || (c =? ch "g") then
    '(_, l) ← va_fp (cflags_ s) (args s);
    Some (set_args l s)
  else if c =? ch "c" then
    '(v, l) ← va_int (args s);
    run_out (dopr_outch maxlen v) (set_args l s)
  else if c =? ch "s" then
    '(p, l) ← va_ptr (args s);
    let max := if max_ s <? 0 then i32 (Z.of_nat maxlen) else max_ s in
    run_out (fmtstr maxlen (if p =? 0 then None else Some (strings p)) (flags_ s) (min_ s) max) (set_args l s)
  else if c =? ch "p" then
    '(p, l) ← va_ptr (args s);
    run_out (fmtint maxlen (i64 p) 16 (min_ s) (max_ s) (flags_ s)) (set_args l s)
  else if c =? ch "n" then conv_n s
  else if c =? ch "%" then run_out (dopr_outch maxlen c) s
  else if c =? ch "w" then next s
  else Some s.

(** The switch over the states. *)
Definition dopr_switch (maxlen : nat) (s : dopr_st) : option dopr_st :=
  let c := ch_ s in
  match state s with
  | DP_S_DEFAULT =>
      s ← (if c =? ch "%" then Some (set_state DP_S_FLAGS s) else run_out (dopr_outch maxlen c) s);
      next s
  | DP_S_FLAGS =>
      match flag_of c with
      | Some f => next (or_flag f s)
      | None => Some (set_state DP_S_MIN s)
      end
  | DP_S_MIN =>
      if isdigit c then m ← int_ (10 * min_ s + (c - ch "0")); next (set_min m (args s) s)
      else if c =? ch "*" then
        '(m, l) ← va_int (args s);
        next (set_state DP_S_DOT (set_min m l s))
      else Some (set_state DP_S_DOT s)
  | DP_S_DOT =>
      if c =? ch "." then next (set_state DP_S_MAX s) else Some (set_state DP_S_MOD s)
  | DP_S_MAX =>
      if isdigit c then
        m ← int_ (10 * (if max_ s <? 0 then 0 else max_ s) + (c - ch "0"));
        next (set_max m (args s) s)
      else if c =? ch "*" then
        '(m, l) ← va_int (args s);
        next (set_state DP_S_MOD (set_max m l s))
      else Some (set_state DP_S_MOD s)
  | DP_S_MOD =>
      s ← (match cflag_of c with Some f => next (set_cflags f s) | None => Some s end);
      Some (set_state DP_S_CONV s)
  | DP_S_CONV =>
      s ← conv maxlen s;
      s ← next s;
      Some (restart s)
  | DP_S_DONE => Some s
  end.

(** A round of the loop. *)
Definition dopr_step (maxlen : nat) (s : dopr_st) : option dopr_st :=
  dopr_switch maxlen
    (if (ch_ s =? 0) || (maxlen <=? currlen (out s))%nat then set_state DP_S_DONE s else s).

Fixpoint dopr_loop (fuel : nat) (maxlen : nat) (s : dopr_st) : option dopr_st :=
  match fuel with
  | O => None
  | S f =>
      if bool_decide (state s = DP_S_DONE) then Some s
      else s ← dopr_step maxlen s; dopr_loop f maxlen s
  end.

(** Every round takes a character or goes on to the next state. *)
Definition rounds (s : dopr_st) : nat :=
  (8 * length (format s) +
   match state s with
   | DP_S_DONE => 0 | DP_S_DEFAULT => 1 | DP_S_CONV => 2 | DP_S_MOD => 3
   | DP_S_MAX => 4 | DP_S_DOT => 5 | DP_S_MIN => 6 | DP_S_FLAGS => 7
   end)%nat.

(** [maxlen - 1] is [SIZE_MAX] for a [maxlen] of 0. *)
Definition dopr (b : mem) (maxlen : nat) (fmt : list Z) (l : list arg) : option dst :=
  '(c, f) ← (match fmt with c :: f => Some (c, f) | [] => None end);
  let s := Dopr DP_S_DEFAULT c f l 0 (- 1) 0 0 (Dst b 0 []) in
  s ← dopr_loop (S (rounds s)) maxlen s;
  let d := out s in
  b ← mstore (buffer d)
        (if Z.of_nat (currlen d) <? u64 (Z.of_nat maxlen - 1) then currlen d else (maxlen - 1)%nat) [0];
  Some (Dst b (currlen d) (stored d)).

(** The number returned, and what is left behind. *)
Definition mutt_vsnprintf (str : mem) (count : nat) (fmt : list Z) (ap : list arg) : option (nat * dst) :=
  b ← mstore str 0 [0];
  d ← dopr b count fmt ap;
  t ← cstr (buffer d);
  Some (length t, d).

(** A round as a relation. *)
Definition dopr_round (maxlen : nat) (s s' : dopr_st) : Prop :=
  state s <> DP_S_DONE /\ dopr_step maxlen s = Some s'.

(** ** What C's printf prints

    A call of the function with its arguments, taken apart: characters, and
    directives with flags, a width, a precision and a conversion of a value.
    [item_text] is the text the C standard asks for. *)
Inductive width := WNone | WLit (n : Z) | WStar (n : Z).
Inductive modifier := MNone | MShort | MLong.

Inductive spec :=
| SInt (i : bool) (m : modifier) (v : Z)      (* %d, %i *)
| SUns (b : Z) (up : bool) (m : modifier) (v : Z) (* %u, %o, %x, %X *)
| SChar (v : Z)
| SStr (p : Z)
| SPercent.

Inductive item :=
| Text (c : Z)
| Directive (flags : list Z) (w p : width) (x : spec).

Definition width_fmt (w : width) : list Z :=
  match w with WNone => [] | WLit n => fmt_int n | WStar _ => [ch "*"] end.
Definition width_args (w : width) : list arg := match w with WStar n => [AInt n] | _ => [] end.
Definition width_val (none : Z) (w : width) : Z := match w with WNone => none | WLit n | WStar n => n end.
Definition prec_fmt (p : width) : list Z := match p with WNone => [] | _ => ch "." :: width_fmt p end.
Definition mod_fmt (m : modifier) : list Z :=
  match m with MNone => [] | MShort => [ch "h"] | MLong => [ch "l"] end.
Definition mod_arg (m : modifier) (v : Z) : arg := match m with MLong => ALong v | _ => AInt v end.

Definition spec_fmt (x : spec) : list Z :=
  match x with
  | SInt i m _ => mod_fmt m ++ [if i then ch "i" else ch "d"]
  | SUns b up m _ =>
      mod_fmt m ++ [if b =? 8 then ch "o" else if b =? 10 then ch "u" else if up then ch "X" else ch "x"]
  | SChar _ => [ch "c"]
  | SStr _ => [ch "s"]
  | SPercent => [ch "%"]
  end.
Definition spec_args (x : spec) : list arg :=
  match x with
  | SInt _ m v | SUns _ _ m v => [mod_arg m v]
  | SChar v => [AInt v]
  | SStr p => [APtr p]
  | SPercent => []
  end.

Definition item_fmt (i : item) : list Z :=
  match i with
  | Text c => [c]
  | Directive fl w p x => ch "%" :: fl ++ width_fmt w ++ prec_fmt p ++ spec_fmt x
  end.
Definition item_args (i : item) : list arg :=
  match i with Text _ => [] | Directive _ w p x => width_args w ++ width_args p ++ spec_args x end.

(** Padding to a width, on the right with the flag [-]. *)
Definition flag (c : Z) (fl : list Z) : bool := existsb (Z.eqb c) fl.
Definition blanks (n : nat) : list Z := replicate n (ch " ").
Definition justify (fl : list Z) (w : nat) (s : list Z) : list Z :=
  if flag (ch "-") fl then s ++ blanks (w - length s) else blanks (w - length s) ++ s.

(** A number: at least as many digits as the precision says, a sign, and
    padding with zeros or blanks. *)
Definition number_text (fl : list Z) (w : nat) (p : option nat) (sign ds : list Z) : list Z :=
  let body := replicate (default 1%nat p - length ds) (ch "0") ++ ds in
  if flag (ch "0") fl && negb (flag (ch "-") fl) && bool_decide (p = None)
  then sign ++ replicate (w - length sign - length body) (ch "0") ++ body
  else justify fl w (sign ++ body).

Definition prec_val (p : width) : option nat :=
  match p with WNone => None | WLit n | WStar n => Some (Z.to_nat n) end.
Definition digits_text (up : bool) (b v : Z) : list Z := convert_char up <$> digits b v.

Definition spec_text (fl : list Z) (w : nat) (p : option nat) (x : spec) : list Z :=
  match x with
  | SInt _ _ v =>
      let sign := if v <? 0 then [ch "-"] else if flag (ch "+") fl then [ch "+"]
                  else if flag (ch " ") fl then [ch " "] else [] in
      number_text fl w p sign (digits_text false 10 (Z.abs v))
  | SUns b up _ v => number_text fl w p [] (digits_text (up && (b =? 16)) b v)
  | SChar v => justify fl w [u8 v]
  | SStr a => justify fl w (match p with Some n => take n (strings a) | None => strings a end)
  | SPercent => [ch "%"]
  end.

Definition item_text (i : item) : list Z :=
  match i with
  | Text c => [c]
  | Directive fl w p x => spec_text fl (Z.to_nat (width_val 0 w)) (prec_val p) x
  end.

(** The calls that are printed that way; the others are in the comments. *)
Definition width_ok (lo : Z) (w : width) : Prop :=
  match w with WNone => True | WLit n => lo <= n < 2 ^ 31 | WStar n => 0 <= n < 2 ^ 31 end.

Definition bits (m : modifier) : Z := match m with MNone => 32 | MShort => 16 | MLong => 64 end.

Definition number_ok (fl : list Z) (p : width) (b v : Z) : Prop :=
  v < b ^ 19 /\                                    (* a longer number loses digits *)
  (flag (ch "0") fl = true -> flag (ch "-") fl = false /\ p = WNone) /\  (* 0 is not ignored *)
  (prec_val p = Some 0%nat -> v <> 0).             (* %.0d prints a 0 *)

Definition spec_ok (fl : list Z) (w p : width) (x : spec) : Prop :=
  match x with
  | SInt _ m v => - 2 ^ (bits m - 1) < v < 2 ^ (bits m - 1) /\ number_ok fl p 10 (Z.abs v)
  | SUns b _ m v =>
      (b = 10 \/ (b = 8 \/ b = 16) /\ flag (ch "#") fl = false) /\   (* # is ignored *)
      0 <= v < 2 ^ bits m /\ number_ok fl p b v
  | SChar v => w = WNone                           (* a width is ignored *)
  | SStr a =>
      a <> 0 /\ Forall byte_ok (strings a) /\ Z.of_nat (length (strings a)) < 2 ^ 31 /\
      match prec_val p with                        (* the padding counts as printed *)
      | None => True
      | Some n => let w := Z.to_nat (width_val 0 w) in
                  (w <= Nat.min n (length (strings a)) \/ Nat.max w (length (strings a)) <= n)%nat
      end
  | SPercent => fl = [] /\ w = WNone /\ p = WNone
  end.

Definition item_ok (i : item) : Prop :=
  match i with
  | Text c => 0 < c < 256 /\ c <> ch "%"
  | Directive fl w p x =>
      Forall (fun c => is_Some (flag_of c)) fl /\ width_ok 1 w /\ width_ok 0 p /\ spec_ok fl w p x
  end.
End Format.

End Snprintf.
