(* ===== verification/SnprintfText.v ===== *)
(** * compat: what formatted output prints

    The machine of [Snprintf] against the C standard: [snprintf_prints] for
    whole calls, [fmtfp_rounds] for floating-point numbers.  The proofs go
    along the machine: what a computation prints ([emits]), the rounds as a
    relation ([dopr_round]) with a measure that bounds them ([rounds]), and
    the runs over the parts of a directive. *)
From S2P Require Import Prelude CLib Snprintf.
From Stdlib Require Import QArith.
#[local] Open Scope Z_scope.

Module SnprintfText.
Import Snprintf.

(** ** Digits, signs and blanks *)
Lemma blanks_ok n : Forall byte_ok (blanks n).
Proof. apply Forall_replicate. by vm_compute. Qed.

Lemma convert_char_ok caps d : 0 <= d < 16 -> byte_ok (convert_char caps d).
Proof. unfold convert_char, byte_ok. destruct caps; case_match; lia. Qed.

Lemma convert_ok n caps b u : 2 <= b <= 16 -> Forall byte_ok (convert n caps b u).
Proof.
  intros Hb. revert u. induction n as [|n IH]; intros u; constructor.
  - apply convert_char_ok. pose proof (Z.mod_pos_bound u b). lia.
  - by case_match.
Qed.

Lemma converted_ok caps b u : 2 <= b <= 16 -> Forall byte_ok (converted caps b u).
Proof. intros Hb. unfold converted. case_match; [apply Forall_take|]; by apply convert_ok. Qed.

Lemma convert_length n caps b u : (length (convert n caps b u) <= n)%nat.
Proof.
  revert u. induction n as [|n IH]; intros v; cbn [convert length]; [done|].
  destruct (v / b =? 0); cbn [length]; [lia|]. specialize (IH (v / b)). lia.
Qed.

Lemma converted_length caps b u : (length (converted caps b u) <= 19)%nat.
Proof.
  pose proof (convert_length 20 caps b u) as H. unfold converted. destruct (Nat.eqb_spec (length (convert 20 caps b u)) 20); [len|lia].
Qed.

Lemma sign_of_ok (u : bool) neg flags : byte_ok (if u then 0 else sign_of neg flags).
Proof. unfold sign_of. repeat case_match; by vm_compute. Qed.

(** ** Writing

    [written text d]: the buffer holds what fits of [text], the rest is as it
    was. *)
Section Writing.
Context (str0 : mem) (maxlen : nat) (Hmax : (maxlen <= length str0)%nat).

Definition written (text : list Z) (d : dst) : Prop :=
  let t := take maxlen text in d = Dst (t ++ drop (length t) str0) (length t) [].

Lemma written_cut t t' d : take maxlen t = take maxlen t' -> written t d -> written t' d.
Proof. unfold written. by intros ->. Qed.

Lemma written_full t t' d : written t d -> (maxlen <= currlen d)%nat -> written (t ++ t') d.
Proof.
  intros Hw Hl. eapply written_cut; [|done]. unfold written in Hw. subst d. cbn [currlen] in Hl.
  rewrite length_take in Hl. rewrite take_app_le by lia. done.
Qed.

(** A computation that prints [l], whatever is printed before. *)
Definition emits {A} (m : SM dst A) (x : A) (l : list Z) : Prop :=
  forall t d, written t d -> exists d', m d = Some (x, d') /\ written (t ++ l) d'.

Lemma out_ret {A} (x : A) : emits (mret x) x [].
Proof. intros t d Hd. exists d. by rewrite app_nil_r. Qed.

Lemma out_bind {A B} (m : SM dst A) (k : A -> SM dst B) x y l l' :
  emits m x l -> emits (k x) y l' -> emits (m ≫= k) y (l ++ l').
Proof.
  intros Hm Hk t d Hd. destruct (Hm t d Hd) as (d1 & E1 & H1). destruct (Hk _ d1 H1) as (d2 & E2 & H2).
  exists d2. rewrite (sm_run _ _ _ _ _ E1). by rewrite app_assoc.
Qed.

Lemma emits_lift {A B} (o : option A) (k : A -> SM dst B) x y l :
  o = Some x -> emits (k x) y l -> emits (sm_lift o ≫= k) y l.
Proof. intros -> Hk. exact Hk. Qed.

Lemma emits_outch c : emits (dopr_outch maxlen c) tt [u8 c].
Proof.
  intros t d Hd. unfold dopr_outch. destruct (Nat.ltb_spec (currlen d) maxlen) as [Hl|Hl].
  - unfold written in *. subst d. cbn [currlen buffer stored] in *. rewrite length_take in Hl.
    rewrite !(take_ge t) by lia. destruct (drop (length t) str0) as [|c' r] eqn:E.
    { apply (f_equal length) in E. rewrite length_drop in E. cbn [length] in E. lia. }
    pose proof (mstore_app_mid t [c'] r [u8 c] eq_refl) as Em. cbn [app] in Em. rewrite Em. eexists. split; [done|].
    rewrite !take_ge by len. rewrite length_app, <- drop_drop, E, Nat.add_1_r, <- app_assoc. done.
  - eexists. split; [done|]. by apply written_full.
Qed.

Lemma emits_cut {A} (m : SM dst A) x l l' :
  emits m x l -> take maxlen l = take maxlen l' -> emits m x l'.
Proof.
  intros Hm Hl t d Hd. destruct (Hm t d Hd) as (d' & E & H). exists d'. split; [done|].
  eapply written_cut; [|done]. rewrite !take_app. f_equal. 
  rewrite <- (Nat.min_l (maxlen - length t) maxlen), <- !take_take by lia.
  by rewrite Hl.
Qed.

Lemma emits_out_list l : Forall byte_ok l -> emits (out_list maxlen l) tt l.
Proof.
  induction 1 as [|c l Hc _ IH]; [apply out_ret|]. apply (out_bind _ _ tt tt [c] l); [|done].
  rewrite <- (u8_small c) at 2 by done. apply emits_outch.
Qed.

Lemma emits_out_n n c : byte_ok c -> emits (out_n maxlen n c) tt (replicate n c).
Proof.
  intros Hc. induction n as [|n IH]; [apply out_ret|]. apply (out_bind _ _ tt tt [c] (replicate n c)); [|done].
  rewrite <- (u8_small c) at 2 by done. apply emits_outch.
Qed.

Lemma str_pad_chars n cnt max : str_pad maxlen n cnt max = str_chars maxlen (blanks n) cnt max.
Proof.
  revert cnt. induction n as [|n IH]; intros cnt; cbn [str_pad blanks replicate str_chars]; [done|].
  destruct (cnt <? max); [|done]. by rewrite IH.
Qed.

(** The characters that are printed before [cnt] reaches [max]. *)
Definition upto (cnt max : Z) (l : list Z) : list Z := take (Z.to_nat (max - cnt)) l.

Lemma emits_str_chars l cnt max :
  Forall byte_ok l -> emits (str_chars maxlen l cnt max) (cnt + Z.of_nat (length (upto cnt max l))) (upto cnt max l).
Proof.
  unfold upto. intros Hl. revert cnt. induction Hl as [|c l Hc _ IH]; intros cnt; cbn [str_chars].
  - rewrite take_nil, Z.add_0_r. apply out_ret.
  - destruct (Z.ltb_spec cnt max).
    + replace (Z.to_nat (max - cnt)) with (S (Z.to_nat (max - (cnt + 1)))) by lia. cbn [take].
      apply (out_bind _ _ tt _ [c]); [rewrite <- (u8_small c) at 2 by done; apply emits_outch|].
      specialize (IH (cnt + 1)). cbn [length]. by rewrite Nat2Z.inj_succ, <- Z.add_1_l, Z.add_assoc.
    + replace (Z.to_nat (max - cnt)) with O by lia. cbn [take length]. rewrite Z.add_0_r. apply out_ret.
Qed.

Lemma upto_app max a b :
  0 <= max -> upto 0 max a ++ upto (Z.of_nat (length (upto 0 max a))) max b = upto 0 max (a ++ b).
Proof.
  intros Hm. unfold upto. rewrite take_app. f_equal. rewrite length_take. f_equal. lia.
Qed.

Lemma emits_str_pad n cnt max :
  emits (str_pad maxlen n cnt max) (cnt + Z.of_nat (length (upto cnt max (blanks n)))) (upto cnt max (blanks n)).
Proof. rewrite str_pad_chars. apply emits_str_chars, blanks_ok. Qed.

Lemma fmtstr_run v flags mn mx :
  Forall byte_ok v -> Z.of_nat (length v) < 2 ^ 31 -> 0 <= mn < 2 ^ 31 -> 0 <= mx ->
  let pad := blanks (Z.to_nat mn - length v) in
  emits (fmtstr maxlen (Some v) flags mn mx) tt
    (upto 0 mx (if has flags DP_F_MINUS then v ++ pad else pad ++ v)).
Proof.
  intros Hv Hl Hmn Hmx pad. unfold fmtstr. change (default (bs "<NULL>") (Some v)) with v.
  eapply emits_lift; [unfold int_; by rewrite bool_decide_true by lia|].
  assert (Hp : Z.to_nat (if mn - Z.of_nat (length v) <? 0 then 0 else mn - Z.of_nat (length v)) = (Z.to_nat mn - length v)%nat)
    by (destruct (Z.ltb_spec (mn - Z.of_nat (length v)) 0); lia).
  set (p := if _ <? 0 then 0 else _) in *. assert (0 <= p) by (subst p; case_match; lia).
  assert (Hd : forall a c,
    emits (cnt ← str_pad maxlen a 0 mx; cnt ← str_chars maxlen v cnt mx; str_pad maxlen c cnt mx;; mret tt) tt
      (upto 0 mx (blanks a ++ v ++ blanks c))).
  { intros a c. rewrite app_assoc, <- upto_app, <- (upto_app mx (blanks a)), <- app_assoc by done.
    eapply out_bind; [apply emits_str_pad|]. eapply out_bind; [by apply emits_str_chars|].
    rewrite <- (app_nil_r (upto (Z.of_nat _) mx (blanks c))). eapply out_bind; [|apply out_ret].
    rewrite <- Nat2Z.inj_add, <- length_app. apply emits_str_pad. }
  destruct (has flags DP_F_MINUS).
  - rewrite Z.opp_involutive, Hp. replace (Z.to_nat (- p)) with 0%nat by lia. apply (Hd 0%nat).
  - rewrite Hp. replace (Z.to_nat (- p)) with 0%nat by lia. pose proof (Hd (Z.to_nat mn - length v)%nat 0%nat) as E.
    cbn [blanks replicate] in E. by rewrite app_nil_r in E.
Qed.

(** What [fmtint] makes of the flags, with [p] the precision (0 for none). *)
Definition number_out (minus zero : bool) (w p : nat) (sign ds : list Z) : list Z :=
  let z := (p - length ds)%nat in
  let sp := (w - Nat.max p (length ds) - length sign)%nat in
  let '(z, sp) := if zero then (Nat.max z sp, 0%nat) else (z, sp) in
  (if minus then [] else blanks sp) ++ sign ++ replicate z (ch "0") ++ ds ++ (if minus then blanks sp else []).

Definition sign_list (s : Z) : list Z := if s =? 0 then [] else [s].

Lemma sign_list_length s : Z.of_nat (length (sign_list s)) = if s =? 0 then 0 else 1.
Proof. unfold sign_list. by destruct (s =? 0). Qed.

Lemma emits_sign s : byte_ok s -> emits (if s =? 0 then mret tt else dopr_outch maxlen s) tt (sign_list s).
Proof.
  intros Hs. unfold sign_list. case_match; [apply out_ret|]. rewrite <- (u8_small s) at 2 by done. apply emits_outch.
Qed.

(** The parts of a number, one after the other. *)
Lemma emits_number (minus : bool) s cv z sp (a b : nat) :
  byte_ok s -> Forall byte_ok cv -> z = Z.of_nat a -> sp = Z.of_nat b ->
  let sp' := if minus then - sp else sp in
  emits (out_n maxlen (Z.to_nat sp') (ch " ");; (if s =? 0 then mret tt else dopr_outch maxlen s);;
    out_n maxlen (Z.to_nat z) (ch "0");; out_list maxlen (reverse cv);; out_n maxlen (Z.to_nat (- sp')) (ch " ")) tt
    ((if minus then [] else blanks b) ++ sign_list s ++ replicate a (ch "0") ++ reverse cv ++
     (if minus then blanks b else [])).
Proof.
  intros Hs Hc -> -> sp'.
  assert (E1 : (if minus then [] else blanks b) = replicate (Z.to_nat sp') (ch " "))
    by (subst sp'; destruct minus; [by replace (Z.to_nat _) with 0%nat by lia|by rewrite Nat2Z.id]).
  assert (E2 : (if minus then blanks b else []) = replicate (Z.to_nat (- sp')) (ch " "))
    by (subst sp'; destruct minus; [by rewrite Z.opp_involutive, Nat2Z.id|by replace (Z.to_nat _) with 0%nat by lia]).
  rewrite E1, E2, Nat2Z.id. eapply out_bind; [by apply emits_out_n|]. eapply out_bind; [by apply emits_sign|].
  eapply out_bind; [by apply emits_out_n|]. eapply out_bind; [by apply emits_out_list, Forall_reverse|].
  by apply emits_out_n.
Qed.

Lemma fmtint_run value base mn mx flags u :
  let unsigned := has flags DP_F_UNSIGNED in
  let sign := sign_list (if unsigned then 0 else sign_of (value <? 0) flags) in
  2 <= base <= 16 -> 0 <= mn < 2 ^ 31 -> -1 <= mx < 2 ^ 31 ->
  (if negb unsigned && (value <? 0) then u64 <$> long_ (- value) else Some (u64 value)) = Some u ->
  emits (fmtint maxlen value base mn mx flags) tt
    (number_out (has flags DP_F_MINUS) (has flags DP_F_ZERO) (Z.to_nat mn) (Z.to_nat mx) sign
       (reverse (converted (has flags DP_F_UP) base u))).
Proof.
  intros unsigned sign Hb Hmn Hmx Hu. unfold fmtint. fold unsigned. eapply emits_lift; [done|].
  set (s := if unsigned then 0 else sign_of _ _) in *.
  assert (Hs : byte_ok s) by apply sign_of_ok.
  pose proof (converted_ok (has flags DP_F_UP) base u Hb) as Hc.
  pose proof (converted_length (has flags DP_F_UP) base u) as Hl.
  set (cv := converted _ _ _) in *. clearbody cv s.
  assert (Hsg : (if s =? 0 then 0 else 1) = Z.of_nat (length sign)) by (symmetry; apply sign_list_length).
  assert (length sign <= 1)%nat by (clear - Hsg; case_match; lia).
  cbv zeta. rewrite Hsg. clear Hsg. assert (Hm : (if mx <? 0 then 0 else mx) = Z.of_nat (Z.to_nat mx)) by (destruct (Z.ltb_spec mx 0); lia).
  rewrite Hm. eapply emits_lift; [unfold int_; rewrite bool_decide_true; [done|lia]|].
  unfold number_out. rewrite length_reverse.
  set (z := if Z.of_nat (Z.to_nat mx) - _ <? 0 then 0 else _). set (sp := if mn - _ - _ <? 0 then 0 else _).
  assert (Hz : z = Z.of_nat (Z.to_nat mx - length cv)) by (subst z; destruct (Z.ltb_spec (Z.of_nat (Z.to_nat mx) - Z.of_nat (length cv)) 0); lia).
  assert (Hsp : sp = Z.of_nat (Z.to_nat mn - Nat.max (Z.to_nat mx) (length cv) - length sign))
    by (subst sp; match goal with |- (if ?a <? 0 then _ else _) = _ => destruct (Z.ltb_spec a 0) end; lia).
  clearbody z sp. destruct (has flags DP_F_ZERO); apply emits_number; done || lia.
Qed.
End Writing.

(** ** Digits *)
Lemma convert_digits n m caps b u acc :
  2 <= b -> 0 <= u < b ^ Z.of_nat n -> (0 < n)%nat -> (n <= m)%nat ->
  convert_char caps <$> digits_aux m b u acc = reverse (convert n caps b u) ++ (convert_char caps <$> acc).
Proof.
  intros Hb. revert m u acc. induction n as [|n IH]; intros m u acc Hu Hn Hm; [lia|].
  destruct m as [|m]; [lia|]. cbn [digits_aux convert]. rewrite reverse_cons.
  destruct (Z.ltb_spec u b) as [Hlt|Hge].
  - rewrite Z.mod_small, Z.div_small by lia. done.
  - assert (1 <= u / b) by (apply Z.div_le_lower_bound; lia). rewrite (proj2 (Z.eqb_neq (u / b) 0)) by lia.
    assert (Hp : b ^ Z.of_nat (S n) = b * b ^ Z.of_nat n) by (rewrite Nat2Z.inj_succ, Z.pow_succ_r; lia).
    assert (u / b < b ^ Z.of_nat n) by (apply Z.div_lt_upper_bound; lia).
    assert (n <> 0)%nat by (intros ->; rewrite Hp in Hu; cbn in Hu; lia).
    rewrite IH by lia. by rewrite <- app_assoc.
Qed.

Lemma convert_more n k caps b u :
  2 <= b -> 0 <= u < b ^ Z.of_nat n -> (0 < n)%nat -> (n <= k)%nat -> convert k caps b u = convert n caps b u.
Proof.
  intros. apply (inj reverse). pose proof (convert_digits n k caps b u []) as E1.
  pose proof (convert_digits k k caps b u []) as E2. cbn [fmap list_fmap] in *. rewrite !app_nil_r in *.
  rewrite <- E1, E2; try lia. done. split; [lia|]. eapply Z.lt_le_trans; [apply H0|]. apply Z.pow_le_mono_r; lia.
Qed.

Lemma converted_digits caps b u : 2 <= b -> 0 <= u < b ^ 19 -> reverse (converted caps b u) = digits_text caps b u.
Proof.
  intros Hb Hu. unfold converted, digits_text, digits. rewrite (convert_more 19 20) by (done || lia).
  pose proof (convert_length 19 caps b u) as Hl. rewrite (proj2 (Nat.eqb_neq _ _)) by lia.
  rewrite (convert_digits 19 64) by (done || lia). by rewrite app_nil_r.
Qed.

(** ** Flags *)
Lemma has_bit f k : 0 <= k -> has f (Z.shiftl 1 k) = Z.testbit f k.
Proof.
  intros Hk. unfold has. rewrite Z.shiftl_1_l. destruct (Z.testbit f k) eqn:E.
  - apply negb_true_iff, Z.eqb_neq. intros H0. apply (f_equal (fun x => Z.testbit x k)) in H0.
    rewrite Z.land_spec, E, Z.pow2_bits_true, Z.bits_0 in H0 by lia. done.
  - apply negb_false_iff, Z.eqb_eq, Z.bits_inj'. intros i Hi. rewrite Z.land_spec, Z.bits_0.
    destruct (Z.eq_dec k i) as [->|Hne]; [by rewrite E|]. by rewrite Z.pow2_bits_false, andb_false_r by lia.
Qed.

Definition flags_of (fl : list Z) : Z := foldl (fun a c => Z.lor a (default 0 (flag_of c))) 0 fl.

(** The bit of each flag. *)
Lemma flag_cases c f :
  flag_of c = Some f ->
  (c, f) ∈ [(ch "-", DP_F_MINUS); (ch "+", DP_F_PLUS); (ch " ", DP_F_SPACE); (ch "#", DP_F_NUM); (ch "0", DP_F_ZERO)].
Proof.
  unfold flag_of.
  repeat (case_match eqn:E; [apply Z.eqb_eq in E as ->; intros [= <-]; repeat first [apply list_elem_of_here|apply list_elem_of_further]|clear E]).
  done.
Qed.

Lemma flags_bit c k fl :
  (forall c' f, flag_of c' = Some f -> Z.testbit f k = (c =? c')) ->
  Forall (fun c => is_Some (flag_of c)) fl -> Z.testbit (flags_of fl) k = flag c fl.
Proof.
  intros Hc. assert (forall a, Forall (fun c => is_Some (flag_of c)) fl ->
    Z.testbit (foldl (fun a c => Z.lor a (default 0 (flag_of c))) a fl) k = Z.testbit a k || flag c fl) as H.
  { induction fl as [|x fl IH]; intros a Hf; cbn [foldl flag existsb]; [by rewrite orb_false_r|].
    apply Forall_cons in Hf as [[f Hf] Hfl]. rewrite IH by done. rewrite Z.lor_spec, Hf. change (default 0 (Some f)) with f.
    rewrite (Hc x f Hf), <- orb_assoc. done. }
  intros Hfl. unfold flags_of. rewrite H by done. by rewrite Z.bits_0.
Qed.

Ltac flag_bit :=
  let c' := fresh "c" in let f := fresh "f" in let Hf := fresh "Hf" in
  intros c' f Hf; apply flag_cases in Hf;
  repeat (apply elem_of_cons in Hf as [[= -> ->]|Hf]; [reflexivity|]); by apply elem_of_nil in Hf.

Section Flags.
Context (fl : list Z) (Hfl : Forall (fun c => is_Some (flag_of c)) fl).

Lemma has_minus : Z.testbit (flags_of fl) 0 = flag (ch "-") fl.
Proof. apply flags_bit; [flag_bit|done]. Qed.
Lemma has_plus : Z.testbit (flags_of fl) 1 = flag (ch "+") fl.
Proof. apply flags_bit; [flag_bit|done]. Qed.
Lemma has_space : Z.testbit (flags_of fl) 2 = flag (ch " ") fl.
Proof. apply flags_bit; [flag_bit|done]. Qed.
Lemma has_zero : Z.testbit (flags_of fl) 4 = flag (ch "0") fl.
Proof. apply flags_bit; [flag_bit|done]. Qed.
Lemma has_high k : 5 <= k -> Z.testbit (flags_of fl) k = false.
Proof.
  intros Hk. apply (testbit_above _ 5); [|done]. unfold flags_of.
  assert (H : forall a, 0 <= a < 2 ^ 5 -> 0 <= foldl (fun a c => Z.lor a (default 0 (flag_of c))) a fl < 2 ^ 5).
  { induction Hfl as [|c l [f Hc] Hl IH]; intros a Ha; [done|].
    cbn [foldl]. rewrite Hc. apply IH, lor_range; [done..|]. change (default 0 (Some f)) with f.
    apply flag_cases in Hc. repeat (apply elem_of_cons in Hc as [[= -> ->]|Hc]; [by vm_compute|]). by apply elem_of_nil in Hc. }
  by apply H.
Qed.
End Flags.

(** Padding as the standard has it. *)
Lemma number_out_text fl (w : nat) (p : option nat) sign ds :
  (flag (ch "0") fl = true -> flag (ch "-") fl = false /\ p = None) -> (1 <= length ds)%nat -> 
  number_out (flag (ch "-") fl) (flag (ch "0") fl) w (default 0%nat p) sign ds = number_text fl w p sign ds.
Proof.
  intros Hz Hds. unfold number_out, number_text, justify.
  assert (Hp : (default 0 p - length ds = default 1 p - length ds)%nat) by (destruct p; cbn; lia).
  destruct (flag (ch "0") fl).
  - destruct Hz as [-> ->]; [done|]. cbn [negb andb default from_option]. rewrite bool_decide_true by done.
    replace (1 - length ds)%nat with 0%nat by lia. cbn [blanks replicate app]. rewrite app_nil_r.
    do 3 f_equal. lia.
  - cbn [andb]. rewrite Hp. rewrite !length_app, length_replicate.
    replace (w - (length sign + (default 1%nat p - length ds + length ds)))%nat
      with (w - Nat.max (default 0%nat p) (length ds) - length sign)%nat by (destruct p; cbn; lia).
    destruct (flag (ch "-") fl); by rewrite <- ?app_assoc, ?app_nil_r.
Qed.

(** ** Rounds of the machine *)
Section Machine.
Context {F : Type} `{LongDouble F} (strings : Z -> list Z).
Notation dopr_st := (@dopr_st F).

Lemma next_format (s s' : dopr_st) :
  next s = Some s' -> state s' = state s /\ S (length (format s')) = length (format s).
Proof. unfold next. destruct (format s); [done|]. by intros [= <-]. Qed.

Lemma run_out_format m (s s' : dopr_st) : run_out m s = Some s' -> format s' = format s /\ state s' = state s.
Proof. unfold run_out. intros E. destruct (m (out s)) as [[u o]|]; [|done]. by injection E as <-. Qed.

(** A conversion takes at most the next character. *)
Lemma conv_format maxlen (s s' : dopr_st) :
  conv strings maxlen s = Some s' -> (length (format s') <= length (format s))%nat.
Proof.
  unfold conv, conv_signed, conv_unsigned, conv_n.
  repeat (case_match; [try (intros E; inv_bind E; try apply run_out_format in E as [-> _]; simplify_eq; done)|]).
  - intros E. apply next_format in E as [_ E]. lia.
  - by intros [= <-].
Qed.

Lemma dopr_switch_rounds maxlen (s s' : dopr_st) :
  dopr_switch strings maxlen s = Some s' -> state s <> DP_S_DONE -> (rounds s' < rounds s)%nat.
Proof.
  unfold dopr_switch. intros E Hs. destruct (state s) eqn:Es; try done; unfold rounds; rewrite Es.
  - inv_bind E. apply next_format in E as [H1 H2]. rewrite H1.
    case_match; [injection E0 as <-|apply run_out_format in E0 as [E1 E2]; rewrite E1, E2 in *; rewrite Es];
      cbn [state set_state format] in *; lia.
  - case_match; [apply next_format in E as [H1 H2]; rewrite H1|injection E as <-]; cbn [state set_state or_flag format] in *;
      rewrite ?Es; lia.
  - destruct (isdigit (ch_ s)); [|destruct (ch_ s =? ch "*")]; inv_bind E;
      try (apply next_format in E as [H1 H2]; rewrite H1); simplify_eq;
      cbn [state set_state set_min format] in *; rewrite ?Es; lia.
  - case_match; [apply next_format in E as [H1 H2]; rewrite H1|injection E as <-]; cbn [state set_state format] in *; lia.
  - destruct (isdigit (ch_ s)); [|destruct (ch_ s =? ch "*")]; inv_bind E;
      try (apply next_format in E as [H1 H2]; rewrite H1); simplify_eq;
      cbn [state set_state set_max format] in *; rewrite ?Es; lia.
  - inv_bind E. injection E as <-. cbn [state set_state format].
    case_match; [apply next_format in E0 as [H1 H2]; cbn [set_cflags format] in H2|injection E0 as <-]; lia.
  - inv_bind E. injection E as <-. apply conv_format in E0. apply next_format in E1 as [_ E1]. cbn [restart state format]. lia.
Qed.

Lemma dopr_step_rounds maxlen (s s' : dopr_st) : dopr_round strings maxlen s s' -> (rounds s' < rounds s)%nat.
Proof.
  intros [Hs E]. unfold dopr_step in E. case_match; [|by eapply dopr_switch_rounds].
  cbn in E. injection E as <-. unfold rounds. cbn [state set_state format]. destruct (state s); done || lia.
Qed.

(** The machine reaches the same end with any number of rounds that is
    large enough, and [rounds] is. *)
Lemma dopr_loop_reaches maxlen (s s' : dopr_st) fuel :
  rtc (dopr_round strings maxlen) s s' -> state s' = DP_S_DONE -> (rounds s < fuel)%nat ->
  dopr_loop strings fuel maxlen s = Some s'.
Proof.
  intros Hr. revert fuel. induction Hr as [s|s s1 s2 H1 _ IH]; intros fuel Hd Hf; (destruct fuel as [|fuel]; [lia|]); cbn [dopr_loop].
  - by rewrite bool_decide_true.
  - pose proof (dopr_step_rounds _ _ _ H1). destruct H1 as [Hs E]. rewrite bool_decide_false by done. rewrite E.
    apply IH; [done|lia].
Qed.

(** More rounds do not change the result, of any format. *)
Lemma dopr_loop_more maxlen (s : dopr_st) fuel :
  (rounds s < fuel)%nat -> dopr_loop strings fuel maxlen s = dopr_loop strings (S (rounds s)) maxlen s.
Proof.
  remember (rounds s) as n eqn:En. revert s En fuel. induction (lt_wf n) as [n _ IH]. intros s -> fuel Hf.
  destruct fuel as [|fuel]; [lia|]. cbn [dopr_loop]. case_bool_decide as Hs; [done|].
  destruct (dopr_step strings maxlen s) as [s1|] eqn:E; [|done]. cbn [mbind option_bind].
  pose proof (dopr_step_rounds maxlen s s1 (conj Hs E)) as H1.
  rewrite (IH _ H1 s1 eq_refl fuel) by lia. destruct (decide (rounds s1 < rounds s)%nat); [|lia].
  symmetry. apply (IH _ H1 s1 eq_refl (rounds s)). lia.
Qed.

(** ** Reading the format *)
Context (str0 : mem) (maxlen : nat) (Hmax : (maxlen <= length str0)%nat).
Notation written := (written str0 maxlen).

(** The machine in state [st] in front of [p]. *)
Definition in_front (st : dp_state) (p : list Z) (l : list arg) (mn mx fl cf : Z) (d : dst) : dopr_st :=
  Dopr st (hd 0 p) (tl p) l mn mx fl cf d.

Definition prints (s : dopr_st) (t : list Z) : Prop :=
  exists s', rtc (dopr_round strings maxlen) s s' /\ state s' = DP_S_DONE /\ written t (out s').

(** A round with room in the buffer; without, the machine stops. *)
Lemma prints_round s t t' :
  state s <> DP_S_DONE -> ch_ s <> 0 -> written t (out s) ->
  (exists s', dopr_switch strings maxlen s = Some s' /\ prints s' (t ++ t')) -> prints s (t ++ t').
Proof.
  intros Hs Hc Hw (s' & E & s'' & Hr & Hd). destruct (Nat.leb_spec maxlen (currlen (out s))) as [Hf|Hf].
  - exists (set_state DP_S_DONE s). split; [|split; [done|by apply written_full]].
    apply rtc_once. split; [done|]. unfold dopr_step. rewrite (proj2 (Nat.leb_le _ _)), orb_true_r by done. done.
  - exists s''. split; [|done]. eapply rtc_l; [|done]. split; [done|].
    unfold dopr_step. rewrite (proj2 (Z.eqb_neq _ _)) by done. by rewrite (proj2 (Nat.leb_gt _ _)).
Qed.

Lemma prints_end l mn mx fl cf d t : written t d -> prints (in_front DP_S_DEFAULT [0] l mn mx fl cf d) t.
Proof. intros Hw. eexists. split; [apply rtc_once; split; done|]. done. Qed.

(** What may stand behind a width or a precision. *)
Definition letter (c : Z) : Prop :=
  0 < c /\ isdigit c = false /\ c <> ch "*" /\ c <> ch "." /\ flag_of c = None.

Section Directive.
Context (d : dst) (t : list Z) (Hd : written t d) (t' : list Z).

Lemma flags_run fls fl c r l :
  Forall (fun c => is_Some (flag_of c)) fls -> c <> 0 -> flag_of c = None ->
  prints (in_front DP_S_MIN (c :: r) l 0 (-1) (foldl (fun a c => Z.lor a (default 0 (flag_of c))) fl fls) 0 d) (t ++ t') ->
  prints (in_front DP_S_FLAGS (fls ++ c :: r) l 0 (-1) fl 0 d) (t ++ t').
Proof.
  intros Hfl Hc0 Hc. revert fl. induction Hfl as [|x fls [f Hx] _ IH]; intros fl Hp.
  - apply prints_round; [done..|]. eexists. split; [|exact Hp]. cbn. by rewrite Hc.
  - apply prints_round; [done|intros E; cbn in E; by subst x|done|]. cbn [foldl] in Hp. rewrite Hx in Hp.
    eexists. split; [|apply IH, Hp]. cbn. rewrite Hx. by destruct fls.
Qed.

Lemma isdigit_char x : 0 <= x < 10 -> isdigit (digit_char x) = true /\ digit_char x - ch "0" = x /\ digit_char x <> 0.
Proof.
  intros Hx. unfold digit_char. rewrite (proj2 (Z.ltb_lt x 10)) by lia. split; [|change (ch "0") with 48; lia].
  unfold isdigit. apply andb_true_iff; split; apply Z.leb_le; lia.
Qed.

Lemma num_val_ge ds acc : digits_ok 10 ds -> 0 <= acc -> acc <= num_val 10 acc ds.
Proof.
  intros Hds. revert acc. induction Hds as [|x ds Hx _ IH]; intros acc Ha; [done|].
  unfold num_val in *. cbn [foldl]. specialize (IH (acc * 10 + x)). lia.
Qed.

Lemma min_digits_run ds acc c r l mx fl :
  digits_ok 10 ds -> 0 <= acc -> num_val 10 acc ds < 2 ^ 31 -> letter c \/ c = ch "." ->
  prints (in_front DP_S_DOT (c :: r) l (num_val 10 acc ds) mx fl 0 d) (t ++ t') ->
  prints (in_front DP_S_MIN ((digit_char <$> ds) ++ c :: r) l acc mx fl 0 d) (t ++ t').
Proof.
  intros Hds. revert acc. induction Hds as [|x ds Hx Hds IH]; intros acc Ha Hv Hc Hp.
  - assert (isdigit c = false /\ c <> ch "*" /\ c <> 0) as (H1 & H2 & H3)
      by (destruct Hc as [(? & ? & ? & _)| ->]; [|done]; repeat split; done || lia).
    apply prints_round; [done..|]. eexists. split; [|exact Hp]. cbn.
    rewrite H1. by rewrite (proj2 (Z.eqb_neq _ _)).
  - destruct (isdigit_char x Hx) as (H1 & H2 & H3).
    unfold num_val in *. cbn [foldl] in *. pose proof (num_val_ge ds (acc * 10 + x) Hds) as Hge. unfold num_val in Hge.
    apply prints_round; [done..|]. eexists. split; [|apply (IH (acc * 10 + x)); [lia|done|done|exact Hp]].
    cbn. rewrite H1. unfold int_. rewrite H2, bool_decide_true by lia. cbn.
    replace (10 * acc + x) with (acc * 10 + x) by lia. by destruct ds.
Qed.

Lemma max_digits_run ds mx acc c r l mn fl :
  digits_ok 10 ds -> (if mx <? 0 then 0 else mx) = acc -> 0 <= acc -> (ds = [] -> 0 <= mx) ->
  num_val 10 acc ds < 2 ^ 31 -> letter c ->
  prints (in_front DP_S_MOD (c :: r) l mn (num_val 10 acc ds) fl 0 d) (t ++ t') ->
  prints (in_front DP_S_MAX ((digit_char <$> ds) ++ c :: r) l mn mx fl 0 d) (t ++ t').
Proof.
  intros Hds. revert mx acc. induction Hds as [|x ds Hx Hds IH]; intros mx acc Hm Ha He Hv Hc Hp.
  - destruct Hc as (H0 & H1 & H2 & _). rewrite (proj2 (Z.ltb_ge _ _)) in Hm by auto. subst mx.
    apply prints_round; [done|cbn; lia|done|]. eexists. split; [|exact Hp]. cbn.
    rewrite H1. by rewrite (proj2 (Z.eqb_neq _ _)).
  - destruct (isdigit_char x Hx) as (H1 & H2 & H3).
    unfold num_val in *. cbn [foldl] in *. pose proof (num_val_ge ds (acc * 10 + x) Hds) as Hge. unfold num_val in Hge.
    apply prints_round; [done..|]. eexists.
    split; [|apply (IH (acc * 10 + x) (acc * 10 + x)); [by rewrite (proj2 (Z.ltb_ge _ _)) by lia|lia|lia|done|done|exact Hp]].
    cbn. rewrite H1. unfold int_. rewrite Hm, H2, bool_decide_true by lia. cbn.
    replace (10 * acc + x) with (acc * 10 + x) by lia. by destruct ds.
Qed.

Lemma fmt_int_digits n : 0 <= n < 2 ^ 31 ->
  exists ds, fmt_int n = digit_char <$> ds /\ digits_ok 10 ds /\ ds <> [] /\ num_val 10 0 ds = n.
Proof.
  intros Hn. unfold fmt_int. rewrite (proj2 (Z.ltb_ge n 0)), Z.abs_eq by lia.
  destruct (digits_spec 10 n) as (H1 & H2 & H3 & _); [lia..|]. by exists (digits 10 n).
Qed.

Lemma width_run w c r l fl :
  width_ok 0 w -> letter c \/ c = ch "." ->
  prints (in_front DP_S_DOT (c :: r) l (width_val 0 w) (-1) fl 0 d) (t ++ t') ->
  prints (in_front DP_S_MIN (width_fmt w ++ c :: r) (width_args w ++ l) 0 (-1) fl 0 d) (t ++ t').
Proof.
  intros Hw Hc Hp. destruct w as [|n|n]; cbn [width_fmt width_args width_val app] in *.
  - apply (min_digits_run [] 0); [constructor|done..|exact Hp].
  - destruct (fmt_int_digits n Hw) as (ds & -> & H1 & _ & H3). apply min_digits_run; rewrite ?H3; done || (cbn in Hw; lia).
  - apply prints_round; [done..|]. eexists. split; [|exact Hp]. cbn. by rewrite i32_small by (cbn in Hw; lia).
Qed.

Lemma prec_run p c r l mn fl :
  width_ok 0 p -> letter c ->
  prints (in_front DP_S_MOD (c :: r) l mn (width_val (-1) p) fl 0 d) (t ++ t') ->
  prints (in_front DP_S_DOT (prec_fmt p ++ c :: r) (width_args p ++ l) mn (-1) fl 0 d) (t ++ t').
Proof.
  intros Hw Hc Hp. destruct p as [|n|n]; cbn [prec_fmt width_fmt width_args width_val app] in *.
  - destruct Hc as (H0 & _ & _ & H1 & _). apply prints_round; [done|cbn; lia|done|]. eexists. split; [|exact Hp].
    cbn. by rewrite (proj2 (Z.eqb_neq _ _)).
  - destruct (fmt_int_digits n Hw) as (ds & -> & H1 & H2 & H3).
    apply prints_round; [done..|]. exists (in_front DP_S_MAX ((digit_char <$> ds) ++ c :: r) l mn (-1) fl 0 d).
    split; [by destruct ds|]. apply (max_digits_run ds (-1) 0); rewrite ?H3; done || (cbn in Hw; lia).
  - apply prints_round; [done..|]. exists (in_front DP_S_MAX (ch "*" :: c :: r) (AInt n :: l) mn (-1) fl 0 d).
    split; [done|]. apply prints_round; [done..|]. eexists. split; [|exact Hp]. cbn. by rewrite i32_small by (cbn in Hw; lia).
Qed.

Definition mod_flag (m : modifier) : Z := match m with MNone => 0 | MShort => DP_C_SHORT | MLong => DP_C_LONG end.

Lemma mod_run m c r l mn mx fl :
  0 < c -> cflag_of c = None ->
  prints (in_front DP_S_CONV (c :: r) l mn mx fl (mod_flag m) d) (t ++ t') ->
  prints (in_front DP_S_MOD (mod_fmt m ++ c :: r) l mn mx fl 0 d) (t ++ t').
Proof.
  intros Hc Hf Hp. apply prints_round; [done|destruct m; cbn; done || lia|done|]. eexists. split; [|exact Hp].
  destruct m; cbn; [by rewrite Hf|done..].
Qed.
End Directive.

(** ** Conversions *)

(** The conversion of a specification, its last character, in front of [r]. *)
Definition conv_char (x : spec) : Z := default 0 (last (spec_fmt x)).
Definition spec_mod (x : spec) : modifier := match x with SInt _ m _ | SUns _ _ m _ => m | _ => MNone end.

Lemma spec_fmt_mod x : spec_fmt x = mod_fmt (spec_mod x) ++ [conv_char x].
Proof.
  destruct x; try done; cbn [spec_fmt spec_mod]; f_equal; unfold conv_char; cbn [spec_fmt]; by rewrite last_snoc.
Qed.

Lemma conv_char_letter fl w p x : spec_ok strings fl w p x -> letter (conv_char x) /\ cflag_of (conv_char x) = None.
Proof.
  destruct x; unfold conv_char; cbn [spec_fmt]; rewrite ?last_snoc; cbn; intros Hx; repeat case_match; by vm_compute.
Qed.

(** A conversion that prints [e] and takes the arguments of [x]. *)
Definition converts (x : spec) (p : list Z) (l : list arg) (mn mx fl cf : Z) (d : dst) (e : list Z) : Prop :=
  exists m, emits str0 maxlen m tt e /\
    let s := in_front DP_S_CONV (conv_char x :: p) (spec_args x ++ l) mn mx fl cf d in
    exists s', conv strings maxlen s = (run_out m (set_args l s') : option dopr_st) /\
      ch_ s' = ch_ s /\ format s' = format s /\ out s' = out s.

Lemma conv_run x c r l mn mx fl cf d t e t' :
  written t d -> conv_char x <> 0 -> converts x (c :: r) l mn mx fl cf d e ->
  (forall d', written (t ++ e) d' -> prints (in_front DP_S_DEFAULT (c :: r) l 0 (-1) 0 0 d') (t ++ e ++ t')) ->
  prints (in_front DP_S_CONV (conv_char x :: c :: r) (spec_args x ++ l) mn mx fl cf d) (t ++ e ++ t').
Proof.
  intros Hd Hc (m & Hm & s' & E1 & E2 & E3 & E4) Hp. apply prints_round; [done..|].
  destruct (Hm t d Hd) as (d' & Em & Hd'). eexists. split; [|apply Hp, Hd'].
  unfold dopr_switch. cbn [in_front state]. rewrite E1. unfold run_out. cbn [set_args out]. rewrite E4.
  cbn [in_front out]. rewrite Em. cbn [mbind option_bind]. unfold next. cbn [set_out set_args format]. rewrite E3. done.
Qed.

Section Numbers.
Context (fl : list Z) (Hfl : Forall (fun c => is_Some (flag_of c)) fl) (w p : width) (Hw : width_ok 0 w) (Hp : width_ok 0 p).
Notation mn := (width_val 0 w).
Notation mx := (width_val (-1) p).

Lemma width_bounds : 0 <= mn < 2 ^ 31 /\ -1 <= mx < 2 ^ 31.
Proof. destruct w, p; cbn in *; lia. Qed.

Lemma prec_default : Z.to_nat mx = default 0%nat (prec_val p).
Proof. by destruct p. Qed.

(** [fmtint] prints what the standard asks for. *)
Lemma number_run flags value base u b :
  (flags = flags_of fl \/ flags = Z.lor (flags_of fl) DP_F_UNSIGNED \/
   flags = Z.lor (Z.lor (flags_of fl) DP_F_UP) DP_F_UNSIGNED) ->
  let uns := has flags DP_F_UNSIGNED in
  2 <= base <= 16 -> 0 <= u < 2 ^ 64 -> number_ok fl p base u ->
  (if negb uns && (value <? 0) then u64 <$> long_ (- value) else Some (u64 value)) = Some u ->
  has flags DP_F_UP = b ->
  emits str0 maxlen (fmtint maxlen value base mn mx flags) tt
    (number_text fl (Z.to_nat mn) (prec_val p)
       (sign_list (if uns then 0 else sign_of (value <? 0) flags)) (digits_text b base u)).
Proof.
  intros Hf uns Hb Hu0 (Hu & Hz & _) Hv Hup. destruct width_bounds as [Hmn Hmx].
  assert (Hbit : forall k c, 0 <= k < 5 -> Z.testbit (flags_of fl) k = flag c fl -> Z.testbit flags k = flag c fl).
  { intros k c Hk E. destruct Hf as [-> | [-> | ->]]; rewrite ?Z.lor_spec, E; [done|..];
      (assert (k = 0 \/ k = 1 \/ k = 2 \/ k = 3 \/ k = 4) as Hk' by lia; destruct_or! Hk'; subst k; by rewrite ?orb_false_r). }
  assert (Hmi : has flags DP_F_MINUS = flag (ch "-") fl)
    by (unfold DP_F_MINUS; rewrite has_bit by done; apply Hbit; [lia|by apply has_minus]).
  assert (Hze : has flags DP_F_ZERO = flag (ch "0") fl)
    by (unfold DP_F_ZERO; rewrite has_bit by done; apply Hbit; [lia|by apply has_zero]).
  pose proof (fmtint_run str0 maxlen Hmax value base mn mx flags u Hb Hmn Hmx Hv) as E.
  rewrite Hmi, Hze, Hup, prec_default, converted_digits in E by lia. fold uns in E.
  rewrite number_out_text in E; [done| |].
  - intros H0. destruct (Hz H0) as [? ->]. done.
  - unfold digits_text. rewrite length_fmap. destruct (digits_spec base u) as (_ & Hne & _); [lia..|].
    destruct (digits base u); [done|cbn; lia].
Qed.

Lemma has_unsigned : has (flags_of fl) DP_F_UNSIGNED = false /\ has (flags_of fl) DP_F_UP = false.
Proof. unfold DP_F_UNSIGNED, DP_F_UP. rewrite !has_bit by done. split; by apply has_high. Qed.

Lemma has_lor f g k : 0 <= k -> has (Z.lor f g) (Z.shiftl 1 k) = has f (Z.shiftl 1 k) || has g (Z.shiftl 1 k).
Proof. intros Hk. by rewrite !has_bit, Z.lor_spec. Qed.

Lemma sign_text v : 
  sign_list (sign_of (v <? 0) (flags_of fl)) =
  (if v <? 0 then [ch "-"] else if flag (ch "+") fl then [ch "+"] else if flag (ch " ") fl then [ch " "] else []).
Proof.
  unfold sign_of, DP_F_PLUS, DP_F_SPACE. rewrite !has_bit, has_plus, has_space by done. by repeat case_match.
Qed.

Lemma va_signed_run m v (l : list arg) :
  - 2 ^ (bits m - 1) < v < 2 ^ (bits m - 1) -> va_signed (mod_flag m) (@mod_arg F m v :: l) = Some (v, l).
Proof. intros Hv. destruct m; cbn in Hv; cbn; by rewrite ?i32_small, ?i64_small by lia. Qed.

Lemma va_unsigned_run m v (l : list arg) :
  0 <= v < 2 ^ bits m -> va_unsigned (mod_flag m) (@mod_arg F m v :: l) = Some (i64 v, l).
Proof. intros Hv. destruct m; cbn in Hv; cbn; by rewrite ?u32_small, ?u64_small by lia. Qed.

Lemma bits_64 m : 2 ^ bits m <= 2 ^ 64 /\ 2 ^ (bits m - 1) <= 2 ^ 63.
Proof. by destruct m. Qed.

Lemma u64_i64 v : 0 <= v < 2 ^ 64 -> u64 (i64 v) = v.
Proof.
  intros Hv. unfold u64, i64. rewrite Zminus_mod_idemp_l.
  replace (v + 2 ^ 63 - 2 ^ 63) with v by lia. by apply Z.mod_small.
Qed.
(** The base and the flags of the unsigned conversions. *)
Lemma conv_unsigned_at (s : dopr_st) b (up : bool) :
  b = 10 \/ b = 8 \/ b = 16 -> 
  ch_ s = (if b =? 8 then ch "o" else if b =? 10 then ch "u" else if up then ch "X" else ch "x") ->
  conv strings maxlen s = conv_unsigned maxlen b (if up && (b =? 16) then or_flag DP_F_UP s else s).
Proof. intros [-> | [-> | ->]]; destruct up; intros E; cbn in E; unfold conv; by rewrite E. Qed.

Lemma conv_unsigned_run (s : dopr_st) b m v (l : list arg) :
  0 <= v < 2 ^ bits m -> args s = mod_arg m v :: l -> cflags_ s = mod_flag m ->
  conv_unsigned maxlen b s =
  run_out (fmtint maxlen (i64 v) b (min_ s) (max_ s) (Z.lor (flags_ s) DP_F_UNSIGNED)) (set_args l (or_flag DP_F_UNSIGNED s)).
Proof. intros Hv Ha Hc. unfold conv_unsigned. cbn [or_flag args cflags_]. rewrite Ha, Hc, va_unsigned_run by done. done. Qed.

(** The flags of an unsigned conversion. *)
Definition unsigned_flags (up : bool) : Z :=
  Z.lor (if up then Z.lor (flags_of fl) DP_F_UP else flags_of fl) DP_F_UNSIGNED.

Lemma has_unsigned_flags up : has (unsigned_flags up) DP_F_UNSIGNED = true /\ has (unsigned_flags up) DP_F_UP = up.
Proof.
  destruct has_unsigned as [H1 H2]. unfold unsigned_flags, DP_F_UNSIGNED, DP_F_UP in *. rewrite !has_lor by done.
  split; [by rewrite orb_true_r|]. destruct up; [by rewrite has_lor, orb_true_r|]. by rewrite H2.
Qed.

Context (r : list Z) (l : list (@arg F)) (d : dst).

Lemma signed_converts i m v :
  spec_ok strings fl w p (SInt i m v) ->
  converts (SInt i m v) r l mn mx (flags_of fl) (mod_flag m) d (spec_text strings fl (Z.to_nat mn) (prec_val p) (SInt i m v)).
Proof.
  intros [Hv Hok]. destruct has_unsigned as [Huns Hup]. pose proof (bits_64 m). eexists. split.
  - cbn [spec_text]. rewrite <- sign_text.
    pose proof (number_run (flags_of fl) v 10 (Z.abs v) false) as E. rewrite Huns in E.
    apply E; [by left|done|lia|done| |done]. cbn [negb andb]. destruct (Z.ltb_spec v 0).
    + unfold long_. rewrite bool_decide_true by lia. cbn. f_equal. rewrite u64_small; lia.
    + f_equal. rewrite u64_small; lia.
  - eexists. assert (E : conv_char (SInt i m v) = ch (if i then "i" else "d"))
      by (unfold conv_char; cbn [spec_fmt]; rewrite last_snoc; by destruct i).
    rewrite E. unfold conv. cbn [in_front ch_ hd]. replace (_ || _) with true by (by destruct i).
    unfold conv_signed. cbn [in_front args cflags_ spec_args app]. rewrite va_signed_run by done. done.
Qed.

Lemma unsigned_converts b up m v :
  spec_ok strings fl w p (SUns b up m v) ->
  converts (SUns b up m v) r l mn mx (flags_of fl) (mod_flag m) d
    (spec_text strings fl (Z.to_nat mn) (prec_val p) (SUns b up m v)).
Proof.
  intros (Hb & Hv & Hok). pose proof (bits_64 m) as [Hbits _].
  set (up' := up && (b =? 16)). destruct (has_unsigned_flags up') as [Huns Hu]. exists (fmtint maxlen (i64 v) b mn mx (unsigned_flags up')). split.
  - cbn [spec_text]. fold up'.
    pose proof (number_run (unsigned_flags up') (i64 v) b v up') as E. rewrite Huns in E.
    apply E; [|lia|lia|done| |done].
    + right. unfold unsigned_flags. destruct up'; [by right|by left].
    + cbn [negb andb]. f_equal. apply u64_i64. lia.
  - intros s0. exists (or_flag DP_F_UNSIGNED (if up' then or_flag DP_F_UP s0 else s0)).
    rewrite (conv_unsigned_at _ b up); [|naive_solver|subst s0; unfold conv_char; cbn [spec_fmt]; by rewrite last_snoc].
    fold up'. rewrite (conv_unsigned_run _ b m v l) by (done || by destruct up').
    unfold unsigned_flags. by destruct up'.
Qed.
Lemma char_converts v :
  spec_ok strings fl w p (SChar v) ->
  converts (SChar v) r l mn mx (flags_of fl) 0 d (spec_text strings fl (Z.to_nat mn) (prec_val p) (SChar v)).
Proof.
  intros Hx. cbn in Hx. subst w. exists (dopr_outch maxlen (i32 v)). split.
  - replace (spec_text _ _ _ _ _) with [u8 (i32 v)]; [by apply emits_outch|].
    assert (u8 (i32 v) = u8 v) as ->.
    { unfold u8, i32. pose proof (Z.div_mod (v + 2 ^ 31) (2 ^ 32)).
      replace ((v + 2 ^ 31) `mod` 2 ^ 32 - 2 ^ 31) with (v + - ((v + 2 ^ 31) / 2 ^ 32 * 2 ^ 24) * 2 ^ 8) by lia.
      by apply Z.mod_add. }
    cbn. unfold justify. by destruct (flag (ch "-") fl).
  - eexists. split; [|done]. reflexivity.
Qed.

(** When the precision may count the padding. *)
Lemma cut_padding (v n : nat) (s : list Z) :
  (v <= Nat.min n (length s) \/ Nat.max v (length s) <= n)%nat -> take n (justify fl v s) = justify fl v (take n s).
Proof.
  intros Hc. unfold justify. rewrite length_take. destruct Hc.
  - replace (v - length s)%nat with 0%nat by lia. replace (v - n `min` length s)%nat with 0%nat by lia.
    cbn [blanks replicate app]. destruct (flag (ch "-") fl); by rewrite ?app_nil_r.
  - rewrite (take_ge s), Nat.min_r by lia. destruct (flag (ch "-") fl); apply take_ge; unfold blanks; len.
Qed.

Context (Hm0 : (0 < maxlen)%nat) (Hm1 : Z.of_nat maxlen < 2 ^ 31).

Lemma string_converts a :
  spec_ok strings fl w p (SStr a) ->
  converts (SStr a) r l mn mx (flags_of fl) 0 d (spec_text strings fl (Z.to_nat mn) (prec_val p) (SStr a)).
Proof.
  intros (Ha & Hb & Hl & Hc). destruct width_bounds as [Hmn Hmx].
  set (max := if mx <? 0 then i32 (Z.of_nat maxlen) else mx).
  exists (fmtstr maxlen (Some (strings a)) (flags_of fl) mn max). split.
  - assert (Hmi : has (flags_of fl) DP_F_MINUS = flag (ch "-") fl)
      by (unfold DP_F_MINUS; rewrite has_bit by done; by apply has_minus).
    assert (Hmax' : 0 <= max) by (subst max; destruct (Z.ltb_spec mx 0); [rewrite i32_small|]; lia).
    pose proof (fmtstr_run str0 maxlen Hmax (strings a) (flags_of fl) mn max Hb Hl Hmn Hmax') as E. rewrite Hmi in E.
    eapply emits_cut; [exact Hmax|exact E|]. cbn [spec_text]. unfold upto. rewrite Z.sub_0_r.
    change (if flag (ch "-") fl then _ else _) with (justify fl (Z.to_nat mn) (strings a)).
    subst max. clear E. destruct p as [|n|n]; cbn [width_val prec_val width_ok] in *.
    + change (-1 <? 0) with true. cbn iota. rewrite i32_small, Nat2Z.id, take_take, Nat.min_id by lia. done.
    + rewrite (proj2 (Z.ltb_ge n 0)) by lia. f_equal. by apply cut_padding.
    + rewrite (proj2 (Z.ltb_ge n 0)) by lia. f_equal. by apply cut_padding.
  - eexists. split; [|done]. unfold conv. cbn. rewrite (proj2 (Z.eqb_neq a 0)) by done. reflexivity.
Qed.
End Numbers.

(** What each conversion prints and takes. *)
Lemma spec_run fl w p x c r l d t t' :
  Forall (fun c => is_Some (flag_of c)) fl -> width_ok 0 w -> width_ok 0 p -> spec_ok strings fl w p x ->
  (0 < maxlen)%nat -> Z.of_nat maxlen < 2 ^ 31 -> written t d ->
  let e := spec_text strings fl (Z.to_nat (width_val 0 w)) (prec_val p) x in
  (forall d', written (t ++ e) d' -> prints (in_front DP_S_DEFAULT (c :: r) l 0 (-1) 0 0 d') (t ++ e ++ t')) ->
  prints (in_front DP_S_CONV (conv_char x :: c :: r) (spec_args x ++ l) (width_val 0 w) (width_val (-1) p)
            (flags_of fl) (mod_flag (spec_mod x)) d) (t ++ e ++ t').
Proof.
  intros Hfl Hw Hp Hx Hm0 Hm1 Hd e Hr. destruct (conv_char_letter _ _ _ _ Hx) as [(Hc & _) _].
  apply conv_run; [done|lia| |done]. clear Hr Hd. destruct (width_bounds w p Hw Hp) as [Hmn Hmx].
  destruct x as [i m v|b up m v|v|a|].
  - by apply signed_converts.
  - by apply unsigned_converts.
  - by apply char_converts.
  - by apply string_converts.
  - exists (dopr_outch maxlen (ch "%")). split; [apply emits_outch; done|]. eexists. by repeat split.
Qed.

Lemma mod_head m c (r : list Z) : letter c -> exists h r', mod_fmt m ++ c :: r = h :: r' /\ letter h.
Proof. intros Hc. destruct m; [by exists c, r|eexists _, _; split; [done|by vm_compute]..]. Qed.

Lemma prec_head p c (r : list Z) : letter c -> exists h r', prec_fmt p ++ c :: r = h :: r' /\ (letter h \/ h = ch ".").
Proof. intros Hc. destruct p; [exists c, r; by split; [|left]|eexists _, _; split; [done|by right]..]. Qed.

(** No leading zero. *)
Lemma digits_aux_head fuel b x acc :
  2 <= b -> 1 <= x < b ^ Z.of_nat fuel -> exists z zs, digits_aux fuel b x acc = z :: zs /\ 1 <= z < b.
Proof.
  intros Hb. revert x acc. induction fuel as [|f IH]; intros x acc Hx; [cbn in Hx; lia|].
  cbn [digits_aux]. destruct (Z.ltb_spec x b); [eauto with lia|]. apply IH. rewrite Nat2Z.inj_succ, Z.pow_succ_r in Hx by lia.
  split; [apply Z.div_le_lower_bound; lia|apply Z.div_lt_upper_bound; lia].
Qed.

Lemma width_head w p x (r : list Z) fl :
  width_ok 1 w -> spec_ok strings fl w p x -> 
  exists c r', width_fmt w ++ prec_fmt p ++ spec_fmt x ++ r = c :: r' /\ c <> 0 /\ flag_of c = None.
Proof.
  intros Hw Hx. destruct w as [|n|n]; cbn [width_fmt app]; [|cbn in Hw|by repeat eexists].
  - destruct p; cbn [prec_fmt app]; [|by repeat eexists..]. rewrite spec_fmt_mod.
    destruct (conv_char_letter _ _ _ _ Hx) as [(H0 & _ & _ & _ & H1) _].
    destruct (spec_mod x); cbn [mod_fmt app]; repeat eexists; done || lia.
  - unfold fmt_int. rewrite (proj2 (Z.ltb_ge n 0)), Z.abs_eq by lia. cbn [app].
    destruct (digits_aux_head 64 10 n []) as (z & zs & E & Hz); [lia|split; [lia|]|].
    { eapply Z.lt_le_trans with (2 ^ 31); [lia|by vm_compute]. }
    unfold digits. rewrite E. cbn [fmap list_fmap app]. repeat eexists.
    + unfold digit_char. case_match; lia.
    + assert (z = 1 \/ z = 2 \/ z = 3 \/ z = 4 \/ z = 5 \/ z = 6 \/ z = 7 \/ z = 8 \/ z = 9) as Hz' by lia.
      by destruct_or! Hz'; subst z.
Qed.

Context (Hm0 : (0 < maxlen)%nat) (Hm1 : Z.of_nat maxlen < 2 ^ 31).

Lemma item_run i c r l d t t' :
  item_ok strings i -> written t d ->
  (forall d', written (t ++ item_text strings i) d' ->
    prints (in_front DP_S_DEFAULT (c :: r) l 0 (-1) 0 0 d') (t ++ item_text strings i ++ t')) ->
  prints (in_front DP_S_DEFAULT (item_fmt i ++ c :: r) (item_args i ++ l) 0 (-1) 0 0 d) (t ++ item_text strings i ++ t').
Proof.
  intros Hi Hd Hr. destruct i as [x|fl w p x]; cbn [item_fmt item_args item_text app] in *.
  - destruct Hi as [Hx Hne]. apply prints_round; [done|cbn; lia|done|].
    destruct (emits_outch str0 maxlen Hmax x t d Hd) as (d' & E & Hd'). rewrite u8_small in Hd' by lia.
    eexists. split; [|by apply Hr]. cbn. rewrite (proj2 (Z.eqb_neq _ _)) by done. cbn. unfold run_out. cbn [in_front out]. rewrite E. done.
  - destruct Hi as (Hfl & Hw & Hp & Hx).
    assert (Hw0 : width_ok 0 w) by (destruct w; cbn in *; lia).
    apply prints_round; [done..|]. rewrite <- !app_assoc.
    destruct (width_head w p x (c :: r) fl Hw Hx) as (h & r' & E & Hh0 & Hh).
    eexists (in_front DP_S_FLAGS (fl ++ width_fmt w ++ prec_fmt p ++ spec_fmt x ++ c :: r)
      (width_args w ++ width_args p ++ spec_args x ++ l) 0 (-1) 0 0 d). split.
    { rewrite E. by destruct fl. }
    rewrite E. apply flags_run; [done..|]. rewrite <- E. fold (flags_of fl). rewrite spec_fmt_mod, <- app_assoc.
    destruct (conv_char_letter _ _ _ _ Hx) as [Hlet Hcf].
    destruct (mod_head (spec_mod x) (conv_char x) (c :: r) Hlet) as (h2 & r2 & E2 & L2).
    destruct (prec_head p h2 r2 L2) as (h1 & r1 & E1 & L1).
    cbn [app]. rewrite E2, E1. apply width_run; [done..|]. rewrite <- E1. apply prec_run; [done..|]. rewrite <- E2.
    apply mod_run; [done|by destruct Hlet|done|]. by apply spec_run.
Qed.

Lemma items_run items l d t :
  Forall (item_ok strings) items -> written t d ->
  prints (in_front DP_S_DEFAULT ((items ≫= item_fmt) ++ [0]) ((items ≫= item_args) ++ l) 0 (-1) 0 0 d)
    (t ++ (items ≫= item_text strings)).
Proof.
  intros Hi. revert d t. induction Hi as [|i items Hi _ IH]; intros d t Hd; cbn [mbind list_bind app].
  - rewrite app_nil_r. by apply prints_end.
  - rewrite <- !app_assoc. destruct ((items ≫= item_fmt) ++ [0]) as [|c r] eqn:E; [by apply app_eq_nil in E as [_ E]|].
    apply item_run; [done..|]. intros d' Hd'. rewrite app_assoc. by apply IH.
Qed.
End Machine.

(** ** The whole call *)

Lemma cstr_until_nul l r : cstr (l ++ 0 :: r) = Some (until_nul l).
Proof. induction l as [|c l IH]; [done|]. cbn [app cstr until_nul]. destruct (c =? 0); [done|]. by rewrite IH. Qed.

(** The NUL goes behind the text that fits. *)
Lemma written_nul str count t d :
  (0 < count <= length str)%nat -> Z.of_nat count < 2 ^ 31 -> written str count t d ->
  mstore (buffer d) (if Z.of_nat (currlen d) <? u64 (Z.of_nat count - 1) then currlen d else (count - 1)%nat) [0] =
  Some (take (count - 1) t ++ 0 :: drop (S (length (take (count - 1) t))) str).
Proof.
  intros Hc Hc2 Hw. unfold written in Hw. cbv zeta in Hw. subst d. cbn [buffer currlen]. rewrite u64_small by lia.
  assert (E : (if Z.of_nat (length (take count t)) <? Z.of_nat count - 1 then length (take count t) else (count - 1)%nat) =
    length (take (count - 1) t)) by (rewrite !length_take; destruct (Z.ltb_spec (Z.of_nat (count `min` length t)) (Z.of_nat count - 1)); lia).
  rewrite E. rewrite mstore_Some by (rewrite !length_app, !length_take, length_drop; cbn; lia).
  f_equal. destruct (decide (length t <= count - 1)%nat) as [Hl|Hl].
  - rewrite !(take_ge t) by lia. rewrite take_app_length. cbn [length app].
    rewrite drop_app, drop_drop, drop_ge by lia. cbn [app]. do 2 f_equal. f_equal. lia.
  - rewrite !length_take, !Nat.min_l by lia. rewrite take_app_le, take_take by (rewrite length_take; lia).
    rewrite Nat.min_l by lia. cbn [length]. replace (count - 1 + 1)%nat with count by lia.
    rewrite drop_app, drop_drop, length_take, Nat.min_l, (drop_ge (take count t)) by (rewrite ?length_take; lia).
    cbn [app]. do 2 f_equal. f_equal. lia.
Qed.

(** C22: A call prints what the C standard says, cut to the buffer - unless it
    asks for one of the things that [item_ok] leaves out with the reason, which
    this printf does in its own way. *)
Theorem snprintf_prints {F : Type} `{LongDouble F} (strings : Z -> list Z) str count items (rest : list (@arg F)) :
  Forall (item_ok strings) items -> (0 < count <= length str)%nat -> Z.of_nat count < 2 ^ 31 ->
  let text := take (count - 1) (items ≫= item_text strings) in
  mutt_vsnprintf strings str count ((items ≫= item_fmt) ++ [0]) ((items ≫= item_args) ++ rest) =
  Some (length (until_nul text),
    Dst (text ++ 0 :: drop (S (length text)) str) (Nat.min count (length (items ≫= item_text strings))) []).
Proof.
  intros Hi Hc Hc2 text. unfold mutt_vsnprintf. destruct str as [|c0 str]; [cbn in Hc; lia|].
  rewrite mstore_Some by (cbn; lia). cbn [mbind option_bind take drop app length Nat.add].
  rewrite drop_0. unfold dopr. assert (Hw : written (0 :: str) count [] (Dst (0 :: str) 0 [])) by (unfold written; by rewrite take_nil).
  destruct (items_run strings (0 :: str) count ltac:(cbn in *; lia) ltac:(lia) Hc2 items rest _ _ Hi Hw)
    as (s' & Hr & Hs & Hd).
  destruct ((items ≫= item_fmt) ++ [0]) as [|c r] eqn:E; [by apply app_eq_nil in E as [_ E]|].
  cbn [mbind option_bind]. rewrite (dopr_loop_reaches _ _ _ s') by (done || lia). cbn [mbind option_bind].
  rewrite (written_nul (0 :: str) count _ _ ltac:(cbn in *; lia) Hc2 Hd). cbn [mbind option_bind app buffer currlen stored].
  rewrite Hd. cbn [app currlen stored]. rewrite cstr_until_nul. cbn [mbind option_bind]. do 3 f_equal. by rewrite length_take.
Qed.

Definition sample_items : list item :=
  [Text (ch "a"); Directive [ch "-"] (WLit 5) WNone (SInt false MNone (-42));
   Directive [ch "0"] (WStar 6) WNone (SUns 16 true MLong 48879); Directive [] WNone (WLit 3) (SStr 1)].

Lemma snprintf_prints_witness :
  mutt_vsnprintf (F := Q) (fun _ => bs "store") (replicate 40 170) 13 (bs "a%-5d%0*lX%.3s" ++ [0])
    [AInt (-42); AInt 6; ALong 48879; APtr 1; AInt 7] =
  Some (12%nat, Dst (bs "a-42  00BEEF" ++ 0 :: replicate 27 170) 13 []).
Proof.
  refine (eq_trans (snprintf_prints (fun _ => bs "store") (replicate 40 170) 13 sample_items [AInt 7] _ _ _) _).
  - assert (Hd : forall c, is_Some (flag_of c) -> Forall (fun c => is_Some (flag_of c)) [c]) by (intros; by repeat constructor).
    repeat (apply Forall_cons; split); [done| | | |constructor]; (split; [done || (apply Hd; by eexists)|]);
      repeat split; try done; try (right; split; [by right|done]); [by repeat constructor|left; cbn; lia].
  - cbn. lia.
  - done.
  - vm_compute. reflexivity.
Defined.

(** What is printed otherwise: numbers of 20 digits lose the first one, the
    precision of a string counts its padding, and [%w] at the end of a format
    reads behind it. *)
Example long_number_cut :
  option_map fst (mutt_vsnprintf (F := Q) (fun _ => []) (replicate 40 0) 40 (bs "%lu" ++ [0]) [ALong (2 ^ 64 - 1)]) = Some 19%nat.
Proof. vm_compute. reflexivity. Qed.
Example padding_counted :
  option_map (fun r => take 3 (buffer (snd r)))
    (mutt_vsnprintf (F := Q) (fun _ => bs "store") (replicate 40 0) 40 (bs "%8.3s" ++ [0]) [APtr 1]) = Some (bs "   ").
Proof. vm_compute. reflexivity. Qed.
Example format_overrun : mutt_vsnprintf (F := Q) (fun _ => []) (replicate 40 0) 40 (bs "%w" ++ [0]) [] = None.
Proof. reflexivity. Qed.

(** ** Floating-point numbers, with exact arithmetic *)
Section Exact.
Open Scope Z_scope.

(** |x| * 10^p, rounded. *)
Definition rounded (x : Q) (p : Z) : Z :=
  (2 * 10 ^ p * Z.abs (Qnum x) + Z.pos (Qden x)) / (2 * Z.pos (Qden x)).

Lemma long_ok x : - 2 ^ 63 <= x < 2 ^ 63 -> long_ x = Some x.
Proof. intros Hx. unfold long_. by rewrite bool_decide_true. Qed.

Lemma pow10_exact n z : pow10_loop n (z # 1) = (z * 10 ^ Z.of_nat n) # 1.
Proof.
  revert z. induction n as [|n IH]; intros z; cbn [pow10_loop]; [by rewrite Z.mul_1_r|].
  change (ld_mul (z # 1) (ld_of_Z 10)) with ((z * 10) # 1). rewrite IH, Nat2Z.inj_succ, Z.pow_succ_r by lia.
  f_equal. lia.
Qed.

Lemma round_exact n b :
  0 <= n -> n / Z.pos b < 2 ^ 62 -> round_ (n # b) = Some ((2 * n + Z.pos b) / (2 * Z.pos b)).
Proof.
  intros Hn Hb. unfold round_. change (ld_trunc (n # b)) with (n ÷ Z.pos b). rewrite Z.quot_div_nonneg by lia.
  pose proof (Z.div_pos n (Z.pos b)). pose proof (Z.div_mod n (Z.pos b)) as Hdm. pose proof (Z.mod_pos_bound n (Z.pos b)) as Hm.
  rewrite long_ok by lia. cbn [mbind option_bind].
  set (q := n / Z.pos b) in *. set (m := n `mod` Z.pos b) in *.
  assert (Hle : ld_le ld_half (ld_sub (n # b) (ld_of_Z q)) = (Z.pos b <=? 2 * m)).
  { cbn -[Z.mul Z.leb Z.add]. unfold Qle_bool. cbn -[Z.mul Z.leb Z.add]. rewrite Pos.mul_1_r. apply eq_bool_prop_intro. 
    rewrite !Is_true_true, !Z.leb_le. lia. }
  rewrite Hle. destruct (Z.leb_spec (Z.pos b) (2 * m)).
  - rewrite long_ok by lia. f_equal. apply Z.div_unique with (2 * m - Z.pos b); lia.
  - f_equal. apply Z.div_unique with (2 * m + Z.pos b); lia.
Qed.
Lemma fp_parts_exact a b p :
  0 <= a -> a / Z.pos b < 2 ^ 62 -> 0 <= p <= 9 ->
  fp_parts (a # b) p = Some (rounded (a # b) p / 10 ^ p, rounded (a # b) p `mod` 10 ^ p).
Proof.
  intros Ha Hab Hp. unfold fp_parts. change (ld_trunc (a # b)) with (a ÷ Z.pos b). rewrite Z.quot_div_nonneg by lia.
  assert (0 <= a / Z.pos b) by (apply Z.div_pos; lia). pose proof (Z.div_mod a (Z.pos b)) as Hdm. pose proof (Z.mod_pos_bound a (Z.pos b)) as Hm.
  rewrite long_ok by lia. cbn [mbind option_bind]. set (q := a / Z.pos b) in *. set (m := a `mod` Z.pos b) in *.
  assert (Ht : 1 <= 10 ^ p <= 10 ^ 9) by (split; [apply (Z.pow_le_mono_r 10 0 p)|apply Z.pow_le_mono_r]; lia).
  assert (Hpow : pow10_ p = (10 ^ p # 1)).
  { unfold pow10_. change (ld_of_Z 1) with (1 # 1). rewrite pow10_exact, Z2Nat.id by lia. f_equal. lia. }
  rewrite Hpow. set (t := 10 ^ p) in *.
  assert (Hmul : ld_mul (t # 1) (ld_sub (a # b) (ld_of_Z q)) = (t * m # b)).
  { cbn -[Z.mul Z.add]. unfold Qmult, Qminus, Qplus, Qopp. cbn -[Z.mul Z.add]. rewrite Pos.mul_1_r. f_equal. lia. }
  rewrite Hmul, round_exact; [|lia|apply Z.div_lt_upper_bound; nia]. cbn [mbind option_bind].
  set (f := (2 * (t * m) + Z.pos b) / (2 * Z.pos b)).
  assert (Hf : 0 <= f <= t) by (split; [apply Z.div_pos; lia|apply Z.lt_succ_r, Z.div_lt_upper_bound; nia]).
  assert (HR : rounded (a # b) p = q * t + f).
  { unfold rounded. cbn [Qnum Qden]. fold t. rewrite Z.abs_eq by done. unfold f. 
    replace (2 * t * a + Z.pos b) with (2 * (t * m) + Z.pos b + q * t * (2 * Z.pos b)) by nia.
    rewrite Z.div_add by lia. lia. }
  assert (Hle : ld_le (t # 1) (ld_of_Z f) = (t <=? f)).
  { cbn. unfold Qle_bool. cbn. by rewrite !Z.mul_1_r. }
  rewrite Hle, HR. destruct (Z.leb_spec t f).
  - rewrite (long_ok (q + 1)) by lia. cbn [mbind option_bind]. replace f with t by lia.
    change (ld_trunc (ld_sub (ld_of_Z t) (t # 1))) with ((t * 1 + - t * 1) ÷ 1). 
    replace (t * 1 + - t * 1) with 0 by lia. rewrite long_ok by done. cbn. do 2 f_equal.
    + apply Z.div_unique with 0; lia.
    + change (0 ÷ 1) with 0. apply Z.mod_unique with (q + 1); lia.
  - do 2 f_equal; [apply Z.div_unique with f; lia|apply Z.mod_unique with q; lia].
Qed.
Lemma rounded_int x p : 0 <= p -> Z.abs (Qnum x) / Z.pos (Qden x) < 2 ^ 62 -> 0 <= rounded x p / 10 ^ p < 2 ^ 62 + 2.
Proof.
  intros Hp Hx. unfold rounded. destruct x as [n b]. cbn [Qnum Qden] in *. set (a := Z.abs n) in *.
  assert (0 <= a) by (subst a; lia). assert (1 <= 10 ^ p) by (apply (Z.pow_le_mono_r 10 0 p); lia). set (t := 10 ^ p) in *.
  pose proof (Z.mul_succ_div_gt a (Z.pos b)) as Hq. set (q := a / Z.pos b) in *. clearbody a t. 
  split; [apply Z.div_pos; [apply Z.div_pos; nia|lia]|].
  apply Z.div_lt_upper_bound; [lia|]. apply Z.div_lt_upper_bound; [lia|].
  assert (a + Z.pos b <= Z.pos b * (q + 2)) by lia. assert (2 * t * a + Z.pos b < 2 * Z.pos b * (t * (q + 2))); [|nia].
  assert (2 * t * (a + Z.pos b) <= 2 * t * (Z.pos b * (q + 2))) by (apply Z.mul_le_mono_nonneg_l; lia). nia.
Qed.

Lemma fmtfp_out_run str0 maxlen s z ic fc :
  (maxlen <= length str0)%nat -> byte_ok s -> Forall byte_ok ic -> Forall byte_ok fc ->
  emits str0 maxlen (fmtfp_out maxlen s 0 z 0 ic fc) tt
    (sign_list s ++ reverse ic ++ [ch "."] ++ reverse fc ++ replicate (Z.to_nat z) (ch "0")).
Proof.
  intros Hmax Hs Hi Hf. unfold fmtfp_out. change (has 0 DP_F_ZERO && (0 <? 0)) with false. cbn iota.
  apply (out_bind _ _ _ _ (s, 0) _ []); [apply out_ret|]. cbn iota.
  apply (out_bind _ _ _ _ tt _ []); [apply out_ret|].
  eapply out_bind; [by apply emits_sign|]. eapply out_bind; [by apply emits_out_list, Forall_reverse|].
  eapply out_bind; [by apply (emits_outch str0 maxlen Hmax (ch "."))|].
  eapply out_bind; [by apply emits_out_list, Forall_reverse|].
  rewrite <- (app_nil_r (replicate _ _)). eapply out_bind; [by apply emits_out_n|]. apply out_ret.
Qed.

(** The fraction is printed with leading zeros behind its digits. *)
Lemma fmtfp_run str0 maxlen (x : Q) p :
  (maxlen <= length str0)%nat -> 0 <= p <= 9 -> Z.abs (Qnum x) / Z.pos (Qden x) < 2 ^ 62 ->
  let R := rounded x p in
  let frac := digits_text false 10 (R `mod` 10 ^ p) in
  emits str0 maxlen (fmtfp maxlen x 0 p 0) tt
    (sign_list (if Qnum x <? 0 then ch "-" else 0) ++ digits_text false 10 (R / 10 ^ p) ++ [ch "."] ++
     frac ++ replicate (Z.to_nat p - length frac) (ch "0")).
Proof.
  intros Hmax Hp Hx R frac. unfold fmtfp. rewrite (proj2 (Z.ltb_ge p 0)), (proj2 (Z.ltb_ge 9 p)) by lia.
  assert (Hs : sign_of (ld_lt x (ld_of_Z 0)) 0 = if Qnum x <? 0 then ch "-" else 0).
  { unfold sign_of. replace (ld_lt x (ld_of_Z 0)) with (Qnum x <? 0); [done|].
    cbn. unfold Qle_bool. cbn. rewrite Z.mul_1_r, Z.leb_antisym. by rewrite negb_involutive. }
  rewrite Hs. set (s := if Qnum x <? 0 then ch "-" else 0).
  assert (Ha : abs_val x = (Z.abs (Qnum x) # Qden x)).
  { unfold abs_val. replace (ld_lt x (ld_of_Z 0)) with (Qnum x <? 0).
    - destruct x as [a b]. cbn [Qnum Qden]. destruct (Z.ltb_spec a 0); [by rewrite Z.abs_neq by lia|by rewrite Z.abs_eq by lia].
    - cbn. unfold Qle_bool. cbn. rewrite Z.mul_1_r, Z.leb_antisym. by rewrite negb_involutive. }
  assert (HR : rounded (Z.abs (Qnum x) # Qden x) p = R) by (unfold R, rounded; cbn [Qnum Qden]; by rewrite Z.abs_eq by lia).
  eapply emits_lift; [rewrite Ha; by apply fp_parts_exact; [lia..|done|done]|].
  rewrite HR. cbv zeta.
  pose proof (converted_length false 10 (R / 10 ^ p)) as Hl1. pose proof (converted_length false 10 (R `mod` 10 ^ p)) as Hl2.
  pose proof (rounded_int x p ltac:(lia) Hx) as Hint. fold R in Hint.
  assert (Hfr : 0 <= R `mod` 10 ^ p < 10 ^ 19).
  { pose proof (Z.mod_pos_bound R (10 ^ p)). assert (1 <= 10 ^ p <= 10 ^ 9); [|lia].
    split; [apply (Z.pow_le_mono_r 10 0 p)|apply Z.pow_le_mono_r]; lia. }
  assert (E1 : digits_text false 10 (R / 10 ^ p) = reverse (converted false 10 (R / 10 ^ p))) by (by rewrite converted_digits by lia).
  assert (E2 : frac = reverse (converted false 10 (R `mod` 10 ^ p))) by (by rewrite converted_digits by lia).
  rewrite E1, E2, length_reverse. 
  eapply emits_lift; [unfold int_; rewrite bool_decide_true; [done|]; destruct (s =? 0); lia|].
  rewrite (proj2 (Z.ltb_lt _ 0)) by (destruct (s =? 0); lia).
  change (has 0 DP_F_MINUS) with false. cbn iota.
  replace (Z.to_nat p - length (converted false 10 (R `mod` 10 ^ p)))%nat
    with (Z.to_nat (Z.max 0 (p - Z.of_nat (length (converted false 10 (R `mod` 10 ^ p)))))) by lia.
  apply fmtfp_out_run; [done| |by apply converted_ok..]. subst s. by destruct (Qnum x <? 0).
Qed.
Lemma num_val_length ds acc : digits_ok 10 ds -> 0 <= acc -> num_val 10 acc ds < (acc + 1) * 10 ^ Z.of_nat (length ds).
Proof.
  intros Hds. revert acc. induction Hds as [|z ds Hz _ IH]; intros acc Ha; unfold num_val in *; cbn [foldl length]; [cbn; lia|].
  rewrite Nat2Z.inj_succ, Z.pow_succ_r by lia. specialize (IH (acc * 10 + z)). nia.
Qed.

(** Where the digits are padded makes no difference when there are enough of
    them, or the fraction is 0. *)
Lemma fraction_text p v :
  1 <= p <= 9 -> v = 0 \/ 10 ^ (p - 1) <= v < 10 ^ p ->
  digits_text false 10 v ++ replicate (Z.to_nat p - length (digits_text false 10 v)) (ch "0") = fmt_prec 10 (Z.to_nat p) v.
Proof.
  intros Hp Hv. unfold fmt_prec, digits_text. rewrite length_fmap, fmap_app, fmap_replicate. change (digit_char 0) with (ch "0").
  destruct Hv as [-> | Hv].
  - change (digits 10 0) with [0]. cbn [fmap list_fmap length]. change (convert_char false 0) with (ch "0").
    change (digit_char 0) with (ch "0"). by rewrite <- replicate_cons_app.
  - assert (0 < 10 ^ (p - 1)) by (apply Z.pow_pos_nonneg; lia). assert (10 ^ p <= 10 ^ 9) by (apply Z.pow_le_mono_r; lia).
    destruct (digits_spec 10 v) as (H1 & _ & H3 & _); [lia..|].
    assert (Z.to_nat p <= length (digits 10 v))%nat as Hl.
    { destruct (decide (Z.to_nat p <= length (digits 10 v))%nat) as [|Hn]; [done|]. exfalso.
      pose proof (num_val_length (digits 10 v) 0 H1) as Hb. rewrite H3 in Hb.
      assert (10 ^ Z.of_nat (length (digits 10 v)) <= 10 ^ (p - 1)) by (apply Z.pow_le_mono_r; lia). lia. }
    replace (Z.to_nat p - length (digits 10 v))%nat with 0%nat by lia. cbn [replicate app]. by rewrite app_nil_r.
Qed.

(** With exact arithmetic, a floating-point number is printed rounded
    to its precision, if the first digit of the fraction is not 0 or all of
    them are. *)
Theorem fmtfp_rounds str0 maxlen (x : Q) p d :
  let v := rounded x p `mod` 10 ^ p in
  (maxlen <= length str0)%nat -> 1 <= p <= 9 -> Z.abs (Qnum x) / Z.pos (Qden x) < 2 ^ 62 ->
  v = 0 \/ 10 ^ (p - 1) <= v -> written str0 maxlen [] d ->
  exists d', fmtfp maxlen x 0 p 0 d = Some (tt, d') /\
    written str0 maxlen
      ((if Qnum x <? 0 then [ch "-"] else []) ++ (digit_char <$> digits 10 (rounded x p / 10 ^ p)) ++ ch "." ::
       fmt_prec 10 (Z.to_nat p) v) d'.
Proof.
  intros v Hmax Hp Hx Hv Hd. destruct (fmtfp_run str0 maxlen x p Hmax ltac:(lia) Hx [] d Hd) as (d' & E & Hd').
  exists d'. split; [done|]. fold v in Hd'. rewrite fraction_text in Hd' by (pose proof (Z.mod_pos_bound (rounded x p) (10 ^ p)); lia).
  by destruct (Qnum x <? 0).
Qed.

(** Otherwise the zeros in front are printed behind: 1.05 as 1.50. *)
Example fmtfp_misprints :
  option_map (fun r => take 4 (buffer (snd r))) (fmtfp 8 (105 # 100) 0 2 0 (Dst (replicate 8 0) 0 [])) = Some (bs "1.50").
Proof. reflexivity. Qed.
Lemma fmtfp_rounds_witness :
  exists d, fmtfp 8 ((-314159 # 100000)) 0 3 0 (Dst (replicate 8 0) 0 []) = Some (tt, d) /\
    written (replicate 8 0) 8 (bs "-3.142") d.
Proof.
  destruct (fmtfp_rounds (replicate 8 0) 8 ((-314159 # 100000)) 3 (Dst (replicate 8 0) 0 [])) as (d & E & Hd);
    [cbn; lia|lia|by vm_compute|right; by vm_compute|done|]. by exists d.
Defined.
End Exact.

End SnprintfText.
