(* ===== verification/Ini.v ===== *)
(** * scrape: configuration of the mail extension (ini.c, imap_ext.c)

    [ini_parse] gives a handler the names and values of a file, with the section
    each is in.  Strings are lists without their NUL: the line buffer is cut
    in place, and what is cut off is not read again. *)
From S2P Require Import Prelude CLib.

Module Ini.

Definition MAX_SECTION : nat := 50.
Definition MAX_NAME : nat := 50.
Definition INI_MAX_LINE : nat := 200.
Definition INI_INLINE_COMMENT_PREFIXES : list Z := bs ";".

(** ** Characters *)

(** White space in front; [rstrip] walks the same way from behind. *)
Fixpoint lskip (s : list Z) : list Z :=
  match s with c :: s' => if isspace c then lskip s' else s | [] => [] end.
Definition rstrip (s : list Z) : list Z := reverse (lskip (reverse s)).

Definition strchr (s : list Z) (c : Z) : bool := existsb (Z.eqb c) s.

(** How far it goes; [chars] of [None] is NULL. *)
Fixpoint find_loop (was_space : bool) (chars : option (list Z)) (s : list Z) : nat :=
  match s with
  | [] => 0%nat
  | c :: s' =>
      if match chars with Some l => strchr l c | None => false end
         || (was_space && strchr INI_INLINE_COMMENT_PREFIXES c)
      then 0%nat else S (find_loop (isspace c) chars s')
  end.
Definition find_chars_or_comment (s : list Z) (chars : option (list Z)) : nat := find_loop false chars s.

(** What is left of a string in an array of [size] bytes. *)
Definition strncpy0 (src : list Z) (size : nat) : list Z := take (size - 1) src.

(** ** A line *)
Section Parser.
Context {U : Type} (handler : U -> list Z -> list Z -> list Z -> Z * U).

Record parser := Parser {
  section : list Z;
  prev_name : list Z;
  error : Z;
  user : U;
}.

(** [if (!error) error = lineno;] *)
Definition set_error (lineno : Z) (p : parser) : parser :=
  Parser (section p) (prev_name p) (if error p =? 0 then lineno else error p) (user p).

(** [if (!handler(user, section, name, value) && !error) error = lineno;] *)
Definition call (lineno : Z) (name value : list Z) (p : parser) : parser :=
  let '(r, u) := handler (user p) (section p) name value in
  let p := Parser (section p) (prev_name p) (error p) u in
  if r =? 0 then set_error lineno p else p.

Definition starts_with (c : Z) (s : list Z) : bool := match s with x :: _ => x =? c | [] => false end.

(** A section, or a name and its value. *)
Definition parse_item (lineno : Z) (start : list Z) (p : parser) : parser :=
  if starts_with (ch "[") start then
    let start := drop 1 start in
    let e := find_chars_or_comment start (Some (bs "]")) in
    if starts_with (ch "]") (drop e start) then
      Parser (strncpy0 (take e start) MAX_SECTION) [] (error p) (user p)
    else set_error lineno p
  else if negb (bool_decide (start = [])) then
    let e := find_chars_or_comment start (Some (bs "=:")) in
    if starts_with (ch "=") (drop e start) || starts_with (ch ":") (drop e start) then
      let name := rstrip (take e start) in
      let value := lskip (drop (S e) start) in
      let value := rstrip (take (find_chars_or_comment value None) value) in
      let p := Parser (section p) (strncpy0 name MAX_NAME) (error p) (user p) in
      call lineno name value p
    else set_error lineno p
  else p.

(** From [start] on, which [moved] tells is not the start of the line. *)
Definition parse_start (lineno : Z) (moved : bool) (start : list Z) (p : parser) : parser :=
  let stripped := rstrip start in
  let start := lskip stripped in
  let moved := moved || negb (length start =? length stripped)%nat in    (* start > line *)
  if starts_with (ch ";") start || starts_with (ch "#") start then p
  else if negb (bool_decide (prev_name p = [])) && negb (bool_decide (start = [])) && moved then
    call lineno (prev_name p) start p
  else parse_item lineno start p.

Definition parse_line (lineno : Z) (line : list Z) (p : parser) : parser :=
  if (lineno =? 1) && bool_decide (take 3 line = [239; 187; 191])
  then parse_start lineno true (drop 3 line) p else parse_start lineno false line p.

(** The loop over the lines of the reader, none of which has a NUL. *)
Fixpoint parse_lines (lines : list (list Z)) (lineno : Z) (p : parser) : parser :=
  match lines with
  | [] => p
  | line :: lines => let lineno := lineno + 1 in parse_lines lines lineno (parse_line lineno line p)
  end.

Definition ini_parse_stream (lines : list (list Z)) (u : U) : Z * U :=
  let p := parse_lines lines 0 (Parser [] [] 0 u) in (error p, user p).

(** [fgets]: at most [num - 1] characters, to the end of the line; the string
    ends at a NUL in it. *)
Fixpoint fgets_loop (n : nat) (s : list Z) : list Z * list Z :=
  match n, s with
  | S n', c :: s' => if c =? 10 then ([c], s') else let '(l, r) := fgets_loop n' s' in (c :: l, r)
  | _, _ => ([], s)
  end.
Fixpoint fgets_all (fuel : nat) (num : nat) (s : list Z) : list (list Z) :=
  match fuel, s with
  | S f, _ :: _ => let '(l, r) := fgets_loop (num - 1) s in until_nul l :: fgets_all f num r
  | _, _ => []
  end.

Definition ini_parse_file (file : list Z) (u : U) : Z * U :=
  ini_parse_stream (fgets_all (length file) INI_MAX_LINE file) u.

(** [None] is a file that cannot be opened. *)
Definition ini_parse (file : option (list Z)) (u : U) : Z * U :=
  match file with None => (-1, u) | Some s => ini_parse_file s u end.
End Parser.

(** ** The mail extension *)

(** What is [None] was never set. *)
Record configuration := Configuration {
  host : option (list Z);
  username : option (list Z);
  password : option (list Z);
}.

Definition handler (cnf : configuration) (section name value : list Z) : Z * configuration :=
  let MATCH s n := bool_decide (section = s) && bool_decide (name = n) in
  if MATCH (bs "general") (bs "host") then (1, Configuration (Some value) (username cnf) (password cnf))
  else if MATCH (bs "user") (bs "username") then (1, Configuration (host cnf) (Some value) (password cnf))
  else if MATCH (bs "user") (bs "password") then (1, Configuration (host cnf) (username cnf) (Some value))
  else (0, cnf).

(** libcurl: what it hands to [write_buffer], and whether it went well. *)
Definition curl : Type := list Z -> list Z -> list Z -> list (list Z) * bool.

Definition write_buffer (s data : list Z) : list Z := s ++ data.

(** The array is large enough for what [strcpy] and [strcat] put there. *)
Definition imap_uri (host : list Z) : option (list Z) :=
  let uri := host ++ bs "/INBOX/;UID=1" in
  if (length uri <? 1024)%nat then Some uri else None.

Definition imap_call (perform : curl) (buffer username password host : list Z) : option (bool * list Z) :=
  uri ← imap_uri host;
  let '(chunks, ok) := perform username password uri in
  Some (ok, foldl write_buffer buffer chunks).

(** The exit code, and what is pushed; using a member that was never set is
    undefined. *)
Definition mav_main (perform : curl) (file : option (list Z)) : option (Z * option (list Z * list Z)) :=
  let '(r, config) := ini_parse handler file (Configuration None None None) in
  if r <? 0 then Some (1, None)
  else
    u ← username config; p ← password config; h ← host config;
    '(ok, s) ← imap_call perform [] u p h;
    if (ok : bool) then Some (0, Some (bs "mail", s)) else Some (1, None).

(** ** What a file says *)
Inductive entry :=
| Blank (ws : list Z)
| Comment (ws : list Z) (hash : bool) (text : list Z)
| Header (name tail : list Z)
| Pair (name ws1 : list Z) (colon : bool) (ws2 value : list Z) (comment : option (list Z * list Z))
| More (ws value : list Z).

Definition entry_text (e : entry) : list Z :=
  match e with
  | Blank ws => ws
  | Comment ws hash text => ws ++ (if hash then ch "#" else ch ";") :: text
  | Header name tail => ch "[" :: name ++ ch "]" :: tail
  | Pair name ws1 colon ws2 value comment =>
      name ++ ws1 ++ (if colon then ch ":" else ch "=") :: ws2 ++ value ++
      match comment with Some (ws, text) => ws ++ ch ";" :: text | None => [] end
  | More ws value => ws ++ value
  end.

Definition spaces (s : list Z) : Prop := Forall (fun c => isspace c = true) s.
Definition solid (o : option Z) : Prop := exists c, o = Some c /\ isspace c = false.
(** Something without white space around it. *)
Definition trimmed (s : list Z) : Prop := solid (head s) /\ solid (last s).

(** None of [chars], and no semicolon behind white space. *)
Fixpoint unbroken (was_space : bool) (chars s : list Z) : bool :=
  match s with
  | [] => true
  | c :: s' => negb (strchr chars c) && negb (was_space && (c =? ch ";")) && unbroken (isspace c) chars s'
  end.

(** An entry behind a name, [] for none. *)
Definition entry_ok (prev : list Z) (e : entry) : Prop :=
  Forall (fun c => c <> 0 /\ c <> 10) (entry_text e) /\ (length (entry_text e) <= 195)%nat /\
  match e with
  | Blank ws => spaces ws
  | Comment ws _ _ => spaces ws
  | Header name _ => unbroken false (bs "]") name = true /\ (length name < MAX_SECTION)%nat
  | Pair name ws1 _ ws2 value comment =>
      trimmed name /\ (forall c, head name = Some c -> c <> ch ";" /\ c <> ch "#" /\ c <> ch "[") /\
      unbroken false (bs "=:") name = true /\ (length name < MAX_NAME)%nat /\ spaces ws1 /\ spaces ws2 /\
      (value = [] /\ comment = None \/ trimmed value) /\ unbroken false [] value = true /\
      match comment with Some (ws, _) => ws <> [] /\ spaces ws | None => True end
  | More ws value =>
      prev <> [] /\ ws <> [] /\ spaces ws /\ trimmed value /\ (forall c, head value = Some c -> c <> ch ";" /\ c <> ch "#")
  end.

(** The names and values with their sections and lines. *)
Definition prev_after (prev : list Z) (e : entry) : list Z :=
  match e with Header _ _ => [] | Pair name _ _ _ _ _ => name | _ => prev end.
Definition section_after (sec : list Z) (e : entry) : list Z := match e with Header name _ => name | _ => sec end.
Definition event (lineno : Z) (sec prev : list Z) (e : entry) : list (Z * list Z * list Z * list Z) :=
  match e with
  | Pair name _ _ _ value _ => [(lineno, sec, name, value)]
  | More _ value => [(lineno, sec, prev, value)]
  | _ => []
  end.

Fixpoint file_ok (prev : list Z) (l : list entry) : Prop :=
  match l with [] => True | e :: l => entry_ok prev e /\ file_ok (prev_after prev e) l end.
Fixpoint events (lineno : Z) (sec prev : list Z) (l : list entry) : list (Z * list Z * list Z * list Z) :=
  match l with
  | [] => []
  | e :: l => event lineno sec prev e ++ events (lineno + 1) (section_after sec e) (prev_after prev e) l
  end.

Definition BOM : list Z := [239; 187; 191].
Definition file_text (bom : bool) (l : list entry) : list Z :=
  (if bom then BOM else []) ++ (l ≫= fun e => entry_text e ++ [10]).

(** One after the other to the handler; the line of the first it refuses. *)
Definition deliver {U} (handler : U -> list Z -> list Z -> list Z -> Z * U)
    (r : Z * U) (e : Z * list Z * list Z * list Z) : Z * U :=
  let '(line, sec, name, value) := e in
  let '(ok, u) := handler r.2 sec name value in
  ((if (ok =? 0) && (r.1 =? 0) then line else r.1), u).

(** ** White space *)
Lemma lskip_spaces ws s : spaces ws -> lskip (ws ++ s) = lskip s.
Proof. induction 1 as [|c ws Hc _ IH]; [done|]. cbn [app lskip]. by rewrite Hc. Qed.

Lemma lskip_solid s r : solid (head s) -> lskip (s ++ r) = s ++ r.
Proof. intros (c & Hc & Hs). destruct s as [|x s]; [done|]. injection Hc as ->. cbn [app lskip]. by rewrite Hs. Qed.

Lemma lskip_case s : (exists ws c r, s = ws ++ c :: r /\ spaces ws /\ isspace c = false /\ lskip s = c :: r) \/ (spaces s /\ lskip s = []).
Proof.
  induction s as [|x s IH]; [right; by split; [constructor|]|]. cbn [lskip]. destruct (isspace x) eqn:E.
  - destruct IH as [(ws & c & r & -> & Hw & Hc & ->)|[Hs ->]].
    + left. exists (x :: ws), c, r. split; [done|]. split; [by constructor|done].
    + right. split; [by constructor|done].
  - left. exists [], x, s. repeat split; [constructor|done].
Qed.

Lemma spaces_reverse s : spaces s -> spaces (reverse s).
Proof. apply Forall_reverse. Qed.

Lemma rstrip_spaces s ws : spaces ws -> rstrip (s ++ ws) = rstrip s.
Proof. intros Hw. unfold rstrip. by rewrite reverse_app, lskip_spaces by by apply spaces_reverse. Qed.

Lemma head_reverse (s : list Z) : head (reverse s) = last s.
Proof. destruct s as [|x s _] using rev_ind; [done|]. by rewrite reverse_snoc, last_snoc. Qed.

Lemma rstrip_solid s r : solid (last s) -> rstrip (s ++ r) = s ++ rstrip r.
Proof.
  intros Hs. rewrite <- head_reverse in Hs. unfold rstrip. rewrite reverse_app.
  destruct (lskip_case (reverse r)) as [(ws & c & t & E & Hw & Hc & El)|[Hr El]]; rewrite El.
  - rewrite E, <- app_assoc. cbn [app]. rewrite lskip_spaces by done. cbn [lskip]. rewrite Hc.
    change (c :: t ++ reverse s) with ((c :: t) ++ reverse s). by rewrite reverse_app, reverse_involutive.
  - rewrite lskip_spaces by done. rewrite <- (app_nil_r (reverse s)), lskip_solid by done.
    by rewrite app_nil_r, reverse_involutive, reverse_nil, app_nil_r.
Qed.

Lemma rstrip_trimmed s ws : trimmed s -> spaces ws -> rstrip (s ++ ws) = s.
Proof.
  intros [_ Hl] Hw. rewrite rstrip_solid by done. rewrite <- (app_nil_l ws), rstrip_spaces by done.
  by rewrite app_nil_r.
Qed.

Lemma rstrip_idem s : rstrip (rstrip s) = rstrip s.
Proof.
  unfold rstrip. rewrite reverse_involutive. f_equal. destruct (lskip_case (reverse s)) as [(ws & c & r & E & Hw & Hc & ->)|[_ ->]]; [|done].
  cbn [lskip]. by rewrite Hc.
Qed.

Lemma newline_spaces : spaces [10].
Proof. by repeat constructor. Qed.

(** ** Finding the end of a name or a value *)
Lemma find_loop_stop b (chars : list Z) s x r :
  unbroken b chars s = true ->
  strchr chars x || (match last s with Some c => isspace c | None => b end && (x =? ch ";")) = true ->
  find_loop b (Some chars) (s ++ x :: r) = length s.
Proof.
  revert b. induction s as [|c s IH]; intros b Hu Hx; cbn [app find_loop length].
  - cbn [last] in Hx. unfold INI_INLINE_COMMENT_PREFIXES. change (strchr (bs ";") x) with ((x =? ch ";") || false).
    by rewrite orb_false_r, Hx.
  - cbn [unbroken] in Hu. apply andb_true_iff in Hu as [[Hc Hsp]%andb_true_iff Hu].
    apply negb_true_iff in Hc, Hsp. change (strchr INI_INLINE_COMMENT_PREFIXES c) with ((c =? ch ";") || false).
    rewrite orb_false_r, Hc, Hsp. cbn [orb]. f_equal. apply IH; [done|].
    rewrite last_cons in Hx. by destruct (last s).
Qed.

Lemma find_loop_none b s : find_loop b None s = find_loop b (Some []) s.
Proof. revert b. induction s as [|c s IH]; intros b; [done|]. cbn [find_loop strchr existsb]. by rewrite IH. Qed.

Lemma find_loop_end b chars s : unbroken b chars s = true -> find_loop b (Some chars) s = length s.
Proof.
  revert b. induction s as [|c s IH]; intros b Hu; [done|]. cbn [unbroken] in Hu.
  apply andb_true_iff in Hu as [[Hc Hsp]%andb_true_iff Hu]. apply negb_true_iff in Hc, Hsp.
  cbn [find_loop length]. change (strchr INI_INLINE_COMMENT_PREFIXES c) with ((c =? ch ";") || false).
  rewrite orb_false_r, Hc, Hsp. cbn [orb]. by rewrite IH.
Qed.

Lemma unbroken_spaces b chars s ws :
  unbroken b chars s = true -> spaces ws -> Forall (fun c => isspace c = false) chars -> unbroken b chars (s ++ ws) = true.
Proof.
  intros Hs Hw Hc. revert b Hs. induction s as [|c s IH]; intros b Hs; cbn [app unbroken] in *.
  - clear Hs. revert b. induction Hw as [|x ws Hx _ IH]; intros b; [done|]. cbn [unbroken]. rewrite IH, andb_true_r.
    assert (strchr chars x = false) as ->.
    { apply not_true_is_false. intros E. apply existsb_exists in E as (y & Hy & E). apply Z.eqb_eq in E as <-.
      rewrite Forall_forall in Hc. rewrite (Hc x) in Hx; [done|]. by apply list_elem_of_In. }
    destruct (Z.eqb_spec x (ch ";")) as [->|]; [done|]. by rewrite andb_false_r.
  - apply andb_true_iff in Hs as [Hs1 Hs2]. by rewrite Hs1, IH.
Qed.

(** The value of a pair, whatever is behind it. *)
Lemma value_run ws2 value (comment : option (list Z * list Z)) :
  spaces ws2 -> value = [] /\ comment = None \/ trimmed value -> unbroken false [] value = true ->
  match comment with Some (ws, _) => ws <> [] /\ spaces ws | None => True end ->
  let v := lskip (rstrip (ws2 ++ value ++ match comment with Some (ws, text) => ws ++ ch ";" :: text | None => [] end)) in
  rstrip (take (find_chars_or_comment v None) v) = value.
Proof.
  intros Hw [[-> ->]|Ht] Hu Hc v; subst v.
  - rewrite app_nil_r. rewrite <- (app_nil_l ws2), rstrip_spaces by done. done.
  - set (t := match comment with Some (ws, text) => _ | None => _ end).
    assert (Hs : solid (last (ws2 ++ value))) by (destruct Ht as [_ (c & Hl & Hsc)]; exists c; split; [by rewrite last_app, Hl|done]).
    rewrite app_assoc, rstrip_solid, <- app_assoc, lskip_spaces, lskip_solid by (done || apply Ht).
    unfold find_chars_or_comment. rewrite find_loop_none. destruct comment as [[ws text]|]; subst t.
    + destruct Hc as [Hne Hws].
      assert (E : rstrip (ws ++ ch ";" :: text) = ws ++ ch ";" :: rstrip text).
      { rewrite cons_middle, app_assoc, rstrip_solid; [by rewrite <- app_assoc|]. rewrite last_snoc. by eexists. }
      rewrite E, app_assoc, find_loop_stop.
      * rewrite take_app_length. by apply rstrip_trimmed.
      * by apply unbroken_spaces.
      * destruct ws as [|x ws _] using rev_ind; [done|]. rewrite app_assoc, last_snoc.
        unfold spaces in Hws. apply Forall_app in Hws as [_ Hx]. rewrite Forall_singleton in Hx. by rewrite Hx.
    + change (rstrip []) with (@nil Z). rewrite app_nil_r, find_loop_end by done. rewrite take_ge by done.
      rewrite <- (app_nil_r value) at 1. apply rstrip_trimmed; [done|constructor].
Qed.

(** ** A line of each kind *)
Section Run.
Context {U : Type} (handler : U -> list Z -> list Z -> list Z -> Z * U).
Notation parse_start := (parse_start handler).
Notation call := (call handler).

Lemma starts_head c s : starts_with c s = bool_decide (head s = Some c).
Proof.
  destruct s as [|x s]; [done|]. cbn. destruct (Z.eqb_spec x c) as [->|]; [by rewrite bool_decide_true|].
  rewrite bool_decide_false; congruence.
Qed.

Lemma blank_run lineno b ws p : spaces ws -> parse_start lineno b (ws ++ [10]) p = p.
Proof.
  intros Hw. unfold Ini.parse_start. rewrite rstrip_spaces by apply newline_spaces.
  rewrite <- (app_nil_l ws), rstrip_spaces by done. cbn. by rewrite !andb_false_r.
Qed.

Lemma comment_run lineno b ws hash text p :
  spaces ws -> parse_start lineno b ((ws ++ (if hash : bool then ch "#" else ch ";") :: text) ++ [10]) p = p.
Proof.
  intros Hw. unfold Ini.parse_start. rewrite rstrip_spaces by apply newline_spaces.
  rewrite cons_middle, app_assoc, rstrip_solid.
  2: { rewrite last_snoc. eexists. split; [done|]. by destruct hash. }
  rewrite <- app_assoc, lskip_spaces by done. rewrite lskip_solid by (eexists; split; [done|]; by destruct hash).
  by destruct hash.
Qed.

(** What starts in the first column. *)
Lemma first_run lineno (b : bool) s (p : parser) :
  solid (head s) -> rstrip s = s -> (forall c, head s = Some c -> c <> ch ";" /\ c <> ch "#") -> (b = true -> prev_name p = []) ->
  parse_start lineno b s p = parse_item handler lineno s p.
Proof.
  intros Hh Hr Hc Hb. unfold Ini.parse_start. rewrite Hr. rewrite <- (app_nil_r s), lskip_solid, app_nil_r by done.
  destruct Hh as (c & Hhc & _). destruct (Hc c Hhc) as [H1 H2].
  rewrite !starts_head, Hhc, !bool_decide_false by congruence. cbn [orb]. rewrite Nat.eqb_refl, orb_false_r.
  destruct b; [|by rewrite andb_false_r]. by rewrite Hb.
Qed.

Lemma parse_start_rstrip lineno b s p : parse_start lineno b s p = parse_start lineno b (rstrip s) p.
Proof. unfold Ini.parse_start. by rewrite rstrip_idem. Qed.

Lemma more_run lineno b ws value p :
  prev_name p <> [] -> ws <> [] -> spaces ws -> trimmed value ->
  (forall c, head value = Some c -> c <> ch ";" /\ c <> ch "#") ->
  parse_start lineno b ((ws ++ value) ++ [10]) p = call lineno (prev_name p) value p.
Proof.
  intros Hp Hn Hw Hv Hc. destruct Hv as [Hh Hl]. unfold Ini.parse_start. rewrite rstrip_spaces by apply newline_spaces.
  assert (solid (last (ws ++ value))) as Hs.
  { destruct Hl as (c & Hlc & Hsc). exists c. split; [|done]. by rewrite last_app, Hlc. }
  rewrite <- (app_nil_r (ws ++ value)), rstrip_solid by done. change (rstrip []) with (@nil Z). rewrite app_nil_r, lskip_spaces by done.
  assert (lskip value = value) as -> by (rewrite <- (app_nil_r value); by rewrite lskip_solid).
  destruct Hh as (c & Hhc & _). destruct (Hc c Hhc) as [H1 H2].
  rewrite !starts_head, Hhc, !(bool_decide_false (Some c = _)) by congruence. cbn [orb].
  rewrite (bool_decide_false (prev_name p = [])), (bool_decide_false (value = [])) by (done || by intros ->).
  rewrite length_app. rewrite (proj2 (Nat.eqb_neq _ _)); [by rewrite orb_true_r|]. destruct ws; [done|cbn; lia].
Qed.

Lemma section_line_run lineno b name tail (p : parser) :
  entry_ok (prev_name p) (Header name tail) -> (b = true -> prev_name p = []) ->
  parse_start lineno b (entry_text (Header name tail) ++ [10]) p = Parser name [] (error p) (user p).
Proof.
  intros (Hn & _ & Hu & Hl) Hb. rewrite parse_start_rstrip. cbn [entry_text].
  rewrite rstrip_spaces by apply newline_spaces.
  assert (E : rstrip (ch "[" :: name ++ ch "]" :: tail) = ch "[" :: name ++ ch "]" :: rstrip tail).
  { rewrite cons_middle, (app_assoc name), app_comm_cons, rstrip_solid; [by rewrite <- app_comm_cons, <- app_assoc|].
    rewrite app_comm_cons, last_snoc. by eexists. }
  rewrite E, first_run; [|by eexists|by rewrite <- E, rstrip_idem|by intros c [= <-]|done].
  unfold parse_item. cbn [starts_with drop]. rewrite drop_0. change (ch "[" =? ch "[") with true. cbn iota.
  unfold find_chars_or_comment. rewrite find_loop_stop by done. rewrite drop_app_length, take_app_length. cbn [starts_with].
  change (ch "]" =? ch "]") with true. cbn iota. unfold strncpy0. rewrite take_ge; [done|]. lia.
Qed.
Lemma pair_run lineno b name ws1 colon ws2 value comment (p : parser) :
  entry_ok (prev_name p) (Pair name ws1 colon ws2 value comment) -> (b = true -> prev_name p = []) ->
  parse_start lineno b (entry_text (Pair name ws1 colon ws2 value comment) ++ [10]) p =
  call lineno name value (Parser (section p) name (error p) (user p)).
Proof.
  intros (Hn & _ & Ht & Hc & Hu & Hl & Hw1 & Hw2 & Hv & Huv & Hco) Hb. rewrite parse_start_rstrip. cbn [entry_text].
  rewrite rstrip_spaces by apply newline_spaces. set (sep := if colon then ch ":" else ch "=").
  set (tl := match comment with Some (ws, text) => _ | None => _ end).
  assert (E : rstrip (name ++ ws1 ++ sep :: ws2 ++ value ++ tl) = name ++ ws1 ++ sep :: rstrip (ws2 ++ value ++ tl)).
  { rewrite (cons_middle sep), !app_assoc, <- !app_assoc, (app_assoc ws1), (app_assoc name), rstrip_solid; [by rewrite <- !app_assoc|].
    rewrite app_assoc, last_snoc. eexists. split; [done|]. by destruct colon. }
  pose proof Ht as [(c & Hh & Hsc) _]. destruct (Hc c Hh) as (Hc1 & Hc2 & Hc3).
  assert (Hhd : forall r, head (name ++ r) = Some c) by (intros r; destruct name; [done|exact Hh]).
  rewrite E, first_run.
  - unfold parse_item. rewrite starts_head, Hhd, bool_decide_false by congruence.
    rewrite bool_decide_false by (intros H0; apply app_eq_nil in H0 as [-> _]; done). cbn [negb].
    assert (Ef : find_chars_or_comment (name ++ ws1 ++ sep :: rstrip (ws2 ++ value ++ tl)) (Some (bs "=:")) = length (name ++ ws1)).
    { rewrite app_assoc. apply find_loop_stop; [apply unbroken_spaces; [done..|by repeat constructor]|]. by destruct colon. }
    rewrite Ef, app_assoc, drop_app_length, take_app_length, (rstrip_trimmed name ws1) by done.
    replace (_ || _) with true by (by destruct colon).
    replace (drop (S (length (name ++ ws1))) _) with (rstrip (ws2 ++ value ++ tl))
      by (rewrite drop_app_ge by lia; by replace (S _ - _)%nat with 1%nat by lia).
    subst tl. rewrite value_run by done. unfold strncpy0. rewrite take_ge; [done|]. lia.
  - rewrite Hhd. by exists c.
  - rewrite <- E. apply rstrip_idem.
  - intros c' Hc'. rewrite Hhd in Hc'. by injection Hc' as <-.
  - done.
Qed.
Lemma call_deliver lineno name value (p : parser) :
  call lineno name value p =
  let r := deliver handler (error p, user p) (lineno, section p, name, value) in Parser (section p) (prev_name p) r.1 r.2.
Proof.
  unfold Ini.call, deliver. cbn [fst snd]. destruct (handler (user p) (section p) name value) as [r u].
  destruct (r =? 0); [|done]. cbn [andb fst snd]. unfold set_error. cbn [Ini.error Ini.section Ini.prev_name Ini.user].
  by destruct (error p =? 0).
Qed.

Lemma entry_run lineno b e (p : parser) :
  entry_ok (prev_name p) e -> (b = true -> prev_name p = []) ->
  parse_start lineno b (entry_text e ++ [10]) p =
  let r := foldl (deliver handler) (error p, user p) (event lineno (section p) (prev_name p) e) in
  Parser (section_after (section p) e) (prev_after (prev_name p) e) r.1 r.2.
Proof.
  intros He Hb. destruct e as [ws|ws hash text|name tail|name ws1 colon ws2 value comment|ws value].
  - destruct He as (_ & _ & Hw). cbn [entry_text]. rewrite blank_run by done. by destruct p.
  - destruct He as (_ & _ & Hw). cbn [entry_text]. rewrite comment_run by done. by destruct p.
  - by rewrite section_line_run.
  - rewrite pair_run by done. by rewrite call_deliver.
  - destruct He as (_ & _ & Hp & Hn & Hw & Hv & Hc). cbn [entry_text]. rewrite more_run by done. by rewrite call_deliver.
Qed.

Lemma parse_lines_run l lineno (p : parser) :
  file_ok (prev_name p) l -> 1 <= lineno ->
  let r := foldl (deliver handler) (error p, user p) (events (lineno + 1) (section p) (prev_name p) l) in
  let p' := parse_lines handler ((fun e => entry_text e ++ [10]) <$> l) lineno p in
  error p' = r.1 /\ user p' = r.2.
Proof.
  revert lineno p. induction l as [|e l IH]; intros lineno p Hl Hn; [done|]. destruct Hl as [He Hl].
  cbn [fmap list_fmap parse_lines events]. unfold parse_line. rewrite (proj2 (Z.eqb_neq (lineno + 1) 1)) by lia. cbn [andb].
  rewrite entry_run by done. rewrite foldl_app. cbv zeta.
  destruct (foldl (deliver handler) (error p, user p) (event (lineno + 1) (section p) (prev_name p) e)) as [er us].
  cbn [fst snd]. apply (IH (lineno + 1) (Parser (section_after (section p) e) (prev_after (prev_name p) e) er us)); [done|lia].
Qed.
End Run.

(** ** Reading the lines *)
Lemma fgets_line n s r :
  Forall (fun c => c <> 10) s -> (length s < n)%nat -> fgets_loop n (s ++ 10 :: r) = (s ++ [10], r).
Proof.
  intros Hs. revert n. induction Hs as [|c s Hc _ IH]; intros n Hn; (destruct n as [|n]; [cbn in Hn; lia|]); cbn [app fgets_loop]; [done|].
  rewrite (proj2 (Z.eqb_neq c 10)) by done. rewrite IH; [done|cbn in Hn; lia].
Qed.

Lemma fgets_lines l fuel :
  Forall (fun s => Forall (fun c => c <> 0 /\ c <> 10) s /\ (length s < INI_MAX_LINE - 1)%nat) l ->
  (length l <= fuel)%nat -> fgets_all fuel INI_MAX_LINE (l ≫= fun s => s ++ [10]) = (fun s => s ++ [10]) <$> l.
Proof.
  intros Hl. revert fuel. induction Hl as [|s l [Hs Hn] _ IH]; intros fuel Hf; [by destruct fuel|].
  destruct fuel as [|fuel]; [cbn in Hf; lia|]. cbn [mbind list_bind fmap list_fmap]. rewrite <- app_assoc. cbn [app].
  destruct (s ++ 10 :: (l ≫= fun s => s ++ [10])) as [|c r] eqn:E; [by destruct s|]. cbn [fgets_all]. rewrite <- E.
  rewrite fgets_line; [|by eapply Forall_impl; [exact Hs|intros ? []]|done].
  rewrite until_nul_id; [|apply Forall_app; split; [by eapply Forall_impl; [exact Hs|intros ? []]|by constructor]].
  f_equal. apply IH. cbn in Hf. lia.
Qed.

Lemma file_lines l prev : file_ok prev l -> Forall (fun s => Forall (fun c => c <> 0 /\ c <> 10) s /\ (length s <= 195)%nat) (entry_text <$> l).
Proof. revert prev. induction l as [|e l IH]; intros prev Hl; [constructor|]. destruct Hl as [(H1 & H2 & _) Hl]. constructor; [done|]. by eapply IH. Qed.

Lemma lines_map l : (l ≫= fun e => entry_text e ++ [10]) = (entry_text <$> l) ≫= fun s => s ++ [10].
Proof. induction l as [|e l IH]; [done|]. cbn. f_equal. exact IH. Qed.

Lemma lines_length (l : list (list Z)) : Nat.le (length l) (length (l ≫= fun s => s ++ [10])).
Proof. induction l as [|s l IH]; [done|]. cbn. rewrite !length_app. cbn in *. unfold Nat.le in *. lia. Qed.

(** The first line, in front of which may be a mark. *)
Lemma first_line_run {U} (handler : U -> list Z -> list Z -> list Z -> Z * U) (bom : bool) e u :
  entry_ok [] e -> (bom = false -> take 3 (entry_text e ++ [10]) <> BOM) ->
  parse_line handler 1 (((if bom then BOM else []) ++ entry_text e) ++ [10]) (Parser [] [] 0 u) =
  let r := foldl (deliver handler) (0, u) (event 1 [] [] e) in Parser (section_after [] e) (prev_after [] e) r.1 r.2.
Proof.
  intros He Hb. unfold parse_line. change (1 =? 1) with true. cbn [andb]. destruct bom; cbn [app] in *.
  - change (take 3 (239 :: 187 :: 191 :: entry_text e ++ [10])) with BOM.
    rewrite bool_decide_true by done. change (drop 3 _) with (entry_text e ++ [10]). by rewrite entry_run.
  - rewrite bool_decide_false by by apply Hb. by rewrite entry_run.
Qed.

Lemma ini_parse_run {U} (handler : U -> list Z -> list Z -> list Z -> Z * U) bom l u :
  file_ok [] l -> (bom = false -> forall e, head l = Some e -> take 3 (entry_text e) <> BOM) ->
  ini_parse handler (Some (file_text bom l)) u = foldl (deliver handler) (0, u) (events 1 [] [] l).
Proof.
  intros Hl Hb. unfold ini_parse, ini_parse_file, ini_parse_stream.
  destruct l as [|e l]; [by destruct bom|]. pose proof (file_lines _ _ Hl) as Hlines.
  set (first := (if bom then BOM else []) ++ entry_text e).
  assert (Et : file_text bom (e :: l) = (first :: (entry_text <$> l)) ≫= fun s => s ++ [10]).
  { unfold file_text, first. cbn [mbind list_bind]. by rewrite lines_map, <- !app_assoc. }
  rewrite Et, fgets_lines; [|apply Forall_cons in Hlines as [[H1 H2] Hl']; constructor|apply lines_length].
  2: { subst first. split; [apply Forall_app; split; [destruct bom; by repeat constructor|done]|]. rewrite length_app.
       unfold INI_MAX_LINE. destruct bom; cbn; lia. }
  2: { eapply Forall_impl; [exact Hl'|]. intros s [? ?]. split; [done|]. unfold INI_MAX_LINE. lia. }
  destruct Hl as [He Hl]. cbn [fmap list_fmap parse_lines]. unfold first. rewrite Z.add_0_l, first_line_run; [|done|].
  2: { intros ->. specialize (Hb eq_refl e eq_refl). intros E. apply Hb.
       by destruct (entry_text e) as [|x [|y [|z t]]]. }
  cbv zeta. cbn [events]. rewrite foldl_app. destruct (foldl (deliver handler) (0, u) (event 1 [] [] e)) as [er us].
  cbn [fst snd].
  assert (Em : (fun s => s ++ [10]) <$> (entry_text <$> l) = (fun e => entry_text e ++ [10]) <$> l) by (by rewrite <- list_fmap_compose).
  rewrite Em.
  pose proof (parse_lines_run handler l 1 (Parser (section_after [] e) (prev_after [] e) er us) Hl ltac:(lia)) as Hrun.
  cbv zeta in Hrun. cbn [section prev_name error user] in Hrun. destruct Hrun as [E1 E2]. rewrite E1, E2. symmetry. apply surjective_pairing.
Qed.

(** C23: A file of sections, names and values, among blank lines, comments
    and with values over several lines, is given to the handler in order, and
    the result is the line of the first pair it refuses. *)
Theorem ini_read {U} (handler : U -> list Z -> list Z -> list Z -> Z * U) bom l u :
  file_ok [] l -> (bom = false -> forall e, head l = Some e -> take 3 (entry_text e) <> BOM) ->
  ini_parse handler (Some (file_text bom l)) u = foldl (deliver handler) (0, u) (events 1 [] [] l).
Proof. exact (ini_parse_run handler bom l u). Qed.

(** ** The mail extension *)

(** The last value a file gives for a name of a section. *)
Definition last_value (sec name : list Z) (l : list (Z * list Z * list Z * list Z)) : option (list Z) :=
  foldl (fun r e => let '(_, s, n, v) := e in if bool_decide (s = sec) && bool_decide (n = name) then Some v else r) None l.

Lemma deliver_positive {U} (handler : U -> list Z -> list Z -> list Z -> Z * U) l r :
  0 <= r.1 -> Forall (fun e => 0 <= e.1.1.1) l -> 0 <= (foldl (deliver handler) r l).1.
Proof.
  intros Hr Hl. revert r Hr. induction Hl as [|[[[n s] x] v] l Hn _ IH]; intros r Hr; [done|]. cbn [foldl]. apply IH.
  unfold deliver. destruct (handler r.2 s x v) as [ok u]. cbn [fst]. by destruct (_ && _).
Qed.

Lemma events_positive n sec prev l : 0 <= n -> Forall (fun e => 0 <= e.1.1.1) (events n sec prev l).
Proof.
  revert n sec prev. induction l as [|e l IH]; intros n sec prev Hn; [constructor|]. cbn [events]. apply Forall_app. split.
  - destruct e; by repeat constructor.
  - apply IH. lia.
Qed.

Lemma last_value_snoc sec name l n s x v :
  last_value sec name (l ++ [(n, s, x, v)]) = if bool_decide (s = sec) && bool_decide (x = name) then Some v else last_value sec name l.
Proof. unfold last_value. by rewrite foldl_app. Qed.

Lemma handler_last l :
  let c := (foldl (deliver handler) (0, Configuration None None None) l).2 in
  host c = last_value (bs "general") (bs "host") l /\ username c = last_value (bs "user") (bs "username") l /\
  password c = last_value (bs "user") (bs "password") l.
Proof.
  induction l as [|[[[n s] x] v] l IH] using rev_ind; [done|]. cbv zeta in *. rewrite foldl_app. cbn [foldl].
  rewrite !last_value_snoc. destruct (foldl (deliver handler) _ l) as [r c]. cbn [snd] in IH. destruct IH as (H1 & H2 & H3).
  unfold deliver. cbn [snd]. unfold handler.
  destruct (bool_decide (s = bs "general") && bool_decide (x = bs "host")) eqn:E1.
  { apply andb_true_iff in E1 as [->%bool_decide_eq_true ->%bool_decide_eq_true]. by repeat split. }
  destruct (bool_decide (s = bs "user") && bool_decide (x = bs "username")) eqn:E2.
  { apply andb_true_iff in E2 as [->%bool_decide_eq_true ->%bool_decide_eq_true]. by repeat split. }
  destruct (bool_decide (s = bs "user") && bool_decide (x = bs "password")) eqn:E3; by repeat split.
Qed.

(** With the three settings in its configuration the extension fetches
    the mail with them, and pushes what it got if that went well. *)
Theorem mail_pushed perform bom l h u p :
  file_ok [] l -> (bom = false -> forall e, head l = Some e -> take 3 (entry_text e) <> BOM) ->
  last_value (bs "general") (bs "host") (events 1 [] [] l) = Some h -> (length h <= 1000)%nat ->
  last_value (bs "user") (bs "username") (events 1 [] [] l) = Some u ->
  last_value (bs "user") (bs "password") (events 1 [] [] l) = Some p ->
  mav_main perform (Some (file_text bom l)) =
  let '(chunks, ok) := perform u p (h ++ bs "/INBOX/;UID=1") in
  Some (if ok : bool then (0, Some (bs "mail", concat chunks)) else (1, None)).
Proof.
  intros Hl Hb Hh Hlen Hu Hp. unfold mav_main. rewrite ini_parse_run by done.
  pose proof (handler_last (events 1 [] [] l)) as (H1 & H2 & H3).
  pose proof (deliver_positive handler (events 1 [] [] l) (0, Configuration None None None) ltac:(done)
    ltac:(by apply events_positive)) as Hpos.
  destruct (foldl (deliver handler) _ _) as [r c]. cbn [fst snd] in *. rewrite (proj2 (Z.ltb_ge r 0)) by done.
  rewrite H1, H2, H3, Hh, Hu, Hp. cbn [mbind option_bind]. unfold imap_call, imap_uri.
  rewrite (proj2 (Nat.ltb_lt _ _)) by (rewrite length_app; change (length (bs "/INBOX/;UID=1")) with 13%nat; lia).
  cbn [mbind option_bind]. destruct (perform u p (h ++ bs "/INBOX/;UID=1")) as [chunks ok]. cbn [mbind option_bind].
  assert (E : forall a, foldl write_buffer a chunks = a ++ concat chunks).
  { clear. induction chunks as [|c l IH]; intros a; cbn [foldl concat]; [by rewrite app_nil_r|]. rewrite IH. unfold write_buffer. by rewrite app_assoc. }
  rewrite E. by destruct ok.
Qed.

(** libimap_ext.ini *)
Definition libimap_ext : list entry :=
  let c s := Comment [] false (bs s) in
  [c " Copyright (C) 2015-2016 Mavicona, Quenza Inc."; c " All Rights Reserved"; c "";
   c " This file is part of the Mavicona project."; c "";
   c " Content can not be copied and/or distributed without the express"; c " permission of the author."; c " ";
   c " IMAP settings for libimap extension"; Blank [];
   Header (bs "general") [];
   Pair (bs "host") (bs " ") false (bs " ") (bs "imaps://<server>.com")
     (Some (bs "      ", bs " IMAP host. Use imap:// for unencrypted traffic"));
   Blank []; Header (bs "user") [];
   Pair (bs "username") (bs " ") false (bs " ") (bs "<user>@<domain>.com") (Some (bs "        ", bs " IMAP username login"));
   Pair (bs "password") (bs " ") false (bs " ") (bs "<password>") (Some (bs "                 ", bs " Authentication password"))].

(** Decides the conditions on concrete entries. *)
Ltac entry_fact :=
  match goal with
  | |- file_ok _ (_ :: _) => split; entry_fact
  | |- entry_ok _ _ => cbv beta iota delta [entry_ok]; entry_fact
  | |- _ /\ _ => split; entry_fact
  | |- file_ok _ [] => exact I
  | |- True => exact I
  | |- forall c, _ => let E := fresh in intros ? E; injection E as <-; done
  | |- solid _ => eexists; split; reflexivity
  | |- trimmed _ => split; entry_fact
  | |- Forall _ _ => eapply bool_decide_unpack; vm_compute; exact I
  | |- spaces _ => eapply (bool_decide_unpack (Forall _ _)); vm_compute; exact I
  | |- _ \/ _ => first [solve [right; entry_fact] | left; entry_fact]
  | |- (_ <= _)%nat => vm_compute; lia
  | |- (_ < _)%nat => vm_compute; lia
  | |- _ <> _ => discriminate
  | |- _ = _ => reflexivity
  end.

Lemma libimap_ext_ok : file_ok [] libimap_ext.
Proof. unfold libimap_ext. cbv zeta beta. entry_fact. Qed.

Lemma mail_pushed_witness :
  mav_main (fun _ _ _ => ([bs "From: a"; bs "b"], true)) (Some (file_text false libimap_ext)) =
  Some (0, Some (bs "mail", bs "From: ab")).
Proof.
  rewrite (mail_pushed _ false libimap_ext (bs "imaps://<server>.com") (bs "<user>@<domain>.com") (bs "<password>"));
    [reflexivity|exact libimap_ext_ok|by intros _ e [= <-]|reflexivity|vm_compute; lia|reflexivity..].
Defined.

(** A value over two lines, a name no one knows, with a mark in front. *)
Definition other_file : list entry :=
  [Header (bs "user") (bs " x"); Pair (bs "password") [] true [] (bs "a;b=c") None; More (bs "  ") (bs "=d ;e");
   Comment (bs " ") true (bs " #"); Pair (bs "name") [] false [] [] None].

Lemma ini_read_witness :
  ini_parse handler (Some (file_text true other_file)) (Configuration None None None) =
  (5, Configuration None None (Some (bs "=d ;e"))).
Proof.
  rewrite (ini_read handler true other_file); [reflexivity| |done].
  unfold other_file. entry_fact.
Defined.

End Ini.
