(* ===== verification/Getopt.v ===== *)
(** * compat: command-line options (getopt.c)

    [_getopt_internal] over the vector of arguments, which it permutes, and the
    variables it keeps between calls.  A string is the list of its characters
    and a pointer into one what is left of it; NULL is [None].  Error messages
    are the text on stderr.  The branches for the C library's own build
    ([_LIBC]) are left out, as the build does. *)
From S2P Require Import Prelude CLib.

Module Getopt.

Inductive ordering_t := REQUIRE_ORDER | PERMUTE | RETURN_IN_ORDER.

#[export] Instance ordering_eq_dec : EqDecision ordering_t.
Proof. solve_decision. Defined.

(** struct option; [flag] is the variable that is set. *)
Record option_ := Option_ { name : list Z; has_arg : Z; flag : option Z; val : Z }.

(** The variables, with the arguments and what the call stores elsewhere. *)
Record vars := Vars {
  argv : list (list Z);
  optarg : option (list Z);
  optind : nat;
  initialized : bool;
  nextchar : option (list Z);
  opterr : bool;
  optopt : Z;
  ordering : ordering_t;
  posixly_correct : bool;
  first_nonopt : nat;
  last_nonopt : nat;
  longind : option nat;
  flags : list (Z * Z);
  stderr : list Z;
}.

Definition set_argv x s := Vars x (optarg s) (optind s) (initialized s) (nextchar s) (opterr s) (optopt s) (ordering s) (posixly_correct s) (first_nonopt s) (last_nonopt s) (longind s) (flags s) (stderr s).
Definition set_optarg x s := Vars (argv s) x (optind s) (initialized s) (nextchar s) (opterr s) (optopt s) (ordering s) (posixly_correct s) (first_nonopt s) (last_nonopt s) (longind s) (flags s) (stderr s).
Definition set_optind x s := Vars (argv s) (optarg s) x (initialized s) (nextchar s) (opterr s) (optopt s) (ordering s) (posixly_correct s) (first_nonopt s) (last_nonopt s) (longind s) (flags s) (stderr s).
Definition set_initialized x s := Vars (argv s) (optarg s) (optind s) x (nextchar s) (opterr s) (optopt s) (ordering s) (posixly_correct s) (first_nonopt s) (last_nonopt s) (longind s) (flags s) (stderr s).
Definition set_nextchar x s := Vars (argv s) (optarg s) (optind s) (initialized s) x (opterr s) (optopt s) (ordering s) (posixly_correct s) (first_nonopt s) (last_nonopt s) (longind s) (flags s) (stderr s).
Definition set_optopt x s := Vars (argv s) (optarg s) (optind s) (initialized s) (nextchar s) (opterr s) x (ordering s) (posixly_correct s) (first_nonopt s) (last_nonopt s) (longind s) (flags s) (stderr s).
Definition set_ordering x p s := Vars (argv s) (optarg s) (optind s) (initialized s) (nextchar s) (opterr s) (optopt s) x p (first_nonopt s) (last_nonopt s) (longind s) (flags s) (stderr s).
Definition set_nonopts f l s := Vars (argv s) (optarg s) (optind s) (initialized s) (nextchar s) (opterr s) (optopt s) (ordering s) (posixly_correct s) f l (longind s) (flags s) (stderr s).
Definition set_longind x s := Vars (argv s) (optarg s) (optind s) (initialized s) (nextchar s) (opterr s) (optopt s) (ordering s) (posixly_correct s) (first_nonopt s) (last_nonopt s) x (flags s) (stderr s).
Definition set_flag p v s := Vars (argv s) (optarg s) (optind s) (initialized s) (nextchar s) (opterr s) (optopt s) (ordering s) (posixly_correct s) (first_nonopt s) (last_nonopt s) (longind s) (flags s ++ [(p, v)]) (stderr s).
Definition print t s := Vars (argv s) (optarg s) (optind s) (initialized s) (nextchar s) (opterr s) (optopt s) (ordering s) (posixly_correct s) (first_nonopt s) (last_nonopt s) (longind s) (flags s) (stderr s ++ t).

(** ** Permuting *)

(** [for (i = 0; i < len; i++)] swap [argv[a + i]] and [argv[b + i]]. *)
Fixpoint swap_run (len a b : nat) (v : list (list Z)) : option (list (list Z)) :=
  match len with
  | O => Some v
  | S n => x ← v !! a; y ← v !! b; swap_run n (S a) (S b) (<[b := x]> (<[a := y]> v))
  end.

Fixpoint exchange_loop (fuel bottom middle top : nat) (v : list (list Z)) : option (list (list Z)) :=
  match fuel with
  | O => None
  | S f =>
      if (middle <? top)%nat && (bottom <? middle)%nat then
        if (middle - bottom <? top - middle)%nat then
          let len := (middle - bottom)%nat in
          v ← swap_run len bottom (top - len) v;
          exchange_loop f bottom middle (top - len) v
        else
          let len := (top - middle)%nat in
          v ← swap_run len bottom middle v;
          exchange_loop f (bottom + len) middle top v
      else Some v
  end.

(** Every round moves one end. *)
Definition exchange : SM vars unit := fun s =>
  v ← exchange_loop (S (optind s)) (first_nonopt s) (last_nonopt s) (optind s) (argv s);
  Some (tt, set_nonopts (first_nonopt s + (optind s - last_nonopt s)) (optind s) (set_argv v s)).

(** ** Beginning *)
Definition at_ (s : list Z) (i : nat) : Z := default 0 (s !! i).

Section Getopt.
(** getenv("POSIXLY_CORRECT") is set. *)
Context (posix : bool).

Definition _getopt_initialize (optstring : list Z) : SM vars (list Z) := fun s =>
  let s := set_nextchar None (set_nonopts (optind s) (optind s) s) in
  if at_ optstring 0 =? ch "-" then Some (drop 1 optstring, set_ordering RETURN_IN_ORDER posix s)
  else if at_ optstring 0 =? ch "+" then Some (drop 1 optstring, set_ordering REQUIRE_ORDER posix s)
  else if posix then Some (optstring, set_ordering REQUIRE_ORDER posix s)
  else Some (optstring, set_ordering PERMUTE posix s).

(** ** The next element *)
Definition NONOPTION_P (a : list Z) : bool := negb (at_ a 0 =? ch "-") || (at_ a 1 =? 0).

(** [while (optind < argc && NONOPTION_P) optind++;] over the arguments from
    [optind] on; how many. *)
Fixpoint skip_nonopts (l : list (list Z)) : nat :=
  match l with a :: l => if NONOPTION_P a then S (skip_nonopts l) else 0%nat | [] => 0%nat end.

(** [Some r] returns [r]. *)
Definition returns (r : Z) : SM vars (option Z) := mret (Some r).
Definition goes_on : SM vars (option Z) := mret None.

Definition permute : SM vars unit := fun s =>
  '(_, s) ←
    (if negb (first_nonopt s =? last_nonopt s)%nat && negb (last_nonopt s =? optind s)%nat then exchange s
     else if negb (last_nonopt s =? optind s)%nat then Some (tt, set_nonopts (optind s) (last_nonopt s) s)
     else Some (tt, s));
  let i := (optind s + skip_nonopts (drop (optind s) (argv s)))%nat in
  Some (tt, set_nonopts (first_nonopt s) i (set_optind i s)).

(** The element is [--]. *)
Definition end_of_options : SM vars unit := fun s =>
  let s := set_optind (S (optind s)) s in
  '(_, s) ←
    (if negb (first_nonopt s =? last_nonopt s)%nat && negb (last_nonopt s =? optind s)%nat then exchange s
     else if (first_nonopt s =? last_nonopt s)%nat then Some (tt, set_nonopts (optind s) (last_nonopt s) s)
     else Some (tt, s));
  let argc := length (argv s) in
  Some (tt, set_optind argc (set_nonopts (first_nonopt s) argc s)).

Definition advance (longopts : bool) : SM vars (option Z) := fun s =>
  let argc := length (argv s) in
  let last := Nat.min (last_nonopt s) (optind s) in
  let s := set_nonopts (Nat.min (first_nonopt s) (optind s)) last s in
  '(_, s) ← (if bool_decide (ordering s = PERMUTE) then permute s else Some (tt, s));
  '(_, s) ←
    (if (optind s =? argc)%nat then Some (tt, s)
     else a ← argv s !! optind s; if bool_decide (a = bs "--") then end_of_options s else Some (tt, s));
  if (optind s =? argc)%nat then
    let s := if (first_nonopt s =? last_nonopt s)%nat then s else set_optind (first_nonopt s) s in
    returns (-1) s
  else
    a ← argv s !! optind s;
    if NONOPTION_P a then
      if bool_decide (ordering s = REQUIRE_ORDER) then returns (-1) s
      else returns 1 (set_optind (S (optind s)) (set_optarg (Some a) s))
    else
      goes_on (set_nextchar (Some (drop (if longopts && (at_ a 1 =? ch "-") then 2 else 1) a)) s).

(** ** Long options *)
Definition before_equals (s : list Z) : list Z := match find_char (ch "=") s with Some i => take i s | None => s end.

(** The loop over the table: the option found and its index, [exact] and
    [ambig]. *)
Fixpoint long_loop (key : list Z) (l : list option_) (index : nat) (found : option (option_ * nat)) (ambig : bool) :
    option (option_ * nat) * bool * bool :=
  match l with
  | [] => (found, false, ambig)
  | p :: l =>
      if bool_decide (take (length key) (name p) = key) then
        if (length key =? length (name p))%nat then (Some (p, index), true, ambig)
        else match found with
             | None => long_loop key l (S index) (Some (p, index)) ambig
             | Some _ => long_loop key l (S index) found true
             end
      else long_loop key l (S index) found ambig
  end.

(** An error message with the name of the program, if they are printed. *)
Definition complain (print_errors : bool) (text : list Z) : SM vars unit := fun s =>
  if print_errors then a ← argv s !! 0%nat; Some (tt, print (a ++ bs ": " ++ text ++ [10]) s)
  else Some (tt, s).

(** [nextchar += strlen(nextchar)] *)
Definition finish_element : SM vars unit := sm_modify (set_nextchar (Some [])).

Definition missing (optstring : list Z) : Z := if at_ optstring 0 =? ch ":" then ch ":" else ch "?".

(** An option of the table, whose name [text] starts with; [dashes] is the text
    in front of its name in a message, [sets] whether [optopt] is set on
    errors. *)
Definition long_found (print_errors : bool) (optstring text : list Z) (longindp : bool)
    (dashes : SM vars (list Z)) (sets : bool) (found : option_ * nat) : SM vars (option Z) :=
  let '(p, index) := found in
  let rest := drop (length (before_equals text)) text in
  let set_opt := if sets then sm_modify (set_optopt (val p)) else mret tt in
  r ← (match rest with
       | _ :: value =>
           if has_arg p =? 0 then
             d ← dashes;
             complain print_errors (bs "option `" ++ d ++ name p ++ bs "' doesn't allow an argument");;
             finish_element;; set_opt;; returns (ch "?")
           else sm_modify (set_optarg (Some value));; goes_on
       | [] =>
           if has_arg p =? 1 then fun s =>
             if (optind s <? length (argv s))%nat then
               a ← argv s !! optind s; goes_on (set_optind (S (optind s)) (set_optarg (Some a) s))
             else
               a ← argv s !! (optind s - 1)%nat;
               (complain print_errors (bs "option `" ++ a ++ bs "' requires an argument");;
                finish_element;; set_opt;; returns (missing optstring)) s
           else goes_on
       end);
  match r with
  | Some r => returns r
  | None =>
      finish_element;;
      (if longindp then sm_modify (set_longind (Some index)) else mret tt);;
      match flag p with
      | Some f => sm_modify (set_flag f (val p));; returns 0
      | None => returns (val p)
      end
  end.

(** [--] or the character of the element, as the messages have it. *)
Definition element_dashes (i : SM vars nat) : SM vars (list Z) :=
  i ← i; a ← sm_gets (fun s => argv s !! i); a ← sm_lift a;
  mret (if at_ a 1 =? ch "-" then bs "--" else [at_ a 0]).

Definition my_index (s : list Z) (c : Z) : option (list Z) := (fun i => drop i s) <$> find_char c s.

Definition long_option (print_errors : bool) (optstring : list Z) (longopts : list option_) (longindp long_only : bool) :
    SM vars (option Z) := fun s =>
  text ← nextchar s;
  a ← argv s !! optind s;
  let '(found, exact, ambig) := long_loop (before_equals text) longopts 0 None false in
  if ambig && negb exact then
    (complain print_errors (bs "option `" ++ a ++ bs "' is ambiguous");;
     finish_element;; sm_modify (fun s => set_optopt 0 (set_optind (S (optind s)) s));; returns (ch "?")) s
  else match found with
  | Some f =>
      (sm_modify (fun s => set_optind (S (optind s)) s);;
       long_found print_errors optstring text longindp (element_dashes (sm_gets (fun s => (optind s - 1)%nat))) true f) s
  | None =>
      if negb long_only || (at_ a 1 =? ch "-") || bool_decide (my_index optstring (at_ text 0) = None) then
        (d ← element_dashes (sm_gets optind);
         complain print_errors (bs "unrecognized option `" ++ d ++ text ++ bs "'");;
         sm_modify (fun s => set_optopt 0 (set_optind (S (optind s)) (set_nextchar (Some []) s)));; returns (ch "?")) s
      else goes_on s
  end.

(** ** Short options *)

(** [-W foo], with [;] behind the W in [optstring], is the long option foo. *)
Definition w_option (print_errors : bool) (optstring : list Z) (longopts : option (list option_)) (longindp : bool) :
    SM vars (option Z) := fun s =>
  text ← nextchar s;
  let argc := length (argv s) in
  let c := ch "W" in
  r ← (match text with
       | _ :: _ => Some (Some text, set_optind (S (optind s)) (set_optarg (Some text) s))
       | [] =>
           if (optind s =? argc)%nat then Some (None, s)
           else a ← argv s !! optind s; Some (Some a, set_optind (S (optind s)) (set_optarg (Some a) s))
       end);
  match r with
  | (None, s) =>
      (complain print_errors (bs "option requires an argument -- " ++ [c]);;
       sm_modify (set_optopt c);; returns (missing optstring)) s
  | (Some text, s) =>
      l ← longopts;
      let s := set_nextchar (Some text) s in
      let '(found, exact, ambig) := long_loop (before_equals text) l 0 None false in
      if ambig && negb exact then
        (a ← (fun s => if print_errors then a ← argv s !! optind s; Some (a, s) else Some ([], s));
         complain print_errors (bs "option `-W " ++ a ++ bs "' is ambiguous");;
         finish_element;; sm_modify (fun s => set_optind (S (optind s)) s);; returns (ch "?")) s
      else match found with
      | Some f => long_found print_errors optstring text longindp (mret (bs "-W ")) false f s
      | None => returns (ch "W") (set_nextchar None s)
      end
  end.

(** The argument an option of one character takes: the rest of its element or
    the next one. *)
Definition short_argument (print_errors : bool) (optstring : list Z) (c : Z) (optional : bool) : SM vars Z := fun s =>
  rest ← nextchar s;
  '(c, s) ←
    (match rest with
     | _ :: _ => Some (c, set_optind (S (optind s)) (set_optarg (Some rest) s))
     | [] =>
         if optional then Some (c, set_optarg None s)
         else if (optind s =? length (argv s))%nat then
           (complain print_errors (bs "option requires an argument -- " ++ [c]);;
            sm_modify (set_optopt (i8 c));; mret (missing optstring)) s
         else a ← argv s !! optind s; Some (c, set_optind (S (optind s)) (set_optarg (Some a) s))
     end);
  Some (c, set_nextchar None s).

Definition invalid_char (print_errors : bool) (c : Z) : SM vars Z :=
  p ← sm_gets posixly_correct;
  complain print_errors ((if p : bool then bs "illegal option -- " else bs "invalid option -- ") ++ [c]);;
  sm_modify (set_optopt (i8 c));; mret (ch "?").

Definition short_option (print_errors : bool) (optstring : list Z) (longopts : option (list option_)) (longindp : bool) :
    SM vars Z := fun s =>
  text ← nextchar s;
  match text with
  | [] => None
  | c :: rest =>
      let s := set_nextchar (Some rest) s in
      let temp := my_index optstring c in
      let s := match rest with [] => set_optind (S (optind s)) s | _ => s end in
      match temp with
      | Some temp =>
          if c =? ch ":" then invalid_char print_errors c s
          else if (at_ temp 0 =? ch "W") && (at_ temp 1 =? ch ";") then
            '(r, s) ← w_option print_errors optstring longopts longindp s;
            r ← r; Some (r, s)
          else if at_ temp 1 =? ch ":" then
            '(c, s) ← short_argument print_errors optstring c (at_ temp 2 =? ch ":") s;
            Some (i8 c, s)
          else Some (i8 c, s)
      | None => invalid_char print_errors c s
      end
  end.

(** ** A call *)
Definition _getopt_internal (optstring : list Z) (longopts : option (list option_)) (longindp long_only : bool) :
    SM vars Z := fun s =>
  let print_errors := opterr s && negb (at_ optstring 0 =? ch ":") in
  let s := set_optarg None s in
  '(optstring, s) ←
    (if (optind s =? 0)%nat || negb (initialized s) then
       let s := if (optind s =? 0)%nat then set_optind 1 s else s in
       '(o, s) ← _getopt_initialize optstring s;
       Some (o, set_initialized true s)
     else Some (optstring, s));
  '(r, s) ←
    (if bool_decide (nextchar s = None) || bool_decide (nextchar s = Some [])
     then advance (bool_decide (longopts <> None)) s else goes_on s);
  match r with
  | Some r => Some (r, s)
  | None =>
      '(r, s) ←
        (match longopts with
         | None => goes_on s
         | Some l =>
             a ← argv s !! optind s;
             if (at_ a 1 =? ch "-") ||
                (long_only && (negb (at_ a 2 =? 0) || bool_decide (my_index optstring (at_ a 1) = None)))
             then long_option print_errors optstring l longindp long_only s else goes_on s
         end);
      match r with
      | Some r => Some (r, s)
      | None => short_option print_errors optstring longopts longindp s
      end
  end.

Definition getopt (optstring : list Z) : SM vars Z := _getopt_internal optstring None false false.
End Getopt.

(** ** What the options of a command line are *)
Inductive kind := Unknown | Plain | Required | Optional.

Definition kind_of (optstring : list Z) (c : Z) : kind :=
  if c =? ch ":" then Unknown else
  match my_index optstring c with
  | None => Unknown
  | Some t => if at_ t 1 =? ch ":" then (if at_ t 2 =? ch ":" then Optional else Required) else Plain
  end.

(** The options of an element with the characters [cs] in front of [rest]:
    their characters with their arguments, and whether the last one takes the
    next element. *)
Fixpoint cluster (optstring cs : list Z) (rest : list (list Z)) : list (Z * option (list Z)) * bool :=
  match cs with
  | [] => ([], false)
  | c :: cs' =>
      match kind_of optstring c with
      | Unknown => let '(l, t) := cluster optstring cs' rest in ((ch "?", None) :: l, t)
      | Plain => let '(l, t) := cluster optstring cs' rest in ((c, None) :: l, t)
      | Optional => ([(c, match cs' with [] => None | _ => Some cs' end)], false)
      | Required =>
          match cs', rest with
          | _ :: _, _ => ([(c, Some cs')], false)
          | [], r :: _ => ([(c, Some r)], true)
          | [], [] => ([(missing optstring, None)], false)
          end
      end
  end.

(** The options of the arguments, the elements they are in, and the elements
    that are no options; everything behind [--] is none. *)
Fixpoint parse (optstring : list Z) (args : list (list Z)) : list (Z * option (list Z)) * list (list Z) * list (list Z) :=
  match args with
  | [] => ([], [], [])
  | a :: args =>
      if bool_decide (a = bs "--") then ([], [a], args)
      else if NONOPTION_P a then let '(e, o, n) := parse optstring args in (e, o, a :: n)
      else
        let '(l, takes) := cluster optstring (drop 1 a) args in
        match takes, args with
        | true, r :: args' => let '(e, o, n) := parse optstring args' in (l ++ e, a :: r :: o, n)
        | _, _ => let '(e, o, n) := parse optstring args in (l ++ e, a :: o, n)
        end
  end.

(** [while ((c = getopt(argc, argv, optstring)) != -1)]: what comes with each
    [c]. *)
Fixpoint getopt_all (posix : bool) (fuel : nat) (optstring : list Z) (s : vars) : option (list (Z * option (list Z)) * vars) :=
  match fuel with
  | O => None
  | S f =>
      '(c, s) ← getopt posix optstring s;
      if c =? -1 then Some ([], s)
      else '(l, s') ← getopt_all posix f optstring s; Some ((c, optarg s) :: l, s')
  end.

(** ** Exchanging blocks *)
Lemma vector_insert (l r : list (list Z)) n x y : n = length l -> <[n := y]> (l ++ x :: r) = l ++ y :: r.
Proof. intros ->. by rewrite insert_app_r_alt, Nat.sub_diag by lia. Qed.

Lemma swap_run_blocks (x p m q y : list (list Z)) :
  length p = length q ->
  swap_run (length p) (length x) (length x + length p + length m) (x ++ p ++ m ++ q ++ y) = Some (x ++ q ++ m ++ p ++ y).
Proof.
  revert x q m. induction p as [|a p IH]; intros x q m Hq; destruct q as [|b q]; try done.
  cbn [length swap_run app]. rewrite (list_lookup_middle x _ a (length x) eq_refl). cbn [mbind option_bind].
  assert (E : forall c d, x ++ c :: p ++ m ++ d :: q ++ y = (x ++ c :: p ++ m) ++ d :: q ++ y) by (intros; by rewrite <- !app_assoc, <- app_comm_cons, <- app_assoc).
  assert (Hl : forall c, (length x + S (length p) + length m)%nat = length (x ++ c :: p ++ m)) by (intros; rewrite !length_app; cbn; rewrite length_app; lia).
  rewrite E, (list_lookup_middle _ _ _ _ (Hl a)). cbn [mbind option_bind]. rewrite <- E, vector_insert by done.
  rewrite E, vector_insert by apply Hl.
  specialize (IH (x ++ [b]) q (m ++ [a]) ltac:(by injection Hq)). rewrite !length_app in IH. cbn [length] in IH.
  rewrite <- !app_assoc, !Nat.add_1_r in IH. cbn [app] in IH.
  replace (S (length x + S (length p) + length m)) with (S (length x) + length p + S (length m))%nat by lia.
  rewrite <- E, IH. done.
Qed.

(** The rounds exchange two blocks that are next to each other. *)
Lemma exchange_loop_blocks fuel (x p q y : list (list Z)) :
  (length p + length q < fuel)%nat ->
  exchange_loop fuel (length x) (length x + length p) (length x + length p + length q) (x ++ p ++ q ++ y) =
  Some (x ++ q ++ p ++ y).
Proof.
  revert x p q y. induction fuel as [|fuel IH]; intros x p q y Hf; [lia|]. cbn [exchange_loop].
  destruct q as [|b q']; [cbn [length]; rewrite (proj2 (Nat.ltb_ge _ _)) by lia; done|].
  destruct p as [|a p']; [cbn [length]; rewrite Nat.add_0_r, Nat.ltb_irrefl, andb_false_r; done|].
  set (p := a :: p') in *. set (q := b :: q') in *.
  assert (0 < length p /\ 0 < length q)%nat as [Hp Hq] by (subst p q; cbn; lia). clearbody p q.
  rewrite !(proj2 (Nat.ltb_lt _ _)) by lia. cbn [andb].
  replace (length x + length p - length x)%nat with (length p) by lia.
  replace (length x + length p + length q - (length x + length p))%nat with (length q) by lia.
  destruct (Nat.ltb_spec (length p) (length q)) as [Hl|Hl].
  - rewrite <- (take_drop (length q - length p) q). set (q1 := take _ q). set (q2 := drop _ q).
    assert (length q1 = length q - length p /\ length q2 = length p)%nat as [L1 L2] by (subst q1 q2; rewrite length_take, length_drop; lia).
    rewrite <- !app_assoc. pose proof (swap_run_blocks x p q1 q2 y ltac:(lia)) as E.
    replace (length x + length p + length (q1 ++ q2) - length p)%nat with (length x + length p + length q1)%nat by (rewrite length_app; lia).
    rewrite E. cbn [mbind option_bind]. rewrite <- L2. rewrite IH by lia. done.
  - rewrite <- (take_drop (length q) p). set (p1 := take _ p). set (p2 := drop _ p).
    assert (length p1 = length q /\ length p2 = length p - length q)%nat as [L1 L2] by (subst p1 p2; rewrite length_take, length_drop; lia).
    rewrite <- !app_assoc. pose proof (swap_run_blocks x p1 p2 q y L1) as E. rewrite L1 in E.
    replace (length x + length (p1 ++ p2))%nat with (length x + length q + length p2)%nat by (rewrite length_app; lia).
    rewrite E. cbn [mbind option_bind].
    pose proof (IH (x ++ q) p2 p1 y ltac:(lia)) as E2. rewrite length_app, L1, <- !app_assoc in E2. exact E2.
Qed.

(** ** Between calls

    [A] are the elements that are in place, [N] the skipped ones that are no
    options, [B] options scanned behind them, [R] the rest. *)
Record core (A N B R : list (list Z)) (s : vars) : Prop := {
  c_argv : argv s = A ++ N ++ B ++ R;
  c_first : first_nonopt s = length A;
  c_last : last_nonopt s = (length A + length N)%nat;
  c_ind : optind s = (length A + length N + length B)%nat;
  c_init : initialized s = true;
  c_ord : ordering s = PERMUTE;
  c_prog : A <> [];
}.

Definition at_boundary (s : vars) : Prop := nextchar s = None \/ nextchar s = Some [].

Ltac core_done :=
  repeat match goal with H : core _ _ _ _ _ |- _ => destruct H end;
  constructor; cbn [argv first_nonopt last_nonopt optind initialized ordering set_optarg set_optind set_nextchar set_optopt
    set_nonopts set_argv print length app] in *;
  rewrite ?length_app; cbn [length]; try done; try lia; try (by rewrite <- ?app_assoc).

Lemma complain_run A N B R pe text s :
  core A N B R s -> exists t, complain pe text s = Some (tt, print t s).
Proof.
  intros [Ha _ _ _ _ _ Hp]. unfold complain. destruct pe.
  - rewrite Ha. destruct A as [|a A]; [done|]. eexists. reflexivity.
  - exists []. destruct s. unfold print. cbn. by rewrite app_nil_r.
Qed.

Section Calls.
Context (optstring : list Z) (Hchars : Forall (fun c => 0 < c < 128) optstring).
Context (Hmode : at_ optstring 0 <> ch "-" /\ at_ optstring 0 <> ch "+") (Hw : ch ";" ∉ optstring).
Notation getopt := (getopt false optstring).

Lemma my_index_some c t : my_index optstring c = Some t -> at_ t 0 = c /\ 0 < c < 128 /\ exists pre, optstring = pre ++ t.
Proof.
  unfold my_index. intros E. apply fmap_Some in E as (i & E & ->). apply find_char_lookup in E.
  split; [unfold at_; by rewrite lookup_drop, Nat.add_0_r, E|]. split; [by apply (Forall_lookup_1 _ _ _ _ Hchars E)|].
  exists (take i optstring). by rewrite take_drop.
Qed.

(** No [W;]. *)
Lemma no_w c t : my_index optstring c = Some t -> at_ t 1 =? ch ";" = false.
Proof.
  intros E. apply my_index_some in E as (_ & _ & pre & E). apply Z.eqb_neq. intros H. apply Hw.
  rewrite E. apply elem_of_app. right. unfold at_ in H. destruct (t !! 1%nat) as [x|] eqn:Ex; [|done].
  cbn in H. subst x. by eapply list_elem_of_lookup_2.
Qed.

(** A call in the middle of an element takes its next character. *)
Definition quiet (s : vars) : bool := opterr s && negb (at_ optstring 0 =? ch ":").

Lemma getopt_mid s c cs :
  initialized s = true -> (0 < optind s)%nat -> nextchar s = Some (c :: cs) ->
  getopt s = short_option (quiet s) optstring None false (set_optarg None s).
Proof.
  intros Hi Ho Hn. unfold Getopt.getopt, _getopt_internal. cbn [optind initialized set_optarg nextchar].
  rewrite Hi, (proj2 (Nat.eqb_neq _ _)) by lia. cbn [orb negb mbind option_bind nextchar set_optarg]. by rewrite Hn, !bool_decide_false by done.
Qed.

(** The states behind the last character of an element and in front of
    another one. *)
Definition behind (A N : list (list Z)) (a : list Z) (R : list (list Z)) (cs : list Z) (s : vars) : Prop :=
  match cs with
  | [] => core A N [a] R s /\ at_boundary s
  | _ => core A N [] (a :: R) s /\ nextchar s = Some cs
  end.

Lemma unknown_run A N a R pe c cs s :
  core A N [] (a :: R) s -> nextchar s = Some (c :: cs) -> kind_of optstring c = Unknown -> optarg s = None ->
  exists s', short_option pe optstring None false s = Some (ch "?", s') /\ optarg s' = None /\ behind A N a R cs s'.
Proof.
  intros Hc Hn Hk Ho. unfold short_option. rewrite Hn. cbn [mbind option_bind].
  set (s1 := match cs with [] => _ | _ => _ end).
  assert (H1 : behind A N a R cs s1 /\ optarg s1 = None).
  { subst s1. destruct cs as [|c' cs]; (split; [split|done]); try (by right); try done; core_done. }
  destruct H1 as [H1 Ho1].
  assert (Hinv : exists s', invalid_char pe c s1 = Some (ch "?", s') /\ optarg s' = None /\ behind A N a R cs s').
  { unfold invalid_char. assert (exists B R', core A N B R' s1) as (B & R' & Hcore) by (destruct cs; destruct H1; eauto).
    destruct (complain_run A N B R' pe ((if posixly_correct s1 then bs "illegal option -- " else bs "invalid option -- ") ++ [c]) s1 Hcore) as [t E].
    eexists. split; [unfold mbind, SM_bind, sm_gets; rewrite E; reflexivity|]. cbn. split; [done|].
    destruct cs; destruct H1 as [H1 H2]; split; try core_done; exact H2. }
  unfold kind_of in Hk. destruct (c =? ch ":") eqn:Ec.
  - destruct (my_index optstring c); done.
  - destruct (my_index optstring c) as [t|]; [by destruct (at_ t 1 =? ch ":"), (at_ t 2 =? ch ":")|done].
Qed.
(** The character is an option; what is left is its argument. *)
Lemma known_run A N a R pe c cs s :
  core A N [] (a :: R) s -> nextchar s = Some (c :: cs) -> kind_of optstring c <> Unknown -> optarg s = None ->
  exists s1, behind A N a R cs s1 /\ optarg s1 = None /\ nextchar s1 = Some cs /\ i8 c = c /\
    short_option pe optstring None false s =
    match kind_of optstring c with
    | Plain => Some (c, s1)
    | k => '(c, s) ← short_argument pe optstring c (match k with Optional => true | _ => false end) s1; Some (i8 c, s)
    end.
Proof.
  intros Hc Hn Hk Ho. unfold short_option. rewrite Hn. cbn [mbind option_bind].
  set (s1 := match cs with [] => _ | _ => _ end). exists s1.
  assert (H1 : behind A N a R cs s1 /\ optarg s1 = None /\ nextchar s1 = Some cs).
  { subst s1. destruct cs as [|c' cs]; (split; [split; [core_done|first [by right|done]]|by split]). }
  destruct H1 as (H1 & H2 & H3). split; [done|]. split; [done|]. split; [done|].
  unfold kind_of in *. destruct (c =? ch ":"); [done|]. destruct (my_index optstring c) as [t|] eqn:Et; [|done].
  destruct (my_index_some _ _ Et) as (_ & Hr & _). rewrite (no_w _ _ Et), andb_false_r.
  assert (i8 c = c) as Hi by (apply i8_small; lia). split; [done|].
  destruct (at_ t 1 =? ch ":"); [by destruct (at_ t 2 =? ch ":")|]. by rewrite Hi.
Qed.

(** An argument in the element itself. *)
Lemma attached_run A N a R pe c cs optional s1 :
  cs <> [] -> behind A N a R cs s1 -> nextchar s1 = Some cs ->
  exists s', short_argument pe optstring c optional s1 = Some (c, s') /\ optarg s' = Some cs /\ core A N [a] R s' /\ at_boundary s'.
Proof.
  intros Hne Hb Hn. destruct cs as [|c' cs]; [done|]. destruct Hb as [Hb _]. unfold short_argument. rewrite Hn.
  eexists. split; [reflexivity|]. split; [done|]. split; [core_done|by left].
Qed.

Lemma detached_run A N a R pe c s1 :
  behind A N a R [] s1 -> optarg s1 = None -> nextchar s1 = Some [] ->
  (exists s', short_argument pe optstring c true s1 = Some (c, s') /\ optarg s' = None /\ core A N [a] R s' /\ at_boundary s') /\
  match R with
  | r :: R' => exists s', short_argument pe optstring c false s1 = Some (c, s') /\ optarg s' = Some r /\ core A N [a; r] R' s' /\ at_boundary s'
  | [] => exists s', short_argument pe optstring c false s1 = Some (missing optstring, s') /\ optarg s' = None /\ core A N [a] [] s' /\ at_boundary s'
  end.
Proof.
  intros [Hb Hn] Ho Hn'. unfold short_argument. rewrite Hn'. cbn [mbind option_bind]. split.
  - eexists. split; [reflexivity|]. split; [done|]. split; [core_done|by left].
  - pose proof Hb as [Ha _ _ Hi _ _ _].
    assert (Hlen : length (argv s1) = (optind s1 + length R)%nat) by (rewrite Ha, Hi, !length_app; cbn; lia).
    destruct R as [|r R].
    + rewrite (proj2 (Nat.eqb_eq _ _)) by (cbn in Hlen; lia).
      destruct (complain_run A N [a] [] pe (bs "option requires an argument -- " ++ [c]) s1 Hb) as [t E].
      eexists. split; [unfold mbind at 2, SM_bind; rewrite E; reflexivity|]. split; [done|]. split; [core_done|by left].
    + rewrite (proj2 (Nat.eqb_neq _ _)) by (cbn in Hlen; lia).
      assert (argv s1 !! optind s1 = Some r) as ->.
      { rewrite Ha, Hi. change ([a] ++ r :: R) with (a :: r :: R). replace (A ++ N ++ a :: r :: R) with ((A ++ N ++ [a]) ++ r :: R) by (by rewrite <- !app_assoc).
        apply list_lookup_middle. rewrite !length_app. cbn. lia. }
      eexists. split; [reflexivity|]. split; [done|]. split; [core_done|by left].
Qed.
(** The calls from [s] on return these, and the program's name stays in front. *)
Inductive calls (prog : list Z) : list (Z * option (list Z)) -> vars -> vars -> Prop :=
  | calls_nil s : calls prog [] s s
  | calls_cons c l s s' s'' :
      getopt s = Some (c, s') -> c <> -1 -> argv s' !! 0%nat = Some prog -> calls prog l s' s'' ->
      calls prog ((c, optarg s') :: l) s s''.

Lemma calls_app prog l l' s s' s'' : calls prog l s s' -> calls prog l' s' s'' -> calls prog (l ++ l') s s''.
Proof. induction 1; [done|]. intros H'. cbn. econstructor; eauto. Qed.

Lemma calls_one prog c s s' : getopt s = Some (c, s') -> c <> -1 -> argv s' !! 0%nat = Some prog -> calls prog [(c, optarg s')] s s'.
Proof. intros. econstructor; eauto using calls_nil. Qed.

Lemma calls_all prog l s s1 s' :
  calls prog l s s1 -> getopt s1 = Some (-1, s') -> getopt_all false (S (length l)) optstring s = Some (l, s').
Proof.
  induction 1 as [s|c l s s2 s3 E Hc _ _ IH]; intros E'.
  - cbn [length getopt_all]. by rewrite E'.
  - cbn [length]. set (n := S (length l)) in *. cbn [getopt_all]. rewrite E. cbn [mbind option_bind]. rewrite (proj2 (Z.eqb_neq _ _) Hc). by rewrite (IH E').
Qed.

Lemma core_head A N B R s prog : core A N B R s -> A !! 0%nat = Some prog -> argv s !! 0%nat = Some prog.
Proof. intros Hc Hp. rewrite (c_argv _ _ _ _ _ Hc). by apply lookup_app_l_Some. Qed.

Lemma behind_head A N a R cs s prog : behind A N a R cs s -> A !! 0%nat = Some prog -> argv s !! 0%nat = Some prog.
Proof. destruct cs; intros [Hc _]; by eapply core_head. Qed.

Lemma missing_known : i8 (missing optstring) = missing optstring /\ missing optstring <> -1.
Proof. unfold missing. by case_match. Qed.

Lemma kind_range c : kind_of optstring c <> Unknown -> c <> -1.
Proof.
  unfold kind_of. destruct (c =? ch ":"); [done|]. destruct (my_index optstring c) as [t|] eqn:E; [|done].
  destruct (my_index_some _ _ E) as (_ & Hr & _). lia.
Qed.

Lemma boundary_optind A N B R s : core A N B R s -> (0 < optind s)%nat.
Proof. intros [_ _ _ -> _ _ Hp]. destruct A; [done|cbn; lia]. Qed.

Lemma behind_next A N a R c cs s1 :
  behind A N a R (c :: cs) s1 ->
  core A N [] (a :: R) (set_optarg None s1) /\ nextchar s1 = Some (c :: cs) /\
  getopt s1 = short_option (quiet s1) optstring None false (set_optarg None s1).
Proof.
  intros [H1 H2]. split; [core_done|]. split; [done|]. apply (getopt_mid _ c cs); [by destruct H1|by eapply boundary_optind|done].
Qed.

Lemma argument_calls prog pe c optional s0 s1 c' s' :
  getopt s0 = ('(c, s) ← short_argument pe optstring c optional s1; Some (i8 c, s)) ->
  short_argument pe optstring c optional s1 = Some (c', s') -> i8 c' = c' -> c' <> -1 -> argv s' !! 0%nat = Some prog ->
  calls prog [(c', optarg s')] s0 s'.
Proof. intros E Ea Hi Hc Hp. apply calls_one; [|done..]. by rewrite E, Ea; cbn; rewrite Hi. Qed.

Lemma cluster_run prog A N a R cs pe s0 s :
  A !! 0%nat = Some prog -> cs <> [] -> getopt s0 = short_option pe optstring None false s ->
  core A N [] (a :: R) s -> nextchar s = Some cs -> optarg s = None ->
  let '(l, takes) := cluster optstring cs R in
  exists s', core A N (a :: (if takes then take 1 R else [])) (if takes then drop 1 R else R) s' /\ at_boundary s' /\ calls prog l s0 s'.
Proof.
  intros Hp. revert pe s0 s. induction cs as [|c cs IH]; intros pe s0 s Hne E Hc Hn Ho; [done|]. cbn [cluster].
  (* the rest of the element *)
  assert (Hrest : forall c', c' <> -1 -> (exists s1, getopt s0 = Some (c', s1) /\ optarg s1 = None /\ behind A N a R cs s1) ->
    let '(l, takes) := (let '(l, t) := cluster optstring cs R in ((c', None) :: l, t)) in
    exists s', core A N (a :: (if takes then take 1 R else [])) (if takes then drop 1 R else R) s' /\ at_boundary s' /\ calls prog l s0 s').
  { intros c' Hc' (s1 & E1 & Ho1 & Hb). pose proof (calls_one prog c' s0 s1 E1 Hc' (behind_head _ _ _ _ _ _ _ Hb Hp)) as Hcall. rewrite Ho1 in Hcall.
    destruct cs as [|c2 cs]; [exists s1; destruct Hb; by split_and!|].
    destruct (behind_next _ _ _ _ _ _ _ Hb) as (H1 & H2 & H3).
    specialize (IH (quiet s1) s1 (set_optarg None s1) ltac:(done) H3 H1 H2 eq_refl).
    destruct (cluster optstring (c2 :: cs) R) as [l takes]. destruct IH as (s' & Hs1 & Hs2 & Hs3).
    exists s'. split_and!; [done..|]. by apply (calls_app _ [_] l _ s1). }
  (* an option with an argument is the last one *)
  assert (Hlast : forall B' R' optional s1 c' s', getopt s0 = ('(c, s) ← short_argument pe optstring c optional s1; Some (i8 c, s)) ->
    short_argument pe optstring c optional s1 = Some (c', s') -> i8 c' = c' -> c' <> -1 -> core A N B' R' s' -> at_boundary s' ->
    exists s2, core A N B' R' s2 /\ at_boundary s2 /\ calls prog [(c', optarg s')] s0 s2).
  { intros B' R' optional s1 c' s' Eg Ea Hi Hc' Hcore Hb. exists s'. split_and!; [done..|].
    eapply argument_calls; [exact Eg|exact Ea|done|done|by eapply core_head]. }
  destruct (kind_of optstring c) eqn:Ek.
  1: { apply Hrest; [done|]. destruct (unknown_run A N a R pe c cs s Hc Hn Ek Ho) as (s1 & E1 & H1 & H2).
       exists s1. by rewrite E. }
  all: assert (Hk : kind_of optstring c <> Unknown) by (by rewrite Ek); pose proof (kind_range c Hk) as Hc1;
    destruct (known_run A N a R pe c cs s Hc Hn Hk Ho) as (s1 & Hb & Ho1 & Hn1 & Hi & E1); rewrite Ek in E1.
  - apply Hrest; [done|]. exists s1. by rewrite E.
  - rewrite E1 in E. destruct cs as [|c2 cs].
    + destruct (detached_run A N a R pe c s1 Hb Ho1 Hn1) as [_ Hd].
      destruct R as [|r R]; destruct Hd as (s' & Ea & Ho' & Hc' & Hb'); rewrite <- Ho'; eapply Hlast; try done; apply missing_known.
    + destruct (attached_run A N a R pe c (c2 :: cs) false s1 ltac:(done) Hb Hn1) as (s' & Ea & Ho' & Hc' & Hb').
      rewrite <- Ho'. by eapply Hlast.
  - rewrite E1 in E.
    assert (exists s', short_argument pe optstring c true s1 = Some (c, s') /\ optarg s' = match cs with [] => None | _ => Some cs end /\
      core A N [a] R s' /\ at_boundary s') as (s' & Ea & Ho' & Hc' & Hb').
    { destruct cs as [|c2 cs]; [by destruct (detached_run A N a R pe c s1 Hb Ho1 Hn1)|by apply attached_run]. }
    rewrite <- Ho'. by eapply Hlast.
Qed.

(** ** The next element *)
Lemma exchange_run A N B R s :
  core A N B R s -> exists s', exchange s = Some (tt, s') /\ argv s' = A ++ B ++ N ++ R /\
    first_nonopt s' = (length A + length B)%nat /\ last_nonopt s' = optind s /\ optind s' = optind s /\
    initialized s' = true /\ ordering s' = PERMUTE /\ nextchar s' = nextchar s /\ optarg s' = optarg s.
Proof.
  intros [Ha Hf Hl Hi Hin Hord Hp]. unfold exchange. rewrite Ha, Hf, Hl, Hi, exchange_loop_blocks by lia.
  eexists. split; [reflexivity|]. cbn. split_and!; done || lia.
Qed.

Lemma skip_nonopts_spec l :
  (skip_nonopts l <= length l)%nat /\
  match drop (skip_nonopts l) l with [] => True | a :: _ => NONOPTION_P a = false end.
Proof.
  induction l as [|a l [IH1 IH2]]; [done|]. cbn [skip_nonopts]. destruct (NONOPTION_P a) eqn:E; [|cbn; split; [lia|done]].
  cbn [length drop]. split; [lia|done].
Qed.

Lemma permute_run A N B R s :
  core A N B R s -> let k := skip_nonopts R in
  exists s', permute s = Some (tt, s') /\ core (A ++ B) (N ++ take k R) [] (drop k R) s' /\ nextchar s' = nextchar s /\ optarg s' = optarg s.
Proof.
  intros Hc k. pose proof (proj1 (skip_nonopts_spec R)) as Hk. fold k in Hk.
  assert (H : exists s1, 
    (if negb (first_nonopt s =? last_nonopt s)%nat && negb (last_nonopt s =? optind s)%nat then exchange s
     else if negb (last_nonopt s =? optind s)%nat then Some (tt, set_nonopts (optind s) (last_nonopt s) s)
     else Some (tt, s)) = Some (tt, s1) /\ argv s1 = (A ++ B) ++ N ++ R /\ first_nonopt s1 = length (A ++ B) /\
     optind s1 = (length (A ++ B) + length N)%nat /\ initialized s1 = true /\ ordering s1 = PERMUTE /\
     nextchar s1 = nextchar s /\ optarg s1 = optarg s).
  { rewrite length_app. pose proof Hc as [Ha Hf Hl Hi Hin Hord Hp]. rewrite Hf, Hl, Hi.
    destruct N as [|n N]; [|destruct B as [|b B]].
    - cbn [length]. rewrite Nat.add_0_r, Nat.eqb_refl. cbn [negb andb].
      destruct B as [|b B]; cbn [length]; [rewrite Nat.add_0_r, Nat.eqb_refl|rewrite (proj2 (Nat.eqb_neq _ _)) by lia]; cbn [negb];
        (eexists; split; [reflexivity|]); cbn in *; rewrite <- ?app_assoc; split_and!; done || lia.
    - cbn [length]. rewrite Nat.add_0_r, Nat.eqb_refl, andb_false_r. cbn [negb]. eexists. split; [reflexivity|].
      rewrite app_nil_r. cbn in *. split_and!; done || lia.
    - cbn [length]. rewrite !(proj2 (Nat.eqb_neq _ _)) by lia. cbn [negb andb].
      destruct (exchange_run _ _ _ _ _ Hc) as (s1 & E & H1 & H2 & H3 & H4 & H5 & H6 & H7 & H8).
      exists s1. rewrite <- app_assoc. split_and!; try done. rewrite H4, Hi. cbn. lia. }
  destruct H as (s1 & E & H1 & H2 & H3 & H4 & H5 & H6 & H7). unfold permute. rewrite E. cbn [mbind option_bind].
  assert (Ed : drop (optind s1) (argv s1) = R).
  { rewrite H1, H3, app_assoc, <- length_app. by rewrite drop_app_length. }
  rewrite Ed. fold k. eexists. split; [reflexivity|]. split; [|done].
  constructor; cbn [argv first_nonopt last_nonopt optind initialized ordering set_nonopts set_optind]; try done.
  - rewrite H1. cbn [app]. rewrite <- (app_assoc N). by rewrite take_drop.
  - rewrite H3, (length_app N), length_take. lia.
  - rewrite H3, (length_app N), length_take. cbn. lia.
  - destruct Hc as [_ _ _ _ _ _ Hp]. by destruct A.
Qed.

(** Where the scan stops: the options, then the other arguments. *)
Definition ended (E F : list (list Z)) (s : vars) : Prop := argv s = E ++ F /\ optind s = length E.

Lemma end_of_options_run A N T s :
  core A N [] (bs "--" :: T) s ->
  exists s', end_of_options s = Some (tt, s') /\ argv s' = A ++ bs "--" :: N ++ T /\
    first_nonopt s' = S (length A) /\ last_nonopt s' = length (argv s') /\ optind s' = length (argv s').
Proof.
  intros Hc. assert (Hc1 : core A N [bs "--"] T (set_optind (S (optind s)) s)) by core_done.
  unfold end_of_options. cbv zeta. set (s1 := set_optind (S (optind s)) s) in *. pose proof Hc1 as [Ha Hf Hl Hi _ _ _]. rewrite Hf, Hl, Hi.
  destruct N as [|n N]; cbn [length].
  - rewrite Nat.add_0_r, Nat.eqb_refl. cbn [negb andb mbind option_bind].
    eexists. split; [reflexivity|]. cbn [argv first_nonopt last_nonopt optind set_nonopts set_optind].
    split_and!; [by rewrite Ha|lia|done|done].
  - rewrite !(proj2 (Nat.eqb_neq _ _)) by lia. cbn [negb andb].
    destruct (exchange_run _ _ _ _ _ Hc1) as (s2 & E & H1 & H2 & _). rewrite E. cbn [mbind option_bind].
    eexists. split; [reflexivity|]. cbn [argv first_nonopt last_nonopt optind set_nonopts set_optind].
    split_and!; [by rewrite H1|rewrite H2; cbn; lia|done|done].
Qed.

Lemma stop_run (E F : list (list Z)) argc s X :
  argv s = E ++ F -> first_nonopt s = length E -> last_nonopt s = argc -> optind s = argc -> argc = length (argv s) ->
  exists s', (if (optind s =? argc)%nat then returns (-1) (if (first_nonopt s =? last_nonopt s)%nat then s else set_optind (first_nonopt s) s)
     else X) = Some (Some (-1), s') /\ ended E F s'.
Proof.
  intros Ha Hf Hl Hi Hc. rewrite (proj2 (Nat.eqb_eq _ _) Hi). eexists. split; [reflexivity|].
  destruct (Nat.eqb_spec (first_nonopt s) (last_nonopt s)) as [He|He]; split; cbn; congruence.
Qed.

Lemma advance_run A N B R s :
  core A N B R s -> let k := skip_nonopts R in
  match drop k R with
  | [] => exists s', advance false s = Some (Some (-1), s') /\ ended (A ++ B) (N ++ take k R) s'
  | a :: T =>
      if bool_decide (a = bs "--")
      then exists s', advance false s = Some (Some (-1), s') /\ ended (A ++ B ++ [a]) (N ++ take k R ++ T) s'
      else exists s', advance false s = Some (None, s') /\ core (A ++ B) (N ++ take k R) [] (a :: T) s' /\
        nextchar s' = Some (drop 1 a) /\ optarg s' = optarg s
  end.
Proof.
  intros Hc k. unfold advance. cbv zeta.
  assert (Hc1 : core A N B R (set_nonopts (first_nonopt s `min` optind s) (last_nonopt s `min` optind s) s)) by core_done.
  set (s1 := set_nonopts (first_nonopt s `min` optind s) _ s) in *. replace (optarg s) with (optarg s1) by done.
  replace (length (argv s)) with (length (argv s1)) by done. clearbody s1. clear s Hc.
  rewrite bool_decide_true by (by destruct Hc1).
  destruct (permute_run _ _ _ _ _ Hc1) as (s2 & E & Hc2 & _ & Ho). fold k in Hc2. rewrite E. cbn [mbind option_bind]. rewrite <- Ho.
  pose proof Hc1 as [Ha1 _ _ _ _ _ _]. pose proof Hc2 as [Ha Hf Hl Hi _ Hord _].
  assert (Hargc : length (argv s1) = length (argv s2)).
  { rewrite Ha1, Ha, !length_app, length_take, length_drop. cbn. lia. }
  rewrite Hargc. clear Hargc Ha1 Hc1 E Ho.
  pose proof (proj2 (skip_nonopts_spec R)) as Hnon. fold k in Hnon. set (D := drop k R) in *. clearbody D.
  destruct D as [|a T].
  - rewrite app_nil_r in Ha. cbn [app] in Ha.
    assert (Hlen : length (argv s2) = (length (A ++ B) + length (N ++ take k R))%nat) by (by rewrite Ha, length_app).
    rewrite (proj2 (Nat.eqb_eq (optind s2) (length (argv s2)))) by (rewrite Hi; cbn; lia). cbn [mbind option_bind].
    apply (stop_run (A ++ B) (N ++ take k R)); [done|done|by rewrite Hlen|rewrite Hlen, Hi; cbn; lia|done].
  - assert (Hlen : length (argv s2) = (optind s2 + S (length T))%nat) by (rewrite Ha, Hi, !length_app; cbn; lia).
    assert (Hlook : argv s2 !! optind s2 = Some a).
    { rewrite Ha, Hi. cbn [app]. rewrite app_assoc. apply list_lookup_middle. rewrite (length_app (A ++ B)). cbn. lia. }
    rewrite (proj2 (Nat.eqb_neq (optind s2) (length (argv s2)))) by lia. rewrite Hlook. cbn [mbind option_bind].
    destruct (bool_decide_reflect (a = bs "--")) as [->|Hne].
    + destruct (end_of_options_run _ _ _ _ Hc2) as (s3 & E & H1 & H2 & H3 & H4). rewrite E. cbn [mbind option_bind].
      assert (length (argv s2) = length (argv s3)) as -> by (rewrite Ha, H1, !length_app; cbn; rewrite !length_app; lia).
      apply (stop_run (A ++ B ++ [bs "--"]) (N ++ take k R ++ T)); try done.
      * rewrite H1, <- !app_assoc. done.
      * rewrite H2, !length_app. cbn. lia.
    + cbn [mbind option_bind]. rewrite (proj2 (Nat.eqb_neq (optind s2) (length (argv s2)))) by lia. rewrite Hlook.
      cbn [mbind option_bind andb]. rewrite Hnon.
      eexists. split; [reflexivity|]. split; [by destruct Hc2; constructor|done].
Qed.


(** ** All calls *)
Lemma parse_skip R :
  parse optstring R = let '(e, o, n) := parse optstring (drop (skip_nonopts R) R) in (e, o, take (skip_nonopts R) R ++ n).
Proof.
  induction R as [|a R IH]; [done|]. cbn [skip_nonopts]. destruct (NONOPTION_P a) eqn:Ea.
  - cbn [parse drop take]. rewrite bool_decide_false, Ea by (by intros ->). rewrite IH.
    by destruct (parse optstring (drop (skip_nonopts R) R)) as [[e o] n].
  - cbn [drop take]. by destruct (parse optstring (a :: R)) as [[e o] n].
Qed.

(** The call from [s0] starts with the next element, in [s]. *)
Definition at_element (s0 : vars) (pe : bool) (s : vars) : Prop :=
  getopt s0 = ('(r, s) ← advance false s;
               match r with Some r => Some (r, s) | None => short_option pe optstring None false s end).

Lemma getopt_boundary A N B R s :
  core A N B R s -> at_boundary s -> at_element s (quiet s) (set_optarg None s).
Proof.
  intros Hc Hb. unfold at_element, Getopt.getopt, _getopt_internal. cbn [optind initialized set_optarg nextchar].
  rewrite (c_init _ _ _ _ _ Hc), (proj2 (Nat.eqb_neq _ 0)) by (pose proof (boundary_optind _ _ _ _ _ Hc); lia).
  cbn [orb negb mbind option_bind nextchar set_optarg].
  destruct Hb as [-> | ->]; cbn [bool_decide decide decide_rel orb]; by destruct (advance _ _) as [[[]]|].
Qed.

Lemma getopt_first prog args s :
  argv s = prog :: args -> optind s = 0%nat \/ (optind s = 1%nat /\ initialized s = false) ->
  exists s1, at_element s (quiet s) s1 /\ core [prog] [] [] args s1 /\ optarg s1 = None.
Proof.
  intros Ha Hi. unfold at_element, Getopt.getopt, _getopt_internal. cbn [optind initialized set_optarg nextchar].
  set (s' := if (optind s =? 0)%nat then _ else _).
  assert (Hs : argv s' = argv s /\ optind s' = 1%nat /\ optarg s' = None).
  { subst s'. destruct Hi as [E|[E _]]; rewrite E; by split_and!. }
  assert ((optind s =? 0)%nat || negb (initialized s) = true) as -> by (by destruct Hi as [-> | [-> ->]]).
  clearbody s'. destruct Hs as (Ha' & Hi' & Ho'). unfold _getopt_initialize. cbv zeta.
  destruct Hmode as [Hm1 Hm2]. rewrite (proj2 (Z.eqb_neq _ _) Hm1), (proj2 (Z.eqb_neq _ _) Hm2). cbn [mbind option_bind].
  set (s1 := set_initialized true _). exists s1. split; [|split; [constructor; cbn; congruence|done]].
  cbn [nextchar bool_decide decide decide_rel orb]. by destruct (advance _ _) as [[[]]|].
Qed.

Lemma parse_option a T :
  a <> bs "--" -> NONOPTION_P a = false ->
  parse optstring (a :: T) =
  let '(l, takes) := cluster optstring (drop 1 a) T in
  let '(e, o, n) := parse optstring (if takes then drop 1 T else T) in
  (l ++ e, a :: (if takes then take 1 T else []) ++ o, n).
Proof.
  intros Hne Ha. cbn [parse]. rewrite bool_decide_false, Ha by done.
  destruct (cluster optstring (drop 1 a) T) as [l [|]], T as [|r T]; try done.
Qed.

Lemma option_chars a : NONOPTION_P a = false -> drop 1 a <> [].
Proof.
  unfold NONOPTION_P. intros H E. apply orb_false_iff in H as [_ H]. apply Z.eqb_neq in H. apply H.
  unfold at_. destruct a as [|x [|y a]]; done.
Qed.

Lemma scan_run prog l R A N B s0 pe s :
  (length R <= l)%nat -> A !! 0%nat = Some prog -> at_element s0 pe s -> core A N B R s -> optarg s = None ->
  let '(e, o, n) := parse optstring R in
  exists s1 s', calls prog e s0 s1 /\ getopt s1 = Some (-1, s') /\ ended (A ++ B ++ o) (N ++ n) s'.
Proof.
  revert R A N B s0 pe s. induction l as [|l IH]; intros R A N B s0 pe s Hl Hp E Hc Ho; rewrite parse_skip;
    pose proof (advance_run _ _ _ _ _ Hc) as Hadv; pose proof (skip_nonopts_spec R) as [Hk Hnon]; cbv zeta in Hadv;
    (destruct (drop (skip_nonopts R) R) as [|a T] eqn:Ed;
      [destruct Hadv as (s1 & E1 & He); exists s0, s1; rewrite E, E1; cbn [parse]; rewrite !app_nil_r; by split_and!; [constructor|..]|]);
    pose proof (f_equal length Ed) as HT; rewrite length_drop in HT; cbn [length] in HT; [lia|].
  destruct (bool_decide_reflect (a = bs "--")) as [->|Hne].
  - destruct Hadv as (s1 & E1 & He). exists s0, s1. rewrite E, E1. by split_and!; [constructor|..].
  - destruct Hadv as (s1 & E1 & Hc1 & Hn1 & Ho1). rewrite (parse_option a T Hne Hnon).
    assert (Eg : getopt s0 = short_option pe optstring None false s1) by (by rewrite E, E1).
    assert (Hp1 : (A ++ B) !! 0%nat = Some prog) by (by apply lookup_app_l_Some).
    pose proof (cluster_run prog _ _ a T (drop 1 a) pe s0 s1 Hp1 (option_chars a Hnon) Eg Hc1 Hn1 ltac:(congruence)) as Hclu.
    destruct (cluster optstring (drop 1 a) T) as [ev takes]. destruct Hclu as (s2 & Hc2 & Hb2 & Hcalls).
    set (R2 := if takes then drop 1 T else T) in *. set (tk := if takes then take 1 T else []) in *.
    assert (length R2 <= l)%nat as HR2 by (subst R2; destruct takes; rewrite ?length_drop; lia). clearbody R2 tk.
    pose proof (getopt_boundary _ _ _ _ _ Hc2 Hb2) as Hat.
    assert (Hc3 : core (A ++ B) (N ++ take (skip_nonopts R) R) (a :: tk) R2 (set_optarg None s2)) by (by destruct Hc2; constructor).
    specialize (IH R2 _ _ _ s2 (quiet s2) _ HR2 Hp1 Hat Hc3 eq_refl).
    destruct (parse optstring R2) as [[e o] n]. destruct IH as (s3 & s' & E2 & E3 & He2). exists s3, s'.
    split_and!; [by eapply calls_app|done|]. cbn [app] in He2. by rewrite <- !app_assoc in He2.
Qed.

Lemma command_calls prog args s :
  argv s = prog :: args -> optind s = 0%nat \/ (optind s = 1%nat /\ initialized s = false) ->
  let '(evs, opts, nons) := parse optstring args in
  exists s1 s', calls prog evs s s1 /\ getopt s1 = Some (-1, s') /\ argv s' = prog :: opts ++ nons /\ optind s' = S (length opts).
Proof.
  intros Ha Hi. destruct (getopt_first prog args s Ha Hi) as (s1 & E & Hc & Ho).
  pose proof (scan_run prog (length args) args [prog] [] [] s _ s1 (le_n _) eq_refl E Hc Ho) as H.
  destruct (parse optstring args) as [[evs opts] nons]. destruct H as (s2 & s' & H1 & H2 & H3 & H4). by exists s2, s'.
Qed.
End Calls.

(** The options and the other arguments are the arguments, each in their
    order. *)
Lemma parse_arguments_le optstring l args :
  (length args <= l)%nat ->
  let '(_, opts, nons) := parse optstring args in opts ++ nons ≡ₚ args /\ opts `sublist_of` args /\ nons `sublist_of` args.
Proof.
  revert args. induction l as [|l IH]; intros [|a args] Hl; cbn [length] in Hl; try done; [lia|]. cbn [parse].
  case_bool_decide; [split_and!; [done|apply sublist_skip, sublist_nil_l|by apply sublist_cons]|].
  assert (Hrest := IH args ltac:(lia)). destruct (NONOPTION_P a).
  - destruct (parse optstring args) as [[e o] n]. destruct Hrest as (H1 & H2 & H3).
    split_and!; [by rewrite <- Permutation_middle, H1|by apply sublist_cons|by apply sublist_skip].
  - destruct (cluster optstring (drop 1 a) args) as [ev [|]]; [destruct args as [|r args]|].
    + destruct (parse optstring []) as [[e o] n]. destruct Hrest as (H1 & H2 & H3).
      split_and!; [cbn; by rewrite H1|by apply sublist_skip|by apply sublist_cons].
    + specialize (IH args ltac:(cbn in Hl; lia)). destruct (parse optstring args) as [[e o] n]. destruct IH as (H1 & H2 & H3).
      split_and!; [cbn; by rewrite H1|by apply sublist_skip, sublist_skip|by apply sublist_cons, sublist_cons].
    + destruct (parse optstring args) as [[e o] n]. destruct Hrest as (H1 & H2 & H3).
      split_and!; [cbn; by rewrite H1|by apply sublist_skip|by apply sublist_cons].
Qed.

(** C21: All calls of [getopt] on a command line, with POSIXLY_CORRECT unset
    and option characters that are ASCII, none of them the [-] or [+] in front
    that selects another order or the [;] of [W;]: with one call more than
    there are options they return the options of the reference [parse], each
    with its argument - in the element itself or the next one - and a [?] for
    each character that is none (the missing argument of the last option gives
    [?] or [:]); the calls permute the arguments in place, so that behind the
    program's name come the elements of the options, then from [optind] on the
    arguments, each in the order given, and none is lost or doubled. *)
Theorem getopt_permutes optstring prog args s evs opts nons :
  Forall (fun c => 0 < c < 128) optstring ->
  at_ optstring 0 <> ch "-" /\ at_ optstring 0 <> ch "+" -> ch ";" ∉ optstring ->
  argv s = prog :: args -> optind s = 0%nat \/ (optind s = 1%nat /\ initialized s = false) ->
  parse optstring args = (evs, opts, nons) ->
  (exists s', getopt_all false (S (length evs)) optstring s = Some (evs, s') /\
     argv s' = prog :: opts ++ nons /\ optind s' = S (length opts)) /\
  opts ++ nons ≡ₚ args /\ opts `sublist_of` args /\ nons `sublist_of` args.
Proof.
  intros Hchars Hmode Hw Ha Hi Hp. split.
  - pose proof (command_calls optstring Hchars Hmode Hw prog args s Ha Hi) as H. rewrite Hp in H.
    destruct H as (s1 & s' & H1 & H2 & H3 & H4). exists s'. split; [|done]. by eapply calls_all.
  - pose proof (parse_arguments_le optstring (length args) args (le_n _)) as H. by rewrite Hp in H.
Qed.

(** A command line: the variables as the program starts. *)
Definition start (argv : list (list Z)) : vars :=
  Vars argv None 1 false None true (ch "?") REQUIRE_ORDER false 0 0 None [] [].

Definition demo_args : list (list Z) :=
  [bs "x"; bs "-abv"; bs "y"; bs "-b"; bs "w"; bs "-cz"; bs "-qc"; bs "--"; bs "-a"].

Lemma getopt_permutes_witness :
  (exists s', getopt_all false 7 (bs "ab:c::") (start (bs "prog" :: demo_args)) =
     Some ([(ch "a", None); (ch "b", Some (bs "v")); (ch "b", Some (bs "w")); (ch "c", Some (bs "z")); (ch "?", None); (ch "c", None)], s') /\
     argv s' = bs "prog" :: [bs "-abv"; bs "-b"; bs "w"; bs "-cz"; bs "-qc"; bs "--"] ++ [bs "x"; bs "y"; bs "-a"] /\ optind s' = 7%nat) /\
  [bs "-abv"; bs "-b"; bs "w"; bs "-cz"; bs "-qc"; bs "--"] ++ [bs "x"; bs "y"; bs "-a"] ≡ₚ demo_args.
Proof.
  destruct (getopt_permutes (bs "ab:c::") (bs "prog") demo_args (start (bs "prog" :: demo_args))
    [(ch "a", None); (ch "b", Some (bs "v")); (ch "b", Some (bs "w")); (ch "c", Some (bs "z")); (ch "?", None); (ch "c", None)]
    [bs "-abv"; bs "-b"; bs "w"; bs "-cz"; bs "-qc"; bs "--"] [bs "x"; bs "y"; bs "-a"]) as (H1 & H2 & _).
  - apply (bool_decide_unpack _). vm_compute. exact I.
  - split; discriminate.
  - apply (bool_decide_unpack _). vm_compute. exact I.
  - reflexivity.
  - right. split; reflexivity.
  - vm_compute. reflexivity.
  - split; [exact H1|exact H2].
Defined.

(** The [+] of an option string is skipped by the first call only: a second
    call takes the [+] for the start of the string, and a missing argument is
    reported as [?] and no longer as [:]. *)
Example plus_colon :
  (fst <$> getopt_all false 3 (bs "+:a:b") (start [bs "p"; bs "-a"])) = Some [(ch ":", None)] /\
  (fst <$> getopt_all false 3 (bs "+:a:b") (start [bs "p"; bs "-b"; bs "-a"])) = Some [(ch "b", None); (ch "?", None)].
Proof. split; vm_compute; reflexivity. Qed.

(** An ambiguous [-W v] counts an element too many: [optind] is behind the end,
    where the message takes its text and the next call reads. *)
Definition long_options : list option_ := [Option_ (bs "verbose") 0 None 1; Option_ (bs "version") 0 None 2].
Definition silent (s : vars) : vars :=
  Vars (argv s) (optarg s) (optind s) (initialized s) (nextchar s) false (optopt s) (ordering s) (posixly_correct s)
    (first_nonopt s) (last_nonopt s) (longind s) (flags s) (stderr s).

Example ambiguous_w_overruns :
  let call := _getopt_internal false (bs "W;") (Some long_options) false false in
  let s := start [bs "p"; bs "-Wver"] in
  call s = None /\
  exists s', call (silent s) = Some (ch "?", s') /\ optind s' = 3%nat /\ length (argv s') = 2%nat /\ call s' = None.
Proof. split; [reflexivity|]. eexists. split; [vm_compute; reflexivity|]. split; [|split]; reflexivity. Qed.
End Getopt.
