(* ===== verification/ParMain.v ===== *)
(** * par: the archiver's command line (util/parutil.c)

    [main] over compat's [getopt], which the tool uses where the C library has
    none; the three commands are those of ParUtil.  The text on stdout is what
    [puts] and [printf] write. *)
From S2P Require Import Prelude CLib Getopt ParUtil.
From S2P Require Import Quid ParHeader ParBlock ParFile ParAppend ParHandle ParArchive.

Module ParMain.

Definition MODE_LIST : Z := 1.
Definition MODE_CREATE : Z := 2.
Definition MODE_EXTRACT : Z := 3.

Definition line (s : string) : list Z := bs s ++ [10].

Definition version_text : list Z := line "libmavpar 1.2" ++ line "Copyright 2015-2016 Mavicona, Quenza Inc." ++ [10].

Definition usage (prog : list Z) : list Z :=
  line "Par 1.2 Copyright (C) 2015-2016 Mavicona, Quenza Inc." ++ line "All Rights Reserved" ++
  bs "usage: " ++ prog ++ line " [OPTION] <file.par> [file...]" ++ [10] ++
  line "  -l <file>     Show contents" ++ line "  -c <file>     Create new archive" ++
  line "  -x <file>     Unpack archive" ++ line "  -v            Show version and exit" ++
  line "  -h            This help message".

Definition optstring : list Z := bs "clvVxh".

(** Every call is an option, of which there are no more than characters. *)
Definition rounds (args : list (list Z)) : nat := S (length (concat args)).

Section Main.
Context (posix : bool).
(** The commands: what they return and do. *)
Context {St : Type} (extract : list Z -> SM St Z) (create : list Z -> list (list Z) -> SM St Z) (list_ : list Z -> SM St Z).

(** The loop over the options: the mode, the variables of [getopt] and the
    text; no mode if it returns 1. *)
Fixpoint options_loop (fuel : nat) (mode : Z) (out : list Z) (s : Getopt.vars) : option (option Z * Getopt.vars * list Z) :=
  match fuel with
  | O => None
  | S f =>
      '(c, s) ← Getopt.getopt posix optstring s;
      if c =? -1 then Some (Some mode, s, out)
      else if c =? ch "v" then options_loop f mode (out ++ version_text) s
      else
        prog ← Getopt.argv s !! 0%nat;
        let choose m := if negb (mode =? 0) then Some (None, s, out ++ usage prog) else options_loop f m out s in
        if c =? ch "c" then choose MODE_CREATE
        else if c =? ch "x" then choose MODE_EXTRACT
        else if c =? ch "l" then choose MODE_LIST
        else Some (None, s, out ++ usage prog)
  end.

(** The exit status and the text. *)
Definition main (argv : list (list Z)) : SM St (Z * list Z) :=
  '(mode, s, out) ← sm_lift (options_loop (rounds argv) 0 [] (Getopt.start argv));
  match mode with
  | None => mret (1, out)
  | Some mode =>
      let argc := length (Getopt.argv s) in
      let optind := Getopt.optind s in
      if (mode =? 0) || (Z.of_nat argc - Z.of_nat optind <? (if mode =? MODE_CREATE then 2 else 1)) then
        prog ← sm_lift (Getopt.argv s !! 0%nat);
        mret (2, out ++ usage prog)
      else
        file ← sm_lift (Getopt.argv s !! optind);
        r ← (if mode =? MODE_EXTRACT then extract file
             else if mode =? MODE_CREATE then create file (drop (S optind) (Getopt.argv s))
             else if mode =? MODE_LIST then list_ file
             else mret (-2));
        mret (r, out)
  end.

(** ** What a command line asks for *)
Inductive command :=
  | Extract (file : list Z)
  | Create (file : list Z) (names : list (list Z))
  | List (file : list Z)
  | Misuse (status : Z).

Definition is_mode (c : Z) : bool := (c =? ch "c") || (c =? ch "x") || (c =? ch "l").

(** The letters of the options, and the arguments that are none. *)
Definition command_of (letters : list Z) (names : list (list Z)) : command :=
  let modes := List.filter is_mode letters in
  if forallb (fun c => is_mode c || (c =? ch "v")) letters && (length modes <=? 1)%nat then
    match modes, names with
    | c :: _, file :: rest =>
        if c =? ch "x" then Extract file
        else if c =? ch "l" then List file
        else match rest with [] => Misuse 2 | _ => Create file rest end
    | _, _ => Misuse 2
    end
  else Misuse 1.

Definition run (c : command) : SM St Z :=
  match c with
  | Extract f => extract f
  | Create f names => create f names
  | List f => list_ f
  | Misuse n => mret n
  end.

(** ** The loop *)
Definition mode_of (c : Z) : Z := if c =? ch "c" then MODE_CREATE else if c =? ch "x" then MODE_EXTRACT else MODE_LIST.

(** The mode the letters select from [mode] on, and how many versions are
    printed. *)
Fixpoint choose (mode : Z) (letters : list Z) : option Z * nat :=
  match letters with
  | [] => (Some mode, 0%nat)
  | c :: l =>
      if c =? ch "v" then let '(m, n) := choose mode l in (m, S n)
      else if is_mode c && (mode =? 0) then choose (mode_of c) l
      else (None, 0%nat)
  end.
End Main.

Definition versions (n : nat) : list Z := concat (replicate n version_text).

Lemma versions_S n out : (out ++ version_text) ++ versions n = out ++ versions (S n).
Proof. by rewrite <- app_assoc. Qed.

Lemma options_loop_run prog evs s s1 s' :
  Getopt.calls optstring prog evs s s1 -> Getopt.getopt false optstring s1 = Some (-1, s') ->
  forall fuel mode out, (length evs < fuel)%nat ->
  let '(m, n) := choose mode (fst <$> evs) in
  exists s2, options_loop false fuel mode out s =
      Some (m, s2, out ++ versions n ++ match m with None => usage prog | Some _ => [] end) /\ (m <> None -> s2 = s').
Proof.
  induction 1 as [s|c l s s2 s3 E Hc Hp _ IH]; intros E' [|fuel] mode out Hf; cbn [length] in Hf; try lia.
  - cbn [fmap list_fmap choose options_loop]. exists s'. rewrite E'. cbn [mbind option_bind Z.eqb]. by rewrite app_nil_r.
  - specialize (IH E' fuel). cbn [fmap list_fmap choose options_loop]. change (fst (c, Getopt.optarg s2)) with c. rewrite E. cbn [mbind option_bind].
    rewrite (proj2 (Z.eqb_neq _ _) Hc). destruct (c =? ch "v").
    + specialize (IH mode (out ++ version_text) ltac:(lia)). destruct (choose mode (fst <$> l)) as [m n].
      destruct IH as (s4 & E4 & H4). exists s4. split; [|done]. by rewrite E4, app_assoc, versions_S, app_assoc.
    + rewrite Hp. cbn [mbind option_bind].
      unfold is_mode, mode_of.
      destruct (Z.eqb_spec mode 0) as [->|Hm]; cbn [negb];
        [|rewrite andb_false_r; exists s2; repeat case_match; split; by rewrite ?app_nil_r].
      destruct (c =? ch "c"); [|destruct (c =? ch "x"); [|destruct (c =? ch "l"); [|exists s2; split; by rewrite ?app_nil_r]]];
        cbn [orb andb].
      all: match goal with |- context [choose ?k _] => specialize (IH k out ltac:(lia)); by destruct (choose k (fst <$> l)) end.
Qed.

(** A mode that is chosen stays; a second one, and a letter that is none of
    the options, is a misuse. *)
Lemma choose_spec letters mode :
  fst (choose mode letters) =
  let modes := List.filter is_mode letters in
  if forallb (fun c => is_mode c || (c =? ch "v")) letters && (length modes <=? if (mode =? 0)%Z then 1 else 0)%nat
  then Some (match modes with c :: _ => mode_of c | [] => mode end) else None.
Proof.
  revert mode. induction letters as [|c l IH]; intros mode; [by destruct (mode =? 0)|].
  cbn [choose forallb List.filter]. destruct (Z.eqb_spec c (ch "v")) as [->|Hv].
  - cbn [is_mode Z.eqb orb andb]. rewrite <- IH. by destruct (choose mode l).
  - rewrite orb_false_r. destruct (is_mode c) eqn:Em; [|done]. cbn [andb length].
    destruct (Z.eqb_spec mode 0) as [->|Hm]; [|by rewrite andb_false_r].
    rewrite IH. assert (mode_of c =? 0 = false) as -> by (unfold mode_of; by repeat case_match).
    destruct (forallb _ l); [|done]. by destruct (List.filter is_mode l) as [|x [|y m]].
Qed.

(** ** How many options there are *)
Lemma cluster_length cs R : (length (fst (Getopt.cluster optstring cs R)) <= length cs)%nat.
Proof.
  induction cs as [|c cs IH]; [done|]. cbn [Getopt.cluster].
  destruct (Getopt.cluster optstring cs R). cbn [fst] in IH. destruct (Getopt.kind_of optstring c), cs, R; cbn [fst length] in *; lia.
Qed.

Lemma parse_length l args :
  (length args <= l)%nat -> (length (fst (fst (Getopt.parse optstring args))) <= length (concat args))%nat.
Proof.
  revert args. induction l as [|l IH]; intros [|a args] Hl; cbn [length] in Hl; try (cbn; lia). cbn [Getopt.parse concat].
  rewrite length_app. case_bool_decide; [cbn; lia|].
  assert (H1 := IH args ltac:(lia)). destruct (Getopt.NONOPTION_P a).
  - destruct (Getopt.parse optstring args) as [[e o] n]. cbn [fst] in *. lia.
  - pose proof (cluster_length (drop 1 a) args) as Hc. rewrite length_drop in Hc.
    destruct (Getopt.cluster optstring (drop 1 a) args) as [ev [|]]; [destruct args as [|r args]|].
    1: cbn; rewrite app_nil_r; cbn in Hc; lia.
    1: assert (H2 := IH args ltac:(cbn in Hl; lia)); destruct (Getopt.parse optstring args) as [[e o] n].
    2: destruct (Getopt.parse optstring args) as [[e o] n].
    all: cbn [fst concat] in *; rewrite ?length_app in *; cbn in *; lia.
Qed.

(** ** The tool *)
Lemma choose_versions letters mode m n :
  choose mode letters = (Some m, n) -> n = length (List.filter (fun c => c =? ch "v") letters).
Proof.
  revert mode n. induction letters as [|c l IH]; intros mode n; cbn [choose List.filter]; [by intros [= <- <-]|].
  destruct (c =? ch "v").
  - destruct (choose mode l) as [m' n'] eqn:E. intros [= -> <-]. cbn [length]. by rewrite (IH _ _ E).
  - destruct (is_mode c && (mode =? 0)); [apply IH|done].
Qed.

Lemma choose_versions_le letters mode m n :
  choose mode letters = (m, n) -> (n <= length (List.filter (fun c => (c =? ch "v")%Z) letters))%nat.
Proof.
  revert mode m n. induction letters as [|c l IH]; intros mode m n; cbn [choose List.filter]; [by intros [= <- <-]|].
  destruct (c =? ch "v").
  - destruct (choose mode l) as [m' n'] eqn:E. intros [= <- <-]. cbn [length]. specialize (IH _ _ _ E). lia.
  - destruct (is_mode c && (mode =? 0)); [apply IH|]. intros [= <- <-]. lia.
Qed.

Lemma filter_mode letters c l : List.filter is_mode letters = c :: l -> c = ch "c" \/ c = ch "x" \/ c = ch "l".
Proof.
  intros E. assert (In c (c :: l)) as Hin by (by left). rewrite <- E in Hin. apply List.filter_In in Hin as [_ Hin].
  apply orb_true_iff in Hin as [Hin|Hin%Z.eqb_eq]; [|by right; right]. apply orb_true_iff in Hin as [Hin%Z.eqb_eq|Hin%Z.eqb_eq]; auto.
Qed.

(** The loop on a command line. *)
Lemma command_line_run prog args evs opts names :
  Getopt.parse optstring args = (evs, opts, names) ->
  let '(m, n) := choose 0 (fst <$> evs) in
  exists s s', options_loop false (rounds (prog :: args)) 0 [] (Getopt.start (prog :: args)) =
      Some (m, s, versions n ++ match m with None => usage prog | Some _ => [] end) /\ (m <> None -> s = s') /\
    Getopt.argv s' = prog :: opts ++ names /\ Getopt.optind s' = S (length opts).
Proof.
  intros Hp.
  pose proof (Getopt.command_calls optstring ltac:(apply (bool_decide_unpack _); vm_compute; exact I)
    ltac:(split; discriminate) ltac:(apply (bool_decide_unpack _); vm_compute; exact I) prog args (Getopt.start (prog :: args))
    eq_refl (or_intror (conj eq_refl eq_refl))) as H.
  pose proof (parse_length (length args) args (le_n _)) as Hlen. rewrite Hp in H, Hlen. cbn [fst] in Hlen.
  destruct H as (s1 & s' & Hc & He & Ha & Hi).
  pose proof (options_loop_run prog evs _ s1 s' Hc He (rounds (prog :: args)) 0 []
    ltac:(unfold rounds; cbn [concat]; rewrite length_app; lia)) as Hloop.
  destruct (choose 0 (fst <$> evs)) as [m n]. destruct Hloop as (s & E & Hs). by exists s, s'.
Qed.

Section Runs.
Context {St : Type} (extract : list Z -> SM St Z) (create : list Z -> list (list Z) -> SM St Z) (list_ : list Z -> SM St Z).

(** What the tool does: the command, behind the versions asked for, with the
    usage if there is none. *)
Lemma main_runs prog args evs opts names st :
  Getopt.parse optstring args = (evs, opts, names) ->
  let cmd := command_of (fst <$> evs) names in
  exists n text, main false extract create list_ (prog :: args) st = ('(r, st') ← run extract create list_ cmd st; Some ((r, text), st')) /\
    text = versions n ++ (match cmd with Misuse _ => usage prog | _ => [] end) /\
    (cmd <> Misuse 1 -> n = length (List.filter (fun c => c =? ch "v") (fst <$> evs))) /\
    (n <= length (List.filter (fun c => (c =? ch "v")%Z) (fst <$> evs)))%nat.
Proof.
  intros Hp cmd.
  pose proof (command_line_run prog args evs opts names Hp) as Hloop.
  pose proof (choose_spec (fst <$> evs) 0) as Hspec. pose proof (choose_versions (fst <$> evs) 0) as Hv. pose proof (choose_versions_le (fst <$> evs) 0) as Hle.
  destruct (choose 0 (fst <$> evs)) as [m n]. specialize (Hle _ _ eq_refl). destruct Hloop as (s2 & s' & El & Hs2 & Ha & Hi). exists n.
  subst cmd. unfold command_of, main. cbv zeta in Hspec |- *. cbn [fst Z.eqb app] in Hspec, El.
  destruct (forallb _ _ && _).
  2: { subst m. eexists. split; [sm_step (sm_lift_run _ _ st El); reflexivity|done]. }
  subst m. specialize (Hs2 ltac:(done)). subst s2. rewrite app_nil_r in El. specialize (Hv _ _ eq_refl).
  assert (Hargc : Z.of_nat (length (Getopt.argv s')) - Z.of_nat (Getopt.optind s') = Z.of_nat (length names))
    by (rewrite Ha, Hi; cbn [length]; rewrite length_app; lia).
  assert (Hdrop : drop (S (S (length opts))) (prog :: opts ++ names) = drop 1 names)
    by (cbn [drop]; rewrite drop_app_ge by lia; f_equal; lia).
  assert (Hlook : (prog :: opts ++ names) !! S (length opts) = names !! 0%nat)
    by (etransitivity; [exact (lookup_app_r opts names (length opts) (le_n _))|by rewrite Nat.sub_diag]).
  match goal with |- exists text, ?M = _ /\ _ => assert (E : M = _) by (sm_step (sm_lift_run _ _ st El); reflexivity) end.
  cbv beta iota zeta in E. rewrite Hargc, Ha, Hi, Hdrop, Hlook in E. rewrite E. clear E.
  destruct (List.filter is_mode (fst <$> evs)) as [|c l] eqn:El2; [eexists; split; [reflexivity|done]|].
  assert (mode_of c =? 0 = false) as -> by (unfold mode_of; by repeat case_match). cbn [orb].
  destruct names as [|file rest]; [destruct (mode_of c =? MODE_CREATE); (eexists; split; [reflexivity|done])|].
  assert (H1 : Z.of_nat (length (file :: rest)) <? 1 = false) by (apply Z.ltb_ge; cbn [length]; lia).
  destruct (filter_mode _ _ _ El2) as [-> | [-> | ->]].
  - destruct rest as [|r rest]; [eexists; split; [reflexivity|done]|].
    assert (H2 : Z.of_nat (length (file :: r :: rest)) <? 2 = false) by (apply Z.ltb_ge; cbn [length]; lia).
    change (if mode_of (ch "c") =? MODE_CREATE then 2 else 1) with 2. rewrite H2.
    eexists. split; [reflexivity|]. by rewrite app_nil_r.
  - change (if mode_of (ch "x") =? MODE_CREATE then 2 else 1) with 1. rewrite H1.
    eexists. split; [reflexivity|]. by rewrite app_nil_r.
  - change (if mode_of (ch "l") =? MODE_CREATE then 2 else 1) with 1. rewrite H1.
    eexists. split; [reflexivity|]. by rewrite app_nil_r.
Qed.
End Runs.

(** [main] in the goal, on the arguments that are parsed in [Hp]. *)
Ltac main_step Hp n E :=
  match goal with |- context [main false ?e ?c ?l (?prog :: _) ?st] =>
    let text := fresh "text" in
    destruct (main_runs e c l prog _ _ _ _ st Hp) as (n & text & E & -> & _)
  end.

(** A command of ParUtil, which leaves the handle it closed. *)
Definition keeping (m : SM ParHandle.process (Z * option ParBlock.par)) : SM (ParHandle.process * option ParBlock.par) Z :=
  fun '(p, _) => '((r, t), p') ← m p; Some (r, (p', t)).

Section Tool.
Context (getpwnam getgrnam : list Z -> option Z) (getpwuid getgrgid : Z -> option (list Z)).
Context (basename : list Z -> list Z) (dirname : list Z -> list Z * list Z).
Context (timetext : Z -> list Z) (euid : Z) (os : list ParBlock.syscall -> ParBlock.syscall -> Z).
Context (lstat : list Z -> option ParHeader.stat) (readlink : list Z -> option (list Z)).
Context (open_read : list Z -> option ParBlock.stream) (junk : list Z).
Context (opendir : list Z -> Z + list (list Z)).
Context (strcmp_dev : ParAppend.dev_data -> ParAppend.dev_data -> Z) (strcmp_ino : ParAppend.ino_data -> ParAppend.ino_data -> Z).
Context (str_hash : ParAppend.ino_data -> Z -> Z) (strhash_path : list Z -> Z -> Z) (strhash_dev : ParAppend.dev_data -> Z -> Z).
Context (env : list ParHandle.handle_call -> ParHandle.handle_call -> Z).
Context (depth : nat) (quid : Quid.quid_t) (jo : Z) (jm : list Z).

Notation no_stream := (ParBlock.mk_stream [] [] []).
Notation file := ParArchive.file.

(** [main] with the archive in [fd0], which zlib inflates to [gz0]; [rootdir]
    is NULL. *)
Definition tool (fd0 : option ParBlock.stream) (jh : list Z) (gz0 : ParBlock.stream) (a0 : list Z) :
    list (list Z) -> SM (ParHandle.process * option ParBlock.par) (Z * list Z) :=
  main false
    (fun file => keeping (ParUtil.par_extract getpwnam getgrnam getpwuid getgrgid basename dirname timetext euid os
       strhash_path strhash_dev env fd0 jh gz0 a0 file None))
    (fun file names => keeping (ParUtil.par_create getpwnam getgrnam getpwuid getgrgid basename timetext lstat readlink
       open_read junk opendir strcmp_dev strcmp_ino str_hash strhash_path strhash_dev env depth quid jo jm
       (default no_stream fd0) gz0 a0 file None names))
    (fun file => keeping (ParUtil.par_list getpwnam getgrnam getpwuid getgrgid basename timetext strhash_path strhash_dev
       env fd0 jh gz0 a0 file)).

(** C29: A command line without [-v] that asks for nothing - a letter that is no
    option, two modes, no mode, or too few names - is answered with the usage
    and status 1 or 2, and the tool has touched no file: its state is what it
    was. *)
Theorem misuse_harmless fd0 jh gz0 a0 prog args evs opts names status st :
  Getopt.parse optstring args = (evs, opts, names) -> command_of (fst <$> evs) names = Misuse status ->
  ch "v" ∉ (fst <$> evs) ->
  tool fd0 jh gz0 a0 (prog :: args) st = Some ((status, usage prog), st).
Proof.
  intros Hp Hc Hv. unfold tool.
  match goal with |- main false ?e ?c ?l _ _ = _ => destruct (main_runs e c l prog _ _ _ _ st Hp) as (n & text & E & -> & _ & Hn) end.
  assert (Ef : List.filter (fun c => c =? ch "v") (fst <$> evs) = []).
  { induction (fst <$> evs) as [|x l IH] in Hv |- *; [done|]. apply not_elem_of_cons in Hv as [Hx Hv]. cbn [List.filter].
    rewrite (proj2 (Z.eqb_neq x (ch "v"))) by congruence. by apply IH. }
  rewrite Ef in Hn. cbn [length] in Hn. assert (n = 0%nat) as -> by lia. rewrite E, Hc. reflexivity.
Qed.

(** C6: From the command line to the files and back, on a system in which
    nothing fails: however the options and the names are mixed, a command line
    that asks for an archive of regular files makes one and exits with 0; a
    command line that asks for its extraction, in a process that finds behind
    the header what zlib makes of the bytes written to it, exits with 0 too and
    makes each file in its directory, in turn, with its contents, owner, times
    and mode.  Nothing but the versions asked for is printed. *)
Theorem command_line_roundtrip (fs : list file) prog args evs opts names f jh a0 p :
  ParHeader.database_ok getpwnam getpwuid -> ParHeader.database_ok getgrnam getgrgid ->
  length junk = ParHeader.T_BLOCKSIZE -> ParHandle.healthy env -> (forall tr e, 0 <= os tr e) -> (0 < depth)%nat ->
  Forall (ParUtil.listed lstat open_read opendir None) fs -> NoDup (ParUtil.file_id <$> fs) ->
  Forall (ParArchive.target_ok None) fs -> length (Quid.quid_bytes quid) = 20%nat -> length jm = 64%nat ->
  ParHandle.p_oom p = [] ->
  Getopt.parse optstring args = (evs, opts, names) -> command_of (fst <$> evs) names = Create f (ParArchive.f_save <$> fs) ->
  exists n t p', tool (Some no_stream) jh no_stream a0 (prog :: args) (p, None) = Some ((0, versions n), (p', Some t)) /\
    forall deflated o o' a l jh2 q prog2 args2 evs2 opts2 names2 f2,
    a <> 0 -> length jh2 = ParHandle.sizeof_header -> ParHandle.p_oom q = [] ->
    Getopt.parse optstring args2 = (evs2, opts2, names2) -> command_of (fst <$> evs2) names2 = Extract f2 ->
    exists n2 u q' trs, tool (Some (ParBlock.mk_stream (ParBlock.s_out (ParBlock.fd t) ++ deflated) o [])) jh2
        (ParBlock.mk_stream (ParBlock.s_out (ParBlock.gzfd t)) o' []) (a :: l) (prog2 :: args2) (q, None) =
        Some ((0, versions n2), (q', Some u)) /\
      ParBlock.trace u = concat trs /\ Forall2 (ParArchive.extracts euid None) fs trs.
Proof.
  intros Hpw Hgr Hj Henv Hos Hd Hl Hnd Ht Hq Hjm Hoom Hp Hcmd. assert (Ed : S (pred depth) = depth) by lia.
  destruct (ParUtil.create_run getpwnam getgrnam getpwuid getgrgid basename timetext lstat readlink open_read junk opendir
    strcmp_dev strcmp_ino str_hash strhash_path strhash_dev env Hpw Hgr Hj Henv (pred depth) quid jo jm None fs a0 f p Hl Hnd Hq Hjm Hoom)
    as (t & p' & hs & E & Hb & Hm & Eo & M). rewrite Ed in E.
  unfold tool. main_step Hp n Em. exists n, t, p'. split.
  { etransitivity; [exact Em|]. rewrite Hcmd. cbn [run]. unfold keeping.
    change (default no_stream (Some no_stream)) with no_stream. rewrite E. cbn. by rewrite app_nil_r. }
  clear Em n. intros z o o' a l jh2 q prog2 args2 evs2 opts2 names2 f2 Ha Hjh Hqo Hp2 Hcmd2. rewrite Eo.
  destruct (ParUtil.extract_run getpwnam getgrnam getpwuid getgrgid basename dirname timetext euid os junk strhash_path strhash_dev
    env Hpw Hgr Hj Henv Hos None fs hs (ParBlock.s_out (ParBlock.fd t)) z o o' a l jh2 f2 q M) as (u & q' & trs & E2 & Htr & X); try done.
  { eapply Forall_impl; [exact Hl|]. intros g (A & _). by eapply ParUtil.archivable_stored. }
  main_step Hp2 n Em. exists n, u, q', trs. split; [|done]. etransitivity; [exact Em|]. rewrite Hcmd2. cbn [run]. unfold keeping. rewrite E2. cbn. by rewrite app_nil_r.
Qed.
End Tool.

(** ** Two files of the working directory *)
Definition here_files : list ParArchive.file :=
  [ParArchive.mk_file (bs "f") (bs "f") (ParHeader.mk_stat 5 7 0x81a4 1000 100 3 10) (bs "abc");
   ParArchive.mk_file (bs "d/g") (bs "d/g") (ParHeader.mk_stat 5 8 0x8180 0 0 2 20) (bs "xy")].
Definition here_file (p : list Z) : option ParArchive.file := find (fun f => bool_decide (ParArchive.f_real f = p)) here_files.
Definition here_lstat (p : list Z) : option ParHeader.stat := ParArchive.f_stat <$> here_file p.
Definition here_read (p : list Z) : option ParBlock.stream := (fun f => ParBlock.mk_stream (ParArchive.f_contents f) [] []) <$> here_file p.

Notation demo_tool := (tool ParFile.no_name ParFile.no_name ParFile.no_id ParFile.no_id (fun p => p) (fun p => (p, p)) (fun _ => []) 0
  (fun _ _ => 0) here_lstat (fun _ => None) here_read (replicate ParHeader.T_BLOCKSIZE 7) ParUtil.not_directory
  ParArchive.no_order ParArchive.no_order ParArchive.no_hash ParArchive.no_hash ParArchive.no_hash ParUtil.demo_env 1%nat ParUtil.demo_quid 0 (replicate 64 0)).

Lemma here_archivable : Forall (ParUtil.listed here_lstat here_read ParUtil.not_directory None) here_files.
Proof.
  repeat apply Forall_cons_2; [| |constructor].
  all: split; [|split; [vm_compute; reflexivity|reflexivity]].
  all: split; [vm_compute; reflexivity|..|reflexivity|reflexivity|by exists []| | |
    apply (bool_decide_unpack _); vm_compute; exact I|].
  all: try (vm_compute; split; congruence).
  - split; [by left|vm_compute; split; congruence..].
  - eexists [], _. split; [apply ParBlock.layout_name; apply Nat.ltb_lt; reflexivity|discriminate].
  - split; [by left|vm_compute; split; congruence..].
  - eexists [], _. split; [apply ParBlock.layout_name; apply Nat.ltb_lt; reflexivity|discriminate].
Qed.

(** [par a.par -c f d/g] and [par -vx a.par]. *)
Lemma command_line_roundtrip_witness :
  exists n t p', demo_tool (Some (ParBlock.mk_stream [] [] [])) [] (ParBlock.mk_stream [] [] []) []
      (bs "par" :: [bs "a.par"; bs "-c"; bs "f"; bs "d/g"]) (ParHandle.mk_process [] 0 [], None) =
      Some ((0, versions n), (p', Some t)) /\
    exists n2 u q' trs, demo_tool (Some (ParBlock.mk_stream (ParBlock.s_out (ParBlock.fd t) ++ []) [] []))
        (replicate ParHandle.sizeof_header 0) (ParBlock.mk_stream (ParBlock.s_out (ParBlock.gzfd t)) [] []) [4096]
        (bs "par" :: [bs "-vx"; bs "a.par"]) (ParHandle.mk_process [] 0 [], None) = Some ((0, versions n2), (q', Some u)) /\
      ParBlock.trace u = concat trs /\ Forall2 (ParArchive.extracts 0 None) here_files trs.
Proof.
  destruct (command_line_roundtrip ParFile.no_name ParFile.no_name ParFile.no_id ParFile.no_id (fun p => p) (fun p => (p, p))
    (fun _ => []) 0 (fun _ _ => 0) here_lstat (fun _ => None) here_read (replicate ParHeader.T_BLOCKSIZE 7)
    ParUtil.not_directory ParArchive.no_order ParArchive.no_order ParArchive.no_hash ParArchive.no_hash ParArchive.no_hash
    ParUtil.demo_env 1%nat ParUtil.demo_quid 0 (replicate 64 0) here_files (bs "par") [bs "a.par"; bs "-c"; bs "f"; bs "d/g"]
    [(ch "c", None)] [bs "-c"] [bs "a.par"; bs "f"; bs "d/g"] (bs "a.par") [] [] (ParHandle.mk_process [] 0 []))
    as (n & t & p' & E & H); try reflexivity.
  - exact ParFile.no_database.
  - exact ParFile.no_database.
  - intros tr e. destruct e; cbn; lia.
  - lia.
  - exact here_archivable.
  - apply (bool_decide_unpack _). vm_compute. exact I.
  - repeat apply Forall_cons_2; [| |constructor].
    all: eexists; split; [vm_compute; reflexivity|split; [apply (bool_decide_unpack _); vm_compute; exact I|apply Nat.ltb_lt; reflexivity]].
  - exists n, t, p'. split; [exact E|].
    destruct (H [] [] [] 4096 [] (replicate ParHandle.sizeof_header 0) (ParHandle.mk_process [] 0 []) (bs "par")
      [bs "-vx"; bs "a.par"] [(ch "v", None); (ch "x", None)] [bs "-vx"] [bs "a.par"] (bs "a.par"))
      as (n2 & u & q' & trs & E2 & Ht & X); [lia|reflexivity..|].
    exists n2, u, q', trs. split; [exact E2|split; [exact Ht|exact X]].
Defined.

(** Two modes, and no mode. *)
Lemma misuse_harmless_witness :
  let st := (ParHandle.mk_process [] 0 [], None) in
  demo_tool None [] (ParBlock.mk_stream [] [] []) [] (bs "par" :: [bs "-cx"; bs "a.par"; bs "f"]) st = Some ((1, usage (bs "par")), st) /\
  demo_tool None [] (ParBlock.mk_stream [] [] []) [] (bs "par" :: [bs "a.par"]) st = Some ((2, usage (bs "par")), st).
Proof.
  split.
  - apply misuse_harmless with (evs := [(ch "c", None); (ch "x", None)]) (opts := [bs "-cx"]) (names := [bs "a.par"; bs "f"]);
      [reflexivity|reflexivity|apply (bool_decide_unpack _); reflexivity].
  - apply misuse_harmless with (evs := []) (opts := []) (names := [bs "a.par"]);
      [reflexivity|reflexivity|apply (bool_decide_unpack _); reflexivity].
Defined.

(** The version is printed, and the usage behind it. *)
Example version_goes_on :
  demo_tool None [] (ParBlock.mk_stream [] [] []) [] [bs "par"; bs "-v"] (ParHandle.mk_process [] 0 [], None) =
  Some ((2, version_text ++ usage (bs "par")), (ParHandle.mk_process [] 0 [], None)).
Proof. vm_compute. reflexivity. Qed.
End ParMain.
