(* ===== verification/JobSha1.v ===== *)
(** * chella: the digest of a package (sha1.cpp)

    The class SHA1, by which the job runner names the packages it keeps.  Its
    words have 64 bits; what is above the lower 32 is never looked at, which is
    an equivalence here.  A stream of characters is what is left of it. *)
From S2P Require Import Prelude CLib Sha1.

Module JobSha1.

Definition BLOCK_BYTES : nat := 64.
Definition BLOCK_INTS : nat := 16.
Definition DIGEST_INTS : nat := 5.

(** A value in a variable of type uint32, which has 64 bits. *)
Definition SHA1_ROL (value bits : Z) : Z :=
  Z.lor (u64 (Z.shiftl value bits)) (Z.shiftr (Z.land value 0xffffffff) (32 - bits)).

(** The new word, which replaces the oldest one. *)
Definition SHA1_BLK (block : list Z) (i : nat) : Z * list Z :=
  let at_ j := block !!! Nat.modulo j 16 in
  let x := SHA1_ROL (Z.lxor (Z.lxor (Z.lxor (at_ (i + 13)%nat) (at_ (i + 8)%nat)) (at_ (i + 2)%nat)) (at_ i)) 1 in
  (x, <[Nat.modulo i 16 := x]> block).

(** The working variables in the order (v, w, x, y, z) of a round, and the
    block. *)
Record working := mk_working { wv : Z; ww : Z; wx : Z; wy : Z; wz : Z; wblock : list Z }.

(** [z += f(w,x,y) + word + constant + SHA1_ROL(v,5); w = SHA1_ROL(w,30);]
    The next line has the names one place further. *)
Definition SHA1_R (word : list Z -> nat -> Z * list Z) (f : Z -> Z -> Z -> Z) (constant : Z) (s : working) (i : nat) : working :=
  let '(m, block) := word (wblock s) i in
  let z := u64 (wz s + u64 (f (ww s) (wx s) (wy s) + m + constant + SHA1_ROL (wv s) 5)) in
  mk_working z (wv s) (SHA1_ROL (ww s) 30) (wx s) (wy s) block.

Definition mix (w x y : Z) : Z := Z.lxor (Z.land w (Z.lxor x y)) y.
Definition parity (w x y : Z) : Z := Z.lxor (Z.lxor w x) y.
Definition majority (w x y : Z) : Z := Z.lor (Z.land (Z.lor w x) y) (Z.land w x).
Definition given (block : list Z) (i : nat) : Z * list Z := (block !!! i, block).

Definition SHA1_R0 := SHA1_R given mix 0x5a827999.
Definition SHA1_R1 := SHA1_R SHA1_BLK mix 0x5a827999.
Definition SHA1_R2 := SHA1_R SHA1_BLK parity 0x6ed9eba1.
Definition SHA1_R3 := SHA1_R SHA1_BLK majority 0x8f1bbcdc.
Definition SHA1_R4 := SHA1_R SHA1_BLK parity 0xca62c1d6.

Record SHA1 := mk_SHA1 { digest : list Z; buffer : list Z; transforms : Z }.

Definition reset : SHA1 := mk_SHA1 [0x67452301; 0xefcdab89; 0x98badcfe; 0x10325476; 0xc3d2e1f0] [] 0.

(** The rounds over a block; the digest and what is left of the block. *)
Definition transform (s : SHA1) (block : list Z) : SHA1 * list Z :=
  let d i := digest s !!! i in
  let r := mk_working (d 0%nat) (d 1%nat) (d 2%nat) (d 3%nat) (d 4%nat) block in
  let r := foldl SHA1_R0 r (seq 0 16) in
  let r := foldl SHA1_R1 r (seq 16 4) in
  let r := foldl SHA1_R2 r (seq 20 20) in
  let r := foldl SHA1_R3 r (seq 40 20) in
  let r := foldl SHA1_R4 r (seq 60 20) in
  (mk_SHA1 [u64 (d 0%nat + wv r); u64 (d 1%nat + ww r); u64 (d 2%nat + wx r); u64 (d 3%nat + wy r); u64 (d 4%nat + wz r)]
     (buffer s) (u64 (transforms s + 1)), wblock r).

(** A character masked with 0xff is its byte; the shifts are of an int. *)
Definition buffer_to_block (buffer : list Z) : list Z :=
  (fun i => let b k := buffer !!! (4 * i + k)%nat in
     u64 (Z.lor (Z.lor (Z.lor (b 3%nat) (Z.shiftl (b 2%nat) 8)) (Z.shiftl (b 1%nat) 16)) (i32 (Z.shiftl (b 0%nat) 24))))
  <$> seq 0 BLOCK_INTS.

(** [read(is, s, max)]: the characters, the stream behind them, and whether
    it is still good. *)
Definition read (input : list Z) (max : nat) : list Z * list Z * bool := (take max input, drop max input, (max <=? length input)%nat).

Definition set_buffer (b : list Z) (s : SHA1) : SHA1 := mk_SHA1 (digest s) b (transforms s).

(** [while (is)] *)
Fixpoint update_loop (fuel : nat) (input : list Z) (good : bool) (s : SHA1) : option SHA1 :=
  match fuel with
  | O => None
  | S f =>
      if good then
        let s := fst (transform s (buffer_to_block (buffer s))) in
        let '(b, input, good) := read input BLOCK_BYTES in
        update_loop f input good (set_buffer b s)
      else Some s
  end.

Definition update (s : SHA1) (text : list Z) : option SHA1 :=
  let '(rest, input, good) := read text (BLOCK_BYTES - length (buffer s)) in
  update_loop (S (S (length text))) input good (set_buffer (buffer s ++ rest) s).

Definition hex (digest : list Z) : list Z := seq 0 DIGEST_INTS ≫= (fun i => fmt_prec 16 8 (Z.land (digest !!! i) 0xffffffff)).

(** The text of the digest, and the object for the next message. *)
Definition final (s : SHA1) : list Z * SHA1 :=
  let total_bits := u64 (u64 (u64 (transforms s * 64) + Z.of_nat (length (buffer s))) * 8) in
  let buf := buffer s ++ [0x80] in
  let orig_size := length buf in
  let buf := buf ++ replicate (BLOCK_BYTES - length buf) 0 in
  let block := buffer_to_block buf in
  let '(s, block) :=
    if (BLOCK_BYTES - 8 <? orig_size)%nat then
      let '(s, block) := transform s block in (s, replicate (BLOCK_INTS - 2) 0 ++ drop (BLOCK_INTS - 2) block)
    else (s, block) in
  let block := <[(BLOCK_INTS - 1)%nat := total_bits]> block in
  let block := <[(BLOCK_INTS - 2)%nat := Z.shiftr total_bits 32]> block in
  let s := fst (transform s block) in
  (hex (digest s), reset).

Definition sha1 (string : list Z) : option (list Z) := s ← update reset string; Some (fst (final s)).

Example job_sha1_abc : sha1 (bs "abc") = Some (bs "a9993e364706816aba3e25717850c26c9cd0d89d").
Proof. vm_compute. reflexivity. Qed.

(** ** The lower 32 bits *)
Definition eq32 (x y : Z) : Prop := u32 x = u32 y.
Infix "≡32" := eq32 (at level 70).

#[export] Instance eq32_equivalence : Equivalence eq32.
Proof. split; unfold eq32; congruence. Qed.

Lemma eq32_bits x y : x ≡32 y <-> forall i, 0 <= i < 32 -> Z.testbit x i = Z.testbit y i.
Proof.
  unfold eq32, u32. split.
  - intros H i Hi. by rewrite <- (Z.mod_pow2_bits_low x 32), <- (Z.mod_pow2_bits_low y 32), H by lia.
  - intros H. apply Z.bits_inj'. intros i Hi. destruct (Z.lt_ge_cases i 32).
    + rewrite !Z.mod_pow2_bits_low by lia. apply H. lia.
    + by rewrite !Z.mod_pow2_bits_high by lia.
Qed.

#[export] Instance eq32_add : Proper (eq32 ==> eq32 ==> eq32) Z.add.
Proof. intros x x' Hx y y' Hy. unfold eq32, u32 in *. by rewrite Z.add_mod, Hx, Hy, <- Z.add_mod. Qed.

Ltac eq32_bitwise :=
  intros x x' Hx y y' Hy; rewrite eq32_bits in *; intros i Hi;
  rewrite ?Z.land_spec, ?Z.lor_spec, ?Z.lxor_spec, Hx, Hy by lia; reflexivity.
#[export] Instance eq32_land : Proper (eq32 ==> eq32 ==> eq32) Z.land.
Proof. eq32_bitwise. Qed.
#[export] Instance eq32_lor : Proper (eq32 ==> eq32 ==> eq32) Z.lor.
Proof. eq32_bitwise. Qed.
#[export] Instance eq32_lxor : Proper (eq32 ==> eq32 ==> eq32) Z.lxor.
Proof. eq32_bitwise. Qed.
#[export] Instance eq32_u32_proper : Proper (eq32 ==> eq) u32.
Proof. intros x y H. exact H. Qed.

Lemma eq32_u32 x : u32 x ≡32 x.
Proof. unfold eq32. apply u32_small, u32_range. Qed.
Lemma eq32_u64 x : u64 x ≡32 x.
Proof. apply eq32_bits. intros i Hi. unfold u64. by rewrite Z.mod_pow2_bits_low by lia. Qed.
Lemma eq32_i32 x : i32 x ≡32 x.
Proof. unfold eq32, u32, i32. Z.div_mod_to_equations. lia. Qed.

Lemma eq32_shiftl x y n : 0 <= n -> x ≡32 y -> Z.shiftl x n ≡32 Z.shiftl y n.
Proof.
  intros Hn H. rewrite eq32_bits in *. intros i Hi. rewrite !Z.shiftl_spec by lia.
  destruct (Z.lt_ge_cases (i - n) 0); [by rewrite !Z.testbit_neg_r by lia|apply H; lia].
Qed.

Lemma land_32 x : Z.land x 0xffffffff = u32 x.
Proof. change 0xffffffff with (Z.ones 32). by rewrite Z.land_ones. Qed.

(** ** A round *)
Lemma rol_range x b : 0 <= x < 2 ^ 32 -> 0 < b <= 32 -> 0 <= Sha1.wby_sha1_rol x b < 2 ^ 32.
Proof.
  intros Hx Hb. unfold Sha1.wby_sha1_rol. apply lor_range; [lia|apply u32_range|]. rewrite Z.shiftr_div_pow2 by lia.
  split; [apply Z.div_pos; lia|]. apply Z.div_lt_upper_bound; [lia|]. assert (1 <= 2 ^ (32 - b)); [|nia].
  change 1 with (2 ^ 0). apply Z.pow_le_mono_r; lia.
Qed.

Lemma rol_run x b : 0 < b <= 32 -> u32 (SHA1_ROL x b) = Sha1.wby_sha1_rol (u32 x) b.
Proof.
  intros Hb. rewrite <- (u32_small (Sha1.wby_sha1_rol _ _)) by (apply rol_range; [apply u32_range|done]).
  change (SHA1_ROL x b ≡32 Sha1.wby_sha1_rol (u32 x) b). unfold SHA1_ROL, Sha1.wby_sha1_rol.
  rewrite land_32, eq32_u64, (eq32_u32 (Z.shiftl (u32 x) b)), (eq32_shiftl (u32 x) x); [done|lia|apply eq32_u32].
Qed.

Lemma u32_lxor x y : u32 (Z.lxor x y) = Z.lxor (u32 x) (u32 y).
Proof.
  unfold u32. apply Z.bits_inj'. intros i Hi. destruct (Z.lt_ge_cases i 32).
  - by rewrite Z.lxor_spec, !Z.mod_pow2_bits_low, Z.lxor_spec by lia.
  - by rewrite Z.lxor_spec, !Z.mod_pow2_bits_high by lia.
Qed.

(** The functions of the rounds are those of FIPS 180. *)
Definition same (f f' : Z -> Z -> Z -> Z) : Prop := forall w x y, f w x y ≡32 f' (u32 w) (u32 x) (u32 y).

Lemma parity_same : same parity Sha1.f_parity.
Proof. intros w x y. unfold parity, Sha1.f_parity. by rewrite !eq32_u32. Qed.
Lemma majority_same : same majority Sha1.f_maj.
Proof.
  intros w x y. unfold majority, Sha1.f_maj. rewrite !eq32_u32. apply eq32_bits. intros i Hi.
  rewrite ?Z.lxor_spec, ?Z.lor_spec, ?Z.land_spec, ?Z.lor_spec. by destruct (Z.testbit w i), (Z.testbit x i), (Z.testbit y i).
Qed.
Lemma mix_same : same mix Sha1.f_ch.
Proof.
  intros w x y. rewrite eq32_bits. intros i Hi. unfold mix, Sha1.f_ch, u32.
  rewrite ?Z.lxor_spec, ?Z.land_spec, ?Z.lxor_spec, Z.lnot_spec, !Z.mod_pow2_bits_low by lia.
  by destruct (Z.testbit w i), (Z.testbit x i), (Z.testbit y i).
Qed.

Definition low (s : working) : Sha1.vars := Sha1.mk_vars (u32 (wv s)) (u32 (ww s)) (u32 (wx s)) (u32 (wy s)) (u32 (wz s)).

Lemma round_run word f f' k s i m :
  same f f' -> u32 (fst (word (wblock s) i)) = u32 m ->
  low (SHA1_R word f k s i) =
    Sha1.mk_vars (u32 (Sha1.wby_sha1_rol (Sha1.va (low s)) 5 + f' (Sha1.vb (low s)) (Sha1.vc (low s)) (Sha1.vd (low s)) +
      Sha1.ve (low s) + k + m)) (Sha1.va (low s)) (Sha1.wby_sha1_rol (Sha1.vb (low s)) 30) (Sha1.vc (low s)) (Sha1.vd (low s)) /\
  wblock (SHA1_R word f k s i) = snd (word (wblock s) i).
Proof.
  intros Hf Hm. unfold SHA1_R. destruct (word (wblock s) i) as [x block]. split; [|done]. unfold low. cbn.
  f_equal; [|by apply rol_run]. rewrite <- !rol_run by lia.
  change (u64 (wz s + u64 (f (ww s) (wx s) (wy s) + x + k + SHA1_ROL (wv s) 5)) ≡32
    u32 (SHA1_ROL (wv s) 5) + f' (u32 (ww s)) (u32 (wx s)) (u32 (wy s)) + u32 (wz s) + k + m).
  assert (Hx : x ≡32 m) by exact Hm. rewrite !eq32_u64, (eq32_u32 (SHA1_ROL (wv s) 5)), (eq32_u32 (wz s)), Hx, (Hf (ww s) (wx s) (wy s)).
  apply eq_subrelation; [apply _|]. ring.
Qed.

(** [I i] holds of the block in front of round [i]. *)
Lemma job_rounds_run (I : nat -> list Z -> Prop) word f f' k w start n s :
  same f f' ->
  (forall i b, (start <= i < start + n)%nat -> I i b -> u32 (fst (word b i)) = u32 (w !!! i) /\ I (S i) (snd (word b i))) ->
  I start (wblock s) ->
  low (foldl (SHA1_R word f k) s (seq start n)) = Sha1.sha1_loop w start n f' k (low s) /\
  I (start + n)%nat (wblock (foldl (SHA1_R word f k) s (seq start n))).
Proof.
  intros Hf. revert start s. induction n as [|n IH]; intros start s Hw Hi; [by rewrite Nat.add_0_r|].
  destruct (Hw start _ ltac:(lia) Hi) as [Hm Hi']. destruct (round_run word f f' k s start _ Hf Hm) as [H1 H2].
  cbn [seq foldl]. destruct (IH (S start) (SHA1_R word f k s start)) as [H3 H4].
  - intros i b Hr. apply Hw. lia.
  - by rewrite H2.
  - split; [|by rewrite Nat.add_succ_r]. rewrite H3. unfold Sha1.sha1_loop. cbn [seq foldl]. by rewrite H1.
Qed.

(** ** The words *)
(** The block holds the last 16 words in a ring. *)
Definition ring_of (w : list Z) (i : nat) (b : list Z) : Prop :=
  length b = 16%nat /\ forall t, (t < i <= t + 16)%nat -> u32 (b !!! (t mod 16)%nat) = w !!! t.

Lemma ring_next block w i b :
  w = Sha1.schedule block -> (16 <= i < 80)%nat -> ring_of w i b ->
  u32 (fst (SHA1_BLK b i)) = u32 (w !!! i) /\ ring_of w (S i) (snd (SHA1_BLK b i)).
Proof.
  intros Ew Hi [Hl Hb]. assert (Hw : w !!! i = Sha1.next_word w i) by (rewrite Ew; by apply Sha1.schedule_next). clear Ew.
  assert (Hat : forall d, (d < 16)%nat -> u32 (b !!! ((i + d) mod 16)%nat) = w !!! (i - (16 - d))%nat).
  { intros d Hd. rewrite <- (Hb (i - (16 - d))%nat) by lia. do 2 f_equal.
    rewrite <- (Nat.Div0.mod_add (i - (16 - d)) 1). f_equal. lia. }
  assert (Hx : u32 (fst (SHA1_BLK b i)) = w !!! i).
  { unfold SHA1_BLK. cbn [fst]. rewrite rol_run, !u32_lxor, !Hat by lia. rewrite Hw. unfold Sha1.next_word.
    pose proof (Hat 0%nat ltac:(lia)) as H0. rewrite Nat.add_0_r in H0. rewrite H0. do 3 f_equal; f_equal; lia. }
  split; [rewrite Hx, <- Hx; symmetry; apply u32_small, u32_range|].
  split; [cbn [snd SHA1_BLK]; by rewrite length_insert|]. intros t Ht. cbn [snd SHA1_BLK].
  destruct (decide (t = i)) as [->|Hne].
  - rewrite list_lookup_total_insert_eq by (rewrite Hl; apply Nat.mod_upper_bound; lia). exact Hx.
  - rewrite list_lookup_total_insert_ne; [apply Hb; lia|].
    intros E. pose proof (Nat.div_mod_eq t 16). pose proof (Nat.div_mod_eq i 16). lia.
Qed.

(** ** A block *)
(** The words of the block are, in their lower 32 bits, those of the bytes. *)
Definition block_of (bytes block : list Z) : Prop :=
  length block = 16%nat /\ forall i, (i < 16)%nat -> u32 (block !!! i) = Sha1.word_at bytes i.

Lemma loop_split w start n m f k v :
  Sha1.sha1_loop w start (n + m) f k v = Sha1.sha1_loop w (start + n) m f k (Sha1.sha1_loop w start n f k v).
Proof. unfold Sha1.sha1_loop. by rewrite seq_app, foldl_app. Qed.

Lemma given_next w bytes i b :
  w = Sha1.schedule bytes -> (i < 16)%nat -> block_of bytes b ->
  u32 (fst (given b i)) = u32 (w !!! i) /\ block_of bytes (snd (given b i)).
Proof.
  intros -> Hi Hb. split; [|done]. cbn [given fst]. destruct Hb as [_ Hb]. rewrite Hb, Sha1.schedule_first by done.
  rewrite <- (Hb i Hi). symmetry. apply u32_small, u32_range.
Qed.

Lemma block_ring bytes b : block_of bytes b -> ring_of (Sha1.schedule bytes) 16 b.
Proof.
  intros [Hl Hb]. split; [done|]. intros t Ht. rewrite Nat.mod_small by lia. rewrite Sha1.schedule_first by lia. apply Hb. lia.
Qed.

Lemma add_low x y : u32 (u64 (x + y)) = u32 (u32 x + u32 y).
Proof. apply (eq32_u32_proper (u64 (x + y)) (u32 x + u32 y)). by rewrite eq32_u64, !eq32_u32. Qed.

Lemma transform_run s bytes block :
  block_of bytes block -> length (digest s) = 5%nat ->
  let '(s', block') := transform s block in
  u32 <$> digest s' = Sha1.wby_sha1_hash_block (u32 <$> digest s) bytes /\ length (digest s') = 5%nat /\ buffer s' = buffer s /\
  transforms s' = u64 (transforms s + 1) /\ length block' = 16%nat.
Proof.
  intros Hb Hd. unfold transform, Sha1.wby_sha1_hash_block. cbv zeta.
  set (w := Sha1.schedule bytes). set (r0 := mk_working _ _ _ _ _ block).
  destruct (job_rounds_run (fun _ => block_of bytes) given mix Sha1.f_ch 0x5a827999 w 0 16 r0 mix_same) as [E0 I0];
    [intros i b Hi; apply given_next; [done|lia]|exact Hb|].
  apply block_ring in I0. set (r1 := foldl _ r0 _) in *.
  assert (Hnext : forall start n i b, (16 <= start)%nat -> (start + n <= 80)%nat -> (start <= i < start + n)%nat -> ring_of w i b ->
    u32 (fst (SHA1_BLK b i)) = u32 (w !!! i) /\ ring_of w (S i) (snd (SHA1_BLK b i)))
    by (intros start n i b H1 H2 Hi; apply (ring_next bytes); [done|lia]).
  destruct (job_rounds_run (ring_of w) SHA1_BLK mix Sha1.f_ch 0x5a827999 w 16 4 r1 mix_same) as [E1 I1]; [intros i b; apply Hnext; lia|done|].
  set (r2 := foldl _ r1 _) in *.
  destruct (job_rounds_run (ring_of w) SHA1_BLK parity Sha1.f_parity 0x6ed9eba1 w 20 20 r2 parity_same) as [E2 I2]; [intros i b; apply Hnext; lia|done|].
  set (r3 := foldl _ r2 _) in *.
  destruct (job_rounds_run (ring_of w) SHA1_BLK majority Sha1.f_maj 0x8f1bbcdc w 40 20 r3 majority_same) as [E3 I3]; [intros i b; apply Hnext; lia|done|].
  set (r4 := foldl _ r3 _) in *.
  destruct (job_rounds_run (ring_of w) SHA1_BLK parity Sha1.f_parity 0xca62c1d6 w 60 20 r4 parity_same) as [E4 I4]; [intros i b; apply Hnext; lia|done|].
  set (r5 := foldl _ r4 _) in *. cbn [digest buffer transforms].
  split; [|split; [done|split; [done|split; [done|apply I4]]]].
  rewrite E0 in E1. pose proof (loop_split w 0 16 4 Sha1.f_ch 0x5a827999 (low r0)) as Es. cbn [Nat.add] in Es. rewrite <- Es in E1.
  rewrite E1 in E2. rewrite E2 in E3. rewrite E3 in E4. clear Es E0 E1 E2 E3 I0 I1 I2 I3 I4. clearbody r5.
  destruct (digest s) as [|d0 [|d1 [|d2 [|d3 [|d4 [|]]]]]] eqn:Ed; try discriminate Hd.
  subst r0. unfold low at 2 in E4. cbn [wv ww wx wy wz lookup_total list_lookup_total] in E4.
  cbn [fmap list_fmap lookup_total list_lookup_total]. rewrite <- E4. cbn [low Sha1.va Sha1.vb Sha1.vc Sha1.vd Sha1.ve].
  by rewrite !add_low.
Qed.

(** ** Words of bytes *)
Lemma byte_bits w n j : 0 <= n -> Z.testbit ((w / 2 ^ n) `mod` 256) j = (0 <=? j) && (j <? 8) && Z.testbit w (j + n).
Proof.
  intros Hn. change 256 with (2 ^ 8). destruct (Z.leb_spec 0 j); [|by rewrite Z.testbit_neg_r by lia].
  destruct (Z.ltb_spec j 8); [|by rewrite Z.mod_pow2_bits_high by lia].
  by rewrite Z.mod_pow2_bits_low, Z.div_pow2_bits by lia.
Qed.

Lemma word_at_be x w y i : length x = (i * 4)%nat -> Sha1.word_at (x ++ be_bytes 4 w ++ y) i = u32 w.
Proof.
  intros Hx. unfold Sha1.word_at. cbv zeta.
  assert (Hl : forall k, (x ++ be_bytes 4 w ++ y) !!! (i * 4 + k)%nat = (be_bytes 4 w ++ y) !!! k).
  { intros k. rewrite lookup_total_app_r by lia. f_equal. lia. }
  rewrite !Hl, Sha1.be_bytes_4. cbn [app lookup_total list_lookup_total]. replace (w `mod` 256) with ((w / 2 ^ 0) `mod` 256) by (by rewrite Z.div_1_r).
  unfold u32. apply Z.bits_inj'. intros j Hj. rewrite !Z.lor_spec, byte_bits by lia.
  destruct (Z.ltb_spec j 32) as [H|H].
  - rewrite !Z.mod_pow2_bits_low, !Z.shiftl_spec, !byte_bits, !Z.sub_add, Z.add_0_r by lia.
    destruct (Z.testbit w j); rewrite ?andb_false_r; [rewrite !andb_true_r|done].
    destruct (Z.leb_spec 0 (j - 24)), (Z.ltb_spec (j - 24) 8), (Z.leb_spec 0 (j - 16)), (Z.ltb_spec (j - 16) 8),
      (Z.leb_spec 0 (j - 8)), (Z.ltb_spec (j - 8) 8), (Z.leb_spec 0 j), (Z.ltb_spec j 8); done || lia.
  - rewrite !Z.mod_pow2_bits_high by lia. rewrite (proj2 (Z.ltb_ge j 8)) by lia. by rewrite andb_false_r.
Qed.

Lemma word_at_range bytes i : Forall byte_ok bytes -> length bytes = 64%nat -> (i < 16)%nat -> 0 <= Sha1.word_at bytes i < 2 ^ 32.
Proof.
  intros Hb Hl Hi. unfold Sha1.word_at. cbv zeta. repeat (apply lor_range; [lia| |]); try apply u32_range.
  assert (byte_ok (bytes !!! (i * 4 + 3)%nat)) as Hx; [|unfold byte_ok in Hx; lia].
  apply (Forall_lookup_total_1 _ _ _ Hb). lia.
Qed.

Lemma buffer_block bytes : Forall byte_ok bytes -> length bytes = 64%nat -> block_of bytes (buffer_to_block bytes).
Proof.
  intros Hb Hl. split; [done|]. intros i Hi. unfold buffer_to_block.
  rewrite <- (u32_small (Sha1.word_at bytes i)) by (by apply word_at_range).
  rewrite (@list_lookup_total_fmap nat Z _ (populate 0%nat)) by (rewrite length_seq; done). rewrite lookup_total_seq_lt, (Nat.mul_comm 4) by done. cbn [Nat.add].
  match goal with |- u32 ?x = u32 ?y => change (x ≡32 y) end. unfold Sha1.word_at. cbv zeta. rewrite eq32_u64, eq32_i32, !eq32_u32.
  apply eq32_bits. intros j Hj. rewrite !Z.lor_spec.
  repeat match goal with |- context [Z.testbit ?x j] => destruct (Z.testbit x j) end; done.
Qed.

(** The last words are the number of bits. *)
Lemma length_block x y v b :
  length x = 56%nat -> length b = 16%nat -> (forall i, (i < 14)%nat -> u32 (b !!! i) = Sha1.word_at (x ++ y) i) ->
  block_of (x ++ be_bytes 8 v) (<[14%nat := Z.shiftr (u64 v) 32]> (<[15%nat := u64 v]> b)).
Proof.
  intros Hx Hl Hb. split; [by rewrite !length_insert|]. intros i Hi.
  assert (E : be_bytes 8 v = be_bytes 4 (v / 2 ^ 32) ++ be_bytes 4 v).
  { unfold be_bytes. change (le_bytes 8) with (le_bytes (4 + 4)). by rewrite (Sha1.le_bytes_app 4 4), reverse_app. }
  destruct (decide (i = 14%nat)) as [->|H14]; [|destruct (decide (i = 15%nat)) as [->|H15]].
  - rewrite list_lookup_total_insert_eq by (rewrite length_insert; lia). rewrite E, word_at_be by done.
    rewrite Z.shiftr_div_pow2 by lia. unfold u32, u64. Z.div_mod_to_equations. lia.
  - rewrite list_lookup_total_insert_ne, list_lookup_total_insert_eq by lia.
    rewrite E, app_assoc. rewrite <- (app_nil_r (be_bytes 4 v)), word_at_be by (rewrite length_app, be_bytes_length; lia).
    exact (eq32_u64 v).
  - rewrite !list_lookup_total_insert_ne by lia. rewrite Hb by lia. unfold Sha1.word_at. cbv zeta.
    by rewrite !(lookup_total_app_l x) by lia.
Qed.

(** ** Updates *)
(** The object has seen a message whose state is [a]: the digest of its whole
    blocks and the bytes behind them. *)
Record seen (n : nat) (a : list Z * list Z) (s : SHA1) : Prop := {
  sn_digest : u32 <$> digest s = a.1;
  sn_length : length (digest s) = 5%nat;
  sn_buffer : buffer s = a.2;
  sn_blocks : transforms s = u64 (Z.of_nat n);
}.

Lemma transform_seen n h b s block :
  seen n (h, b) s -> block_of b block -> seen (S n) (Sha1.wby_sha1_hash_block h b, b) (fst (transform s block)).
Proof.
  intros [H1 H2 H3 H4] Hb. pose proof (transform_run s b block Hb H2) as H. destruct (transform s block) as [s' block'].
  destruct H as (E1 & E2 & E3 & E4 & _). cbn [fst snd] in *. split; cbn [fst snd]; [by rewrite E1, H1|done|congruence|].
  rewrite E4, H4. unfold u64. rewrite Zplus_mod_idemp_l. f_equal. lia.
Qed.

Lemma seen_buffer n h b b' s : seen n (h, b) s -> seen n (h, b') (set_buffer b' s).
Proof. intros [H1 H2 H3 H4]. by split. Qed.

Lemma update_loop_run fuel n h b input s :
  seen n (h, b) s -> length b = 64%nat -> Forall byte_ok b -> Forall byte_ok input -> (length input < fuel)%nat ->
  exists s', update_loop (S fuel) input true s = Some s' /\
    seen (n + length (b ++ input) / 64) (Sha1.absorb (h, []) (b ++ input)) s'.
Proof.
  revert n h b input s. induction fuel as [|fuel IH]; intros n h b input s Hs Hb Hok Hi Hf; [lia|].
  set (f := S fuel) in *. cbn [update_loop]. pose proof (sn_buffer _ _ _ Hs) as Eb. cbn [snd] in Eb.
  assert (Hblock : block_of b (buffer_to_block (buffer s))) by (rewrite Eb; by apply buffer_block).
  pose proof (transform_seen n h b s _ Hs Hblock) as H1. cbn [read fst snd].
  set (s1 := fst (transform s _)) in *. clearbody s1. rewrite Sha1.absorb_app, Sha1.absorb_full by (cbn [length]; lia). cbn [app].
  destruct (Nat.leb_spec BLOCK_BYTES (length input)) as [Hlen|Hlen]; unfold BLOCK_BYTES in *.
  - destruct (IH (S n) (Sha1.wby_sha1_hash_block h b) (take 64 input) (drop 64 input) (set_buffer (take 64 input) s1)) as (s' & E & Hs').
    + by eapply seen_buffer.
    + rewrite length_take. lia.
    + by apply Forall_take.
    + by apply Forall_drop.
    + rewrite length_drop. lia.
    + exists s'. split; [exact E|]. rewrite take_drop in Hs'. rewrite length_app, Hb.
      replace (64 + length input)%nat with (length input + 1 * 64)%nat by lia. rewrite Nat.div_add by lia.
      by replace (n + (length input / 64 + 1))%nat with (S n + length input / 64)%nat by lia.
  - exists (set_buffer (take 64 input) s1). split; [by subst f|]. rewrite take_ge by lia.
    rewrite (Sha1.absorb_short _ []) by (cbn [length]; lia). cbn [app]. rewrite length_app, Hb.
    replace ((64 + length input) / 64)%nat with 1%nat.
    + rewrite Nat.add_1_r. by eapply seen_buffer.
    + apply Nat.div_unique with (r := length input); lia.
Qed.

Lemma update_run n a s text :
  seen n a s -> (length a.2 < 64)%nat -> Forall byte_ok a.2 -> Forall byte_ok text ->
  exists s', update s text = Some s' /\ seen (n + (length a.2 + length text) / 64) (Sha1.absorb a text) s'.
Proof.
  destruct a as [h p]. cbn [snd]. intros Hs Hp Hok Ht. unfold update, read. rewrite (sn_buffer _ _ _ Hs). cbn [snd].
  unfold BLOCK_BYTES. destruct (Nat.leb_spec (64 - length p) (length text)) as [Hl|Hl].
  - set (b := p ++ take (64 - length p) text).
    assert (Hb : length b = 64%nat) by (subst b; rewrite length_app, length_take; lia).
    destruct (update_loop_run (S (length text)) n h b (drop (64 - length p) text) (set_buffer b s)) as (s' & E & Hs').
    + by eapply seen_buffer.
    + done.
    + apply Forall_app. split; [done|by apply Forall_take].
    + by apply Forall_drop.
    + rewrite length_drop. lia.
    + exists s'. split; [exact E|]. subst b. rewrite <- app_assoc, take_drop, length_app in Hs'.
      rewrite Sha1.absorb_app, (Sha1.absorb_short h []) in Hs' by (cbn; lia). exact Hs'.
  - exists (set_buffer (p ++ text) s). rewrite take_ge by lia. split; [done|].
    rewrite Nat.div_small, Nat.add_0_r, Sha1.absorb_short by lia. by eapply seen_buffer.
Qed.

Lemma absorb_bytes a l : Forall byte_ok a.2 -> Forall byte_ok l -> Forall byte_ok (Sha1.absorb a l).2.
Proof.
  intros Ha Hl. revert a Ha. induction Hl as [|c l Hc Hl IH]; intros a Ha; [done|]. cbn [Sha1.absorb foldl].
  apply IH. unfold Sha1.absorb1. case_match; cbn [snd]; [done|]. apply Forall_app. by split; [|constructor].
Qed.

Lemma updates_run pieces s n m :
  seen n (Sha1.absorb (Sha1.H0, []) m) s -> n = (length m / 64)%nat -> Forall byte_ok m -> Forall (Forall byte_ok) pieces ->
  exists s', foldl (fun s p => s ← s; update s p) (Some s) pieces = Some s' /\
    seen (length (m ++ concat pieces) / 64) (Sha1.absorb (Sha1.H0, []) (m ++ concat pieces)) s'.
Proof.
  intros Hs Hn Hm Hp. revert s n m Hs Hn Hm. induction Hp as [|p ps Hp Hps IH]; intros s n m Hs Hn Hm; cbn [foldl concat mbind option_bind].
  - exists s. rewrite app_nil_r. by subst n.
  - pose proof (Sha1.absorb_used (Sha1.H0, []) m ltac:(cbn; lia)) as Hu. cbn [snd length Nat.add] in Hu.
    destruct (update_run n _ s p Hs) as (s1 & E & H1).
    + rewrite Hu. apply Nat.mod_upper_bound. lia.
    + by apply absorb_bytes.
    + done.
    + rewrite E. rewrite <- Sha1.absorb_app in H1. rewrite app_assoc. eapply IH; [exact H1| |by apply Forall_app].
      rewrite Hu, Hn, length_app. pose proof (Nat.div_mod_eq (length m) 64) as Hd.
      rewrite Hd at 3. rewrite <- Nat.add_assoc, (Nat.mul_comm 64), Nat.div_add_l by lia. done.
Qed.

(** ** The text *)
Lemma num_val_inj b ds ds' :
  digits_ok b ds -> digits_ok b ds' -> length ds = length ds' -> num_val b 0 ds = num_val b 0 ds' -> ds = ds'.
Proof.
  revert ds'. induction ds as [|d ds IH] using rev_ind; intros ds' Hd Hd' Hl E.
  - by destruct ds'.
  - destruct ds' as [|d' ds' _] using rev_ind; [rewrite length_app in Hl; cbn in Hl; lia|].
    apply Forall_app in Hd as [Hd Hx]. apply Forall_app in Hd' as [Hd' Hx']. rewrite Forall_singleton in Hx, Hx'.
    rewrite !num_val_app in E. unfold num_val in E at 1 3. cbn [foldl] in E. rewrite !length_app in Hl. cbn [length] in Hl.
    destruct (Z.div_mod_unique b (num_val b 0 ds) (num_val b 0 ds') d d') as [H ->]; [by left|by left|by rewrite !(Z.mul_comm b)|]. f_equal. apply IH; [done..|lia|done].
Qed.

Lemma hex_word w : 0 <= w < 2 ^ 32 -> fmt_prec 16 8 w = be_bytes 4 w ≫= fmt_prec 16 2.
Proof.
  intros Hw. destruct (fmt_prec_digits 16 8 w) as (ds & E & Hok & Hl & Hv); [lia|lia|cbn; lia|lia|].
  assert (Hb : exists ds', (be_bytes 4 w ≫= fmt_prec 16 2) = digit_char <$> ds' /\ digits_ok 16 ds' /\ length ds' = 8%nat /\ num_val 16 0 ds' = w).
  { assert (H : forall l, Forall byte_ok l -> exists ds', (l ≫= fmt_prec 16 2) = digit_char <$> ds' /\ digits_ok 16 ds' /\
      length ds' = (2 * length l)%nat /\ forall a, num_val 16 a ds' = num_val 256 a l).
    { induction 1 as [|c l Hc _ (ds' & E' & H1 & H2 & H3)]; [exists []; split_and!; [done|constructor|done|done]|]. unfold byte_ok in Hc.
      destruct (fmt_prec_digits 16 2 c) as (dc & Ec & Hc1 & Hc2 & Hc3); [lia|lia|cbn; lia|lia|].
      exists (dc ++ ds'). rewrite bind_cons, Ec, E', fmap_app. split_and!; [done|by apply Forall_app_2|rewrite length_app; cbn; lia|].
      intros a. rewrite num_val_app, H3. unfold num_val at 3. cbn [foldl]. fold (num_val 256 (a * 256 + c) l). f_equal.
      destruct dc as [|x [|y [|]]]; try discriminate Hc2. unfold num_val in *. cbn [foldl] in *. lia. }
    destruct (H _ (be_bytes_ok 4 w)) as (ds' & E' & H1 & H2 & H3). exists ds'. split_and!; [done..|].
    rewrite H3, num_val_be_bytes. apply Z.mod_small. cbn. lia. }
  destruct Hb as (ds' & E' & Hok' & Hl' & Hv'). rewrite E, E'. f_equal. apply (num_val_inj 16); congruence.
Qed.

Lemma hex_digest d : length d = 5%nat -> hex d = ((u32 <$> d) ≫= be_bytes 4) ≫= fmt_prec 16 2.
Proof.
  intros Hd. destruct d as [|d0 [|d1 [|d2 [|d3 [|d4 [|]]]]]]; try discriminate Hd.
  unfold hex. cbn [seq DIGEST_INTS mbind list_bind lookup_total list_lookup_total fmap list_fmap].
  rewrite !land_32, !hex_word by apply u32_range. rewrite !app_nil_r. by rewrite !bind_app.
Qed.

(** ** The padding *)
Lemma zeros_run n : let r := (n mod 64)%nat in Sha1.zeros_after n = (if (r <? 56) then 55 - r else 119 - r)%nat.
Proof.
  cbv zeta. unfold Sha1.zeros_after. rewrite <- Nat.Div0.add_mod_idemp_l.
  pose proof (Nat.mod_upper_bound n 64 ltac:(lia)) as Hr. set (r := (n mod 64)%nat) in *. clearbody r.
  assert (E : forallb (fun r => ((64 - (r + 9) mod 64) mod 64 =? if r <? 56 then 55 - r else 119 - r)%nat) (seq 0 64) = true)
    by (vm_compute; reflexivity).
  rewrite forallb_forall in E. apply Nat.eqb_eq, E, in_seq. lia.
Qed.

(** The last block, whose first 56 bytes are [x]. *)
Lemma last_block s h x y bits b :
  u32 <$> digest s = h -> length (digest s) = 5%nat -> length x = 56%nat -> length b = 16%nat ->
  (forall i, (i < 14)%nat -> u32 (b !!! i) = Sha1.word_at (x ++ y) i) ->
  hex (digest (fst (transform s (<[14%nat := Z.shiftr (u64 bits) 32]> (<[15%nat := u64 bits]> b))))) =
    (Sha1.wby_sha1_hash_block h (x ++ be_bytes 8 bits) ≫= be_bytes 4) ≫= fmt_prec 16 2.
Proof.
  intros Hh Hd Hx Hl Hb. pose proof (transform_run s _ _ (length_block x y bits b Hx Hl Hb) Hd) as H.
  destruct (transform _ _) as [s' b']. destruct H as (E & Hd' & _). cbn [fst]. by rewrite hex_digest, E, Hh.
Qed.

Lemma total_run (m : list Z) s a :
  seen (length m / 64) a s -> Z.of_nat (length m) < 2 ^ 61 -> length a.2 = (length m mod 64)%nat ->
  u64 (u64 (u64 (transforms s * 64) + Z.of_nat (length (buffer s))) * 8) = u64 (8 * Z.of_nat (length m)).
Proof.
  intros Hs Hlen Hu. rewrite (sn_blocks _ _ _ Hs), (sn_buffer _ _ _ Hs). pose proof (Nat.div_mod_eq (length m) 64) as Hd.
  rewrite (u64_small (Z.of_nat _)) by lia. rewrite (u64_small (_ * 64)) by lia.
  rewrite (u64_small (_ + _)) by lia. f_equal. lia.
Qed.

Lemma final_run m s :
  seen (length m / 64) (Sha1.absorb (Sha1.H0, []) m) s -> Forall byte_ok m -> Z.of_nat (length m) < 2 ^ 61 ->
  fst (final s) = Sha1.sha1_spec m ≫= fmt_prec 16 2.
Proof.
  intros Hs Hm Hlen. pose proof (Sha1.absorb_used (Sha1.H0, []) m ltac:(cbn; lia)) as Hu. cbn [snd length Nat.add] in Hu.
  pose proof (absorb_bytes (Sha1.H0, []) m ltac:(constructor) Hm) as Hp.
  assert (Hpad : exists n, length (Sha1.pad m) = (64 * n)%nat) by apply Sha1.pad_length. destruct Hpad as [n Hn].
  pose proof (Sha1.absorb_blocks n Sha1.H0 _ Hn) as Hspec. rewrite Sha1.sha1_spec_run by done.
  rewrite Hn, (Nat.mul_comm 64 n), Nat.div_mul by lia.
  replace (Sha1.hash_blocks n Sha1.H0 (Sha1.pad m)) with (Sha1.absorb (Sha1.H0, []) (Sha1.pad m)).1 by (by rewrite Hspec).
  clear Hspec Hn n. unfold Sha1.pad. rewrite Sha1.absorb_app. destruct (Sha1.absorb (Sha1.H0, []) m) as [h p]. cbn [snd] in *.
  assert (Hr : (length p < 64)%nat) by (rewrite Hu; apply Nat.mod_upper_bound; lia).
  unfold final. rewrite (total_run m s _ Hs Hlen Hu), (sn_buffer _ _ _ Hs). cbn [snd]. unfold BLOCK_BYTES, BLOCK_INTS. rewrite length_app. cbn [length].
  set (bits := 8 * Z.of_nat (length m)). set (zeros := replicate _ 0).
  assert (Hfull : length ((p ++ [0x80]) ++ zeros) = 64%nat) by (subst zeros; rewrite !length_app, length_replicate; cbn [length]; lia).
  assert (Hbytes : Forall byte_ok ((p ++ [0x80]) ++ zeros)).
  { repeat apply Forall_app_2; [done|by repeat constructor|apply Forall_replicate; by split]. }
  pose proof (buffer_block _ Hbytes Hfull) as Hblock. set (block := buffer_to_block _) in *. clearbody block.
  destruct (Nat.ltb_spec (64 - 8) (length p + 1)) as [Hcase|Hcase].
  - pose proof (transform_run s _ block Hblock (sn_length _ _ _ Hs)) as H. destruct (transform s block) as [s1 block1].
    destruct H as (E1 & Hd1 & _ & _ & Hl1). rewrite (sn_digest _ _ _ Hs) in E1. cbn [fst] in E1.
    cbn [fst]. change (16 - 2)%nat with 14%nat. change (16 - 1)%nat with 15%nat.
    rewrite (last_block s1 _ (replicate 56 0) (replicate 8 0) bits _ E1 Hd1 eq_refl).
    2: rewrite length_app, length_drop, Hl1; reflexivity.
    2: { intros i Hi. rewrite lookup_total_app_l by (rewrite length_replicate; lia). rewrite lookup_total_replicate_2 by lia.
      unfold Sha1.word_at. cbv zeta. rewrite <- replicate_add, !lookup_total_replicate_2 by lia. done. }
    do 2 f_equal. pose proof (zeros_run (length m)) as Hz. cbv zeta in Hz. rewrite <- Hu in Hz.
      rewrite (proj2 (Nat.ltb_ge _ _)) in Hz by lia. rewrite Hz.
      replace (119 - length p)%nat with ((64 - (length p + 1)) + 56)%nat by lia. rewrite replicate_add. fold zeros.
      rewrite <- (app_assoc zeros), (app_assoc [128] zeros), Sha1.absorb_app, Sha1.absorb_full.
      * rewrite Sha1.absorb_full; [by rewrite <- (app_assoc p)|cbn [length]; lia|]. rewrite length_app, be_bytes_length, length_replicate. done.
      * done.
      * rewrite <- Hfull, !length_app. cbn [length]. lia.
  - set (x := p ++ [128] ++ replicate (55 - length p) 0).
    assert (Hx : length x = 56%nat) by (subst x; rewrite !length_app, length_replicate; cbn [length]; lia).
    assert (Exy : (p ++ [128]) ++ zeros = x ++ replicate 8 0).
    { subst x zeros. replace (64 - (length p + 1))%nat with ((55 - length p) + 8)%nat by lia.
      rewrite replicate_add, <- !app_assoc. done. }
    destruct Hblock as [Hl Hb]. rewrite Exy in Hb.
    cbn [fst]. change (16 - 2)%nat with 14%nat. change (16 - 1)%nat with 15%nat.
    rewrite (last_block s h x (replicate 8 0) bits block (sn_digest _ _ _ Hs) (sn_length _ _ _ Hs) Hx Hl ltac:(intros i Hi; apply Hb; lia)).
    do 2 f_equal. pose proof (zeros_run (length m)) as Hz. cbv zeta in Hz. rewrite <- Hu in Hz.
    rewrite (proj2 (Nat.ltb_lt _ _)) in Hz by lia. rewrite Hz, Sha1.absorb_full; [|done|].
    + cbn [fst]. f_equal. subst x. by rewrite <- !app_assoc.
    + rewrite !length_app, be_bytes_length, length_replicate. cbn [length]. lia.
Qed.

Lemma reset_seen : seen 0 (Sha1.absorb (Sha1.H0, []) []) reset.
Proof. by split. Qed.

Lemma pieces_run pieces :
  Forall (Forall byte_ok) pieces -> Z.of_nat (length (concat pieces)) < 2 ^ 61 ->
  exists s, foldl (fun s p => s ← s; update s p) (Some reset) pieces = Some s /\
    final s = (Sha1.sha1_spec (concat pieces) ≫= fmt_prec 16 2, reset).
Proof.
  intros Hp Hlen. destruct (updates_run pieces reset 0 [] reset_seen eq_refl ltac:(constructor) Hp) as (s & E & Hs).
  exists s. split; [exact E|]. cbn [app] in Hs.
  pose proof (final_run _ s Hs ltac:(by apply Forall_concat) Hlen) as Hf. rewrite <- Hf.
  unfold final. by destruct (if _ : bool then _ else _).
Qed.

Lemma sha1_run m : Forall byte_ok m -> Z.of_nat (length m) < 2 ^ 61 -> sha1 m = Some (Sha1.sha1_spec m ≫= fmt_prec 16 2).
Proof.
  intros Hm Hl. destruct (pieces_run [m]) as (s & E & Ef); [by constructor|cbn; by rewrite app_nil_r|].
  cbn [concat] in Ef. rewrite app_nil_r in Ef. unfold sha1. cbn [foldl mbind option_bind] in E. rewrite E. cbn [mbind option_bind].
  by rewrite Ef.
Qed.

(** C25: The class SHA1 of the job runner computes SHA-1: the text of its digest
    is, in hexadecimal, the digest of FIPS 180 of all the text it was given,
    however it was cut into updates and although its words keep 64 bits with
    whatever the shifts leave above the 32 - and so the same digest as the
    server's, for any message of less than 2^61 bytes; and it is reset for the
    next one. *)
Theorem job_sha1_correct pieces :
  Forall (Forall byte_ok) pieces -> Z.of_nat (length (concat pieces)) < 2 ^ 61 ->
  exists s, foldl (fun s p => s ← s; update s p) (Some reset) pieces = Some s /\
    final s = (Sha1.sha1_spec (concat pieces) ≫= fmt_prec 16 2, reset).
Proof. apply pieces_run. Qed.

Lemma job_sha1_correct_witness :
  exists s, foldl (fun s p => s ← s; update s p) (Some reset) [bs "ab"; replicate 70 99] = Some s /\
    final s = (Sha1.sha1_spec (bs "ab" ++ replicate 70 99) ≫= fmt_prec 16 2, reset).
Proof.
  apply (job_sha1_correct [bs "ab"; replicate 70 99]); [|reflexivity].
  repeat constructor; discriminate.
Defined.
End JobSha1.
