(* ===== verification/Pitch.v ===== *)
(** * pitch: the task queue (queue.h, provision.cpp, pitcher.cpp)

    Tasks arrive in one thread, which keeps them in a database and queues
    them; another thread takes them, the most urgent first, and sends each as a
    job to the cluster.  The database is a map, protobuf's codec a pair of
    functions, std::priority_queue anything that meets what the standard says
    of it.  Log texts are left out. *)
From stdpp Require Import sorting.
From S2P Require Import Prelude CLib.

Module Pitch.

(** ** Tasks (task.proto, processjob.proto) *)
Inductive QueuePriority := REALTIME | HIGH | NORMAL | LOW | IDLE.

#[export] Instance QueuePriority_eq_dec : EqDecision QueuePriority.
Proof. solve_decision. Defined.

Definition priority_value (p : QueuePriority) : Z :=
  match p with REALTIME => 0 | HIGH => 1 | NORMAL => 2 | LOW => 3 | IDLE => 4 end.

Record Task := mk_Task { t_name : list Z; t_id : Z; t_quid : list Z; priority : QueuePriority; t_content : list Z }.

#[export] Instance Task_eq_dec : EqDecision Task.
Proof. solve_decision. Defined.

Inductive State := SPAWN | PARTITION | FUNNEL.

Record ProcessJob := mk_ProcessJob {
  j_name : list Z; j_id : Z; j_quid : list Z; j_state : State; j_content : list Z; j_data : list Z;
  j_partition : Z; j_partition_count : Z; j_quid_parent : list Z }.

(** [lhs] comes behind [rhs]. *)
Definition CompareTaskPriority (lhs rhs : Task) : bool := priority_value (priority rhs) <? priority_value (priority lhs).

(** std::priority_queue<Task, ..., CompareTaskPriority>: [top] with [pop]
    returns one of the elements that come behind no other. *)
Class PriorityQueue (Q : Type) := {
  pq_empty : Q;
  pq_push : Task -> Q -> Q;
  pq_size : Q -> nat;
  pq_pop : Q -> option (Task * Q);
  pq_elements : Q -> list Task;
  pq_empty_elements : pq_elements pq_empty = [];
  pq_push_elements t q : pq_elements (pq_push t q) ≡ₚ t :: pq_elements q;
  pq_size_elements q : pq_size q = length (pq_elements q);
  pq_pop_none q : pq_pop q = None <-> pq_elements q = [];
  pq_pop_some q t q' : pq_pop q = Some (t, q') ->
    pq_elements q ≡ₚ t :: pq_elements q' /\ Forall (fun u => CompareTaskPriority t u = false) (pq_elements q);
}.

Section Pitch.
Context {Q : Type} {pq : PriorityQueue Q}.
(** SerializeToString and ParseFromArray. *)
Context (serialize : Task -> list Z) (parse : list Z -> Task).

(** ** The queue *)
Record Queue := mk_Queue { taskList : Q; taskListIdle : list Task; db : gmap (list Z) (list Z) }.

Definition totalTaskCount (q : Queue) : nat := pq_size (taskList q).
Definition idleTaskCount (q : Queue) : nat := length (taskListIdle q).

(** std::to_string(task.id()) *)
Definition key (t : Task) : list Z := fmt_int (t_id t).

Definition doneTask (t : Task) (q : Queue) : Queue := mk_Queue (taskList q) (taskListIdle q) (delete (key t) (db q)).

Definition getNextTask (q : Queue) : option (Task * Queue) :=
  '(t, l) ← pq_pop (taskList q); Some (t, mk_Queue l (taskListIdle q) (db q)).

Definition getNextIdleTask (q : Queue) : option (Task * Queue) :=
  match taskListIdle q with t :: l => Some (t, mk_Queue (taskList q) l (db q)) | [] => None end.

(** The two halves of [push]. *)
Definition cache_task (t : Task) (q : Queue) : Queue := mk_Queue (taskList q) (taskListIdle q) (<[key t := serialize t]> (db q)).
Definition enqueue (t : Task) (prio : Z) (q : Queue) : Queue :=
  if 50 <? prio then mk_Queue (taskList q) (taskListIdle q ++ [t]) (db q) else mk_Queue (pq_push t (taskList q)) (taskListIdle q) (db q).

Definition push (t : Task) (prio : Z) (cache : bool) (q : Queue) : Queue :=
  enqueue t prio (if cache then cache_task t q else q).

(** The number a priority is pushed with; a realtime task is not pushed. *)
Definition prio_of (p : QueuePriority) : option Z :=
  match p with REALTIME => None | HIGH => Some 1 | NORMAL => Some 2 | LOW => Some 3 | IDLE => Some 100 end.

Definition parseTask (t : Task) (q : Queue) : Queue :=
  match prio_of (priority t) with Some prio => push t prio true q | None => q end.

(** The iterator goes through the keys in the order of their bytes. *)
Fixpoint key_le (a b : list Z) : bool :=
  match a, b with
  | [], _ => true
  | _, [] => false
  | x :: a, y :: b => if x <? y then true else if x =? y then key_le a b else false
  end.
Definition before (a b : list Z * list Z) : Prop := key_le (fst a) (fst b) = true.
#[local] Instance before_dec a b : Decision (before a b) := decide (key_le (fst a) (fst b) = true).
Definition entries (d : gmap (list Z) (list Z)) : list (list Z * list Z) := merge_sort before (map_to_list d).

Definition recover (q : Queue) (kv : list Z * list Z) : Queue :=
  let t := parse (snd kv) in match prio_of (priority t) with Some prio => push t prio false q | None => q end.
Definition queuCache (q : Queue) : Queue := foldl recover q (entries (db q)).

(** The constructor, on the database it finds. *)
Definition Queue_new (d : gmap (list Z) (list Z)) : Queue := queuCache (mk_Queue pq_empty [] d).

(** ** Provisioning *)
(** Every job has the content of one file, libdso_counter.so. *)
Context (str_counter : list Z).

Definition job_of (t : Task) : ProcessJob := mk_ProcessJob (t_name t) (t_id t) (t_quid t) SPAWN str_counter [] 0 0 [].

(** A round of the loop, with the jobs sent. *)
Definition runTask (q : Queue) : option (list ProcessJob * Queue) :=
  if (0 <? totalTaskCount q)%nat then
    '(nextTask, q) ← getNextTask q;
    Some ([job_of nextTask], doneTask nextTask q)
  else if (0 <? idleTaskCount q)%nat then
    '(nextTask, q) ← getNextIdleTask q;
    Some ([], doneTask nextTask q)
  else Some ([], q).

Fixpoint runTasks (rounds : nat) (q : Queue) : option (list ProcessJob * Queue) :=
  match rounds with
  | O => Some ([], q)
  | S n => '(l, q) ← runTask q; '(l', q) ← runTasks n q; Some (l ++ l', q)
  end.

(** ** The two threads *)
(** Where the provisioning thread is: at the loop's condition, with a task to
    send, with one it has sent (or, if idle, does not send), or at its end. *)
Inductive runner_at := Looping | Sending (t : Task) | Sent (t : Task) | Ended.

(** [receiving] is between the two halves of [push]; [accepted], [finished] and
    [jobs] are the tasks received and done and the jobs sent, of all runs, and
    [interrupted] those that were sent when the process died and not yet done. *)
Record system := mk_system {
  queue : Queue; active : bool; runner : runner_at; receiving : option Task;
  accepted : list Task; finished : list Task; jobs : list ProcessJob;
  interrupted : list Task }.

(** [start()] makes the thread and sets [_active] behind it. *)
Definition boot (d : gmap (list Z) (list Z)) (acc fin : list Task) (js : list ProcessJob) (ir : list Task) : system :=
  mk_system (Queue_new d) false Looping None acc fin js ir.

(** [step_activate] is [resume()] too.  A task is received whose id no task has
    that is still to do.  The queue has no lock (queue.h): the steps are those
    of executions in which its operations do not overlap, as two that do have
    no defined behaviour; [queue_races] shows that the program lets them. *)
Inductive step : system -> system -> Prop :=
  | step_activate q r rc acc fin js ir : step (mk_system q false r rc acc fin js ir) (mk_system q true r rc acc fin js ir)
  | step_realtime q a r acc fin js ir request :
      prio_of (priority (parse request)) = None ->
      step (mk_system q a r None acc fin js ir) (mk_system q a r None acc fin js ir)
  | step_cache q a r acc fin js ir request prio :
      let t := parse request in
      prio_of (priority t) = Some prio -> db q !! key t = None ->
      step (mk_system q a r None acc fin js ir) (mk_system (cache_task t q) a r (Some t) (acc ++ [t]) fin js ir)
  | step_enqueue q a r t acc fin js ir prio :
      prio_of (priority t) = Some prio ->
      step (mk_system q a r (Some t) acc fin js ir) (mk_system (enqueue t prio q) a r None acc fin js ir)
  | step_end q rc acc fin js ir : step (mk_system q false Looping rc acc fin js ir) (mk_system q false Ended rc acc fin js ir)
  | step_take q rc acc fin js ir t q' :
      (0 < totalTaskCount q)%nat -> getNextTask q = Some (t, q') ->
      step (mk_system q true Looping rc acc fin js ir) (mk_system q' true (Sending t) rc acc fin js ir)
  | step_take_idle q rc acc fin js ir t q' :
      totalTaskCount q = 0%nat -> (0 < idleTaskCount q)%nat -> getNextIdleTask q = Some (t, q') ->
      step (mk_system q true Looping rc acc fin js ir) (mk_system q' true (Sent t) rc acc fin js ir)
  | step_send q a rc acc fin js ir t :
      step (mk_system q a (Sending t) rc acc fin js ir) (mk_system q a (Sent t) rc acc fin (js ++ [job_of t]) ir)
  | step_done q a rc acc fin js ir t :
      step (mk_system q a (Sent t) rc acc fin js ir) (mk_system (doneTask t q) a Looping rc acc (fin ++ [t]) js ir)
  | step_pause q r rc acc fin js ir : step (mk_system q true r rc acc fin js ir) (mk_system q false r rc acc fin js ir).

(** The process dies, and is started again on its database. *)
Definition sent_of (r : runner_at) : list Task := match r with Sent t => [t] | _ => [] end.
Definition crash (s : system) : system :=
  boot (db (queue s)) (accepted s) (finished s) (jobs s) (interrupted s ++ sent_of (runner s)).

(** Executions from the first start, with an empty database. *)
Inductive reachable : system -> Prop :=
  | reachable_start : reachable (boot ∅ [] [] [] [])
  | reachable_step s s' : reachable s -> step s s' -> reachable s'
  | reachable_crash s : reachable s -> reachable (crash s).

(** ** Nothing is lost *)
Context (Hcodec : forall t, parse (serialize t) = t).

Definition task_of (r : runner_at) : list Task := match r with Sending t | Sent t => [t] | _ => [] end.
Definition queued (q : Queue) : list Task := pq_elements (taskList q) ++ taskListIdle q.

(** The tasks that are still to do. *)
Definition live (s : system) : list Task :=
  queued (queue s) ++ option_list (receiving s) ++ task_of (runner s).

Definition entry (t : Task) : list Z * list Z := (key t, serialize t).

(** The database has exactly the tasks of [l]. *)
Record kept (l : list Task) (d : gmap (list Z) (list Z)) : Prop := {
  kp_db : d = list_to_map (entry <$> l);
  kp_keys : NoDup (key <$> l);
  kp_prio : Forall (fun t => is_Some (prio_of (priority t))) l;
}.

Lemma entry_keys l : (entry <$> l).*1 = key <$> l.
Proof. rewrite <- list_fmap_compose. by apply list_fmap_ext. Qed.

Lemma kept_perm l l' d : l ≡ₚ l' -> kept l d -> kept l' d.
Proof.
  intros Hp [H1 H2 H3]. split; [|by rewrite <- Hp..]. rewrite H1. apply list_to_map_proper; [by rewrite entry_keys|by rewrite Hp].
Qed.

Lemma kept_insert t l d : is_Some (prio_of (priority t)) -> d !! key t = None -> kept l d -> kept (t :: l) (<[key t := serialize t]> d).
Proof.
  intros Hp Hk [H1 H2 H3]. split; [by rewrite H1| |by constructor]. apply NoDup_cons. split; [|done].
  intros Hin. rewrite H1 in Hk. apply not_elem_of_list_to_map_2 in Hk. by rewrite entry_keys in Hk.
Qed.

Lemma kept_delete t l d : kept (t :: l) d -> kept l (delete (key t) d).
Proof.
  intros [H1 H2 H3]. apply NoDup_cons in H2 as [Hk H2]. apply Forall_cons in H3 as [_ H3]. split; [|done..].
  rewrite H1. cbn [fmap list_fmap entry list_to_map foldr curry uncurry fst snd]. apply delete_insert_id.
  apply not_elem_of_list_to_map_1. by rewrite entry_keys.
Qed.

Lemma queued_enqueue t prio q : queued (enqueue t prio q) ≡ₚ t :: queued q.
Proof.
  unfold enqueue, queued. case_match; cbn [taskList taskListIdle].
  - rewrite app_assoc. symmetry. apply Permutation_cons_append.
  - by rewrite pq_push_elements.
Qed.

Lemma enqueue_db t prio q : db (enqueue t prio q) = db q.
Proof. unfold enqueue. by case_match. Qed.

(** What is read back is what is kept. *)
Lemma recover_run l q :
  Forall (fun t => is_Some (prio_of (priority t))) l ->
  queued (foldl recover q (entry <$> l)) ≡ₚ l ++ queued q /\ db (foldl recover q (entry <$> l)) = db q.
Proof.
  intros Hl. revert q. induction Hl as [|t l [prio Hp] Hl IH]; intros q; [done|]. cbn [fmap list_fmap foldl].
  unfold recover at 2 4. cbn [entry snd]. rewrite Hcodec, Hp. unfold push.
  destruct (IH (enqueue t prio q)) as [H1 H2]. rewrite H1, H2, queued_enqueue, enqueue_db. split; [|done].
  symmetry. apply Permutation_middle.
Qed.

Lemma entries_kept l d : kept l d -> exists l', entries d = entry <$> l' /\ l' ≡ₚ l.
Proof.
  intros [H1 H2 H3]. assert (Hp : entries d ≡ₚ entry <$> l).
  { unfold entries. rewrite merge_sort_Permutation, H1. apply map_to_list_to_map. by rewrite entry_keys. }
  apply Permutation_map_inv in Hp as (l' & E & Hp). by exists l'.
Qed.

Lemma Queue_new_run l d : kept l d -> queued (Queue_new d) ≡ₚ l /\ db (Queue_new d) = d.
Proof.
  intros Hk. destruct (entries_kept l d Hk) as (l' & E & Hp). unfold Queue_new, queuCache. cbn [db]. rewrite E.
  destruct (recover_run l' (mk_Queue pq_empty [] d)) as [H1 H2]; [rewrite Hp; apply Hk|].
  split; [|done]. rewrite H1. unfold queued. cbn [taskList taskListIdle]. by rewrite pq_empty_elements, !app_nil_r.
Qed.

Record invariant (s : system) : Prop := {
  iv_kept : kept (live s) (db (queue s));
  iv_accepted : accepted s ≡ₚ finished s ++ live s;
}.

Lemma invariant_boot d acc fin js ir l : kept l d -> acc ≡ₚ fin ++ l -> invariant (boot d acc fin js ir).
Proof.
  intros Hk Ha. destruct (Queue_new_run l d Hk) as [Hq Hd].
  assert (Hl : live (boot d acc fin js ir) ≡ₚ l) by (unfold live, boot; cbn [queue receiving runner task_of option_list]; by rewrite !app_nil_r).
  split; cbn [boot queue accepted finished].
  - rewrite Hd. by eapply kept_perm.
  - by rewrite Hl.
Qed.

(** A step that leaves the tasks to do as they are. *)
Lemma invariant_same s s' :
  invariant s -> live s' ≡ₚ live s -> db (queue s') = db (queue s) -> accepted s' = accepted s -> finished s' = finished s -> invariant s'.
Proof. intros [H1 H2] Hl Hd Ha Hf. split; [rewrite Hd; by eapply kept_perm|by rewrite Ha, Hf, Hl]. Qed.

Lemma step_invariant s s' : invariant s -> step s s' -> invariant s'.
Proof.
  intros Hi Hs. destruct Hs as [| |q a r acc fin js ir request prio t Hp Hk|q a r t acc fin js ir prio Hp| |q rc acc fin js ir t q' Hc Hg
    |q rc acc fin js ir t q' Hc Hc' Hg| |q a rc acc fin js ir t|].
  - by apply (invariant_same _ _ Hi).
  - by apply (invariant_same _ _ Hi).
  - destruct Hi as [H1 H2]. cbn [queue accepted finished] in *.
    assert (Hl : live (mk_system (cache_task t q) a r (Some t) (acc ++ [t]) fin js ir) ≡ₚ t :: live (mk_system q a r None acc fin js ir)).
    { unfold live. cbn [queue receiving runner option_list app]. symmetry. apply Permutation_middle. }
    split; cbn [queue accepted finished].
    + eapply kept_perm; [symmetry; exact Hl|]. by apply kept_insert; [exists prio|..].
    + etransitivity; [symmetry; apply Permutation_cons_append|]. rewrite Hl, <- Permutation_middle. by apply Permutation_skip.
  - apply (invariant_same _ _ Hi); try done; [|apply enqueue_db]. unfold live. cbn [queue receiving runner option_list app].
    rewrite queued_enqueue. apply Permutation_middle.
  - by apply (invariant_same _ _ Hi).
  - unfold getNextTask in Hg. destruct (pq_pop (taskList q)) as [[x l]|] eqn:E; [|done]. injection Hg as <- <-.
    apply pq_pop_some in E as [E _]. apply (invariant_same _ _ Hi); try done.
    unfold live, queued. cbn [queue receiving runner task_of taskList taskListIdle app]. rewrite E, app_nil_r. solve_Permutation.
  - unfold getNextIdleTask in Hg. destruct (taskListIdle q) as [|x l] eqn:E; [done|]. injection Hg as <- <-.
    apply (invariant_same _ _ Hi); try done. unfold live, queued. cbn [queue receiving runner task_of taskList taskListIdle].
    rewrite E, app_nil_r. solve_Permutation.
  - by apply (invariant_same _ _ Hi).
  - destruct Hi as [H1 H2]. cbn [queue accepted finished] in *.
    assert (Hl : live (mk_system q a (Sent t) rc acc fin js ir) ≡ₚ t :: live (mk_system (doneTask t q) a Looping rc acc (fin ++ [t]) js ir)).
    { unfold live. cbn [queue receiving runner task_of]. rewrite app_nil_r, app_assoc. symmetry. apply Permutation_cons_append. }
    split; cbn [queue accepted finished].
    + eapply kept_delete, kept_perm; [exact Hl|exact H1].
    + rewrite <- app_assoc. etransitivity; [exact H2|]. by rewrite Hl.
  - by apply (invariant_same _ _ Hi).
Qed.

Lemma start_kept : kept [] ∅.
Proof. by split; [|constructor|constructor]. Qed.

Lemma reachable_invariant s : reachable s -> invariant s.
Proof.
  induction 1 as [|s s' _ IH Hs|s _ [H1 H2]].
  - by apply (invariant_boot ∅ [] [] [] [] [] start_kept).
  - by eapply step_invariant.
  - by eapply invariant_boot.
Qed.

(** ** What is sent *)
Definition is_idle (t : Task) : Prop := priority t = IDLE.

(** Idle tasks are in their own queue. *)
Definition placed (q : Queue) : Prop :=
  Forall (fun t => ~ is_idle t) (pq_elements (taskList q)) /\ Forall is_idle (taskListIdle q).

Lemma placed_enqueue t prio q : prio_of (priority t) = Some prio -> placed q -> placed (enqueue t prio q).
Proof.
  intros Hp [H1 H2]. unfold enqueue, placed. destruct (Z.ltb_spec 50 prio); cbn [taskList taskListIdle].
  - split; [done|]. apply Forall_app_2; [done|]. constructor; [|done]. unfold is_idle, prio_of in *.
    destruct (priority t); simplify_eq; done || lia.
  - split; [|done]. rewrite pq_push_elements. constructor; [|done]. unfold is_idle, prio_of in *.
    intros E. rewrite E in Hp. injection Hp as <-. lia.
Qed.

Lemma placed_new d : placed (Queue_new d).
Proof.
  unfold Queue_new, queuCache. generalize (entries (db (mk_Queue pq_empty [] d))). intros l.
  assert (H : placed (mk_Queue pq_empty [] d)) by (split; [cbn; by rewrite pq_empty_elements|done]).
  revert H. generalize (mk_Queue pq_empty [] d). induction l as [|kv l IH]; intros q H; [done|]. cbn [foldl]. apply IH.
  unfold recover, push. destruct (prio_of _) eqn:E; [by apply placed_enqueue|done].
Qed.

(** The tasks whose job is sent: those done, one that is about to be, and those
    whose process died in between, which are still to do and are sent again. *)
#[local] Instance is_idle_dec t : Decision (is_idle t) := decide (priority t = IDLE).
Definition sent_tasks (s : system) : list Task :=
  filter (fun t => ~ is_idle t) (finished s ++ sent_of (runner s) ++ interrupted s).

Record served (s : system) : Prop := {
  sv_placed : placed (queue s);
  sv_runner : Forall (fun t => ~ is_idle t) (match runner s with Sending t => [t] | _ => [] end);
  sv_jobs : jobs s ≡ₚ job_of <$> sent_tasks s;
  sv_interrupted : interrupted s ⊆ accepted s;
}.

(** A step that sends nothing and leaves what is sent as it is. *)
Lemma served_same s s' :
  served s -> placed (queue s') -> Forall (fun t => ~ is_idle t) (match runner s' with Sending t => [t] | _ => [] end) ->
  jobs s' = jobs s -> sent_tasks s' ≡ₚ sent_tasks s -> interrupted s' = interrupted s -> accepted s ⊆ accepted s' -> served s'.
Proof.
  intros [_ _ H3 H4] H1 H2 Ej Hs Ei Ha. split; [done|done|by rewrite Ej, H3, Hs|rewrite Ei; by etransitivity].
Qed.

Lemma step_served s s' : served s -> step s s' -> served s'.
Proof.
  intros Hv Hs. pose proof Hv as [H1 H2 H3 H4].
  destruct Hs as [| |q a r acc fin js ir request prio t Hp Hk|q a r t acc fin js ir prio Hp| |q rc acc fin js ir t q' Hc Hg
    |q rc acc fin js ir t q' Hc Hc' Hg|q a rc acc fin js ir t|q a rc acc fin js ir t|];
    cbn [queue runner jobs interrupted accepted] in *; try (by apply (served_same _ _ Hv)).
  - apply (served_same _ _ Hv); try done. cbn [accepted]. set_solver.
  - apply (served_same _ _ Hv); try done. by apply (placed_enqueue _ prio).
  - unfold getNextTask in Hg. destruct (pq_pop (taskList q)) as [[x l]|] eqn:E; [|done]. injection Hg as <- <-.
    apply pq_pop_some in E as [E _]. destruct H1 as [H1 H1']. rewrite E in H1. apply Forall_cons in H1 as [Hx H1].
    apply (served_same _ _ Hv); try done. by constructor.
  - unfold getNextIdleTask in Hg. destruct (taskListIdle q) as [|x l] eqn:E; [done|]. injection Hg as <- <-.
    destruct H1 as [H1 H1']. rewrite E in H1'. apply Forall_cons in H1' as [Hx H1'].
    apply (served_same _ _ Hv); try done. unfold sent_tasks. cbn [finished runner interrupted sent_of app].
    rewrite !filter_app. rewrite filter_cons_False by (intros H; by apply H). done.
  - split; try done. apply Forall_cons in H2 as [H2 _].
    unfold sent_tasks in *. cbn [jobs finished runner interrupted sent_of app] in *. rewrite H3, !filter_app, filter_cons_True, !fmap_app by done.
    cbn [fmap list_fmap]. rewrite <- app_assoc. apply Permutation_app_head. apply Permutation_app_comm.
  - apply (served_same _ _ Hv); try done. unfold sent_tasks. cbn [finished runner interrupted sent_of]. by rewrite <- app_assoc.
Qed.

Lemma served_crash s : invariant s -> served s -> served (crash s).
Proof.
  intros [_ Ha] [_ _ H3 H4]. split; [apply placed_new|constructor| |]; cbn [crash boot jobs accepted interrupted].
  - rewrite H3. apply fmap_Permutation. unfold sent_tasks. cbn [crash boot finished runner interrupted sent_of app].
    apply filter_Permutation, Permutation_app_head, Permutation_app_comm.
  - apply list_subseteq_app_iff_l. split; [done|]. rewrite Ha. unfold live. destruct (runner s); cbn [sent_of task_of]; set_solver.
Qed.

Lemma reachable_served s : reachable s -> served s.
Proof.
  induction 1 as [|s s' Hr IH Hs|s Hr IH].
  - split; [apply placed_new|constructor|done|done].
  - by eapply step_served.
  - apply served_crash; [by apply reachable_invariant|done].
Qed.

(** C10: In every execution of the two threads in which the operations of the
    queue do not overlap, and however often the process dies and is started
    again, each task that was received (with an id no task in hand has) is
    either done, once, or still to do; the database has exactly those, so that
    a restart at any moment queues them all again, and only them.  The jobs
    sent are one for each task that is done and not idle, one for the task
    that is sent and about to be done, and one for each time the process died
    at that point: such a task is still to do, and is sent again.  Idle tasks
    are taken and dropped. *)
Theorem tasks_survive s :
  reachable s ->
  accepted s ≡ₚ finished s ++ live s /\
  kept (live s) (db (queue s)) /\
  queued (queue (crash s)) ≡ₚ live s /\
  jobs s ≡ₚ job_of <$> filter (fun t => ~ is_idle t) (finished s ++ sent_of (runner s) ++ interrupted s) /\
  interrupted s ⊆ accepted s /\
  interrupted (crash s) = interrupted s ++ sent_of (runner s).
Proof.
  intros Hr. destruct (reachable_invariant s Hr) as [H1 H2]. destruct (reachable_served s Hr) as [_ _ H3 H4].
  split_and!; [done..| |done|done|done]. by apply Queue_new_run.
Qed.

(** Without a lock nothing keeps the threads apart: one is about to push a
    task on a queue whose size the other is about to read. *)
Lemma queue_races t prio :
  prio_of (priority t) = Some prio ->
  exists s, reachable s /\ receiving s = Some t /\ active s = true /\ runner s = Looping.
Proof.
  intros Hp. pose proof (Queue_new_run [] ∅ start_kept) as [_ Hdb].
  exists (mk_system (cache_task t (Queue_new ∅)) true Looping (Some t) [t] [] [] []). split_and!; [|done..].
  assert (E : parse (serialize t) = t) by apply Hcodec.
  eapply reachable_step; [eapply reachable_step; [apply reachable_start|apply step_activate]|].
  pose proof (step_cache (Queue_new ∅) true Looping [] [] [] [] (serialize t) prio) as H. cbv zeta in H. rewrite E in H.
  apply H; [done|]. rewrite Hdb. apply lookup_empty.
Qed.

(** ** The start *)
Lemma ended_stays s s' : rtc step s s' -> runner s = Ended -> runner s' = Ended /\ finished s' = finished s /\ jobs s' = jobs s.
Proof.
  induction 1 as [s|s1 s2 s3 Hs _ IH]; intros He; [done|].
  assert (H : runner s2 = Ended /\ finished s2 = finished s1 /\ jobs s2 = jobs s1) by (destruct Hs; cbn in *; done).
  destruct H as (H1 & H2 & H3). destruct (IH H1) as (H4 & H5 & H6). split_and!; congruence.
Qed.

(** [start()] sets [_active] behind the thread it starts: if the thread looks
    first, it ends, and although tasks are received and answered none is ever
    done or sent before the process is started again. *)
Theorem start_may_lose_runner t :
  is_Some (prio_of (priority t)) ->
  exists s, reachable s /\ active s = true /\ accepted s = [t] /\
    forall s', rtc step s s' -> finished s' = [] /\ jobs s' = [].
Proof.
  intros [prio Hp]. pose proof (Queue_new_run [] ∅ start_kept) as [_ Hdb].
  set (q := Queue_new ∅) in *.
  assert (E : parse (serialize t) = t) by apply Hcodec.
  exists (mk_system (enqueue t prio (cache_task t q)) true Ended None [t] [] [] []). split_and!; [|done..|].
  - eapply reachable_step; [eapply reachable_step; [eapply reachable_step; [eapply reachable_step; [apply reachable_start|]|]|]|].
    + apply step_end.
    + apply step_activate.
    + apply (step_cache _ _ _ _ _ _ _ (serialize t) prio); rewrite E; [done|]. fold q. rewrite Hdb. apply lookup_empty.
    + rewrite E. by apply step_enqueue.
  - intros s' Hs. by destruct (ended_stays _ _ Hs eq_refl) as (_ & H1 & H2).
Qed.

(** A round of the loop is a run of the steps. *)
Lemma runTask_steps q l q' rc acc fin js ir :
  runTask q = Some (l, q') ->
  exists fin', rtc step (mk_system q true Looping rc acc fin js ir) (mk_system q' true Looping rc acc fin' (js ++ l) ir).
Proof.
  unfold runTask. destruct (Nat.ltb_spec 0 (totalTaskCount q)) as [Ht|Ht].
  - destruct (getNextTask q) as [[t q1]|] eqn:E; [|done]. cbn [mbind option_bind]. intros [= <- <-]. exists (fin ++ [t]).
    eapply rtc_l; [by eapply step_take|]. eapply rtc_l; [apply step_send|]. eapply rtc_l; [apply step_done|]. constructor.
  - destruct (Nat.ltb_spec 0 (idleTaskCount q)) as [Hi|Hi].
    + destruct (getNextIdleTask q) as [[t q1]|] eqn:E; [|done]. cbn [mbind option_bind]. intros [= <- <-]. exists (fin ++ [t]).
      rewrite app_nil_r. eapply rtc_l; [eapply step_take_idle; [lia|done|exact E]|]. eapply rtc_l; [apply step_done|]. constructor.
    + intros [= <- <-]. exists fin. rewrite app_nil_r. constructor.
Qed.

(** ** The order *)
Definition urgent (t u : Task) : Prop := priority_value (priority t) <= priority_value (priority u).

Lemma runTask_urgent q t l :
  pq_pop (taskList q) = Some (t, l) ->
  runTask q = Some ([job_of t], doneTask t (mk_Queue l (taskListIdle q) (db q))).
Proof.
  intros E. unfold runTask, totalTaskCount, getNextTask. rewrite pq_size_elements.
  apply pq_pop_some in E as E'. destruct E' as [E' _]. rewrite E', E. done.
Qed.

Lemma runTask_idle q :
  pq_elements (taskList q) = [] ->
  runTask q = Some ([], match taskListIdle q with [] => q | t :: l => doneTask t (mk_Queue (taskList q) l (db q)) end).
Proof.
  intros E. unfold runTask, totalTaskCount, idleTaskCount, getNextIdleTask. rewrite pq_size_elements, E. by destruct (taskListIdle q).
Qed.

Lemma kept_nil d : kept [] d -> d = ∅.
Proof. by intros [-> _ _]. Qed.

Lemma runTasks_idle n q :
  pq_elements (taskList q) = [] -> kept (taskListIdle q) (db q) -> (length (taskListIdle q) <= n)%nat ->
  exists q', runTasks n q = Some ([], q') /\ queued q' = [] /\ db q' = ∅.
Proof.
  revert q. induction n as [|n IH]; intros q E Hk Hn; cbn [runTasks].
  - exists q. destruct (taskListIdle q) eqn:Ei; [|cbn in Hn; lia]. unfold queued. rewrite E, Ei. by rewrite (kept_nil _ Hk).
  - rewrite runTask_idle by done. cbn [mbind option_bind]. destruct (taskListIdle q) as [|t l] eqn:Ei.
    + destruct (IH q E) as (q' & E' & H); [by rewrite Ei|rewrite Ei; cbn; lia|]. exists q'. by rewrite E'.
    + destruct (IH (doneTask t (mk_Queue (taskList q) l (db q)))) as (q' & E' & H); [done| |cbn in *; lia|].
      * by apply kept_delete.
      * exists q'. by rewrite E'.
Qed.

(** Left alone with its queue, the provisioning loop comes to an end of the
    work: after as many rounds as there are tasks all are done, the queues and
    the database are empty, and the jobs of the tasks that are not idle went to
    the cluster with the more urgent ones first. *)
Lemma queue_drained n q :
  kept (queued q) (db q) -> (length (queued q) <= n)%nat ->
  exists ts q', runTasks n q = Some (job_of <$> ts, q') /\ queued q' = [] /\ db q' = ∅ /\
    ts ≡ₚ pq_elements (taskList q) /\ StronglySorted urgent ts.
Proof.
  revert q. induction n as [|n IH]; intros q Hk Hn.
  - assert (Eq : queued q = []) by (by destruct (queued q); [|cbn in Hn; lia]). exists [], q. rewrite Eq in Hk.
    apply app_eq_nil in Eq as [E1 E2]. split_and!; [done|by unfold queued; rewrite E1, E2|by apply kept_nil|by rewrite E1|constructor].
  - destruct (pq_pop (taskList q)) as [[t l]|] eqn:E.
    + apply pq_pop_some in E as Hpop. destruct Hpop as [Hp Hall].
      set (q1 := doneTask t (mk_Queue l (taskListIdle q) (db q))).
      assert (Hq : queued q ≡ₚ t :: queued q1) by (unfold queued; cbn [taskList taskListIdle q1 doneTask]; by rewrite Hp).
      destruct (IH q1) as (ts & q' & E' & H1 & H2 & H3 & H4).
      * by eapply kept_delete, kept_perm.
      * apply Permutation_length in Hq. cbn [length] in Hq. lia.
      * exists (t :: ts), q'. cbn [runTasks]. rewrite (runTask_urgent q t l E). fold q1. cbn [mbind option_bind]. rewrite E'.
        split_and!; [done..|by rewrite Hp, H3|]. constructor; [done|]. rewrite H3. rewrite Hp in Hall. apply Forall_cons in Hall as [_ Hall].
        cbn [q1 doneTask taskList]. eapply Forall_impl; [exact Hall|]. intros u Hu. unfold CompareTaskPriority in Hu. unfold urgent.
        by apply Z.ltb_ge.
    + apply pq_pop_none in E. unfold queued in Hk, Hn. rewrite E in Hk, Hn. cbn [app] in Hk, Hn.
      destruct (runTasks_idle (S n) q E Hk Hn) as (q' & E' & H1 & H2). exists [], q'. split_and!; [done..|by rewrite E|constructor].
Qed.
End Pitch.

(** ** A queue that keeps its tasks sorted *)
Fixpoint insert_task (t : Task) (l : list Task) : list Task :=
  match l with
  | [] => [t]
  | u :: l => if CompareTaskPriority u t then t :: u :: l else u :: insert_task t l
  end.

Lemma insert_task_perm t l : insert_task t l ≡ₚ t :: l.
Proof. induction l as [|u l IH]; [done|]. cbn [insert_task]. case_match; [done|]. rewrite IH. apply Permutation_swap. Qed.

Lemma insert_task_sorted t l : StronglySorted urgent l -> StronglySorted urgent (insert_task t l).
Proof.
  induction 1 as [|u l Hs IH Hall]; [by repeat constructor|]. cbn [insert_task]. unfold CompareTaskPriority.
  destruct (Z.ltb_spec (priority_value (priority t)) (priority_value (priority u))) as [H|H].
  - constructor; [by constructor|]. constructor; [unfold urgent; lia|]. eapply Forall_impl; [exact Hall|]. unfold urgent. intros; lia.
  - constructor; [done|]. rewrite insert_task_perm. by constructor.
Qed.

Record sorted_queue := Sorted_queue { tasks : list Task; tasks_sorted : StronglySorted urgent tasks }.

#[export, program] Instance sorted_priority_queue : PriorityQueue sorted_queue := {
  pq_empty := Sorted_queue [] (SSorted_nil _);
  pq_push t q := Sorted_queue (insert_task t (tasks q)) (insert_task_sorted t (tasks q) (tasks_sorted q));
  pq_size q := length (tasks q);
  pq_pop q :=
    match tasks q as l return StronglySorted urgent l -> option (Task * sorted_queue) with
    | [] => fun _ => None
    | t :: l => fun H => Some (t, Sorted_queue l (proj1 (StronglySorted_inv H)))
    end (tasks_sorted q);
  pq_elements := tasks;
}.
Next Obligation. done. Qed.
Next Obligation. intros t q. apply insert_task_perm. Qed.
Next Obligation. done. Qed.
Next Obligation. by intros [[|t l] H]. Qed.
Next Obligation.
  intros [[|t l] H] u q; cbn; [done|]. intros [= <- <-]. split; [done|]. apply StronglySorted_inv in H as [_ H].
  constructor; [apply Z.ltb_irrefl|]. eapply Forall_impl; [exact H|]. intros v Hv. apply Z.ltb_ge. exact Hv.
Qed.

(** A codec: a message as a number. *)
#[export] Instance QueuePriority_countable : Countable QueuePriority.
Proof.
  apply (inj_countable' (fun p => Z.to_nat (priority_value p))
    (fun n => match n with 0%nat => REALTIME | 1%nat => HIGH | 2%nat => NORMAL | 3%nat => LOW | _ => IDLE end)).
  by intros [].
Defined.
#[export] Instance Task_countable : Countable Task.
Proof.
  apply (inj_countable' (fun t => (t_name t, t_id t, t_quid t, priority t, t_content t))
    (fun '(n, i, q, p, c) => mk_Task n i q p c)).
  by intros [].
Defined.

Definition demo_serialize (t : Task) : list Z := [Zpos (encode t)].
Definition demo_parse (l : list Z) : Task :=
  match l with [Zpos p] => default (mk_Task [] 0 [] NORMAL []) (decode p) | _ => mk_Task [] 0 [] NORMAL [] end.
Lemma demo_codec t : demo_parse (demo_serialize t) = t.
Proof. unfold demo_parse, demo_serialize. by rewrite decode_encode. Qed.

(** ** A task *)
Definition demo_task : Task := mk_Task (bs "count") 7 (bs "q") NORMAL [].
Notation demo_queue := (Queue_new (Q := sorted_queue) demo_serialize demo_parse ∅).

Lemma demo_received :
  reachable demo_serialize demo_parse (bs "so")
    (mk_system (enqueue demo_task 2 (cache_task demo_serialize demo_task demo_queue)) true Looping None [demo_task] [] [] []).
Proof.
  eapply reachable_step; [eapply reachable_step; [eapply reachable_step; [apply reachable_start|apply step_activate]|]|].
  - apply (step_cache _ _ _ _ _ _ _ _ _ _ (demo_serialize demo_task) 2); [by rewrite demo_codec|].
    rewrite demo_codec. vm_compute. reflexivity.
  - rewrite demo_codec. by apply step_enqueue.
Qed.

Lemma tasks_survive_witness :
  let s := mk_system (enqueue demo_task 2 (cache_task demo_serialize demo_task demo_queue)) true Looping None [demo_task] [] [] [] in
  accepted s ≡ₚ finished s ++ live s /\ queued (queue (crash demo_serialize demo_parse s)) ≡ₚ live s.
Proof.
  destruct (tasks_survive demo_serialize demo_parse (bs "so") demo_codec _ demo_received) as (H1 & _ & H2 & _).
  split; [exact H1|exact H2].
Defined.

Lemma start_may_lose_runner_witness :
  exists s : system (Q := sorted_queue), reachable demo_serialize demo_parse (bs "so") s /\ active s = true /\ accepted s = [demo_task] /\
    forall s', rtc (step demo_serialize demo_parse (bs "so")) s s' -> finished s' = [] /\ jobs s' = [].
Proof.
  apply (start_may_lose_runner demo_serialize demo_parse (bs "so") demo_codec). by eexists.
Defined.
End Pitch.
