(* ===== verification/Jobs.v ===== *)
(** * chella: the master and the packages of a worker (chella.cpp, indexer.h, nodemanager.cpp)

    The master answers on three sockets: it takes jobs in, numbers them and
    hands them to the workers that ask; a worker keeps the package of a job
    under its digest.  LevelDB is a map, of which the master uses one entry,
    and protobuf's codecs are pairs of functions. *)
From stdpp Require Import sorting.
From S2P Require Import Prelude CLib JobSha1 Sha1 Wal Pitch.

Module Jobs.
Export Pitch.

(** ** The counter (indexer.h) *)
Record Indexer := mk_Indexer { jobcounter : Z; stored : option (list Z) }.

Definition storeCounter (x : Indexer) : Indexer := mk_Indexer (jobcounter x) (Some (le_bytes 4 (jobcounter x))).

(** The number and the next counter; an unsigned goes through an int. *)
Definition jobCounter (x : Indexer) : Z * Indexer := (i32 (jobcounter x), mk_Indexer (u32 (jobcounter x + 1)) (stored x)).

Definition Indexer_new (d : option (list Z)) : Indexer :=
  match d with
  | Some value => mk_Indexer (le_val (take 4 value)) d
  | None => storeCounter (mk_Indexer 0 None)
  end.

(** ** The master *)
Inductive Action := A_IDLE | AWAITING | ACCEPTED | SETUP | RUNNING | TEARDOWN | FAILED.
Record ControlMessage := mk_Control {
  c_id : Z; c_jobid : Z; c_quid : list Z; c_action : Action; c_progress : Z; cluster_jobs : Z }.

Record master := mk_master { jobqueue : list ProcessJob; worker_counter : Z; indexer : Indexer }.

Definition set_id (n : Z) (j : ProcessJob) : ProcessJob :=
  mk_ProcessJob (j_name j) n (j_quid j) (j_state j) (j_content j) (j_data j) (j_partition j) (j_partition_count j) (j_quid_parent j).

(** [!strncmp(a, b, n)], where [a] has [n] characters and [b] ends. *)
Fixpoint same_start (a b : list Z) : bool :=
  match a, b with
  | [], _ => true
  | x :: a, [] => x =? 0
  | x :: a, y :: b => (x =? y) && ((x =? 0) || same_start a b)
  end.

Definition solicits (request : list Z) : bool := (0 <? length request)%nat && same_start request (bs "SOLICIT").

Section Master.
Context (serialize : ProcessJob -> list Z) (parse : list Z -> ProcessJob).
Context (serialize_control : ControlMessage -> list Z) (parse_control : list Z -> ControlMessage).

Definition worker_info (n : Z) : ProcessJob :=
  mk_ProcessJob (bs "worker") (i32 n) (bs "00000000-0000-0000-0000-000000000000") SPAWN [] [] 0 0 [].

(** The handlers: the reply, and the master behind it. *)
Definition handleWorkerRequest (request : list Z) (m : master) : list Z * master :=
  if solicits request then
    (serialize (worker_info (worker_counter m)), mk_master (jobqueue m) (u32 (worker_counter m + 1)) (indexer m))
  else match jobqueue m with
  | [] => ([], m)
  | nextjob :: l => (serialize nextjob, mk_master l (worker_counter m) (indexer m))
  end.

(** [!job.id() % 2] is [(!job.id()) % 2]. *)
Definition handleIncommingJob (request : list Z) (m : master) : list Z * master :=
  let '(n, x) := jobCounter (indexer m) in
  let job := set_id n (parse request) in
  let x := if n =? 0 then storeCounter x else x in
  ([], mk_master (jobqueue m ++ [job]) (worker_counter m) x).

(** [NodeManager::runTask] prints the message and sets the number of jobs. *)
Definition runTask (msg : ControlMessage) (queuesize : nat) : ControlMessage :=
  mk_Control (c_id msg) (c_jobid msg) (c_quid msg) (c_action msg) (c_progress msg) (i32 (Z.of_nat queuesize)).

Definition handleWokerController (request : list Z) (m : master) : list Z * master :=
  (serialize_control (runTask (parse_control request) (length (jobqueue m))), m).

(** A message on one of the sockets. *)
Inductive event := Worker (request : list Z) | Controller (request : list Z) | Job (request : list Z).

Definition handle (e : event) (m : master) : list Z * master :=
  match e with
  | Worker r => handleWorkerRequest r m
  | Controller r => handleWokerController r m
  | Job r => handleIncommingJob r m
  end.

(** What one call of poll finds, in the order it is looked at. *)
Record polled := mk_polled { on_worker : option (list Z); on_controller : option (list Z); on_master : option (list Z) }.
Definition events_of (p : polled) : list event :=
  option_list (Worker <$> on_worker p) ++ option_list (Controller <$> on_controller p) ++ option_list (Job <$> on_master p).

(** The messages answered, with their replies. *)
Fixpoint serve (es : list event) (m : master) : list (event * list Z) * master :=
  match es with
  | [] => ([], m)
  | e :: es => let '(r, m) := handle e m in let '(l, m) := serve es m in ((e, r) :: l, m)
  end.

Definition initMaster (d : option (list Z)) : master := mk_master [] 0 (Indexer_new d).
(** [while (!interrupted)], and the counter at the end. *)
Definition run_master (polls : list polled) (d : option (list Z)) : list (event * list Z) * master :=
  let '(l, m) := serve (polls ≫= events_of) (initMaster d) in
  (l, mk_master (jobqueue m) (worker_counter m) (storeCounter (indexer m))).

(** ** In order, once *)
Definition incoming (es : list event) : list (list Z) := omap (fun e => match e with Job r => Some r | _ => None end) es.

(** The jobs of requests, numbered from [c]. *)
Fixpoint numbered (c : Z) (rs : list (list Z)) : list ProcessJob :=
  match rs with [] => [] | r :: rs => set_id (i32 (u32 c)) (parse r) :: numbered (c + 1) rs end.

(** What a worker that asks for a job is given, if anything. *)
Definition job_given (er : event * list Z) : option (list Z) :=
  match er with
  | (Worker request, r) => if solicits request || bool_decide (r = []) then None else Some r
  | _ => None
  end.

Lemma numbered_app c rs rs' : numbered c (rs ++ rs') = numbered c rs ++ numbered (c + Z.of_nat (length rs)) rs'.
Proof.
  revert c. induction rs as [|r rs IH]; intros c; cbn [numbered app length]; [by rewrite Z.add_0_r|].
  rewrite IH. do 3 f_equal. lia.
Qed.

Context (Hserialize : forall j, serialize j <> []).

Lemma numbered_wrap c c' rs : u32 c = u32 c' -> numbered c rs = numbered c' rs.
Proof.
  revert c c'. induction rs as [|r rs IH]; intros c c' E; cbn [numbered]; [done|]. rewrite E. f_equal. apply IH.
  unfold u32 in *. by rewrite <- Zplus_mod_idemp_l, E, Zplus_mod_idemp_l.
Qed.

Lemma numbered_length c rs : length (numbered c rs) = length rs.
Proof. revert c. induction rs as [|r rs IH]; intros c; cbn [numbered length]; [done|]. by rewrite IH. Qed.

Definition counter (m : master) : Z := jobcounter (indexer m).

(** An event hands out what is queued first, or numbers what it brings. *)
Lemma handle_run e m r m' :
  handle e m = (r, m') -> 0 <= counter m < 2 ^ 32 ->
  0 <= counter m' < 2 ^ 32 /\ counter m' = u32 (counter m + Z.of_nat (length (incoming [e]))) /\
  (serialize <$> jobqueue m) ++ (serialize <$> numbered (counter m) (incoming [e])) =
    option_list (job_given (e, r)) ++ (serialize <$> jobqueue m').
Proof.
  intros E Hc. unfold counter in *. destruct e as [q|q|q]; cbn [handle] in E.
  - unfold handleWorkerRequest in E. cbn [job_given incoming omap list_omap length numbered fmap list_fmap]. rewrite Z.add_0_r, app_nil_r.
    destruct (solicits q); cbn [orb].
    + injection E as <- <-. cbn [jobqueue indexer]. by rewrite u32_small.
    + destruct (jobqueue m) as [|j l] eqn:Ej; injection E as <- <-; cbn [jobqueue indexer].
      * rewrite Ej, bool_decide_true by done. by rewrite u32_small.
      * rewrite bool_decide_false by apply Hserialize. by rewrite u32_small.
  - injection E as <- <-. cbn [job_given incoming omap list_omap length numbered fmap list_fmap].
    rewrite Z.add_0_r, app_nil_r. by rewrite u32_small.
  - unfold handleIncommingJob, jobCounter in E. injection E as <- <-.
    cbn [job_given incoming omap list_omap length numbered jobqueue indexer option_list app]. change (Z.of_nat 1) with 1.
    set (x := if _ : bool then _ else _). assert (Ex : jobcounter x = u32 (jobcounter (indexer m) + 1)) by (subst x; by case_match).
    rewrite Ex. split; [apply u32_range|]. split; [done|]. rewrite fmap_app. by rewrite (u32_small (jobcounter _)).
Qed.

Lemma incoming_cons e es : incoming (e :: es) = incoming [e] ++ incoming es.
Proof. by destruct e. Qed.

Lemma serve_run es m :
  0 <= counter m < 2 ^ 32 ->
  let '(l, m') := serve es m in
  l.*1 = es /\ 0 <= counter m' < 2 ^ 32 /\ counter m' = u32 (counter m + Z.of_nat (length (incoming es))) /\
  (serialize <$> jobqueue m) ++ (serialize <$> numbered (counter m) (incoming es)) =
    omap job_given l ++ (serialize <$> jobqueue m').
Proof.
  revert m. induction es as [|e es IH]; intros m Hc; cbn [serve].
  - cbn. rewrite Z.add_0_r, u32_small, app_nil_r by done. done.
  - destruct (handle e m) as [r m1] eqn:E. destruct (handle_run e m r m1 E Hc) as (Hc1 & Ec & Eq).
    specialize (IH m1 Hc1). destruct (serve es m1) as [l m2]. destruct IH as (H1 & H2 & H3 & H4).
    rewrite incoming_cons, numbered_app, length_app, fmap_app. split; [cbn; by rewrite H1|]. split; [done|]. split.
    + rewrite H3, Ec. unfold u32. rewrite Zplus_mod_idemp_l. f_equal. lia.
    + rewrite app_assoc, Eq, <- app_assoc.
      rewrite (numbered_wrap (counter m + _) (counter m1)) by (rewrite Ec; symmetry; apply u32_small, u32_range). rewrite H4.
      cbn [omap list_omap]. destruct (job_given (e, r)); done.
Qed.

Lemma counter_init c : counter (initMaster (le_bytes 4 <$> c)) = u32 (default 0 c).
Proof. unfold counter, initMaster, Indexer_new. destruct c as [c|]; [|done]. exact (le_val_bytes 4 c). Qed.

Lemma serve_app es es' m :
  serve (es ++ es') m = let '(l, m1) := serve es m in let '(l', m2) := serve es' m1 in (l ++ l', m2).
Proof.
  revert m. induction es as [|e es IH]; intros m; cbn [serve app]; [by destruct (serve es' m)|].
  destruct (handle e m) as [r m1]. rewrite IH. destruct (serve es m1) as [l m2]. by destruct (serve es' m2).
Qed.

(** C26: Whatever the master finds on its sockets, in whatever rounds, from a
    start with or without a counter: the jobs that workers are given, with the
    ones that wait at the end, are the jobs that came in, each once, in the
    order they came, numbered from the counter on; and a worker is sent away
    empty-handed only when all jobs so far are given away. *)
Theorem jobs_in_order polls c :
  let es := polls ≫= events_of in
  let '(l, m) := run_master polls (le_bytes 4 <$> c) in
  l.*1 = es /\ (serialize <$> numbered (default 0 c) (incoming es)) = omap job_given l ++ (serialize <$> jobqueue m) /\
  forall l1 request l2, l = l1 ++ (Worker request, []) :: l2 ->
    omap job_given l1 = serialize <$> numbered (default 0 c) (incoming l1.*1).
Proof.
  intros es. unfold run_master. fold es. pose proof (counter_init c) as Ec. set (m0 := initMaster _) in *.
  assert (Hc : 0 <= counter m0 < 2 ^ 32) by (rewrite Ec; apply u32_range).
  assert (Hn : forall rs, numbered (counter m0) rs = numbered (default 0 c) rs)
    by (intros rs; apply numbered_wrap; rewrite Ec; apply u32_small, u32_range).
  assert (Hq : jobqueue m0 = []) by done. clearbody m0. pose proof (serve_run es m0 Hc) as H.
  destruct (serve es m0) as [l m] eqn:E. destruct H as (H1 & _ & _ & H4). rewrite Hq, Hn in H4. cbn [fmap list_fmap app jobqueue] in *.
  split; [done|]. split; [done|]. intros l1 request l2 ->.
  rewrite fmap_app, fmap_cons in H1. cbn [fst] in H1. rewrite <- H1, serve_app in E. pose proof (serve_run l1.*1 m0 Hc) as H.
  destruct (serve l1.*1 m0) as [l1' m1]. destruct H as (G1 & _ & _ & G4). rewrite Hq, Hn in G4. cbn [fmap list_fmap app] in G4.
  cbn [serve handle] in E. destruct (handleWorkerRequest request m1) as [r m2] eqn:Ew. destruct (serve l2.*1 m2) as [l2' m3].
  injection E as E _. apply app_inj_1 in E as [-> E]; [|by rewrite <- (length_fmap fst), G1, length_fmap]. injection E as -> _.
  rewrite G4. unfold handleWorkerRequest in Ew.
  destruct (solicits request); [injection Ew as Ew _; by destruct (Hserialize _ Ew)|].
  destruct (jobqueue m1); [by rewrite app_nil_r|]. injection Ew as Ew _. by destruct (Hserialize _ Ew).
Qed.

(** The counter is only stored behind job 0: after a crash the numbers start
    at 1 again. *)
Lemma stored_once es m :
  stored (indexer m) = Some (le_bytes 4 (Z.min 1 (counter m))) -> 0 <= counter m -> counter m + Z.of_nat (length (incoming es)) < 2 ^ 32 ->
  let m' := snd (serve es m) in stored (indexer m') = Some (le_bytes 4 (Z.min 1 (counter m'))).
Proof.
  revert m. induction es as [|e es IH]; intros m Hs Hc Hl; cbn [serve]; [done|].
  rewrite incoming_cons, length_app in Hl. destruct (handle e m) as [r m1] eqn:E.
  destruct (handle_run e m r m1 E ltac:(lia)) as (Hc1 & Ec & _). rewrite u32_small in Ec by lia.
  specialize (IH m1). destruct (serve es m1) as [l m2]. cbn [snd] in *. apply IH; [|lia|lia].
  unfold counter in *. destruct e as [q|q|q]; cbn [handle] in E.
  - unfold handleWorkerRequest in E. destruct (solicits q); [by injection E as <- <-|]. by destruct (jobqueue m); injection E as <- <-.
  - by injection E as <- <-.
  - unfold handleIncommingJob, jobCounter in E. injection E as <- <-. cbn [indexer] in *.
    cbn [incoming omap list_omap length] in Hl.
    destruct (Z.eqb_spec (i32 (jobcounter (indexer m))) 0) as [H0|H0].
    + assert (jobcounter (indexer m) = 0) as H. { revert H0. unfold i32. Z.div_mod_to_equations. lia. }
      cbn [storeCounter stored jobcounter] in *. rewrite H. done.
    + cbn [stored jobcounter] in *. rewrite Hs, Ec.
      assert (jobcounter (indexer m) <> 0) by (intros H; rewrite H in H0; done). by rewrite !Z.min_l by lia.
Qed.

Lemma ids_start_again es :
  (0 < length (incoming es))%nat -> Z.of_nat (length (incoming es)) < 2 ^ 32 ->
  counter (initMaster (stored (indexer (snd (serve es (initMaster None)))))) = 1.
Proof.
  intros H1 H2. pose proof (stored_once es (initMaster None) eq_refl) as H. cbv zeta in H.
  pose proof (serve_run es (initMaster None) ltac:(cbn; lia)) as Hr. destruct (serve es (initMaster None)) as [l m].
  destruct Hr as (_ & _ & Hc & _). change (counter (initMaster None)) with 0 in *. cbn [snd] in *. rewrite H by lia.
  rewrite Hc, u32_small by lia. rewrite Z.min_l by lia. reflexivity.
Qed.

(** ** From the tasks to the workers *)
Context (Hparse : forall j, parse (serialize j) = j).

Fixpoint numbered_jobs (c : Z) (js : list ProcessJob) : list ProcessJob :=
  match js with [] => [] | j :: js => set_id (i32 (u32 c)) j :: numbered_jobs (c + 1) js end.

Lemma numbered_serialized c js : numbered c (serialize <$> js) = numbered_jobs c js.
Proof. revert c. induction js as [|j js IH]; intros c; [done|]. cbn [fmap list_fmap numbered numbered_jobs]. by rewrite Hparse, IH. Qed.

Lemma incoming_jobs rs k : incoming ((Job <$> rs) ++ replicate k (Worker [])) = rs.
Proof.
  induction rs as [|r rs IH]; cbn [fmap list_fmap app]; [|by rewrite incoming_cons, IH].
  induction k as [|k IH]; cbn [replicate]; [done|by rewrite incoming_cons, IH].
Qed.

Lemma serve_jobs rs m : length (jobqueue (snd (serve (Job <$> rs) m))) = (length (jobqueue m) + length rs)%nat.
Proof.
  revert m. induction rs as [|r rs IH]; intros m; cbn [fmap list_fmap serve length]; [cbn; lia|].
  destruct (handle (Job r) m) as [x m1] eqn:E. specialize (IH m1). destruct (serve (Job <$> rs) m1) as [l m2]. cbn [snd] in *.
  rewrite IH. cbn [handle handleIncommingJob jobCounter] in E. injection E as <- <-. cbn [jobqueue]. rewrite length_app. cbn. lia.
Qed.

Lemma serve_asks k m : length (jobqueue (snd (serve (replicate k (Worker [])) m))) = (length (jobqueue m) - k)%nat.
Proof.
  revert m. induction k as [|k IH]; intros m; cbn [replicate serve]; [cbn; lia|].
  destruct (handle (Worker []) m) as [x m1] eqn:E. specialize (IH m1). destruct (serve _ m1) as [l m2]. cbn [snd] in *.
  rewrite IH. cbn [handle handleWorkerRequest solicits length Nat.ltb Nat.leb andb] in E.
  unfold handleWorkerRequest in E. cbn [solicits length Nat.ltb Nat.leb andb] in E.
  destruct (jobqueue m) as [|j q] eqn:Eq; injection E as <- <-; cbn [jobqueue length]; rewrite ?Eq; cbn; lia.
Qed.

(** Jobs that come to a master without jobs, and as many workers that ask. *)
Lemma jobs_given js m :
  0 <= counter m < 2 ^ 32 -> jobqueue m = [] ->
  let '(l, m') := serve ((Job <$> (serialize <$> js)) ++ replicate (length js) (Worker [])) m in
  omap job_given l = serialize <$> numbered_jobs (counter m) js /\ jobqueue m' = [].
Proof.
  intros Hc Hq. set (rs := serialize <$> js).
  pose proof (serve_run ((Job <$> rs) ++ replicate (length js) (Worker [])) m Hc) as H.
  assert (Hend : jobqueue (snd (serve ((Job <$> rs) ++ replicate (length js) (Worker [])) m)) = []).
  { apply length_zero_iff_nil. rewrite serve_app. pose proof (serve_jobs rs m) as Hj. destruct (serve (Job <$> rs) m) as [l1 m1].
    cbn [snd] in Hj. pose proof (serve_asks (length js) m1) as Ha. destruct (serve _ m1) as [l2 m2]. cbn [snd] in *.
    rewrite Ha, Hj, Hq. subst rs. rewrite length_fmap. cbn. lia. }
  destruct (serve _ m) as [l m']. destruct H as (_ & _ & _ & H). cbn [snd] in Hend. rewrite Hq, Hend, incoming_jobs in H.
  subst rs. rewrite numbered_serialized in H. cbn [fmap list_fmap app] in H. rewrite app_nil_r in H. split; [by rewrite <- H|done].
Qed.

Lemma numbered_jobs_length c js : length (numbered_jobs c js) = length js.
Proof. revert c. induction js as [|j js IH]; intros c; cbn [numbered_jobs length]; [done|]. by rewrite IH. Qed.

Lemma numbered_jobs_lookup c js i : numbered_jobs c js !! i = (fun j => set_id (i32 (u32 (c + Z.of_nat i))) j) <$> js !! i.
Proof.
  revert c i. induction js as [|j js IH]; intros c [|i]; cbn [numbered_jobs lookup list_lookup]; try done.
  - by rewrite Z.add_0_r.
  - fold (numbered_jobs (c + 1) js !! i). rewrite IH. destruct (js !! i); [|done]. cbn. do 4 f_equal. lia.
Qed.

(** C11: The way of a task from the scheduler to a worker: with as many rounds as
    it has tasks, the provisioning loop empties its queue and its database;
    the jobs it sends to a master without jobs are then given to the workers
    that ask, each to one, the more urgent tasks first, numbered by the master
    - the tasks that are not idle, and no others. *)
Theorem urgent_jobs_first {Q} {pq : PriorityQueue Q} serialize_task str_counter (q : Queue (Q := Q)) n m :
  kept serialize_task (queued q) (db q) -> (length (queued q) <= n)%nat -> 0 <= counter m < 2 ^ 32 -> jobqueue m = [] ->
  exists ts q', runTasks str_counter n q = Some (job_of str_counter <$> ts, q') /\ queued q' = [] /\ db q' = ∅ /\
    ts ≡ₚ pq_elements (taskList q) /\ StronglySorted urgent ts /\
    let '(l, m') := serve ((Job <$> (serialize <$> (job_of str_counter <$> ts))) ++ replicate (length ts) (Worker [])) m in
    omap job_given l = serialize <$> numbered_jobs (counter m) (job_of str_counter <$> ts) /\ jobqueue m' = [].
Proof.
  intros Hk Hn Hc Hq. destruct (queue_drained serialize_task str_counter n q Hk Hn) as (ts & q' & E & H1 & H2 & H3 & H4).
  exists ts, q'. split_and!; [done..|]. rewrite <- (length_fmap (job_of str_counter) ts). by apply jobs_given.
Qed.

End Master.

(** ** A worker's packages *)
Section Packages.
Context (parse : list Z -> ProcessJob).

(** The files of the package directory. *)
Definition packages := gmap (list Z) (list Z).

Definition state_value (s : State) : Z := match s with SPAWN => 0 | PARTITION => 1 | FUNNEL => 2 end.

(** What [Execute::run] is called with. *)
Definition prepareJob (message : list Z) (files : packages) : option (list Z * Wal.parameter * packages) :=
  let job := parse message in
  exeName ← JobSha1.sha1 (j_content job);
  let files := match files !! exeName with None => <[exeName := j_content job]> files | Some _ => files end in
  let parameters := Wal.mk_param (u32 (j_id job)) (u32 (j_partition job)) (u32 (j_partition_count job)) (j_name job) (j_quid job)
    (j_quid_parent job) (j_data job) (state_value (j_state job)) in
  Some (exeName, parameters, files).

Definition digest_name (content : list Z) : list Z := Sha1.sha1_spec content ≫= fmt_prec 16 2.

(** Each file has the name of its digest. *)
Definition named (files : packages) : Prop := map_Forall (fun n c => n = digest_name c) files.

(** A job runs with a package whose SHA-1 is that of the content it came
    with, under the name of that digest: kept from an earlier job, or written
    now; the directory stays one of digests, the files that were there stay,
    and nothing else is written. *)
Theorem package_kept message files :
  let content := j_content (parse message) in
  Forall byte_ok content -> Z.of_nat (length content) < 2 ^ 61 -> named files ->
  exists parameters files', prepareJob message files = Some (digest_name content, parameters, files') /\ named files' /\
    Wal.jobid parameters = u32 (j_id (parse message)) /\ Wal.jobdata parameters = j_data (parse message) /\
    (exists package, files' !! digest_name content = Some package /\ digest_name package = digest_name content) /\
    files ⊆ files' /\ dom files' = dom files ∪ {[digest_name content]}.
Proof.
  intros content Hb Hl Hn. subst content. set (job := parse message) in *. unfold prepareJob. fold job. cbv zeta.
  rewrite (JobSha1.sha1_run _ Hb Hl). cbn [mbind option_bind]. fold (digest_name (j_content job)).
  set (name := digest_name (j_content job)). eexists _, _. split; [reflexivity|]. cbn [Wal.jobid Wal.jobdata].
  destruct (files !! name) as [c|] eqn:E.
  - split_and!; [done..| |done|apply elem_of_dom_2 in E; set_solver]. exists c. split; [done|]. symmetry. exact (Hn _ _ E).
  - split_and!; [by apply map_Forall_insert_2|done|done| |by apply insert_subseteq|rewrite (dom_insert_L files); set_solver].
    exists (j_content job). split; [apply lookup_insert_eq|done].
Qed.
End Packages.

(** ** Three tasks *)
#[export] Instance State_eq_dec : EqDecision State.
Proof. solve_decision. Defined.
#[export] Instance State_countable : Countable State.
Proof.
  apply (inj_countable' (fun s => Z.to_nat (state_value s)) (fun n => match n with 0%nat => SPAWN | 1%nat => PARTITION | _ => FUNNEL end)).
  by intros [].
Defined.
#[export] Instance ProcessJob_eq_dec : EqDecision ProcessJob.
Proof. solve_decision. Defined.
#[export] Instance ProcessJob_countable : Countable ProcessJob.
Proof.
  apply (inj_countable' (fun j => (j_name j, j_id j, j_quid j, j_state j, j_content j, j_data j, j_partition j, j_partition_count j, j_quid_parent j))
    (fun '(n, i, q, s, c, d, p, k, r) => mk_ProcessJob n i q s c d p k r)).
  by intros [].
Defined.

Definition no_job : ProcessJob := mk_ProcessJob [] 0 [] SPAWN [] [] 0 0 [].
Definition job_bytes (j : ProcessJob) : list Z := [Zpos (encode j)].
Definition bytes_job (l : list Z) : ProcessJob := match l with [Zpos p] => default no_job (decode p) | _ => no_job end.
Lemma job_codec j : bytes_job (job_bytes j) = j.
Proof. unfold bytes_job, job_bytes. by rewrite decode_encode. Qed.

Definition no_control (_ : ControlMessage) : list Z := [].
Definition any_control (_ : list Z) : ControlMessage := mk_Control 0 0 [] A_IDLE 0 0.

Definition task (name : string) (id : Z) (p : QueuePriority) : Task := mk_Task (bs name) id [] p [].
Definition three_tasks : list Task := [task "low" 1 LOW; task "idle" 2 IDLE; task "high" 3 HIGH].
Definition three_queued : Queue (Q := sorted_queue) :=
  foldl (fun q t => parseTask demo_serialize t q) (mk_Queue pq_empty [] ∅) three_tasks.
Definition new_master : master := initMaster None.

Lemma urgent_jobs_first_witness :
  exists ts q', runTasks (bs "so") 3 three_queued = Some (job_of (bs "so") <$> ts, q') /\
    ts ≡ₚ [task "high" 3 HIGH; task "low" 1 LOW] /\ StronglySorted urgent ts /\
    let '(l, m') := serve job_bytes bytes_job no_control any_control
      ((Job <$> (job_bytes <$> (job_of (bs "so") <$> ts))) ++ replicate (length ts) (Worker [])) new_master in
    omap job_given l = job_bytes <$> numbered_jobs 0 (job_of (bs "so") <$> ts) /\ jobqueue m' = [].
Proof.
  destruct (urgent_jobs_first job_bytes bytes_job no_control any_control (fun j H => ltac:(discriminate H)) job_codec demo_serialize (bs "so")
    three_queued 3 new_master) as (ts & q' & E & _ & _ & Hp & Hs & H).
  - split; [|apply (bool_decide_unpack _); vm_compute; exact I|repeat constructor; by eexists].
    apply (bool_decide_unpack _). vm_compute. exact I.
  - vm_compute. lia.
  - vm_compute. split; congruence.
  - reflexivity.
  - exists ts, q'. split; [exact E|]. split; [exact Hp|]. split; [exact Hs|exact H].
Defined.

Lemma jobs_in_order_witness :
  let '(l, m) := run_master job_bytes bytes_job no_control any_control
    [mk_polled (Some []) None (Some (job_bytes no_job)); mk_polled (Some (bs "SOLICIT")) None None; mk_polled (Some []) None None] None in
  (job_bytes <$> numbered bytes_job 0 [job_bytes no_job]) = omap job_given l ++ (job_bytes <$> jobqueue m).
Proof.
  pose proof (jobs_in_order job_bytes bytes_job no_control any_control (fun j H => ltac:(discriminate H))
    [mk_polled (Some []) None (Some (job_bytes no_job)); mk_polled (Some (bs "SOLICIT")) None None; mk_polled (Some []) None None] None) as H.
  cbv zeta in H. change (le_bytes 4 <$> None) with (@None (list Z)) in H. destruct (run_master _ _ _ _ _ None) as [l m]. exact (proj1 (proj2 H)).
Defined.

Lemma package_kept_witness :
  exists parameters files', prepareJob bytes_job (job_bytes no_job) ∅ = Some (digest_name [], parameters, files') /\ named files'.
Proof.
  destruct (package_kept bytes_job (job_bytes no_job) ∅) as (ps & files' & E & Hn & _).
  - rewrite job_codec. constructor.
  - rewrite job_codec. vm_compute. reflexivity.
  - apply map_Forall_empty.
  - exists ps, files'. rewrite job_codec in E. split; [exact E|exact Hn].
Defined.
End Jobs.
