(* ===== verification/Runner.v ===== *)
(** * chella: the job runner (exec.cpp, localenv.cpp, ace/chain.h, controlclient.cpp)

    A worker runs the package of a job: it logs the job, unpacks the package
    into a home that jobs of the same package share, locks the home, and calls
    the package's Python code step by step.  A run is a program over the
    worker's state, whose steps may be the last ones before the worker dies;
    what Python answers, the clock and JSON's parser are given.  A run may stay
    for ever where it waits for the lock, or for the control channel's thread. *)
From S2P Require Import Prelude CLib Config Wal JobSha1 Jobs.

Module Runner.
Export Jobs.

(** ** Subjobs (ace/chain.h) *)
Record Subjob := mk_Subjob { s_name : list Z; s_data : list Z }.
Record Chain := mk_Chain { parentQuid : list Z; parentName : list Z; subjobList : list Subjob }.

Definition Chain_new (quid : list Z) : Chain := mk_Chain quid [] [].
Definition setParentName (name : list Z) (c : Chain) : Chain := mk_Chain (parentQuid c) name (subjobList c).
Definition add (c : Chain) (job : Subjob) : Chain := mk_Chain (parentQuid c) (parentName c) (subjobList c ++ [job]).

(** What Python's objects hold; a text as what it is encoded to, if it is. *)
Inductive py_data := Bytes (l : list Z) | ByteArray (l : list Z) | Unicode (ascii : option (list Z)) | Other.
Record py_subjob := mk_py_subjob { i_name : option (option (list Z)); i_data : option py_data }.
Inductive py_chain := NoSubjobs | NotList | Subjobs (l : list py_subjob).
(** The list [chains] of a job, and what is in it behind [teardown_once]. *)
Inductive py_chains := NoChains | ChainsOther | Chains (l later : list py_chain).

(** A subjob, unless it is passed over. *)
Definition subjob_of (x : py_subjob) : option Subjob :=
  match i_name x with
  | Some (Some n) =>
      match i_data x with
      | None | Some Other => Some (mk_Subjob (until_nul n) [])
      | Some (Bytes l) => Some (mk_Subjob (until_nul n) l)
      | Some (ByteArray l) | Some (Unicode (Some l)) => Some (mk_Subjob (until_nul n) (until_nul l))
      | Some (Unicode None) => None
      end
  | _ => None
  end.

(** [None]: an attribute that is missing is used. *)
Fixpoint pull (l : list py_chain) (c : Chain) : option Chain :=
  match l with
  | [] => Some c
  | NoSubjobs :: _ => None
  | NotList :: l => pull l c
  | Subjobs xs :: l => pull l (foldl add c (omap subjob_of xs))
  end.

(** ** The worker's side of the control channel (controlclient.h) *)
Record control := mk_control { _state : Action; _progress : Z; _timeout : Z; _cluster_jobs : Z }.
Definition DEFAULT_HEARTBEAT : Z := 5.
Definition ControlClient_new : control := mk_control A_IDLE 0 (DEFAULT_HEARTBEAT * 1000) 0.
Definition set_state (a : Action) (c : control) : control := mk_control a (_progress c) (_timeout c) (_cluster_jobs c).
Definition set_timeout (ms : Z) (c : control) : control := mk_control (_state c) (_progress c) ms (_cluster_jobs c).
Definition setStateIdle (c : control) : control := set_timeout (DEFAULT_HEARTBEAT * 1000) (set_state A_IDLE c).
Definition setStateAccepted (c : control) : control := set_timeout (DEFAULT_HEARTBEAT * 100) (set_state ACCEPTED c).
Definition setStateFailed (c : control) : control := set_timeout (DEFAULT_HEARTBEAT * 1000) (set_state FAILED c).
Definition updateStateRunning (progress : Z) (c : control) : control := mk_control (_state c) progress (_timeout c) (_cluster_jobs c).

(** A round of its thread: the message, which still has what the last answer
    said, and what is taken from the answer. *)
Definition beat (workerid jobid : Z) (quid : list Z) (c : control) (msg : ControlMessage) : ControlMessage :=
  mk_Control (i32 workerid) jobid quid (_state c) (i32 (_progress c)) (cluster_jobs msg).
Definition heard (msg : ControlMessage) (c : control) : control := mk_control (_state c) (_progress c) (_timeout c) (u32 (cluster_jobs msg)).

(** ** The state of a run

    The files of the job's home, of the package directory and of the job's log,
    the environment, the commands given to the shell and the calls of Python. *)
Inductive call :=
  | DecodeLocale | Import | NewConfig | NewCallback | NewDB | FindClass | NewInit | FindInvoke | NewJob | SetCfg | SetIpc | SetDb
  | Inject | UpdateStatus | SetupOnce | Setup | Run | Teardown | TeardownOnce.

Notation files := (gmap (list Z) (list Z)).

Record world := mk_world {
  package_files : packages; home : files; environment : files; commands : list (list Z);
  logfile : option (list Z); executionLog : option Wal.wal; jobcontrol : control; chain : option Chain; calls : list call }.

Definition with_home (f : files -> files) (w : world) : world :=
  mk_world (package_files w) (f (home w)) (environment w) (commands w) (logfile w) (executionLog w) (jobcontrol w) (chain w) (calls w).
Definition with_control (f : control -> control) (w : world) : world :=
  mk_world (package_files w) (home w) (environment w) (commands w) (logfile w) (executionLog w) (f (jobcontrol w)) (chain w) (calls w).
Definition with_log (f : Wal.wal -> Wal.wal) (w : world) : world :=
  mk_world (package_files w) (home w) (environment w) (commands w) (logfile w) (f <$> executionLog w) (jobcontrol w) (chain w) (calls w).
Definition with_env (f : files -> files) (w : world) : world :=
  mk_world (package_files w) (home w) (f (environment w)) (commands w) (logfile w) (executionLog w) (jobcontrol w) (chain w) (calls w).
Definition to_shell (l : list (list Z)) (w : world) : world :=
  mk_world (package_files w) (home w) (environment w) (commands w ++ l) (logfile w) (executionLog w) (jobcontrol w) (chain w) (calls w).
Definition with_chain (c : option Chain) (w : world) : world :=
  mk_world (package_files w) (home w) (environment w) (commands w) (logfile w) (executionLog w) (jobcontrol w) c (calls w).
Definition called (c : call) (w : world) : world :=
  mk_world (package_files w) (home w) (environment w) (commands w) (logfile w) (executionLog w) (jobcontrol w) (chain w) (calls w ++ [c]).

(** The log: made, which empties the file, or refused; closed. *)
Definition new_log (name : list Z) (param : Wal.parameter) (t : Z) (w : world) : world :=
  mk_world (package_files w) (home w) (environment w) (commands w) (Some []) (Wal.Wal_new name param t) (jobcontrol w) (chain w) (calls w).
Definition close_log (w : world) : world :=
  mk_world (package_files w) (home w) (environment w) (commands w)
    (match executionLog w with Some l => Some (Wal.Wal_delete l) | None => logfile w end) None (jobcontrol w) (chain w) (calls w).

(** What of the log is in its file. *)
Definition on_file (w : world) : option (list Z) :=
  match executionLog w with Some l => Some (Wal.on_disk l) | None => logfile w end.

(** ** Programs *)
Inductive prog :=
  | Done (r : bool)
  | Aborted
  | Do (f : Z -> world -> world) (k : prog)
  | Ask (k : bool -> prog)
  | Look (k : world -> prog)
  | Wait (k : prog)
  | Join (k : prog).

Definition MXLOCK : list Z := bs "MXLOCK".
Definition isLocked (w : world) : bool := bool_decide (is_Some (home w !! MXLOCK)).

(** [Do] takes the time; [Ask] may answer either way; [Wait] is the loop that
    waits for the lock of the home to go away; [Join] waits for the end of the
    control channel's thread, which may never come when the master is gone, so
    that a program may stay there. *)
Inductive run_step : prog * world -> prog * world -> Prop :=
  | run_do f k w t : run_step (Do f k, w) (k, f t w)
  | run_ask k w b : run_step (Ask k, w) (k b, w)
  | run_look k w : run_step (Look k, w) (k w, w)
  | run_busy k w : isLocked w = true -> run_step (Wait k, w) (Wait k, with_control (set_state AWAITING) w)
  | run_free k w : isLocked w = false -> run_step (Wait k, w) (k, w)
  | run_join k w : run_step (Join k, w) (k, w).

(** A date of the C library. *)
Record tm := mk_tm { tm_year : Z; tm_mon : Z; tm_mday : Z; tm_hour : Z; tm_min : Z; tm_sec : Z }.

Section Runner.
(** The worker, whether its homes can be written to, and what is in a package. *)
Context (workerid : Z) (writable : bool) (unpack : list Z -> files).
(** JSON: a parser that may throw, and the members of [meta] that are strings. *)
Context {json : Type} (parse_json : list Z -> option json) (is_object : json -> bool) (get_meta : json -> list Z -> option (list Z)).
(** The date of a time, and the text of a run time. *)
Context (localtime : Z -> tm) (runtime : list Z).

(** ** The home of a job (localenv.cpp) *)
Section LocalEnv.
Context (m_homedir : list Z) (m_jobid : Z).

Definition hasHome (w : world) : bool := bool_decide (is_Some (home w !! bs ".jobhome")).
Definition put (name text : list Z) (h : files) : files := if writable then <[name := text]> h else h.

Definition setLock (w : world) : world := with_home (put MXLOCK (fmt_int m_jobid)) w.

(** setenv(key.c_str(), value.c_str(), 1), which refuses some names. *)
Definition setenv (key value : list Z) (e : files) : files :=
  let key := until_nul key in
  if bool_decide (key = []) || bool_decide (61 ∈ key) then e else <[key := until_nul value]> e.

(** A line of .env; without a separator all of it is both. *)
Definition env_line (e : files) (line : list Z) : files :=
  match Config.find_ 61 line with
  | Some pos => setenv (take pos line) (drop (S pos) line) e
  | None => setenv line line e
  end.

(** The lines that are given to the shell. *)
Definition command_lines (text : list Z) : list (list Z) :=
  until_nul <$> filter (fun line => hd 0 line <> 35) (Config.getlines [] text).

Definition setupEnv (w : world) : world :=
  let w := with_env (fun e => setenv (bs "WORKERID") (fmt_int workerid) (setenv (bs "JOBID") (fmt_int m_jobid)
    (setenv (bs "JOBHOME") m_homedir e))) w in
  match home w !! bs ".env" with
  | None => w
  | Some text => to_shell (command_lines (default [] (home w !! bs ".inittab"))) (with_env (fun e => foldl env_line e (Config.getlines [] text)) w)
  end.

(** [packageMain] and [packageInvoke]; [None]: an exception. *)
Definition package_member (key : list Z) (w : world) : option (list Z) :=
  match home w !! bs "package.json" with
  | None => Some []
  | Some text => object ← parse_json text; if is_object object then get_meta object key else Some []
  end.

Definition date_text (now : tm) : list Z :=
  fmt_int (tm_year now + 1900) ++ bs "-" ++ fmt_int (tm_mon now + 1) ++ bs "-" ++ fmt_int (tm_mday now) ++ bs " " ++
  fmt_int (tm_hour now) ++ bs ":" ++ fmt_int (tm_min now) ++ bs ":" ++ fmt_int (tm_sec now) ++ [10].

Definition teardown (t : Z) (w : world) : world :=
  let now := date_text (localtime t) in
  let id := fmt_int m_jobid in
  let h := put (bs "lastrun") now (home w) in
  let h := put (bs "lastjobid") (id ++ [10]) h in
  let h := put (bs "lastruntime") (runtime ++ [10]) h in
  let h := put (bs "run/" ++ id ++ bs "_runat") now h in
  let h := put (bs "run/" ++ id ++ bs "_runtime") (runtime ++ [10]) h in
  with_home (fun _ => if writable then delete MXLOCK h else h) (to_shell (command_lines (default [] (home w !! bs ".initwrap"))) w).
End LocalEnv.

(** ** A run (exec.cpp) *)
Section Run.
Context (name : list Z) (param : Wal.parameter) (chains : py_chains).

Definition LOCALDIR : list Z := bs "var/local".
Definition jobid_int : Z := i32 (Wal.jobid param).

Definition checkpoint (c : Z) : prog -> prog := Do (fun t => with_log (Wal.setCheckpoint c t)).
Definition control_ (f : control -> control) : prog -> prog := Do (fun _ => with_control f).

(** A call into Python that ends the process if it fails: the thread of the
    control channel is still there when the function returns. *)
Definition checked (c : call) (k : prog) : prog := Do (fun _ => called c) (Ask (fun ok => if ok then k else Aborted)).

(** py_failed: *)
Definition py_failed : prog :=
  Do (fun t => with_log (Wal.markDone t)) (Do (fun t => teardown jobid_int t) (control_ setStateIdle
    (Join (Do (fun _ => close_log) (Done true))))).

Definition failed : prog := control_ setStateFailed py_failed.
Definition tried (c : call) (k : prog) : prog := Do (fun _ => called c) (Ask (fun ok => if ok then k else failed)).

Definition pull_chain (k : prog) : prog :=
  match chains with
  | NoChains | ChainsOther => failed
  | Chains l later =>
      let once := (Wal.jobstate param =? Wal.FUNNEL) || ((Wal.jobstate param =? Wal.SPAWN) && (length l =? 0)%nat) in
      let l := if once then later else l in
      let rest :=
        if (0 <? length l)%nat then
          match pull l (setParentName (Wal.jobname param) (Chain_new (Wal.jobquid param))) with
          | Some c => Do (fun _ => with_chain (Some c)) (checkpoint Wal.PULLCHAIN k)
          | None => Aborted
          end
        else checkpoint Wal.PULLCHAIN k in
      if once then tried TeardownOnce (checkpoint Wal.TEARDOWN_ONCE rest) else rest
  end.

Definition invoke : prog :=
  tried Inject (tried UpdateStatus (checkpoint Wal.INJECT
    (let setup :=
       control_ (set_state SETUP) (tried Setup (checkpoint Wal.SETUP
         (control_ (set_state RUNNING) (tried Run (checkpoint Wal.RUN
           (control_ (set_state TEARDOWN) (tried Teardown (checkpoint Wal.TEARDOWN (pull_chain py_failed)))))))))
     in if Wal.jobstate param =? Wal.SPAWN then tried SetupOnce (checkpoint Wal.SETUP_ONCE setup) else setup))).

Definition load : prog :=
  checkpoint Wal.INIT (checked DecodeLocale (Do (fun _ => with_env (setenv (bs "PYTHONPATH") (bs "."))) (checked Import (checkpoint Wal.LOAD
    (foldr checked invoke [NewConfig; NewCallback; NewDB; FindClass; NewInit; FindInvoke; NewJob; SetCfg; SetIpc; SetDb]))))).

Definition enter : prog :=
  Do (fun _ => setLock jobid_int) (Do (fun _ => setupEnv (LOCALDIR ++ bs "/" ++ name) jobid_int)
    (Look (fun w =>
       match package_member (bs "main") w, package_member (bs "invoke") w with
       | Some main, Some invoke => if bool_decide (main = []) || bool_decide (invoke = []) then Aborted else load
       | _, _ => Aborted
       end))).

(** [Package::extract]; [setupHome] *)
Definition extract (w : world) : world := with_home (fun h => default ∅ (unpack <$> package_files w !! name) ∪ h) w.
Definition setupHome (k : prog) : prog := if writable then Do (fun _ => with_home (put (bs ".jobhome") [])) k else Aborted.

Definition run_job : prog :=
  Do (new_log name param) (Look (fun w =>
    match executionLog w with
    | None => Aborted
    | Some _ =>
        control_ (fun _ => setStateAccepted ControlClient_new) (control_ (updateStateRunning 0) (Look (fun w =>
          match package_files w !! name with
          | None => control_ setStateIdle Aborted
          | Some _ =>
              Wait (Look (fun w => if hasHome w then enter else Do (fun _ => extract) (setupHome enter)))
          end)))
    end)).

(** The parent of a fork returns. *)
Definition run (canfork : bool) : prog := if canfork then Ask (fun parent => if parent then Done false else run_job) else run_job.
End Run.

(** The jobs of a chain, as they are sent to the master; without the package
    none are sent, and the chain stays. *)
Definition subjob_job (content : list Z) (quid : nat -> list Z) (c : Chain) (i : nat) (s : Subjob) : ProcessJob :=
  mk_ProcessJob (s_name s) (i32 (Z.of_nat i)) (quid i) PARTITION content (s_data s) (i32 (Z.of_nat i))
    (i32 (Z.of_nat (length (subjobList c)))) (parentQuid c).
Definition prospect (quid : nat -> list Z) (name : list Z) (w : world) : list ProcessJob * world :=
  match chain w with
  | None => ([], w)
  | Some c =>
      match package_files w !! name with
      | None => ([], w)
      | Some content => (imap (subjob_job content quid c) (subjobList c), with_chain None w)
      end
  end.

(** What is done when a run has returned [r]: [init] goes on to the subjobs of
    any job it has recovered, [prepareJob] only if it forks. *)
Inductive caller := Init | PrepareJob (jobfork : bool).
Definition canfork_of (by_ : caller) : bool := match by_ with Init => false | PrepareJob jobfork => jobfork end.
Definition after_run (by_ : caller) (r : bool) (quid : nat -> list Z) (name : list Z) (w : world) : list ProcessJob * world :=
  match by_ with
  | Init => prospect quid name w
  | PrepareJob jobfork => if r && jobfork then prospect quid name w else ([], w)
  end.

Definition dispose (w : world) : world :=
  mk_world ∅ (home w) (environment w) (commands w) (logfile w) (executionLog w) (jobcontrol w) (chain w) (calls w).

(** A new process finds the files of one that died; a new control channel is
    made by each run. *)
Definition reboot (w : world) : world := mk_world (package_files w) (home w) ∅ [] (on_file w) None ControlClient_new None [].

(** [Execute::init] on the log of one job: what [Wal::rollback] runs again. *)
Definition recovery (junk : list Z) (chains : py_chains) (w : world) : option prog :=
  match Wal.rollback (logfile w) (fun m => bool_decide (is_Some (package_files w !! m))) junk with
  | Some (Wal.Recovered name param) => Some (run name param chains false)
  | _ => None
  end.

(** ** Crash conditions

    [I] holds at every step of a program, as the last one may be any of them,
    [Q] where it is done and [A] where it is aborted. *)
Definition waiting (w w' : world) : Prop := isLocked w = true /\ w' = with_control (set_state AWAITING) w.

Fixpoint always (I A : world -> Prop) (Q : bool -> world -> Prop) (p : prog) (w : world) : Prop :=
  I w /\
  match p with
  | Done r => Q r w
  | Aborted => A w
  | Do f k => forall t, always I A Q k (f t w)
  | Ask k => forall b, always I A Q (k b) w
  | Look k => always I A Q (k w) w
  | Wait k => (forall w', rtc waiting w w' -> I w') /\ (isLocked w = false -> always I A Q k w)
  | Join k => always I A Q k w
  end.

Lemma always_now I A Q p w : always I A Q p w -> I w.
Proof. by destruct p; intros [H _]. Qed.

Lemma always_step I A Q p w p' w' : always I A Q p w -> run_step (p, w) (p', w') -> always I A Q p' w'.
Proof.
  intros H Hs. remember (p, w) as a eqn:Ea. remember (p', w') as b eqn:Eb.
  destruct Hs as [f k w1 t|k w1 b1|k w1|k w1 Hl|k w1 Hl|k w1]; injection Ea as <- ->; injection Eb as <- <-; cbn [always] in *.
  - by destruct H as [_ H].
  - by destruct H as [_ H].
  - by destruct H as [_ H].
  - destruct H as (_ & H & _). assert (Hw : waiting w (with_control (set_state AWAITING) w)) by done.
    split; [apply H; by eapply rtc_l|]. split; [intros w' Hr; apply H; by eapply rtc_l|]. intros Hf.
    change (isLocked w = false) in Hf. congruence.
  - destruct H as (_ & _ & H). by apply H.
  - by destruct H as [_ H].
Qed.

Lemma always_run I A Q p w p' w' : always I A Q p w -> rtc run_step (p, w) (p', w') -> always I A Q p' w'.
Proof.
  intros H Hr. remember (p, w) as a eqn:Ea. remember (p', w') as b eqn:Eb. revert p w Ea H.
  induction Hr as [a|a [p1 w1] b Hs _ IH]; intros p w -> H.
  - by injection Eb as -> ->.
  - eapply IH; [done..|]. by eapply always_step.
Qed.

(** ** What a run does *)
Section Runs.
Context (name : list Z) (param : Wal.parameter) (chains : py_chains).
Context (Hm : Wal.module_ok name) (Hp : Wal.param_ok param).

Definition once : bool :=
  match chains with
  | Chains l _ => (Wal.jobstate param =? Wal.FUNNEL) || ((Wal.jobstate param =? Wal.SPAWN) && (length l =? 0)%nat)
  | _ => false
  end.
(** The calls into Python, in order. *)
Definition protocol : list call :=
  [DecodeLocale; Import; NewConfig; NewCallback; NewDB; FindClass; NewInit; FindInvoke; NewJob; SetCfg; SetIpc; SetDb; Inject; UpdateStatus] ++
  (if Wal.jobstate param =? Wal.SPAWN then [SetupOnce] else []) ++ [Setup; Run; Teardown] ++ (if once then [TeardownOnce] else []).

(** The chain a run makes. *)
Definition items_of : list py_chain := match chains with Chains l later => if once then later else l | _ => [] end.
Definition made (c : Chain) : Prop :=
  pull items_of (setParentName (Wal.jobname param) (Chain_new (Wal.jobquid param))) = Some c.

Definition text (c t : Z) : list Z := Wal.pageHeader name param c false t ++ Wal.jobname param.

(** The log is open at checkpoint [c]; its file lags behind. *)
Record logging (c : Z) (w : world) : Prop := {
  lg_ok : Wal.checkpoint_ok c;
  lg_open : exists l, executionLog w = Some l /\ Wal.holds l name param c false /\ Wal.checkpoint l = c /\
    (Wal.fits param -> Wal.on_disk l = [] \/ exists c0 t0, Wal.checkpoint_ok c0 /\ Wal.on_disk l = text c0 t0);
}.

Definition refused (file : option (list Z)) : Prop := forall cached junk m p, Wal.rollback file cached junk <> Some (Wal.Recovered m p).
(** The log says that the job is done, once it is written out. *)
Definition over (w : world) : Prop :=
  exists l, executionLog w = Some l /\ forall cached junk, Wal.rollback (Some (Wal.Wal_delete l)) cached junk = Some Wal.Removed.

Definition safe (w : world) : Prop :=
  calls w `prefix_of` protocol /\
  (Wal.fits param -> refused (on_file w) \/
   (exists c t, Wal.checkpoint_ok c /\ on_file w = Some (text c t)) /\ ((writable = true -> isLocked w = true) \/ over w)).

Definition ended (ch : option Chain) (r : bool) (w : world) : Prop :=
  (chain w = ch \/ exists c, made c /\ chain w = Some c) /\
  (r = true ->
    (forall cached junk, Wal.rollback (on_file w) cached junk = Some Wal.Removed) /\
    (writable = true -> isLocked w = false) /\ _state (jobcontrol w) = A_IDLE /\ Inject ∈ calls w).

Lemma refused_empty : refused (Some []).
Proof. intros cached junk m p. by vm_compute. Qed.

(** Between the lock and the end. *)
Record inside (ch : option Chain) (w : world) : Prop := {
  in_log : exists c, logging c w;
  in_lock : writable = true -> isLocked w = true;
  in_chain : chain w = ch \/ exists c, made c /\ chain w = Some c;
}.

Lemma inside_safe ch w rest : inside ch w -> calls w ++ rest = protocol -> safe w.
Proof.
  intros [[c [_ (l & E & _ & _ & Hd)]] Hl _] Hc. split; [by exists rest|]. intros Hf. unfold on_file. rewrite E.
  destruct (Hd Hf) as [->|(c0 & t0 & Hok & ->)]; [left; apply refused_empty|right]. split; [by exists c0, t0|by left].
Qed.

Lemma inside_checkpoint ch w c t : Wal.checkpoint_ok c -> inside ch w -> inside ch (with_log (Wal.setCheckpoint c t) w).
Proof.
  intros Hc [[c1 [Hok (l & E & Hh & Ec & Hd)]] Hl Hch]. split; [|done|done]. exists c. split; [done|].
  unfold with_log. cbn [executionLog]. rewrite E. eexists. split; [reflexivity|]. pose proof Hh as (Em & Ep & t1 & Ef).
  destruct (Wal.commit_run (Wal.mk_wal (Wal.m_pFile l) (Wal.on_disk l) (Wal.module l) (Wal.jobparameters l) c) name param c c1 false t)
    as [H1 H2]; [right; split; [done|]; split; [done|]; by exists t1|done..|].
  split; [exact H1|]. split; [done|]. intros Hf. right. exists c1, t1. split; [done|]. unfold Wal.setCheckpoint. rewrite (H2 Hf). exact Ef.
Qed.

Lemma inside_same ch w w' :
  executionLog w' = executionLog w -> isLocked w' = isLocked w -> chain w' = chain w -> inside ch w -> inside ch w'.
Proof.
  intros E1 E2 E3 [[c [H1 H2]] H3 H4]. split; [exists c; split; [done|by rewrite E1]|by rewrite E2|by rewrite E3].
Qed.

Notation alw ch := (always safe (fun _ => True) (ended ch)).

(** With [rest] of the calls to come; [j]: the job has been started. *)
Record stage (j : bool) (ch : option Chain) (rest : list call) (w : world) : Prop := {
  st_inside : inside ch w;
  st_rest : calls w ++ rest = protocol;
  st_inject : j = true -> Inject ∈ calls w;
}.

Lemma stage_safe j ch rest w : stage j ch rest w -> safe w.
Proof. intros [H1 H2 _]. by eapply inside_safe. Qed.

Lemma stage_same j ch rest w w' :
  executionLog w' = executionLog w -> isLocked w' = isLocked w -> chain w' = chain w -> calls w' = calls w ->
  stage j ch rest w -> stage j ch rest w'.
Proof. intros E1 E2 E3 E4 [H1 H2 H3]. split; [by apply (inside_same ch w)|by rewrite E4|by rewrite E4]. Qed.

Lemma always_do j ch f k w rest :
  stage j ch rest w -> (forall t, stage j ch rest (f t w)) -> (forall w', stage j ch rest w' -> alw ch k w') -> alw ch (Do f k) w.
Proof. intros Hs Hf Hk. split; [by eapply stage_safe|]. intros t. by apply Hk. Qed.

Lemma always_checkpoint j ch c k w rest :
  Wal.checkpoint_ok c -> stage j ch rest w -> (forall w', stage j ch rest w' -> alw ch k w') -> alw ch (checkpoint c k) w.
Proof.
  intros Hc Hs Hk. apply (always_do j ch _ _ _ rest); [done| |done]. intros t. destruct Hs as [H1 H2 H3].
  split; [by apply inside_checkpoint|done|done].
Qed.

Lemma always_control j ch f k w rest :
  stage j ch rest w -> (forall w', stage j ch rest w' -> alw ch k w') -> alw ch (control_ f k) w.
Proof. intros Hs Hk. apply (always_do j ch _ _ _ rest); [done| |done]. intros t. by apply (stage_same j ch rest w). Qed.

(** What is behind [py_failed] closes the log and takes the lock away. *)
Lemma always_py_failed ch w rest : stage true ch rest w -> alw ch (py_failed param) w.
Proof.
  intros [Hi Hr Hin]. specialize (Hin eq_refl). split; [by eapply inside_safe|]. intros t. destruct Hi as [[c [Hok (l & E & Hh & Ec & Hd)]] Hl Hch].
  destruct (Wal.commit_run l name param c c true t) as [(Em & Ep & t1 & Ef) Ed]; [by right|apply Hh|apply Hh|done|].
  fold (Wal.markDone t l) in Em, Ep, Ef, Ed. set (l' := Wal.markDone t l) in *. pose proof Hh as (_ & _ & t0 & E0).
  assert (Hrem : forall cached junk, Wal.rollback (Some (Wal.Wal_delete l')) cached junk = Some Wal.Removed).
  { intros cached junk. unfold Wal.Wal_delete. by rewrite Ef, Wal.rollback_run. }
  assert (Hsafe : forall w', executionLog w' = Some l' -> calls w' = calls w -> safe w').
  { intros w' E' Ec'. split; [rewrite Ec'; by exists rest|]. intros Hf. right. split; [|right; by exists l'].
    exists c, t0. split; [done|]. unfold on_file. by rewrite E', (Ed Hf), E0. }
  assert (E1 : executionLog (with_log (Wal.markDone t) w) = Some l') by (unfold with_log; cbn [executionLog]; by rewrite E).
  split; [by apply Hsafe|]. intros t2. split; [by apply Hsafe|]. intros _. split; [by apply Hsafe|]. split; [by apply Hsafe|]. intros _. cbn [always].
  set (w3 := with_control setStateIdle _). assert (E3 : executionLog w3 = Some l') by exact E1.
  assert (Hu : writable = true -> isLocked (close_log w3) = false).
  { assert (Eh : exists h : files, home (close_log w3) = if writable then delete MXLOCK h else h) by (by eexists).
    destruct Eh as [h Eh]. intros Hw. unfold isLocked. apply bool_decide_eq_false. rewrite Eh, Hw, lookup_delete_eq. by intros [? ?]. }
  assert (Ef3 : on_file (close_log w3) = Some (Wal.Wal_delete l')) by (unfold on_file, close_log; cbn [executionLog logfile]; by rewrite E3).
  split; [split; [by exists rest|intros _; left; intros cached junk m p; by rewrite Ef3, Hrem]|]. split; [exact Hch|]. intros _.
  rewrite Ef3. by split_and!.
Qed.

Lemma always_failed ch w rest : stage true ch rest w -> alw ch (failed param) w.
Proof. intros Hs. apply (always_control true ch _ _ _ rest); [done|]. intros w'. apply always_py_failed. Qed.

Lemma stage_called j j' ch c rest w : stage j ch (c :: rest) w -> (j' = true -> j = true \/ c = Inject) -> stage j' ch rest (called c w).
Proof.
  intros [H1 H2 H3] Hj. split; [by apply (inside_same ch w)| |]; cbn [called calls].
  - by rewrite <- app_assoc.
  - intros E. apply elem_of_app. destruct (Hj E) as [->| ->]; [left; by apply H3|right; by apply list_elem_of_singleton].
Qed.

Lemma always_checked ch c k w rest :
  stage false ch (c :: rest) w -> (forall w', stage false ch rest w' -> alw ch k w') -> alw ch (checked c k) w.
Proof.
  intros Hs Hk. split; [by eapply stage_safe|]. intros _. assert (H : stage false ch rest (called c w)) by by eapply stage_called.
  split; [by eapply stage_safe|]. intros []; [by apply Hk|]. split; [by eapply stage_safe|done].
Qed.

Lemma always_tried j ch c k w rest :
  j = true \/ c = Inject -> stage j ch (c :: rest) w -> (forall w', stage true ch rest w' -> alw ch k w') -> alw ch (tried param c k) w.
Proof.
  intros Hj Hs Hk. split; [by eapply stage_safe|]. intros _. assert (H : stage true ch rest (called c w)) by by eapply stage_called.
  split; [by eapply stage_safe|]. intros []; [by apply Hk|by eapply always_failed].
Qed.

(** A step of the program is taken with the lemma for it. *)
Ltac checkpoint_ok := split; by vm_compute.
Ltac walk Hs :=
  lazymatch goal with
  | |- always _ _ _ (checkpoint _ _) ?w => eapply always_checkpoint; [checkpoint_ok|exact Hs|clear Hs; clear w; intros w Hs]
  | |- always _ _ _ (control_ _ _) ?w => eapply always_control; [exact Hs|clear Hs; clear w; intros w Hs]
  | |- always _ _ _ (tried _ _ _) ?w => eapply always_tried; [|exact Hs|]; [first [by left|by right]|clear Hs; clear w; intros w Hs]
  | |- always _ _ _ (checked _ _) ?w => eapply always_checked; [exact Hs|clear Hs; clear w; intros w Hs]
  end.

Lemma always_chain ch k w :
  stage true ch (if once then [TeardownOnce] else []) w -> (forall w', stage true ch [] w' -> alw ch k w') ->
  alw ch (pull_chain param chains k) w.
Proof.
  unfold pull_chain, once. intros Hs Hk. destruct chains as [| |l later] eqn:El; [by eapply always_failed..|].
  cbv zeta. set (on := _ || _) in *. set (l' := if on then later else l) in *.
  assert (Hrest : forall w', stage true ch [] w' -> alw ch (if (0 <? length l')%nat
    then match pull l' (setParentName (Wal.jobname param) (Chain_new (Wal.jobquid param))) with
         | Some c => Do (fun _ => with_chain (Some c)) (checkpoint Wal.PULLCHAIN k) | None => Aborted end
    else checkpoint Wal.PULLCHAIN k) w').
  { clear w Hs. intros w Hs. assert (Hck : forall w', stage true ch [] w' -> alw ch (checkpoint Wal.PULLCHAIN k) w').
    { intros w2 H2. walk H2. by apply Hk. }
    destruct (0 <? length l')%nat; [|by apply Hck]. destruct (pull l' _) as [c|] eqn:Ec; [|split; [by eapply stage_safe|done]].
    apply (always_do true ch _ _ _ []); [done| |done]. intros _. destruct Hs as [[H1 H2 H3] H4 H5].
    split; [|done|done]. split; [by destruct H1 as [c1 [H6 H7]]; exists c1|done|]. right. exists c. split; [|done]. unfold made, items_of, once. rewrite El. exact Ec. }
  destruct on; [|by apply Hrest]. walk Hs. walk Hs. by apply Hrest.
Qed.

Definition calls_of_job : list call :=
  (if Wal.jobstate param =? Wal.SPAWN then [SetupOnce] else []) ++ [Setup; Run; Teardown] ++ (if once then [TeardownOnce] else []).

Lemma always_invoke ch w : stage false ch (Inject :: UpdateStatus :: calls_of_job) w -> alw ch (invoke param chains) w.
Proof.
  intros Hs. unfold invoke. do 3 walk Hs. cbv zeta.
  set (rest := [Setup; Run; Teardown] ++ (if once then [TeardownOnce] else [])).
  set (p := control_ (set_state SETUP) _). assert (Hsetup : forall w, stage true ch rest w -> alw ch p w).
  { clear w Hs. intros w Hs. subst p. do 9 walk Hs. apply always_chain; [exact Hs|]. intros w'. apply always_py_failed. }
  unfold calls_of_job in Hs. fold rest in Hs. destruct (Wal.jobstate param =? Wal.SPAWN); [|by apply Hsetup].
  do 2 walk Hs. by apply Hsetup.
Qed.

Lemma always_load ch w : stage false ch protocol w -> alw ch (load param chains) w.
Proof.
  intros Hs. unfold load. cbn [foldr]. do 2 walk Hs.
  apply (always_do false ch _ _ _ (drop 1 protocol)); [exact Hs|intros _; by apply (stage_same false ch _ w)|]. clear w Hs. intros w Hs.
  do 12 walk Hs. by apply always_invoke.
Qed.

(** In front of the lock nothing of a log that fits the buffer is in its file. *)
Record entering (ch : option Chain) (w : world) : Prop := {
  en_log : logging Wal.NIL w;
  en_file : Wal.fits param -> on_file w = Some [];
  en_chain : chain w = ch;
  en_calls : calls w = [];
}.

Lemma entering_safe ch w : entering ch w -> safe w.
Proof. intros [_ H _ E]. split; [rewrite E; apply prefix_nil|intros Hf; left]. rewrite (H Hf). apply refused_empty. Qed.

Lemma entering_same ch w w' :
  executionLog w' = executionLog w -> chain w' = chain w -> calls w' = calls w -> entering ch w -> entering ch w'.
Proof.
  intros E1 E3 E4 [[H1 H2] H3 H4 H5]. split; [split; [done|by rewrite E1]| |by rewrite E3|by rewrite E4].
  destruct H2 as (l & E & _). intros Hf. specialize (H3 Hf). revert H3. unfold on_file. by rewrite E1, E.
Qed.

Lemma entering_locked ch w : entering ch w -> stage false ch protocol (setLock (jobid_int param) w).
Proof.
  intros [H1 H2 H3 H4]. split; [split|by cbn [setLock with_home calls]; rewrite H4|done].
  - destruct H1 as [H5 H6]. exists Wal.NIL. by split.
  - intros Hw. unfold isLocked, setLock, put, with_home. cbn [home]. rewrite Hw, lookup_insert_eq. apply bool_decide_eq_true. by eexists.
  - by left.
Qed.

Lemma setupEnv_same w h id :
  let w' := setupEnv h id w in
  executionLog w' = executionLog w /\ isLocked w' = isLocked w /\ chain w' = chain w /\ calls w' = calls w.
Proof. cbv zeta. unfold setupEnv. by case_match. Qed.

Lemma always_enter ch w : entering ch w -> alw ch (enter name param chains) w.
Proof.
  intros Hw. split; [by eapply entering_safe|]. intros _. apply entering_locked in Hw. set (w1 := setLock _ w) in *. clearbody w1.
  apply (always_do false ch _ _ _ protocol); [exact Hw|intros _; by apply (stage_same false ch protocol w1); try apply setupEnv_same|].
  clear Hw w1. intros w1 Hw. split; [by eapply stage_safe|].
  assert (Hab : alw ch Aborted w1) by (split; [by eapply stage_safe|done]).
  repeat case_match; try exact Hab. by apply always_load.
Qed.

(** A job that comes to a home that is free, with a log of its own. *)
Record ready (w : world) : Prop := {
  rd_file : refused (on_file w);
  rd_free : isLocked w = false;
  rd_calls : calls w = [];
}.

Lemma ready_safe w : ready w -> safe w.
Proof. intros [H _ E]. split; [rewrite E; apply prefix_nil|by left]. Qed.

Lemma new_log_entering t w : calls w = [] -> entering (chain w) (new_log name param t w).
Proof.
  intros Hc. destruct (Wal.Wal_new_run name param t Hm Hp) as (l & E & Hh & Ek & Ed). split; [|intros Hf; unfold on_file, new_log; cbn [executionLog]; by rewrite E, Ed|done|done].
  split; [by split|]. exists l. split; [exact E|]. split; [done|]. split; [done|]. intros Hf. left. by apply Ed.
Qed.

Lemma always_run_job w : ready w -> alw (chain w) (run_job name param chains) w.
Proof.
  intros Hw. split; [by apply ready_safe|]. intros t. destruct Hw as [_ Hfree Hc].
  pose proof (new_log_entering t w Hc) as He. set (ch := chain w) in *.
  assert (Hf : isLocked (new_log name param t w) = false) by exact Hfree. set (w1 := new_log name param t w) in *. clearbody w1 ch. clear Hc Hfree.
  split; [by eapply entering_safe|]. destruct (executionLog w1) eqn:El; [|split; [by eapply entering_safe|done]]. clear El.
  split; [by eapply entering_safe|]. intros _. apply (entering_same ch _ (with_control (fun _ => setStateAccepted ControlClient_new) w1)) in He; [|done..].
  split; [by eapply entering_safe|]. intros _. apply (entering_same ch _ (with_control (updateStateRunning 0) (with_control (fun _ => setStateAccepted ControlClient_new) w1))) in He; [|done..].
  set (w2 := with_control _ (with_control _ w1)) in *. assert (Hf2 : isLocked w2 = false) by exact Hf. clearbody w2. clear Hf w1.
  split; [by eapply entering_safe|]. destruct (package_files w2 !! name).
  2:{ split; [by eapply entering_safe|]. intros _. apply (entering_same ch _ (with_control setStateIdle w2)) in He; [|done..].
      split; [by eapply entering_safe|done]. }
  split; [by eapply entering_safe|]. split.
  { intros w' Hr. destruct Hr as [|? ? ? [Hb _] _]; [by eapply entering_safe|congruence]. }
  intros _. split; [by eapply entering_safe|]. destruct (hasHome w2); [by apply always_enter|].
  split; [by eapply entering_safe|]. intros _. apply (entering_same ch _ (extract name w2)) in He; [|done..].
  unfold setupHome. destruct writable eqn:Ew; [|split; [by eapply entering_safe|done]].
  split; [by eapply entering_safe|]. intros _. apply always_enter. by apply (entering_same ch (extract name w2)).
Qed.

Lemma always_execution w canfork p w' :
  ready w -> rtc run_step (run name param chains canfork, w) (p, w') -> alw (chain w) p w'.
Proof.
  intros Hw Hr. assert (H : alw (chain w) (run name param chains canfork) w).
  { destruct canfork; [|by apply always_run_job]. split; [by apply ready_safe|]. intros []; [|by apply always_run_job].
    split; [by apply ready_safe|]. split; [by left|done]. }
  by eapply always_run.
Qed.

(** C13: Every execution of a run is a part of its protocol with Python, each call
    once and in order.  Wherever it ends, its log, if it fits the buffer of its
    stream, is either not taken for one to recover, or the job's parameters are
    in it, and then the home is still locked or the log is about to say that
    the job is done.  When the run is
    done its log says so, the lock is gone, the worker is idle, the package's
    job was started, and the chain is the one of the package, if any. *)
Theorem run_contract w canfork p w' :
  ready w -> rtc run_step (run name param chains canfork, w) (p, w') ->
  safe w' /\ forall r, p = Done r -> ended (chain w) r w'.
Proof.
  intros Hw Hr. apply always_execution in Hr; [|done]. split; [by eapply always_now|]. by intros r ->; apply Hr.
Qed.

(** ** A run in a locked home never comes to its job *)
Definition stuck (w0 w : world) : Prop := isLocked w = true /\ calls w = [] /\ (w = w0 \/ refused (on_file w)).

Lemma locked_waits q chs w0 :
  (forall t, exists l, Wal.Wal_new name q t = Some l /\ Wal.on_disk l = []) -> isLocked w0 = true -> calls w0 = [] -> is_Some (package_files w0 !! name) ->
  always (stuck w0) (fun _ => False) (fun _ _ => False) (run_job name q chs) w0.
Proof.
  intros Hn Hl Hc [content Hk]. split; [split_and!; [done..|by left]|]. intros t. destruct (Hn t) as (l & E & Hd).
  assert (Hs : forall f, stuck w0 (with_control f (new_log name q t w0))).
  { intros f. split_and!; [done..|]. right. unfold on_file, with_control, new_log. cbn [executionLog]. rewrite E, Hd. apply refused_empty. }
  set (w1 := new_log name q t w0) in *. assert (H1 : stuck w0 w1) by (apply (Hs id)).
  assert (E1 : executionLog w1 = Some l) by exact E. assert (Hk1 : package_files w1 !! name = Some content) by exact Hk. clearbody w1.
  split; [done|]. rewrite E1. split; [done|]. intros _. split; [apply Hs|]. intros _. split; [apply (Hs (fun _ => updateStateRunning 0 (setStateAccepted ControlClient_new)))|].
  set (w2 := with_control (updateStateRunning 0) _). assert (Hk2 : package_files w2 !! name = Some content) by exact Hk1. rewrite Hk2.
  assert (H2 : forall w', rtc waiting w2 w' -> exists f, w' = with_control f w1).
  { intros w' Hr. assert (Hf : exists f, w2 = with_control f w1) by (by exists (fun _ => updateStateRunning 0 (setStateAccepted ControlClient_new))).
    clearbody w2. clear Hk2. induction Hr as [w2|w2 w3 w4 [_ ->] _ IH]; [done|]. apply IH. destruct Hf as [f ->]. by exists (fun c => set_state AWAITING (f c)). }
  split; [by destruct (H2 w2) as [f ->]|]. split; [intros w' Hr; by destruct (H2 w' Hr) as [f ->]|].
  intros Hf. destruct H1 as [H1 _]. change (isLocked w1 = false) in Hf. congruence.
Qed.

Lemma refused_recovery junk chs w : refused (on_file w) -> recovery junk chs (reboot w) = None.
Proof. intros H. unfold recovery. cbn [reboot logfile]. repeat case_match; try done. by destruct (H _ _ _ _ H0). Qed.

Lemma text_recovery junk chs w c t p :
  Wal.checkpoint_ok c -> on_file w = Some (text c t) -> recovery junk chs (reboot w) = Some p ->
  p = run_job name (Wal.logged param) chs /\ is_Some (package_files w !! name).
Proof.
  intros Hc E. unfold recovery. cbn [reboot logfile package_files]. rewrite E. unfold text. rewrite Wal.rollback_run by done.
  unfold Wal.verdict. case_bool_decide; [|done]. by intros [= <-].
Qed.

(** C14: The lock outlives the worker: when one dies in a run whose log fits the
    buffer of its stream, at whatever point, and its job is recovered by the
    next - unless the job was over - the next
    worker waits for the lock that the dead one has left, does not come to the
    job, and empties its log: it is not recovered another time. *)
Theorem recovery_waits w canfork p w' junk chs p2 :
  writable = true -> Wal.fits param -> ready w -> rtc run_step (run name param chains canfork, w) (p, w') ->
  recovery junk chs (reboot w') = Some p2 ->
  over w' \/
  forall p3 w3, rtc run_step (p2, reboot w') (p3, w3) ->
    p3 <> Aborted /\ (forall r, p3 <> Done r) /\ calls w3 = [] /\ isLocked w3 = true /\
    (w3 = reboot w' \/ forall junk chs, recovery junk chs (reboot w3) = None).
Proof.
  intros Hwr Hfit Hw Hr Hrec. pose proof (always_now _ _ _ _ _ (always_execution w canfork p w' Hw Hr)) as [_ Hs].
  specialize (Hs Hfit). destruct Hs as [Hs|[(c & t & Hc & E) [Hl|Hov]]]; [by rewrite refused_recovery in Hrec| |by left]. right.
  destruct (text_recovery junk chs w' c t p2 Hc E Hrec) as [-> Hk]. intros p3 w3 Hr3.
  pose proof (locked_waits (Wal.logged param) chs (reboot w')) as H.
  assert (Hn : forall t, exists l, Wal.Wal_new name (Wal.logged param) t = Some l /\ Wal.on_disk l = []).
  { intros t0. destruct (Wal.Wal_new_run name (Wal.logged param) t0 Hm (proj1 (Wal.logged_ok _ Hp))) as (l & El & _ & _ & Hd). exists l. split; [done|by apply Hd]. }
  specialize (H Hn (Hl Hwr) eq_refl Hk). pose proof (always_run _ _ _ _ _ _ _ H Hr3) as H3.
  destruct (always_now _ _ _ _ _ H3) as (H4 & H5 & H6).
  split; [intros ->; apply H3|]. split; [intros r ->; apply H3|]. split; [done|]. split; [done|].
  destruct H6 as [H6|H6]; [by left|right]. intros junk' chs'. by apply refused_recovery.
Qed.
End Runs.

(** ** Subjobs *)
Definition subs (x : py_chain) : list Subjob := match x with Subjobs xs => omap subjob_of xs | _ => [] end.

Lemma chain_adds c xs : foldl add c xs = mk_Chain (parentQuid c) (parentName c) (subjobList c ++ xs).
Proof.
  revert c. induction xs as [|x xs IH]; intros c; cbn [foldl]; [by rewrite app_nil_r; destruct c|].
  rewrite IH. cbn [add parentQuid parentName subjobList]. by rewrite <- app_assoc.
Qed.

Lemma pull_run l c c' : pull l c = Some c' -> c' = mk_Chain (parentQuid c) (parentName c) (subjobList c ++ (l ≫= subs)).
Proof.
  revert c. induction l as [|[| |xs] l IH]; intros c; cbn [pull]; [intros [= <-]; cbn; rewrite app_nil_r; by destruct c|done|apply IH|].
  intros H. rewrite (IH _ H), chain_adds. cbn [parentQuid parentName subjobList]. by rewrite <- app_assoc.
Qed.

Context (serialize : ProcessJob -> list Z) (parse : list Z -> ProcessJob).
Context (serialize_control : ControlMessage -> list Z) (parse_control : list Z -> ControlMessage).
Context (Hserialize : forall j, serialize j <> []) (Hparse : forall j, parse (serialize j) = j).

(** What the [i]-th of [n] subjobs is run with. *)
Definition subjob_param (counter : Z) (quid : nat -> list Z) (parent : list Z) (n i : nat) (s : Subjob) : Wal.parameter :=
  Wal.mk_param (u32 (counter + Z.of_nat i)) (Z.of_nat i) (Z.of_nat n) (s_name s) (quid i) parent (s_data s) Wal.PARTITION.

Lemma u32_i32 x : u32 (i32 x) = u32 x.
Proof. unfold u32, i32. Z.div_mod_to_equations. lia. Qed.

Lemma subjob_prepared files content quid c i s counter :
  Forall byte_ok content -> Z.of_nat (length content) < 2 ^ 61 -> named files -> (i < length (subjobList c))%nat ->
  Z.of_nat (length (subjobList c)) < 2 ^ 31 ->
  exists files', prepareJob parse (serialize (set_id (i32 (u32 (counter + Z.of_nat i))) (subjob_job content quid c i s))) files =
      Some (digest_name content, subjob_param counter quid (parentQuid c) (length (subjobList c)) i s, files') /\
    (exists package, files' !! digest_name content = Some package /\ digest_name package = digest_name content).
Proof.
  intros Hb Hl Hn Hi Hlen. set (job := set_id _ _).
  destruct (package_kept parse (serialize job) files) as (ps & files' & E & _ & _ & _ & Hk & _); rewrite ?Hparse; [done..|].
  rewrite Hparse in E, Hk. exists files'. split; [|exact Hk]. unfold prepareJob in *. rewrite Hparse in *. cbv zeta in *.
  destruct (JobSha1.sha1 (j_content job)); [|done]. cbn [mbind option_bind] in *. injection E as -> _ <-. do 2 f_equal. f_equal.
  unfold subjob_param. subst job. cbn [set_id subjob_job j_id j_partition j_partition_count j_name j_quid j_quid_parent j_data j_state].
  rewrite !u32_i32, (u32_small (u32 _)) by apply u32_range. rewrite (u32_small (Z.of_nat i)), (u32_small (Z.of_nat (length _))) by lia. done.
Qed.

(** C12: From a package to the workers: the subjobs that the package of a job made
    are sent when its run is done - by a worker that forks for its jobs, or
    one that recovers the job when it starts - and with a master without jobs
    each is given to one of the workers that ask, which runs the same package
    on the subjob's data, as its part of the parent job; and the chain is gone. *)
Theorem subjobs_reach_workers name param chains w by_ w' c content quid m :
  Wal.module_ok name -> Wal.param_ok param -> ready w -> chain w = None ->
  by_ <> PrepareJob false ->
  rtc run_step (run name param chains (canfork_of by_), w) (Done true, w') -> chain w' = Some c ->
  package_files w' !! name = Some content -> name = digest_name content -> Forall byte_ok content -> Z.of_nat (length content) < 2 ^ 61 ->
  let items := items_of param chains in Z.of_nat (length (items ≫= subs)) < 2 ^ 31 -> 0 <= counter m < 2 ^ 32 -> jobqueue m = [] ->
  let n := length (items ≫= subs) in
  let '(js, w1) := after_run by_ true quid name w' in
  let '(l, m') := serve serialize parse serialize_control parse_control ((Job <$> (serialize <$> js)) ++ replicate n (Worker [])) m in
  chain w1 = None /\ jobqueue m' = [] /\ length (omap job_given l) = n /\
  forall i s message, (items ≫= subs) !! i = Some s -> omap job_given l !! i = Some message ->
    forall files, named files -> exists files',
      prepareJob parse message files = Some (name, subjob_param (counter m) quid (Wal.jobquid param) n i s, files') /\
      (exists package, files' !! name = Some package /\ digest_name package = name).
Proof.
  intros Hm Hp Hw Hch Hby Hr Hc Hk Hname Hb Hl items Hlen Hcm Hq n.
  pose proof (always_execution name param chains Hm Hp w _ _ _ Hw Hr) as [_ He].
  destruct He as [[E|(c' & Hpull & E)] _]; [congruence|].
  rewrite Hc in E. injection E as <-. unfold made in Hpull. fold items in Hpull. apply pull_run in Hpull. cbn [setParentName Chain_new parentQuid parentName subjobList app] in Hpull.
  assert (Ea : after_run by_ true quid name w' = prospect quid name w') by (by destruct by_ as [|[]]).
  rewrite Ea. unfold prospect. rewrite Hc, Hk. set (js := imap _ _).
  assert (Hn : length js = n) by (subst js n; by rewrite length_imap, Hpull).
  pose proof (jobs_given serialize parse serialize_control parse_control Hserialize Hparse js m Hcm Hq) as H. rewrite Hn in H.
  destruct (serve _ _ _ _ _ m) as [l m']. destruct H as [Hg Hq']. split; [done|]. split; [done|].
  split; [by rewrite Hg, length_fmap, numbered_jobs_length|].
  intros i s message Hs Hmsg files Hf. rewrite Hg, list_lookup_fmap, numbered_jobs_lookup in Hmsg. subst js.
  rewrite list_lookup_imap in Hmsg. rewrite Hpull in Hmsg at 2. cbn [subjobList] in Hmsg. rewrite Hs in Hmsg. injection Hmsg as <-.
  apply lookup_lt_Some in Hs as Hi.
  destruct (subjob_prepared files content quid c i s (counter m)) as (files' & E' & Hk'); [done|done|done|by rewrite Hpull|by rewrite Hpull|].
  exists files'. rewrite Hname in *. split; [|exact Hk']. rewrite E'. do 3 f_equal. rewrite Hpull. done.
Qed.

(** With --nofork the subjobs stay with the worker. *)
Lemma nofork_keeps_chain r quid name w : after_run (PrepareJob false) r quid name w = ([], w).
Proof. unfold after_run. by rewrite andb_false_r. Qed.

(** A worker's heartbeat tells it how many jobs wait at the master. *)
Lemma beat_answered jobid quid c msg m :
  (forall x, parse_control (serialize_control x) = x) -> Z.of_nat (length (jobqueue m)) < 2 ^ 32 ->
  let answer := fst (handleWokerController serialize_control parse_control (serialize_control (beat workerid jobid quid c msg)) m) in
  heard (parse_control answer) c = mk_control (_state c) (_progress c) (_timeout c) (Z.of_nat (length (jobqueue m))).
Proof.
  intros Hc Hl. unfold handleWokerController, heard. cbn [fst]. rewrite !Hc. cbn [Jobs.runTask beat cluster_jobs].
  by rewrite u32_i32, u32_small by lia.
Qed.

(** ** The worker's loop (initSlave)

    An empty reply is no job; every once in a while the packages are removed,
    if the count of jobs is hit exactly when there is none to do. *)
Inductive deed := Dispose | Prepare (message : list Z).
Definition slave_round (reply : list Z) (cache_counter : Z) : list deed * Z :=
  match reply with
  | [] => if cache_counter =? 100 then ([Dispose], 0) else ([], cache_counter)
  | _ => ([Prepare reply], u32 (cache_counter + 1))
  end.
Fixpoint slave (replies : list (list Z)) (cache_counter : Z) : list deed * Z :=
  match replies with
  | [] => ([], cache_counter)
  | r :: replies => let '(l, n) := slave_round r cache_counter in let '(l', n) := slave replies n in (l ++ l', n)
  end.

Lemma slave_app r1 r2 n : slave (r1 ++ r2) n = let '(l1, n1) := slave r1 n in let '(l2, n2) := slave r2 n1 in (l1 ++ l2, n2).
Proof.
  revert n. induction r1 as [|r r1 IH]; intros n; cbn [slave app]; [by destruct (slave r2 n)|].
  destruct (slave_round r n) as [l n1]. rewrite IH. destruct (slave r1 n1) as [l1 n2], (slave r2 n2) as [l2 n3]. by rewrite app_assoc.
Qed.

Lemma slave_jobs rs n : Forall (fun r => r <> []) rs -> 0 <= n -> n + Z.of_nat (length rs) < 2 ^ 32 ->
  slave rs n = (Prepare <$> rs, n + Z.of_nat (length rs)).
Proof.
  intros Hr. revert n. induction Hr as [|r rs Hr _ IH]; intros n Hn Hl; cbn [slave length fmap list_fmap]; [by rewrite Z.add_0_r|].
  destruct r as [|x r]; [done|]. cbn [slave_round length] in *. rewrite u32_small, IH by lia. cbn [app]. f_equal. lia.
Qed.

(** With more than a hundred jobs between two pauses the packages are kept. *)
Lemma dispose_missed rs k :
  Forall (fun r => r <> []) rs -> 100 < Z.of_nat (length rs) < 2 ^ 32 -> fst (slave (rs ++ replicate k []) 0) = Prepare <$> rs.
Proof.
  intros Hr Hl. rewrite slave_app, slave_jobs by (done || lia).
  assert (H : forall n, n <> 100 -> slave (replicate k []) n = ([], n)).
  { intros n Hn. induction k as [|k IH]; [done|]. cbn [replicate slave slave_round]. rewrite (proj2 (Z.eqb_neq n 100)), IH by done. done. }
  rewrite H by lia. cbn [fst]. apply app_nil_r.
Qed.

(** ** A player, in which Python agrees to everything *)
Definition next (c : prog * world) : prog * world :=
  let '(p, w) := c in
  match p with
  | Done _ | Aborted => c
  | Do f k => (k, f 0 w)
  | Ask k => (k true, w)
  | Look k => (k w, w)
  | Wait k => if isLocked w then (Wait k, with_control (set_state AWAITING) w) else (k, w)
  | Join k => (k, w)
  end.

Lemma next_run n c : rtc run_step c (Nat.iter n next c).
Proof.
  assert (H : forall c, rtc run_step c (next c)).
  { intros [p w]. destruct p as [r| |f k|k|k|k|k]; cbn [next]; [done|done|apply rtc_once; constructor..| |apply rtc_once; constructor].
    destruct (isLocked w) eqn:E; apply rtc_once; by constructor. }
  induction n as [|n IH]; [done|]. etransitivity; [exact IH|apply H].
Qed.
End Runner.

(** ** A package with one subjob *)
Definition demo_content : list Z := [1; 2; 3].
Definition demo_name : list Z := digest_name demo_content.
Definition demo_job : Wal.parameter := Wal.mk_param 7 0 0 (bs "job") (replicate 36 97) [] [] Wal.SPAWN.
Definition demo_items : list py_chain := [Subjobs [mk_py_subjob (Some (Some (bs "part"))) (Some (Bytes [1; 2]))]].
Definition demo_world : world := mk_world {[demo_name := demo_content]} ∅ ∅ [] None None ControlClient_new None [].
Definition demo_unpack (_ : list Z) : files := {[bs "package.json" := []]}.
Definition demo_time (_ : Z) : tm := mk_tm 116 0 1 0 0 0.

Notation demo_run := (run 1 true demo_unpack (fun _ => Some tt) (fun _ => true) (fun _ key => Some key) demo_time [] demo_name demo_job
  (Chains demo_items []) false).
Definition demo_after (n : nat) : prog * world := Nat.iter n next (demo_run, demo_world).
Definition demo_end : world := snd (demo_after 100).

Lemma demo_module : Wal.module_ok demo_name.
Proof. split; [by vm_compute|]. apply (bool_decide_unpack _). vm_compute. exact I. Qed.
Lemma demo_job_ok : Wal.param_ok demo_job.
Proof.
  split; [split; [done|]|split; [cbn; lia|]|cbn; lia|by left].
  all: cbn [demo_job Wal.jobquid Wal.jobname].
  all: apply (bool_decide_unpack _); vm_compute; exact I.
Qed.
Lemma demo_job_fits : Wal.fits demo_job.
Proof. unfold Wal.fits. apply Nat.leb_le. vm_compute. reflexivity. Qed.
Lemma demo_world_ready : ready demo_world.
Proof. by split. Qed.
Lemma demo_done : demo_after 100 = (Done true, demo_end).
Proof.
  unfold demo_end. destruct (demo_after 100) as [p w] eqn:E. assert (H : (if fst (demo_after 100) is Done true then true else false) = true) by (vm_compute; reflexivity).
  rewrite E in H. cbn [fst snd] in *. by destruct p as [[]| | | | | |].
Qed.
Lemma demo_runs n p w : demo_after n = (p, w) -> rtc run_step (demo_run, demo_world) (p, w).
Proof. intros <-. apply next_run. Qed.

Lemma run_contract_witness : isLocked demo_end = false /\ _state (jobcontrol demo_end) = A_IDLE /\ Inject ∈ calls demo_end.
Proof.
  destruct (run_contract 1 true demo_unpack (fun _ => Some tt) (fun _ => true) (fun _ key => Some key) demo_time [] demo_name demo_job
    (Chains demo_items []) demo_module demo_job_ok demo_world false _ _ demo_world_ready (demo_runs 100 _ _ demo_done)) as [_ H].
  destruct (H true eq_refl) as [_ H']. destruct (H' eq_refl) as (_ & H1 & H2 & H3). split; [exact (H1 eq_refl)|by split].
Defined.

(** The worker dies after its second checkpoint. *)
Definition demo_dead : world := snd (demo_after 20).
Notation demo_recovery := (recovery 1 true demo_unpack (fun _ => Some tt) (fun _ => true) (fun _ key => Some key) demo_time []).

Lemma recovery_waits_witness :
  exists p2, demo_recovery [] NoChains (reboot demo_dead) = Some p2 /\
    (over demo_dead \/
     forall p3 w3, rtc run_step (p2, reboot demo_dead) (p3, w3) ->
       p3 <> Aborted /\ (forall r, p3 <> Done r) /\ calls w3 = [] /\ isLocked w3 = true /\
       (w3 = reboot demo_dead \/ forall junk chs, demo_recovery junk chs (reboot w3) = None)).
Proof.
  destruct (demo_recovery [] NoChains (reboot demo_dead)) as [p2|] eqn:E.
  - exists p2. split; [reflexivity|].
    exact (recovery_waits 1 true demo_unpack (fun _ => Some tt) (fun _ => true) (fun _ key => Some key) demo_time [] demo_name demo_job
      (Chains demo_items []) demo_module demo_job_ok demo_world false (fst (demo_after 20)) demo_dead [] NoChains p2 eq_refl demo_job_fits demo_world_ready
      (demo_runs 20 _ _ (surjective_pairing _)) E).
  - assert (H : (if demo_recovery [] NoChains (reboot demo_dead) then true else false) = true) by (vm_compute; reflexivity).
    rewrite E in H. discriminate H.
Defined.

Lemma subjobs_reach_workers_witness :
  exists c, chain demo_end = Some c /\
  let '(js, w1) := after_run Init true (fun _ => bs "q") demo_name demo_end in
  let '(l, m') := serve job_bytes bytes_job no_control any_control ((Job <$> (job_bytes <$> js)) ++ replicate 1 (Worker [])) new_master in
  chain w1 = None /\ jobqueue m' = [] /\ length (omap job_given l) = 1%nat.
Proof.
  destruct (chain demo_end) as [c|] eqn:E.
  - exists c. split; [reflexivity|].
    pose proof (subjobs_reach_workers 1 true demo_unpack (fun _ => Some tt) (fun _ => true) (fun _ key => Some key) demo_time []
      job_bytes bytes_job no_control any_control (fun j H => ltac:(discriminate H)) job_codec demo_name demo_job (Chains demo_items []) demo_world Init
      demo_end c demo_content (fun _ => bs "q") new_master demo_module demo_job_ok demo_world_ready eq_refl (fun H => ltac:(discriminate H)) (demo_runs 100 _ _ demo_done) E) as H.
    cbv zeta in H. change (length (items_of demo_job (Chains demo_items []) ≫= subs)) with 1%nat in H.
    destruct (after_run _ _ _ demo_name demo_end) as [js w1]. destruct (serve _ _ _ _ _ new_master) as [l m'].
    destruct H as (H1 & H2 & H3 & _); [vm_compute; reflexivity|reflexivity|by repeat constructor|vm_compute; reflexivity|vm_compute; reflexivity|
      vm_compute; split; congruence|reflexivity|]. split; [exact H1|by split].
  - assert (H : (if chain demo_end then true else false) = true) by (vm_compute; reflexivity). rewrite E in H. discriminate H.
Defined.
End Runner.
